(** * newsbot: the store, the enrichment client, the scraper and the pipeline

    A shallow embedding of the Go packages [store], [ai], [scraper],
    [scheduler] and of the commands of [main.go], followed by the properties
    of the pipeline that the specification states, and of the packages
    [hnpopular], [telegram] and [server], with the properties that the code
    of these packages shows.

    Conventions.
    - Go [int] and [int64] are [Z]; additions on [int] wrap at 64 bits.
    - Go [string] is [string] (a sequence of bytes); a loop over the runes
      of a text reads it as package [unicode/utf8] does.
    - [time.Time] is an instant, represented by its UTC calendar reading; the
      chronological order is the lexicographic order of that reading.
    - SQLite tables are lists of rows in insertion order; a [DATETIME] column
      holds the text that the Go code binds to it. A write fails only on a
      constraint or on more bound variables than the engine takes, a query
      on a selected row whose time the driver cannot read; failures of the
      disk or of the connection are left out. Among rows that are equal in
      the key of an [ORDER BY] the engine chooses the order.
    - The outside world (clock, model backend, web, Telegram, the HN list)
      is an [Environment] of oracles; a command is a function from a [World]
      to an outcome, the events it produced and the next [World]. *)

From Stdlib Require Import ZArith List String Ascii Bool Lia.
From Stdlib Require Import Sorting.Sorted Sorting.Permutation.
Import ListNotations.

Open Scope string_scope.
Open Scope Z_scope.

(* ================================================================== *)
(** ** Go integers *)

(** Two's complement wrap-around of a 64-bit signed integer. *)
Definition wrap64 (z : Z) : Z := (z + 2 ^ 63) mod 2 ^ 64 - 2 ^ 63.

(** [a + b] on Go's [int] (64 bits on every platform the bot is built for). *)
Definition int_add (a b : Z) : Z := wrap64 (a + b).

Definition in_int64 (z : Z) : Prop := - 2 ^ 63 <= z < 2 ^ 63.

(* ================================================================== *)
(** ** Strings *)

(** The decimal digit character of [d], for [0 <= d < 10]. *)
Definition digit (d : Z) : ascii := ascii_of_N (48 + Z.to_N d).

(** The decimal digits of [u >= 0], most significant first, pushed in front
    of [acc]. [fuel] bounds the number of digits (20 is enough for 64 bits). *)
Fixpoint digits_onto (fuel : nat) (u : Z) (acc : string) : string :=
  match fuel with
  | O => acc
  | S f =>
      if u <? 10 then String (digit u) acc
      else digits_onto f (u / 10) (String (digit (u mod 10)) acc)
  end.

Fixpoint zeros (n : nat) : string :=
  match n with
  | O => EmptyString
  | S k => String "0"%char (zeros k)
  end.

(** [time.appendInt]: the decimal text of [x], zero-padded on the left to at
    least [width] digits, with a leading minus sign when [x] is negative. *)
Definition appendInt (x : Z) (width : nat) : string :=
  let u := Z.abs x in
  let ds := digits_onto 20 u EmptyString in
  let body := zeros (Nat.sub width (String.length ds)) ++ ds in
  if x <? 0 then String "-"%char body else body.

(** [strings.ReplaceAll s old new] for a non-empty [old]. [fuel] bounds the
    number of positions examined; [String.length s] is enough. *)
Fixpoint replaceAll_fuel (fuel : nat) (s old new : string) : string :=
  match fuel with
  | O => s
  | S f =>
      match s with
      | EmptyString => EmptyString
      | String c rest =>
          if String.prefix old s
          then new ++ replaceAll_fuel f
                 (String.substring (String.length old)
                    (Nat.sub (String.length s) (String.length old)) s) old new
          else String c (replaceAll_fuel f rest old new)
      end
  end.

Definition strings_ReplaceAll (s old new : string) : string :=
  replaceAll_fuel (String.length s) s old new.

(** [strings.Join]. *)
Definition strings_Join (l : list string) (sep : string) : string :=
  String.concat sep l.

(* ================================================================== *)
(** ** package unicode/utf8 *)

(** A byte of a text as a number, and back. *)
Definition byte_value (c : ascii) : Z := Z.of_N (N_of_ascii c).
Definition byte_char (b : Z) : ascii := ascii_of_N (Z.to_N b).

(** U+FFFD, which stands for an encoding error, and the last code point. *)
Definition utf8_RuneError : Z := 65533.
Definition utf8_MaxRune : Z := 1114111.

(** Table [first] of package utf8 for a byte from 0x80 on: the size of the
    sequence that the byte starts and the range accepted for its second
    byte; [None] for a byte that starts no sequence. *)
Definition utf8_first (s0 : Z) : option (Z * Z * Z) :=
  if s0 <? 194 then None
  else if s0 <? 224 then Some (2, 128, 191)
  else if s0 =? 224 then Some (3, 160, 191)
  else if s0 =? 237 then Some (3, 128, 159)
  else if s0 <? 240 then Some (3, 128, 191)
  else if s0 =? 240 then Some (4, 144, 191)
  else if s0 <? 244 then Some (4, 128, 191)
  else if s0 =? 244 then Some (4, 128, 143)
  else None.

(** The first rune of a text and the number of bytes it takes. A byte that
    starts no sequence, a sequence that is cut short and a byte outside the
    accepted range give [utf8_RuneError] and one byte. *)
Definition utf8_DecodeRuneInString (s : string) : Z * nat :=
  match s with
  | EmptyString => (utf8_RuneError, 0%nat)
  | String c0 t0 =>
      let s0 := byte_value c0 in
      if s0 <? 128 then (s0, 1%nat)
      else
        match utf8_first s0 with
        | None => (utf8_RuneError, 1%nat)
        | Some (sz, lo, hi) =>
            match t0 with
            | EmptyString => (utf8_RuneError, 1%nat)
            | String c1 t1 =>
                let s1 := byte_value c1 in
                if (s1 <? lo) || (hi <? s1) then (utf8_RuneError, 1%nat)
                else if sz <=? 2 then
                  (Z.lor (Z.shiftl (Z.land s0 31) 6) (Z.land s1 63), 2%nat)
                else
                  match t1 with
                  | EmptyString => (utf8_RuneError, 1%nat)
                  | String c2 t2 =>
                      let s2 := byte_value c2 in
                      if (s2 <? 128) || (191 <? s2) then (utf8_RuneError, 1%nat)
                      else if sz <=? 3 then
                        (Z.lor (Z.lor (Z.shiftl (Z.land s0 15) 12)
                                      (Z.shiftl (Z.land s1 63) 6))
                               (Z.land s2 63), 3%nat)
                      else
                        match t2 with
                        | EmptyString => (utf8_RuneError, 1%nat)
                        | String c3 _ =>
                            let s3 := byte_value c3 in
                            if (s3 <? 128) || (191 <? s3)
                            then (utf8_RuneError, 1%nat)
                            else
                              (Z.lor (Z.lor (Z.lor
                                 (Z.shiftl (Z.land s0 7) 18)
                                 (Z.shiftl (Z.land s1 63) 12))
                                 (Z.shiftl (Z.land s2 63) 6))
                                 (Z.land s3 63), 4%nat)
                        end
                  end
            end
        end
  end.

(** The runes of [for _, r := range s]: [skip] bytes of the rune decoded
    last are still to be passed over. *)
Fixpoint utf8_runes_from (skip : nat) (s : string) : list Z :=
  match s with
  | EmptyString => []
  | String _ rest =>
      match skip with
      | S k => utf8_runes_from k rest
      | O =>
          let (r, size) := utf8_DecodeRuneInString s in
          r :: utf8_runes_from (size - 1) rest
      end
  end.

Definition utf8_runes (s : string) : list Z := utf8_runes_from 0 s.

(** The conversion [byte(x)]. *)
Definition byte_of_int (x : Z) : Z := Z.land x 255.

(** [utf8.AppendRune], the bytes that [WriteRune] appends to a builder: a
    surrogate half and a value that is no code point are written as
    [utf8_RuneError]. *)
Definition utf8_AppendRune (r : Z) : string :=
  if (0 <=? r) && (r <=? 127) then String (byte_char (byte_of_int r)) ""
  else if (0 <=? r) && (r <=? 2047) then
    String (byte_char (Z.lor 192 (byte_of_int (Z.shiftr r 6))))
   (String (byte_char (Z.lor 128 (Z.land (byte_of_int r) 63))) "")
  else
    let three (r : Z) :=
      String (byte_char (Z.lor 224 (byte_of_int (Z.shiftr r 12))))
     (String (byte_char (Z.lor 128 (Z.land (byte_of_int (Z.shiftr r 6)) 63)))
     (String (byte_char (Z.lor 128 (Z.land (byte_of_int r) 63))) "")) in
    if (r <? 0) || (utf8_MaxRune <? r) || ((55296 <=? r) && (r <=? 57343))
    then three utf8_RuneError
    else if r <=? 65535 then three r
    else
      String (byte_char (Z.lor 240 (byte_of_int (Z.shiftr r 18))))
     (String (byte_char (Z.lor 128 (Z.land (byte_of_int (Z.shiftr r 12)) 63)))
     (String (byte_char (Z.lor 128 (Z.land (byte_of_int (Z.shiftr r 6)) 63)))
     (String (byte_char (Z.lor 128 (Z.land (byte_of_int r) 63))) ""))).

(** Writing runes one after the other. *)
Fixpoint utf8_string (rs : list Z) : string :=
  match rs with
  | [] => ""
  | r :: rest => utf8_AppendRune r ++ utf8_string rest
  end.

(** [utf8.ValidRune]: a code point that is no surrogate half. *)
Definition utf8_ValidRune (r : Z) : bool :=
  ((0 <=? r) && (r <? 55296)) || ((57343 <? r) && (r <=? utf8_MaxRune)).

(** [utf8.ValidString]: no byte of the text is read as an encoding error. *)
Fixpoint utf8_valid_from (skip : nat) (s : string) : bool :=
  match s with
  | EmptyString => true
  | String _ rest =>
      match skip with
      | S k => utf8_valid_from k rest
      | O =>
          let (r, size) := utf8_DecodeRuneInString s in
          negb ((r =? utf8_RuneError) && (size =? 1)%nat) &&
          utf8_valid_from (size - 1) rest
      end
  end.

Definition utf8_ValidString (s : string) : bool := utf8_valid_from 0 s.

(* ================================================================== *)
(** ** time.Time *)

Record Time := mkTime {
  t_year : Z; t_month : Z; t_day : Z;
  t_hour : Z; t_minute : Z; t_second : Z;
  t_nsec : Z
}.

(** The zero value of [time.Time]: January 1, year 1, 00:00:00 UTC. *)
Definition zeroTime : Time := mkTime 1 1 1 0 0 0 0.

Definition is_leap (y : Z) : bool :=
  (y mod 4 =? 0) && (negb (y mod 100 =? 0) || (y mod 400 =? 0)).

Definition days_in_month (y m : Z) : Z :=
  if m =? 2 then (if is_leap y then 29 else 28)
  else if (m =? 4) || (m =? 6) || (m =? 9) || (m =? 11) then 30
  else 31.

Definition valid_time (t : Time) : Prop :=
  1 <= t_month t <= 12 /\
  1 <= t_day t <= days_in_month (t_year t) (t_month t) /\
  0 <= t_hour t < 24 /\
  0 <= t_minute t < 60 /\
  0 <= t_second t < 60 /\
  0 <= t_nsec t < 1000000000.

(** Lexicographic comparison of two lists of integers of the same length. *)
Fixpoint lex_compare (a b : list Z) : comparison :=
  match a, b with
  | x :: a', y :: b' =>
      match x ?= y with
      | Eq => lex_compare a' b'
      | c => c
      end
  | _, _ => Eq
  end.

Definition fields (t : Time) : list Z :=
  [t_year t; t_month t; t_day t; t_hour t; t_minute t; t_second t; t_nsec t].

(** The reading of [t] without its fraction of a second. *)
Definition sec_fields (t : Time) : list Z :=
  [t_year t; t_month t; t_day t; t_hour t; t_minute t; t_second t].

(** [t.Compare(u)]: the order of instants. *)
Definition time_compare (t u : Time) : comparison :=
  lex_compare (fields t) (fields u).

(** [!t.Before(u)], that is [t >= u]. *)
Definition time_geb (t u : Time) : bool :=
  match time_compare t u with Lt => false | _ => true end.

(** [t.Truncate(time.Second)] for a UTC reading. *)
Definition truncSecond (t : Time) : Time :=
  mkTime (t_year t) (t_month t) (t_day t)
         (t_hour t) (t_minute t) (t_second t) 0.

(** [time.Duration] is a number of nanoseconds. *)
Definition Duration := Z.
Definition time_Second : Duration := 1000000000.
Definition time_Hour : Duration := 3600 * time_Second.

(** The instant 24 hours before [t]: the previous calendar day at the same
    clock reading (UTC has no daylight saving and Go's clock has no leap
    seconds). *)
Definition prev_day (t : Time) : Time :=
  if 1 <? t_day t then
    mkTime (t_year t) (t_month t) (t_day t - 1)
           (t_hour t) (t_minute t) (t_second t) (t_nsec t)
  else if 1 <? t_month t then
    mkTime (t_year t) (t_month t - 1)
           (days_in_month (t_year t) (t_month t - 1))
           (t_hour t) (t_minute t) (t_second t) (t_nsec t)
  else
    mkTime (t_year t - 1) 12 31
           (t_hour t) (t_minute t) (t_second t) (t_nsec t).

(** [t.Add(-d)] for a duration [d] that is a whole number of days, which is
    the only way the store uses it. *)
Definition time_sub (t : Time) (d : Duration) : Time :=
  Nat.iter (Z.to_nat (d / (24 * time_Hour))) prev_day t.

(** [t.UTC().Format(time.RFC3339)]. A UTC instant prints with the zone
    letter Z and without its fraction of a second. *)
Definition formatRFC3339 (t : Time) : string :=
  appendInt (t_year t) 4 ++ "-" ++ appendInt (t_month t) 2 ++ "-" ++
  appendInt (t_day t) 2 ++ "T" ++ appendInt (t_hour t) 2 ++ ":" ++
  appendInt (t_minute t) 2 ++ ":" ++ appendInt (t_second t) 2 ++ "Z".

(** SQLite's [CURRENT_TIMESTAMP]: "YYYY-MM-DD HH:MM:SS" in UTC. *)
Definition sqliteTimestamp (t : Time) : string :=
  appendInt (t_year t) 4 ++ "-" ++ appendInt (t_month t) 2 ++ "-" ++
  appendInt (t_day t) 2 ++ " " ++ appendInt (t_hour t) 2 ++ ":" ++
  appendInt (t_minute t) 2 ++ ":" ++ appendInt (t_second t) 2.

(* ================================================================== *)
(** ** Errors and results *)

(** Go [error] values, with the wrapping that [fmt.Errorf] builds. *)
Inductive error : Type :=
| ErrUnsupportedWindow (window : string)
| ErrConstraint (what : string)
| ErrBackend (msg : string)
| ErrScoreArticle (title : string) (cause : error)
| ErrParseScore (title raw : string)
| ErrAttempt (attempt : Z) (cause : error)
| ErrAttemptParse (attempt : Z) (raw : string)
| ErrNil
| ErrSummarizeFailed (title : string) (attempts : Z) (last : error)
| ErrAnalyzeTrends (cause : error)
| ErrParseTrends (raw : string)
| ErrFeed (msg : string)
| ErrNoFeed (domain : string)
| ErrFetchBlogs (msg : string)
| ErrTelegram (msg : string)
| ErrScan
| ErrTooManyVariables.

(** A Go pair [(value, error)]. *)
Inductive result (A : Type) : Type :=
| Ok (a : A)
| Err (e : error).
Arguments Ok {A} a.
Arguments Err {A} e.

(* ================================================================== *)
(** ** package store: the Go structs *)

Record Blog := mkBlog {
  b_ID : Z; Domain : string; Score : Z; Author : string; Rank : Z
}.

Record Article := mkArticle {
  a_ID : Z;
  BlogDomain : string;
  Title : string;
  URL : string;
  Summary : string;
  PublishedAt : Time;
  ScrapedAt : Time
}.

Record ArticleAnalysis := mkArticleAnalysis {
  aa_ID : Z;
  ArticleID : Z;
  Relevance : Z;
  Quality : Z;
  Timeliness : Z;
  TotalScore : Z;
  Category : string;
  Keywords : string;
  AISummary : string;
  TitleCN : string;
  RecommendReason : string;
  AnalyzedAt : Time;
  NotifiedAt : option Time
}.

Record ArticleWithAnalysis := mkArticleWithAnalysis {
  awa_Article : Article;
  awa_ArticleAnalysis : ArticleAnalysis
}.

(* ================================================================== *)
(** ** package store: the tables *)

(** A row of table [articles]. The two [DATETIME] columns hold text. *)
Record ArticleRow := mkArticleRow {
  id : Z;
  blog_domain : string;
  title : string;
  url : string;
  summary : string;
  published_at : string;
  scraped_at : string
}.

(** A row of table [article_analysis]. [notified_at] is the only nullable
    column that the code reads. *)
Record AnalysisRow := mkAnalysisRow {
  an_id : Z;
  article_id : Z;
  relevance : Z;
  quality : Z;
  timeliness : Z;
  total_score : Z;
  category : string;
  keywords : string;
  ai_summary : string;
  title_cn : string;
  recommend_reason : string;
  analyzed_at : string;
  notified_at : option string
}.

(** The write statements that [db.Exec] has run. *)
Inductive Stmt : Type :=
| UpsertBlog (domain : string)
| InsertArticle (u : string)
| UpsertAnalysis (aid : Z)
| UpdateNotified (ids : list Z).

Record DB := mkDB {
  blogs : list Blog;
  articles : list ArticleRow;
  article_analysis : list AnalysisRow;
  executed : list Stmt
}.

(** The database that [migrate] creates. *)
Definition emptyDB : DB := mkDB [] [] [] [].

(** [INTEGER PRIMARY KEY AUTOINCREMENT]: one more than the largest key. No
    row is ever deleted, so this is also one more than any key ever used. *)
Definition next_id (keys : list Z) : Z := 1 + fold_right Z.max 0 keys.

(** [ORDER BY]: insertion sort; [before x y] says that [x] may stand in front
    of [y]. Rows with equal keys keep the order in which they come: the order
    of the table for [ListBlogs], whose table has no index on the key, and
    the order in which the engine visits the rows in the other queries. *)
Fixpoint insert_by {A} (before : A -> A -> bool) (x : A) (l : list A) : list A :=
  match l with
  | [] => [x]
  | y :: l' => if before x y then x :: l else y :: insert_by before x l'
  end.

Fixpoint sort_by {A} (before : A -> A -> bool) (l : list A) : list A :=
  match l with
  | [] => []
  | x :: l' => insert_by before x (sort_by before l')
  end.

(** [LIMIT n]: a negative [n] means no limit. *)
Definition limit_rows {A} (n : Z) (l : list A) : list A :=
  if n <? 0 then l else firstn (Z.to_nat n) l.

(** Comparison of two [TEXT] values under the BINARY collation. *)
Definition text_geb (a b : string) : bool := String.leb b a.

Definition published_desc (x y : ArticleRow) : bool :=
  text_geb (published_at x) (published_at y).

Definition score_desc (x y : ArticleRow * AnalysisRow) : bool :=
  total_score (snd y) <=? total_score (snd x).

(** [articles a JOIN article_analysis aa ON a.id = aa.article_id]. *)
Definition joined (db : DB) : list (ArticleRow * AnalysisRow) :=
  flat_map
    (fun a => map (fun aa => (a, aa))
                (filter (fun aa => id a =? article_id aa) (article_analysis db)))
    (articles db).

Definition is_null {A} (o : option A) : bool :=
  match o with None => true | Some _ => false end.

(** The [switch] of [windowCutoff]. *)
Definition window_duration (window : string) : result Duration :=
  if (window =? "24h")%string then Ok (24 * time_Hour)
  else if (window =? "3days")%string then Ok (72 * time_Hour)
  else if (window =? "7days")%string then Ok (168 * time_Hour)
  else Err (ErrUnsupportedWindow window).

(** [windowCutoff]; [now] is the reading of [time.Now()], which is taken
    only for a supported window. *)
Definition windowCutoff (window : string) (now : Time) : result string :=
  match window_duration window with
  | Err e => Err e
  | Ok d => Ok (formatRFC3339 (time_sub now d))
  end.

(** *** Writes *)

Definition upsert_blog (b : Blog) (rows : list Blog) : list Blog :=
  if existsb (fun r => (Domain r =? Domain b)%string) rows then
    map (fun r => if (Domain r =? Domain b)%string
                  then mkBlog (b_ID r) (Domain r) (Score b) (Author b) (Rank b)
                  else r) rows
  else (rows ++ [mkBlog (next_id (map b_ID rows)) (Domain b)
                        (Score b) (Author b) (Rank b)])%list.

(** [SaveBlogs]: every blog is upserted by domain, in one transaction. *)
Definition SaveBlogs (bs : list Blog) (db : DB) : option error * DB :=
  (None,
   mkDB (fold_left (fun rows b => upsert_blog b rows) bs (blogs db))
        (articles db) (article_analysis db)
        (executed db ++ map (fun b => UpsertBlog (Domain b)) bs)%list).

(** [INSERT INTO articles]: column [url] is [UNIQUE]. A plain insert of a
    known URL fails with a constraint error; with [OR IGNORE] the statement
    succeeds and inserts nothing. *)
Definition insert_article (or_ignore : bool) (r : ArticleRow) (db : DB)
  : option error * DB :=
  let log := (executed db ++ [InsertArticle (url r)])%list in
  if existsb (fun x => (url x =? url r)%string) (articles db) then
    (if or_ignore then None else Some (ErrConstraint "articles.url"),
     mkDB (blogs db) (articles db) (article_analysis db) log)
  else
    (None,
     mkDB (blogs db)
          (articles db ++
             [mkArticleRow (next_id (map id (articles db))) (blog_domain r)
                (title r) (url r) (summary r) (published_at r) (scraped_at r)])%list
          (article_analysis db) log).

(** [SaveArticle]. *)
Definition SaveArticle (a : Article) (db : DB) : option error * DB :=
  insert_article true
    (mkArticleRow 0 (BlogDomain a) (Title a) (URL a) (Summary a)
       (formatRFC3339 (PublishedAt a)) (formatRFC3339 (ScrapedAt a)))
    db.

(** The [DO UPDATE SET] clause of [SaveArticleAnalysis]: the ten listed
    columns take the new values; [id], [article_id] and [notified_at] stay. *)
Definition update_analysis (a : ArticleAnalysis) (r : AnalysisRow) : AnalysisRow :=
  mkAnalysisRow (an_id r) (article_id r)
    (Relevance a) (Quality a) (Timeliness a) (TotalScore a)
    (Category a) (Keywords a) (AISummary a) (TitleCN a) (RecommendReason a)
    (formatRFC3339 (AnalyzedAt a))
    (notified_at r).

(** The row that [SaveArticleAnalysis] inserts: [notified_at] is not in the
    column list and the column has no default, so it is NULL. *)
Definition new_analysis (k : Z) (a : ArticleAnalysis) : AnalysisRow :=
  mkAnalysisRow k (ArticleID a)
    (Relevance a) (Quality a) (Timeliness a) (TotalScore a)
    (Category a) (Keywords a) (AISummary a) (TitleCN a) (RecommendReason a)
    (formatRFC3339 (AnalyzedAt a))
    None.

(** [SaveArticleAnalysis]: insert, or update the row of the same article. *)
Definition SaveArticleAnalysis (a : ArticleAnalysis) (db : DB) : option error * DB :=
  let rows := article_analysis db in
  let rows' :=
    if existsb (fun r => article_id r =? ArticleID a) rows then
      map (fun r => if article_id r =? ArticleID a then update_analysis a r else r) rows
    else (rows ++ [new_analysis (next_id (map an_id rows)) a])%list in
  (None,
   mkDB (blogs db) (articles db) rows'
        (executed db ++ [UpsertAnalysis (ArticleID a)])%list).

Definition mem_id (x : Z) (ids : list Z) : bool := existsb (Z.eqb x) ids.

Definition set_notified (ts : string) (r : AnalysisRow) : AnalysisRow :=
  mkAnalysisRow (an_id r) (article_id r) (relevance r) (quality r)
    (timeliness r) (total_score r) (category r) (keywords r) (ai_summary r)
    (title_cn r) (recommend_reason r) (analyzed_at r) (Some ts).

(** The largest number of [?] parameters that SQLite binds in one
    statement ([SQLITE_MAX_VARIABLE_NUMBER]). *)
Definition sqlite_max_variables : Z := 32766.

(** A statement with one parameter per ID is refused, before it runs, when
    the IDs are more than the engine binds. *)
Definition too_many_variables (articleIDs : list Z) : bool :=
  sqlite_max_variables <? Z.of_nat (List.length articleIDs).

(** [MarkNotified]; [ts] is the value of [CURRENT_TIMESTAMP]. With more IDs
    than SQLite binds, [db.Exec] returns the error "too many SQL variables"
    and no row is changed. *)
Definition MarkNotified (articleIDs : list Z) (ts : string) (db : DB)
  : option error * DB :=
  match articleIDs with
  | [] => (None, db)
  | _ =>
      if too_many_variables articleIDs then (Some ErrTooManyVariables, db)
      else
        (None,
         mkDB (blogs db) (articles db)
              (map (fun r => if mem_id (article_id r) articleIDs
                             then set_notified ts r else r)
                   (article_analysis db))
              (executed db ++ [UpdateNotified articleIDs])%list)
  end.

(** *** Queries, as lists of rows *)

Definition ListBlogs (db : DB) : result (list Blog) :=
  Ok (sort_by (fun x y => Rank x <=? Rank y) (blogs db)).

(* ================================================================== *)
(** ** What the program gets from its libraries and from the world *)

Record ScoreResult := mkScoreResult {
  sr_Relevance : Z;
  sr_Quality : Z;
  sr_Timeliness : Z;
  sr_Category : string;
  sr_Keywords : list string
}.

Record SummaryResult := mkSummaryResult {
  sm_Summary : string;
  sm_TitleCN : string;
  sm_RecommendReason : string
}.

Record Trend := mkTrend {
  tr_Title : string; tr_Description : string; tr_Articles : list string
}.

Record TrendReport := mkTrendReport { Trends : list Trend }.

(** An item of a parsed feed ([gofeed.Item]), with the fields that
    [parseFeed] reads. *)
Record FeedItem := mkFeedItem {
  fi_Title : string;
  fi_Description : string;
  fi_Content : string;
  fi_Link : string;
  fi_Links : list string;
  fi_PublishedParsed : option Time;
  fi_UpdatedParsed : option Time
}.

(** The [SELECT] statements of the store that end in [ORDER BY] on a
    column with an index, with the arguments that are bound to them. *)
Inductive Select : Type :=
| SelectLatestArticles (limit : Z)
| SelectArticlesByTimeWindow (cutoff : string)
| SelectUnanalyzedArticles (cutoff : string)
| SelectUnsummarizedHighScoreArticles (cutoff : string) (minScore : Z)
| SelectTopScoredArticles (limit : Z) (cutoff : string)
| SelectUnnotifiedAnalyses (cutoff : string).

(** Library functions and constant texts, left uninterpreted: the JSON
    decoder at the three result types, the driver's reading of a [DATETIME]
    column, [strings.TrimSpace], the first submatch of [codeFenceRe], the
    three system prompts and the layout of the Telegram message.

    The driver parses the text of a [DATETIME] column: [sql_time_readable]
    says whether it can, and [sql_scan_time] is the time that it reads then;
    [rows.Scan] into a [time.Time] fails on a text that it cannot parse.

    SQLite leaves open the order of rows with equal [ORDER BY] keys; it is
    the order in which the plan of the statement visits the rows, which
    depends on the indexes that the plan uses. [sqlite_order_articles] and
    [sqlite_order_joined] are that order, for a statement, a database and
    the rows that the statement selects: some rearrangement of the rows. *)
Class Runtime := {
  json_Unmarshal_ScoreResult : string -> option ScoreResult;
  json_Unmarshal_SummaryResult : string -> option SummaryResult;
  json_Unmarshal_TrendReport : string -> option TrendReport;
  sql_time_readable : string -> bool;
  sql_scan_time : string -> Time;
  sqlite_order_articles : Select -> DB -> list ArticleRow -> list ArticleRow;
  sqlite_order_articles_perm :
    forall q d l, Permutation (sqlite_order_articles q d l) l;
  sqlite_order_joined :
    Select -> DB -> list (ArticleRow * AnalysisRow) ->
    list (ArticleRow * AnalysisRow);
  sqlite_order_joined_perm :
    forall q d l, Permutation (sqlite_order_joined q d l) l;
  strings_TrimSpace : string -> string;
  codeFenceRe_FindStringSubmatch : string -> option string;
  scoreSystemPrompt : string;
  summarySystemPrompt : string;
  trendsSystemPrompt : string;
  telegram_FormatReport :
    list ArticleWithAnalysis -> option TrendReport -> string -> string
}.

(** *** Queries with [ORDER BY] on an indexed column, as lists of rows *)

(** The candidates of the undelivered view, before [ORDER BY] and [LIMIT]. *)
Definition unnotified_in_window (cutoff : string) (db : DB)
  : list (ArticleRow * AnalysisRow) :=
  filter (fun p => text_geb (published_at (fst p)) cutoff &&
                   is_null (notified_at (snd p)))
         (joined db).

Section Rows.

Context {rt : Runtime}.

Definition rows_LatestArticles (limit : Z) (db : DB) : list ArticleRow :=
  limit_rows limit
    (sort_by published_desc
       (sqlite_order_articles (SelectLatestArticles limit) db (articles db))).

Definition rows_ArticlesByTimeWindow (cutoff : string) (db : DB) : list ArticleRow :=
  sort_by published_desc
    (sqlite_order_articles (SelectArticlesByTimeWindow cutoff) db
       (filter (fun a => text_geb (published_at a) cutoff) (articles db))).

Definition rows_UnanalyzedArticles (cutoff : string) (db : DB) : list ArticleRow :=
  sort_by published_desc
    (sqlite_order_articles (SelectUnanalyzedArticles cutoff) db
       (filter (fun a => text_geb (published_at a) cutoff &&
                         negb (existsb (fun aa => id a =? article_id aa)
                                 (article_analysis db)))
               (articles db))).

Definition rows_UnsummarizedHighScoreArticles (cutoff : string) (minScore : Z)
    (db : DB) : list (ArticleRow * AnalysisRow) :=
  sort_by score_desc
    (sqlite_order_joined
       (SelectUnsummarizedHighScoreArticles cutoff minScore) db
       (filter (fun p => text_geb (published_at (fst p)) cutoff &&
                         (minScore <=? total_score (snd p)) &&
                         (ai_summary (snd p) =? "")%string)
               (joined db))).

Definition rows_TopScoredArticles (limit : Z) (cutoff : string) (db : DB)
  : list (ArticleRow * AnalysisRow) :=
  limit_rows limit
    (sort_by score_desc
       (sqlite_order_joined (SelectTopScoredArticles limit cutoff) db
          (filter (fun p => text_geb (published_at (fst p)) cutoff)
                  (joined db)))).

Definition rows_UnnotifiedAnalyses (cutoff : string) (db : DB)
  : list (ArticleRow * AnalysisRow) :=
  limit_rows 20
    (sort_by score_desc
       (sqlite_order_joined (SelectUnnotifiedAnalyses cutoff) db
          (unnotified_in_window cutoff db))).

End Rows.

(** The world outside the process. Readings of the clock and exchanges with
    the model and with Telegram are numbered in the order in which they
    happen; the web is read by URL. An error of the model backend stands for
    every way in which [ChatCompletion] fails before it has a reply text. *)
Record Environment := mkEnvironment {
  clock : nat -> Time;
  backend : nat -> string -> string -> result string;
  gofeed_ParseURL : string -> result (list FeedItem);
  hnpopular_FetchTopBlogs : Z -> result (list Blog);
  telegram_configured : bool;
  telegram_Send : nat -> string -> option error
}.

Record World := mkWorld {
  db : DB;
  ticks : nat;
  chats : nat;
  sends : nat
}.

(** What a run leaves behind besides the database: the calls that reach the
    outside, the calls of [MarkNotified], and the lines of the log that
    report a failure. *)
Inductive Event : Type :=
| EvChat (system user : string)
| EvSleep (d : Duration)
| EvFetch (u : string)
| EvFetchBlogs
| EvSend (text : string) (ok : bool)
| EvMarkNotified (ids : list Z)
| EvWarnScore (a : Article) (e : error)
| EvWarnSummarize (a : Article) (e : error)
| EvWarn (what : string) (e : error)
| EvFatal (what : string).

(** How a command ends: it returns, or [log.Fatalf] ends the process. *)
Inductive outcome (A : Type) : Type :=
| Done (a : A)
| Exit.
Arguments Done {A} a.
Arguments Exit {A}.

Definition M (A : Type) : Type := World -> outcome A * list Event * World.

Definition ret {A} (a : A) : M A := fun w => (Done a, [], w).

Definition bind {A B} (m : M A) (k : A -> M B) : M B :=
  fun w =>
    match m w with
    | (Done a, ev, w1) =>
        match k a w1 with
        | (r, ev', w2) => (r, (ev ++ ev')%list, w2)
        end
    | (Exit, ev, w1) => (Exit, ev, w1)
    end.

Notation "x <- m ;; k" := (bind m (fun x => k))
  (at level 61, m at next level, right associativity).
Notation "m ;; k" := (bind m (fun _ => k))
  (at level 61, right associativity).

Definition emit (e : Event) : M unit := fun w => (Done tt, [e], w).

Definition fatal {A} (what : string) : M A := fun w => (Exit, [EvFatal what], w).

(** A method of [*store.Store] that writes. *)
Definition store_exec (f : DB -> option error * DB) : M (option error) :=
  fun w =>
    let (e, d) := f (db w) in
    (Done e, [], mkWorld d (ticks w) (chats w) (sends w)).

(** A method of [*store.Store] that only reads. *)
Definition store_query {A} (f : DB -> A) : M A :=
  fun w => (Done (f (db w)), [], w).

(** One traversal of a slice, [for _, x := range l { body }]. *)
Fixpoint for_each {A} (l : list A) (body : A -> M unit) : M unit :=
  match l with
  | [] => ret tt
  | x :: l' => body x ;; for_each l' body
  end.

Definition nl : string := String (ascii_of_nat 10) EmptyString.
Definition dquote : string := String (ascii_of_nat 34) EmptyString.
Definition bytes3 (a b c : nat) : string :=
  String (ascii_of_nat a) (String (ascii_of_nat b)
    (String (ascii_of_nat c) EmptyString)).

(** [sanitizeJSON]: the four typographic quotes, in UTF-8, become ASCII. *)
Definition sanitizeJSON (s : string) : string :=
  let s := strings_ReplaceAll s (bytes3 226 128 156) dquote in
  let s := strings_ReplaceAll s (bytes3 226 128 157) dquote in
  let s := strings_ReplaceAll s (bytes3 226 128 152) "'" in
  let s := strings_ReplaceAll s (bytes3 226 128 153) "'" in
  s.

Section Program.

Context {rt : Runtime}.
Variable env : Environment.

(** [time.Now()], and the engine's [CURRENT_TIMESTAMP]. *)
Definition time_Now : M Time :=
  fun w => (Done (clock env (ticks w)), [],
            mkWorld (db w) (S (ticks w)) (chats w) (sends w)).

Definition time_Sleep (d : Duration) : M unit := emit (EvSleep d).

(** *** package store: the methods, with their scans *)

Definition scanArticle (r : ArticleRow) : Article :=
  mkArticle (id r) (blog_domain r) (title r) (url r) (summary r)
    (sql_scan_time (published_at r)) (sql_scan_time (scraped_at r)).

(** The queries do not select [notified_at]: the field keeps its zero
    value, a nil pointer. *)
Definition scanAnalysis (r : AnalysisRow) : ArticleAnalysis :=
  mkArticleAnalysis (an_id r) (article_id r) (relevance r) (quality r)
    (timeliness r) (total_score r) (category r) (keywords r) (ai_summary r)
    (title_cn r) (recommend_reason r) (sql_scan_time (analyzed_at r)) None.

Definition scanJoined (p : ArticleRow * AnalysisRow) : ArticleWithAnalysis :=
  mkArticleWithAnalysis (scanArticle (fst p)) (scanAnalysis (snd p)).

(** [rows.Scan] reads the two times of an article, and the time of the
    analysis in the queries that join the two tables: it succeeds when the
    driver can read their texts. *)
Definition article_readable (r : ArticleRow) : bool :=
  sql_time_readable (published_at r) && sql_time_readable (scraped_at r).

Definition joined_readable (p : ArticleRow * AnalysisRow) : bool :=
  article_readable (fst p) && sql_time_readable (analyzed_at (snd p)).

(** The loop [for rows.Next() { ... rows.Scan(...) ... }] of a query: the
    first row that [Scan] cannot read ends the method with the error, and
    the rows that were read before it are dropped. *)
Fixpoint scan_rows {R A} (readable : R -> bool) (scan : R -> A)
    (rows : list R) : result (list A) :=
  match rows with
  | [] => Ok []
  | r :: rest =>
      if readable r then
        match scan_rows readable scan rest with
        | Ok l => Ok (scan r :: l)
        | Err e => Err e
        end
      else Err ErrScan
  end.

(** A query over a time window: [windowCutoff] reads the clock once for a
    supported window, then the rows are selected and scanned. *)
Definition window_query {R A} (window : string) (rows : string -> DB -> list R)
    (readable : R -> bool) (scan : R -> A) : M (result (list A)) :=
  match window_duration window with
  | Err e => ret (Err e)
  | Ok _ =>
      now <- time_Now ;;
      match windowCutoff window now with
      | Err e => ret (Err e)
      | Ok cutoff =>
          store_query (fun d => scan_rows readable scan (rows cutoff d))
      end
  end.

(** [LatestArticles]. *)
Definition LatestArticles (limit : Z) : M (result (list Article)) :=
  store_query (fun d =>
    scan_rows article_readable scanArticle (rows_LatestArticles limit d)).

Definition ArticlesByTimeWindow (window : string) : M (result (list Article)) :=
  window_query window rows_ArticlesByTimeWindow article_readable scanArticle.

Definition UnanalyzedArticles (window : string) : M (result (list Article)) :=
  window_query window rows_UnanalyzedArticles article_readable scanArticle.

Definition UnsummarizedHighScoreArticles (window : string) (minScore : Z)
  : M (result (list ArticleWithAnalysis)) :=
  window_query window
    (fun c => rows_UnsummarizedHighScoreArticles c minScore)
    joined_readable scanJoined.

Definition TopScoredArticles (limit : Z) (window : string)
  : M (result (list ArticleWithAnalysis)) :=
  window_query window (rows_TopScoredArticles limit)
    joined_readable scanJoined.

Definition AnalysesByTimeWindow (window : string)
  : M (result (list ArticleWithAnalysis)) :=
  TopScoredArticles 1000 window.

Definition UnnotifiedAnalyses (window : string)
  : M (result (list ArticleWithAnalysis)) :=
  window_query window rows_UnnotifiedAnalyses joined_readable scanJoined.

(** A call of [MarkNotified]; [CURRENT_TIMESTAMP] is read when the
    statement runs, which a statement that is refused does not. *)
Definition db_MarkNotified (ids : list Z) : M (option error) :=
  emit (EvMarkNotified ids) ;;
  match ids with
  | [] => store_exec (MarkNotified [] "")
  | _ =>
      if too_many_variables ids then store_exec (MarkNotified ids "")
      else
        now <- time_Now ;;
        store_exec (MarkNotified ids (sqliteTimestamp now))
  end.

(** *** package ai *)

(** [stripCodeFence]. *)
Definition stripCodeFence (s : string) : string :=
  let s := strings_TrimSpace s in
  match codeFenceRe_FindStringSubmatch s with
  | Some inner => strings_TrimSpace inner
  | None => s
  end.

(** [ChatCompletion]: one exchange with the model; the reply text is
    cleaned before it is returned. *)
Definition ChatCompletion (systemPrompt userPrompt : string) : M (result string) :=
  fun w =>
    (Done match backend env (chats w) systemPrompt userPrompt with
          | Err e => Err e
          | Ok content => Ok (sanitizeJSON (stripCodeFence content))
          end,
     [EvChat systemPrompt userPrompt],
     mkWorld (db w) (ticks w) (S (chats w)) (sends w)).

Definition scoreUserPrompt (article : Article) : string :=
  "Title: " ++ Title article ++ nl ++ "Source: " ++ BlogDomain article ++ nl ++
  "Summary: " ++ Summary article.

(** [ScoreArticle]. *)
Definition ScoreArticle (article : Article) : M (result ScoreResult) :=
  r <- ChatCompletion scoreSystemPrompt (scoreUserPrompt article) ;;
  match r with
  | Err e => ret (Err (ErrScoreArticle (Title article) e))
  | Ok resp =>
      match json_Unmarshal_ScoreResult resp with
      | None => ret (Err (ErrParseScore (Title article) resp))
      | Some result => ret (Ok result)
      end
  end.

Definition maxRetries : Z := 3.

Definition summaryUserPrompt (article : Article) : string :=
  "Title: " ++ Title article ++ nl ++ "Source: " ++ BlogDomain article ++ nl ++
  "Content: " ++ Summary article.

(** The loop of [SummarizeArticle], [for attempt <= maxRetries], with
    [todo] iterations left to run. *)
Fixpoint summarize_loop (article : Article) (todo : nat) (attempt : Z)
    (lastErr : error) : M (result SummaryResult) :=
  match todo with
  | O => ret (Err (ErrSummarizeFailed (Title article) maxRetries lastErr))
  | S todo' =>
      r <- ChatCompletion summarySystemPrompt (summaryUserPrompt article) ;;
      match r with
      | Err e =>
          time_Sleep (attempt * 2 * time_Second) ;;
          summarize_loop article todo' (attempt + 1) (ErrAttempt attempt e)
      | Ok resp =>
          match json_Unmarshal_SummaryResult resp with
          | None =>
              time_Sleep (attempt * 2 * time_Second) ;;
              summarize_loop article todo' (attempt + 1)
                (ErrAttemptParse attempt resp)
          | Some result => ret (Ok result)
          end
      end
  end.

(** [SummarizeArticle]: [attempt] runs from 1 to [maxRetries]. *)
Definition SummarizeArticle (article : Article) : M (result SummaryResult) :=
  summarize_loop article (Z.to_nat maxRetries) 1 ErrNil.

(** [strconv.Itoa], the verb [%d]. *)
Definition itoa (x : Z) : string := appendInt x 1.

Fixpoint trendsUserPrompt (i : Z) (analyses : list ArticleWithAnalysis) : string :=
  match analyses with
  | [] => ""
  | a :: rest =>
      itoa i ++ ". [" ++ BlogDomain (awa_Article a) ++ "] " ++
      Title (awa_Article a) ++ " (score: " ++
      itoa (TotalScore (awa_ArticleAnalysis a)) ++ ", category: " ++
      Category (awa_ArticleAnalysis a) ++ ", keywords: " ++
      Keywords (awa_ArticleAnalysis a) ++ ")" ++ nl ++
      trendsUserPrompt (i + 1) rest
  end.

(** [AnalyzeTrends]: one call, no retry. *)
Definition AnalyzeTrends (analyses : list ArticleWithAnalysis)
  : M (result TrendReport) :=
  r <- ChatCompletion trendsSystemPrompt (trendsUserPrompt 1 analyses) ;;
  match r with
  | Err e => ret (Err (ErrAnalyzeTrends e))
  | Ok resp =>
      match json_Unmarshal_TrendReport resp with
      | None => ret (Err (ErrParseTrends resp))
      | Some report => ret (Ok report)
      end
  end.

(** *** package telegram *)

Definition escapeHTML (s : string) : string :=
  let s := strings_ReplaceAll s "&" "&amp;" in
  let s := strings_ReplaceAll s "<" "&lt;" in
  let s := strings_ReplaceAll s ">" "&gt;" in
  s.

(** [Send]. The oracle answers for the whole message: its chunks are sent in
    order and the first chunk that fails gives the error. *)
Definition telegram_Client_Send (title body : string) : M (option error) :=
  fun w =>
    let text := if (title =? "")%string then body
                else "<b>" ++ escapeHTML title ++ "</b>" ++ nl ++ nl ++ body in
    let r := telegram_Send env (sends w) text in
    (Done r, [EvSend text (is_null r)],
     mkWorld (db w) (ticks w) (chats w) (S (sends w))).

(** *** package scraper *)

Definition maxArticles : nat := 10.

(** [stripTags]: the loop over the runes of the text, with what it has
    written so far. A byte that is no UTF-8 comes as [utf8_RuneError] and is
    written as the three bytes of U+FFFD. *)
Fixpoint stripTags_scan (rs : list Z) (inTag : bool) : string :=
  match rs with
  | [] => ""
  | r :: rest =>
      if r =? 60 then stripTags_scan rest true
      else if r =? 62 then stripTags_scan rest false
      else if inTag then stripTags_scan rest inTag
      else utf8_AppendRune r ++ stripTags_scan rest inTag
  end.

Definition stripTags (s : string) : string :=
  strings_TrimSpace (stripTags_scan (utf8_runes s) false).

Definition truncate (s : string) (maxLen : nat) : string :=
  if (String.length s <=? maxLen)%nat then s
  else String.substring 0 maxLen s ++ "...".

(** The body of the loop of [parseFeed]. An item without a published and
    without an updated time keeps the zero [time.Time]. *)
Definition article_of_item (item : FeedItem) : Article :=
  let publishedAt :=
    match fi_PublishedParsed item with
    | Some t => t
    | None => match fi_UpdatedParsed item with
              | Some t => t
              | None => zeroTime
              end
    end in
  let summary :=
    if (fi_Description item =? "")%string && negb (fi_Content item =? "")%string
    then fi_Content item else fi_Description item in
  let link :=
    if (fi_Link item =? "")%string
    then match fi_Links item with l :: _ => l | [] => fi_Link item end
    else fi_Link item in
  mkArticle 0 "" (fi_Title item) link (truncate (stripTags summary) 500)
    publishedAt zeroTime.

(** [parseFeed]: at most [maxArticles] items, in feed order. *)
Definition parseFeed (u : string) : M (result (list Article)) :=
  emit (EvFetch u) ;;
  match gofeed_ParseURL env u with
  | Err e => ret (Err e)
  | Ok items => ret (Ok (map article_of_item (firstn maxArticles items)))
  end.

Definition feedPaths : list string :=
  ["/feed"; "/rss"; "/atom.xml"; "/feed.xml"; "/rss.xml"; "/index.xml";
   "/feeds/all.atom.xml"].

(** The first loop of [scrapeBlog], over the paths that are left. *)
Fixpoint try_paths (domain : string) (paths : list string)
  : M (option (list Article)) :=
  match paths with
  | [] => ret None
  | path :: rest =>
      r <- parseFeed ("https://" ++ domain ++ path) ;;
      match r with
      | Ok (a :: l) => ret (Some (a :: l))
      | _ => try_paths domain rest
      end
  end.

(** [scrapeBlog]. *)
Definition scrapeBlog (domain : string) : M (result (list Article)) :=
  found <- try_paths domain feedPaths ;;
  match found with
  | Some arts => ret (Ok arts)
  | None =>
      r <- parseFeed ("https://" ++ domain) ;;
      match r with
      | Ok (a :: l) => ret (Ok (a :: l))
      | _ => ret (Err (ErrNoFeed domain))
      end
  end.

(** The body of one worker of [ScrapeBlogs]. *)
Definition scrape_worker (b : Blog) : M unit :=
  r <- scrapeBlog (Domain b) ;;
  match r with
  | Err e => emit (EvWarn "scrape" e)
  | Ok arts =>
      for_each arts (fun a =>
        now <- time_Now ;;
        e <- store_exec
               (SaveArticle (mkArticle (a_ID a) (Domain b) (Title a) (URL a)
                               (Summary a) (PublishedAt a) now)) ;;
        match e with
        | Some err => emit (EvWarn "save article" err)
        | None => ret tt
        end)
  end.

(** [ScrapeBlogs]. The workers are goroutines; the database takes their
    writes one at a time. The schedule modelled here runs the workers one
    after the other in the order of [blogs]. The function always returns a
    nil error. *)
Definition ScrapeBlogs (blogs : list Blog) : M (option error) :=
  for_each blogs scrape_worker ;;
  ret None.

(** *** package scheduler *)

Definition with_summary (analysis : ArticleAnalysis) (s : SummaryResult)
  : ArticleAnalysis :=
  mkArticleAnalysis (aa_ID analysis) (ArticleID analysis) (Relevance analysis)
    (Quality analysis) (Timeliness analysis) (TotalScore analysis)
    (Category analysis) (Keywords analysis)
    (sm_Summary s) (sm_TitleCN s) (sm_RecommendReason s)
    (AnalyzedAt analysis) (NotifiedAt analysis).

(** The analysis that both writers build from a Stage-A result. *)
Definition analysis_of_score (article : Article) (scoreResult : ScoreResult)
    (now : Time) : ArticleAnalysis :=
  let totalScore :=
    int_add (int_add (sr_Relevance scoreResult) (sr_Quality scoreResult))
            (sr_Timeliness scoreResult) in
  mkArticleAnalysis 0 (a_ID article)
    (sr_Relevance scoreResult) (sr_Quality scoreResult)
    (sr_Timeliness scoreResult) totalScore
    (sr_Category scoreResult) (strings_Join (sr_Keywords scoreResult) ", ")
    "" "" "" now None.

(** The body of the loop over the articles, after Stage A: the analysis
    is built, Stage B is tried, and the row is saved with or without its
    summary. *)
Definition enrich_scored (article : Article) (scoreResult : ScoreResult)
  : M unit :=
  now <- time_Now ;;
  let analysis := analysis_of_score article scoreResult now in
  sm <- SummarizeArticle article ;;
  analysis' <- match sm with
               | Err e => emit (EvWarnSummarize article e) ;; ret analysis
               | Ok s => ret (with_summary analysis s)
               end ;;
  e <- store_exec (SaveArticleAnalysis analysis') ;;
  match e with
  | Some err => emit (EvWarn "save analysis" err)
  | None => ret tt
  end.

(** Step 3 of [runPipeline], the body of the loop over the articles: a
    failure of Stage A is logged and the loop goes on ([continue]). *)
Definition pipeline_analyze (article : Article) : M unit :=
  sr <- ScoreArticle article ;;
  match sr with
  | Err e => emit (EvWarnScore article e)
  | Ok scoreResult => enrich_scored article scoreResult
  end.

(** The body of the retry loop. *)
Definition pipeline_retry (item : ArticleWithAnalysis) : M unit :=
  sm <- SummarizeArticle (awa_Article item) ;;
  match sm with
  | Err e => emit (EvWarnSummarize (awa_Article item) e)
  | Ok s =>
      e <- store_exec
             (SaveArticleAnalysis (with_summary (awa_ArticleAnalysis item) s)) ;;
      match e with
      | Some err => emit (EvWarn "save retry analysis" err)
      | None => ret tt
      end
  end.

(** Step 3b: the summaries that failed before are tried again. The same
    sweep ends [cmdAnalyze]. *)
Definition retry_sweep (window : string) : M unit :=
  u <- UnsummarizedHighScoreArticles window 0 ;;
  match u with
  | Err e => emit (EvWarn "get unsummarized articles" e)
  | Ok unsummarized => for_each unsummarized pipeline_retry
  end.

Definition article_ids (l : list ArticleWithAnalysis) : list Z :=
  map (fun a => a_ID (awa_Article a)) l.

(** Step 4 of [runPipeline]. *)
Definition pipeline_notify : M unit :=
  if telegram_configured env then
    r <- UnnotifiedAnalyses "7days" ;;
    match r with
    | Err e => emit (EvWarn "get unnotified analyses" e)
    | Ok [] => ret tt
    | Ok newArticles =>
        tr <- AnalyzeTrends newArticles ;;
        match tr with
        | Err e => emit (EvWarn "trend analysis for notification" e)
        | Ok report =>
            let msg := telegram_FormatReport newArticles (Some report) "7days" in
            se <- telegram_Client_Send "" msg ;;
            match se with
            | Some e => emit (EvWarn "telegram send" e)
            | None =>
                me <- db_MarkNotified (article_ids newArticles) ;;
                match me with
                | Some e => emit (EvWarn "mark notified" e)
                | None => ret tt
                end
            end
        end
    end
  else ret tt.

(** Steps 3, 3b and 4, from the list that [UnanalyzedArticles] returned. *)
Definition pipeline_from_articles (articles : list Article) : M unit :=
  for_each articles pipeline_analyze ;;
  retry_sweep "7days" ;;
  pipeline_notify.

(** [runPipeline]: one cycle. *)
Definition runPipeline : M unit :=
  emit EvFetchBlogs ;;
  match hnpopular_FetchTopBlogs env 100 with
  | Err e => emit (EvWarn "fetch blogs" e)
  | Ok blogs =>
      e <- store_exec (SaveBlogs blogs) ;;
      match e with
      | Some err => emit (EvWarn "save blogs" err)
      | None =>
          se <- ScrapeBlogs blogs ;;
          match se with
          | Some err => emit (EvWarn "scrape" err)
          | None => ret tt
          end ;;
          r <- UnanalyzedArticles "7days" ;;
          match r with
          | Err e => emit (EvWarn "get articles" e)
          | Ok articles => pipeline_from_articles articles
          end
      end
  end.

(** *** main.go *)

(** [cmdFetchBlogs]; what it prints is left out. *)
Definition cmdFetchBlogs : M unit :=
  emit EvFetchBlogs ;;
  match hnpopular_FetchTopBlogs env 100 with
  | Err _ => fatal "Failed to fetch blogs"
  | Ok blogs =>
      e <- store_exec (SaveBlogs blogs) ;;
      match e with
      | Some _ => fatal "Failed to save blogs"
      | None => ret tt
      end
  end.

(** [cmdScrape]; the latest articles are read to be printed. *)
Definition cmdScrape : M unit :=
  r <- store_query ListBlogs ;;
  match r with
  | Err _ => fatal "Failed to list blogs"
  | Ok [] => fatal "No blogs in database"
  | Ok blogs =>
      se <- ScrapeBlogs blogs ;;
      match se with
      | Some _ => fatal "Scrape failed"
      | None =>
          r <- LatestArticles 20 ;;
          match r with
          | Err _ => fatal "Failed to list articles"
          | Ok _ => ret tt
          end
      end
  end.

(** The body of the first loop of [cmdAnalyze]; a failed save skips the
    rest of the body, which only counts and prints. *)
Definition cmdAnalyze_one (article : Article) : M unit :=
  sr <- ScoreArticle article ;;
  match sr with
  | Err e => emit (EvWarnScore article e)
  | Ok scoreResult => enrich_scored article scoreResult
  end.

(** [cmdAnalyze]. *)
Definition cmdAnalyze (window : string) : M unit :=
  r <- ArticlesByTimeWindow window ;;
  match r with
  | Err _ => fatal "Failed to get articles"
  | Ok [] => fatal "No articles found"
  | Ok articles =>
      for_each articles cmdAnalyze_one ;;
      retry_sweep window
  end.

(** The tail of [cmdReport]: the report goes to Telegram when it is
    configured. *)
Definition cmdReport_send (window : string) (report : TrendReport) : M unit :=
  if telegram_configured env then
    r <- UnnotifiedAnalyses window ;;
    match r with
    | Err e => emit (EvWarn "get unnotified analyses" e)
    | Ok [] => ret tt
    | Ok newArticles =>
        let msg := telegram_FormatReport newArticles (Some report) window in
        se <- telegram_Client_Send "" msg ;;
        match se with
        | Some e => emit (EvWarn "telegram send" e)
        | None =>
            me <- db_MarkNotified (article_ids newArticles) ;;
            match me with
            | Some e => emit (EvWarn "mark notified" e)
            | None => ret tt
            end
        end
    end
  else ret tt.

(** [cmdReport]; what it prints is left out. *)
Definition cmdReport (window : string) : M unit :=
  r <- AnalysesByTimeWindow window ;;
  match r with
  | Err _ => fatal "Failed to get analyses"
  | Ok [] => fatal "No analyzed articles"
  | Ok analyses =>
      tr <- AnalyzeTrends analyses ;;
      match tr with
      | Err _ => fatal "Failed to analyze trends"
      | Ok report => cmdReport_send window report
      end
  end.

(** [cmdNotify]. *)
Definition cmdNotify (window : string) : M unit :=
  if telegram_configured env then
    r <- UnnotifiedAnalyses window ;;
    match r with
    | Err _ => fatal "Failed to get unnotified analyses"
    | Ok [] => ret tt
    | Ok newArticles =>
        tr <- AnalyzeTrends newArticles ;;
        match tr with
        | Err _ => fatal "Failed to analyze trends"
        | Ok report =>
            let msg := telegram_FormatReport newArticles (Some report) window in
            se <- telegram_Client_Send "" msg ;;
            match se with
            | Some _ => fatal "Failed to send Telegram notification"
            | None =>
                me <- db_MarkNotified (article_ids newArticles) ;;
                match me with
                | Some e => emit (EvWarn "mark notified" e)
                | None => ret tt
                end
            end
        end
    end
  else fatal "Telegram not configured".

End Program.

(* ================================================================== *)
(** ** Vocabulary of the statements *)

(** The writes that the store offers. *)
Inductive StoreOp : Type :=
| OpSaveBlogs (bs : list Blog)
| OpSaveArticle (a : Article)
| OpSaveArticleAnalysis (a : ArticleAnalysis)
| OpMarkNotified (ids : list Z) (ts : string).

Definition apply_op (d : DB) (op : StoreOp) : DB :=
  match op with
  | OpSaveBlogs bs => snd (SaveBlogs bs d)
  | OpSaveArticle a => snd (SaveArticle a d)
  | OpSaveArticleAnalysis a => snd (SaveArticleAnalysis a d)
  | OpMarkNotified ids ts => snd (MarkNotified ids ts d)
  end.

Definition apply_ops (ops : list StoreOp) (d : DB) : DB :=
  fold_left apply_op ops d.

(** The article [aid] has an analysis and every analysis row of it carries
    a delivery mark. *)
Definition delivered (d : DB) (aid : Z) : Prop :=
  (exists r, In r (article_analysis d) /\ article_id r = aid) /\
  (forall r, In r (article_analysis d) -> article_id r = aid ->
             notified_at r <> None).

(** Two analysis rows that agree on every column but [notified_at]. *)
Definition same_but_notified_at (r r' : AnalysisRow) : Prop :=
  an_id r' = an_id r /\ article_id r' = article_id r /\
  relevance r' = relevance r /\ quality r' = quality r /\
  timeliness r' = timeliness r /\ total_score r' = total_score r /\
  category r' = category r /\ keywords r' = keywords r /\
  ai_summary r' = ai_summary r /\ title_cn r' = title_cn r /\
  recommend_reason r' = recommend_reason r /\ analyzed_at r' = analyzed_at r.

(** The rows of [articles] with URL [u]. *)
Definition rows_with_url (u : string) (d : DB) : list ArticleRow :=
  filter (fun r => (url r =? u)%string) (articles d).

(** The [UNIQUE] constraint on [articles.url]. *)
Definition url_unique (d : DB) : Prop := NoDup (map url (articles d)).

(** Descending order of total score. *)
Definition score_ge (x y : ArticleRow * AnalysisRow) : Prop :=
  total_score (snd y) <= total_score (snd x).

(** The article and the delivery mark of an analysis row. *)
Definition mark (r : AnalysisRow) : Z * option string :=
  (article_id r, notified_at r).

(** From [d] to [d'] no delivery mark has changed: the rows of [d] are
    still there with their marks, and the rows that were added have none. *)
Definition marks_unchanged (d d' : DB) : Prop :=
  exists fresh : list Z,
    map mark (article_analysis d') =
    (map mark (article_analysis d) ++ map (fun k => (k, None)) fresh)%list.

(** Every call of [MarkNotified] comes right after a [Send] that succeeded;
    [prev] is the event before the list. *)
Fixpoint marks_follow_sends (prev : option Event) (ev : list Event) : Prop :=
  match ev with
  | [] => True
  | e :: rest =>
      match e with
      | EvMarkNotified _ => exists text, prev = Some (EvSend text true)
      | _ => True
      end /\ marks_follow_sends (Some e) rest
  end.

(** An event that is neither a delivery nor a delivery mark. *)
Definition quiet (e : Event) : Prop :=
  match e with
  | EvSend _ _ | EvMarkNotified _ => False
  | _ => True
  end.

(** A command marks articles only after a delivery that succeeded; a
    delivery that failed leaves every mark as it was and is followed by no
    call of [MarkNotified]; and without a delivery that succeeded no mark
    changes. *)
Definition delivery_safe (m : M unit) : Prop :=
  forall w,
    marks_follow_sends None (snd (fst (m w))) /\
    (forall text, In (EvSend text false) (snd (fst (m w))) ->
       (forall ids, ~ In (EvMarkNotified ids) (snd (fst (m w)))) /\
       marks_unchanged (db w) (db (snd (m w)))) /\
    ((forall text, ~ In (EvSend text true) (snd (fst (m w)))) ->
     marks_unchanged (db w) (db (snd (m w)))).

(** The events of a run that ends with at most one delivery: quiet events,
    then nothing more, or a delivery that failed and quiet events, with the
    marks of [d0] unchanged in [d'], or a delivery that succeeded, the call
    of [MarkNotified] and quiet events. *)
Definition delivery_tail (d0 : DB) (t : list Event) (d' : DB) : Prop :=
  (t = [] /\ marks_unchanged d0 d') \/
  (exists text rest,
      t = EvSend text false :: rest /\ Forall quiet rest /\
      marks_unchanged d0 d') \/
  (exists text ids rest,
      t = EvSend text true :: EvMarkNotified ids :: rest /\ Forall quiet rest).

Definition delivery_shape (d0 : DB) (ev : list Event) (d' : DB) : Prop :=
  exists q t, ev = (q ++ t)%list /\ Forall quiet q /\ delivery_tail d0 t d'.

Definition shaped (d0 : DB) {A} (m : M A) : Prop :=
  forall w, marks_unchanged d0 (db w) ->
            delivery_shape d0 (snd (fst (m w))) (db (snd (m w))).

(** The total score of a row is the sum of its sub-scores on [int]. *)
Definition score_is_sum (r : AnalysisRow) : Prop :=
  total_score r = int_add (int_add (relevance r) (quality r)) (timeliness r).

Definition score_inv (d : DB) : Prop :=
  forall r, In r (article_analysis d) -> score_is_sum r.

(** The article [aid] has no analysis row. *)
Definition no_analysis (d : DB) (aid : Z) : Prop :=
  forall r, In r (article_analysis d) -> article_id r <> aid.

(** The primary key of [articles]. *)
Definition id_unique (d : DB) : Prop := NoDup (map id (articles d)).

(** A Stage-A result whose sum does not fit [int]. *)
Definition huge_score : ScoreResult :=
  mkScoreResult (2 ^ 63 - 1) 1 1 "AI/ML" [].

Section Attempts.
Context {rt : Runtime}.
Variable env : Environment.

(** The [n]-th exchange with the model, as Stage B sees it: the cleaned
    reply, or the error. *)
Definition summary_reply (n : nat) (article : Article) : result string :=
  match backend env n summarySystemPrompt (summaryUserPrompt article) with
  | Err e => Err e
  | Ok content => Ok (sanitizeJSON (stripCodeFence content))
  end.

(** The [n]-th exchange fails as an attempt of Stage B: the call fails, or
    the cleaned reply does not parse. *)
Definition attempt_fails (n : nat) (article : Article) : Prop :=
  match summary_reply n article with
  | Err _ => True
  | Ok resp => json_Unmarshal_SummaryResult resp = None
  end.

(** The error that a failed attempt leaves in [lastErr]. *)
Definition attempt_error (n : nat) (attempt : Z) (article : Article) : error :=
  match summary_reply n article with
  | Err e => ErrAttempt attempt e
  | Ok resp => ErrAttemptParse attempt resp
  end.

(** The [n]-th exchange succeeds as Stage A with result [sr]. *)
Definition score_succeeds (n : nat) (article : Article) (sr : ScoreResult)
  : Prop :=
  exists content,
    backend env n scoreSystemPrompt (scoreUserPrompt article) = Ok content /\
    json_Unmarshal_ScoreResult (sanitizeJSON (stripCodeFence content)) = Some sr.

(** The [n]-th exchange fails as Stage A. *)
Definition score_fails (n : nat) (article : Article) : Prop :=
  match backend env n scoreSystemPrompt (scoreUserPrompt article) with
  | Err _ => True
  | Ok content =>
      json_Unmarshal_ScoreResult (sanitizeJSON (stripCodeFence content)) = None
  end.

(** The events of [todo] failed attempts, the first numbered [attempt]. *)
Fixpoint failed_attempts (article : Article) (todo : nat) (attempt : Z)
  : list Event :=
  match todo with
  | O => []
  | S k =>
      EvChat summarySystemPrompt (summaryUserPrompt article)
      :: EvSleep (attempt * 2 * time_Second)
      :: failed_attempts article k (attempt + 1)
  end.

(** The locations that [scrapeBlog] may fetch for a domain, in order. *)
Definition candidates (domain : string) : list string :=
  app (map (fun path => "https://" ++ domain ++ path) feedPaths)
      ["https://" ++ domain].

(** The location parses to at least one item. *)
Definition yields (u : string) : bool :=
  match gofeed_ParseURL env u with
  | Ok (_ :: _) => true
  | _ => false
  end.

(** What [parseFeed] returns for a location that parses. *)
Definition parsed (u : string) : list Article :=
  match gofeed_ParseURL env u with
  | Ok items => map article_of_item (firstn maxArticles items)
  | Err _ => []
  end.

(** The locations of [l] up to the first that yields, that one included. *)
Fixpoint tried (l : list string) : list string :=
  match l with
  | [] => []
  | u :: l' => u :: (if yields u then [] else tried l')
  end.

End Attempts.

(** A program that returns: it never ends the process. *)
Definition returns {A} (m : M A) : Prop :=
  forall w, exists a, fst (fst (m w)) = Done a.

(** A program keeps the invariant [I] of the database, produces only
    events that are [allowed], and returns a value in [Q]. *)
Definition keeps (I : DB -> Prop) (allowed : Event -> Prop) {A} (m : M A)
    (Q : A -> Prop) : Prop :=
  forall w, I (db w) ->
    I (db (snd (m w))) /\
    Forall allowed (snd (fst (m w))) /\
    match fst (fst (m w)) with Done a => Q a | Exit => True end.

Definition anything {A} (_ : A) : Prop := True.

(** An event other than the report of a Stage-A failure. *)
Definition not_warnScore (e : Event) : Prop :=
  match e with
  | EvWarnScore _ _ => False
  | _ => True
  end.

Section Invariants.
Context {rt : Runtime}.

(** What an invariant [I] of the database, a set of [allowed] events and a
    property [okA] of the analyses that are saved have to satisfy to hold
    along every command: the events of the commands are allowed, the four
    writes keep [I], and the analyses that the writers build are [okA]. *)
Record sound_invariant (I : DB -> Prop) (allowed : Event -> Prop)
    (okA : ArticleAnalysis -> Prop) : Prop := {
  si_chat : forall s u, allowed (EvChat s u);
  si_sleep : forall d, allowed (EvSleep d);
  si_fetch : forall u, allowed (EvFetch u);
  si_fetchBlogs : allowed EvFetchBlogs;
  si_warn : forall s e, allowed (EvWarn s e);
  si_warnSummarize : forall a e, allowed (EvWarnSummarize a e);
  si_fatal : forall s, allowed (EvFatal s);
  si_send : forall text ok, allowed (EvSend text ok);
  si_mark : forall ids, allowed (EvMarkNotified ids);
  si_warnScore : forall a e, allowed (EvWarnScore a e);
  si_SaveBlogs : forall bs d, I d -> I (snd (SaveBlogs bs d));
  si_SaveArticle : forall a d, I d -> I (snd (SaveArticle a d));
  si_SaveArticleAnalysis :
    forall a d, okA a -> I d -> I (snd (SaveArticleAnalysis a d));
  si_MarkNotified : forall ids ts d, I d -> I (snd (MarkNotified ids ts d));
  si_with_summary : forall a s, okA a -> okA (with_summary a s);
  si_score : forall article sr now, okA (analysis_of_score article sr now);
  si_rows :
    forall c d p, I d ->
      In p (rows_UnsummarizedHighScoreArticles c 0 d) ->
      okA (scanAnalysis (snd p))
}.

(** A command along which every such invariant holds. *)
Definition keeps_every_invariant (m : M unit) : Prop :=
  forall I allowed okA,
    sound_invariant I allowed okA -> keeps I allowed m anything.

End Invariants.

(** The two-digit and the four-digit field of a timestamp. *)
Definition pad2 (m : Z) : string :=
  String (digit (m / 10)) (String (digit (m mod 10)) EmptyString).

Definition pad4 (y : Z) : string :=
  String (digit (y / 10 / 10 / 10))
    (String (digit (y / 10 / 10 mod 10))
       (String (digit (y / 10 mod 10))
          (String (digit (y mod 10)) EmptyString))).

(** A time that [time.RFC3339] prints with a four-digit year. *)
Definition four_digit_year (t : Time) : Prop := 0 <= t_year t <= 9999.

(** A clock reading that falls within a second, and an article published
    at the start of the second that lies 24 hours before it. *)
Definition half_past_noon : Time := mkTime 2026 10 30 12 0 0 500000000.

Definition early_article : Article :=
  mkArticle 0 "a.example" "Y" "https://a.example/y" ""
    (mkTime 2026 10 29 12 0 0 0) zeroTime.

(** *** Sample data *)

(** A runtime whose decoders know two replies. *)
Definition sample_runtime : Runtime := {|
  json_Unmarshal_ScoreResult := fun s =>
    if (s =? "scores")%string
    then Some (mkScoreResult 9 8 7 "Systems" ["go"; "sqlite"])
    else None;
  json_Unmarshal_SummaryResult := fun s =>
    if (s =? "summary")%string
    then Some (mkSummaryResult "S" "T" "R")
    else None;
  json_Unmarshal_TrendReport := fun _ => None;
  sql_time_readable := fun s => (String.length s =? 20)%nat;
  sql_scan_time := fun _ => zeroTime;
  sqlite_order_articles := fun _ _ l => l;
  sqlite_order_articles_perm := fun _ _ l => Permutation_refl l;
  sqlite_order_joined := fun _ _ l => l;
  sqlite_order_joined_perm := fun _ _ l => Permutation_refl l;
  strings_TrimSpace := fun s => s;
  codeFenceRe_FindStringSubmatch := fun _ => None;
  scoreSystemPrompt := "score";
  summarySystemPrompt := "summarize";
  trendsSystemPrompt := "trends";
  telegram_FormatReport := fun _ _ _ => "report"
|}.

(** A world in which it is noon, the model backend is down, no feed
    answers and Telegram refuses the message. *)
Definition sample_env : Environment := {|
  clock := fun _ => mkTime 2026 10 30 12 0 0 0;
  backend := fun _ _ _ => Err (ErrBackend "connection refused");
  gofeed_ParseURL := fun _ => Err (ErrFeed "timeout");
  hnpopular_FetchTopBlogs := fun _ => Ok [];
  telegram_configured := true;
  telegram_Send := fun _ _ => Some (ErrTelegram "down")
|}.

Definition sample_world : World := mkWorld emptyDB 0 0 0.

(** The same world at half a second past noon. *)
Definition half_second_env : Environment := {|
  clock := fun _ => half_past_noon;
  backend := backend sample_env;
  gofeed_ParseURL := gofeed_ParseURL sample_env;
  hnpopular_FetchTopBlogs := hnpopular_FetchTopBlogs sample_env;
  telegram_configured := true;
  telegram_Send := telegram_Send sample_env
|}.

(** A runtime and a world in which the first reply of the model decodes to
    [huge_score] and every later call fails. *)
Definition huge_runtime : Runtime := {|
  json_Unmarshal_ScoreResult := fun _ => Some huge_score;
  json_Unmarshal_SummaryResult := fun _ => None;
  json_Unmarshal_TrendReport := fun _ => None;
  sql_time_readable := fun s => (String.length s =? 20)%nat;
  sql_scan_time := fun _ => zeroTime;
  sqlite_order_articles := fun _ _ l => l;
  sqlite_order_articles_perm := fun _ _ l => Permutation_refl l;
  sqlite_order_joined := fun _ _ l => l;
  sqlite_order_joined_perm := fun _ _ l => Permutation_refl l;
  strings_TrimSpace := fun s => s;
  codeFenceRe_FindStringSubmatch := fun _ => None;
  scoreSystemPrompt := "score";
  summarySystemPrompt := "summarize";
  trendsSystemPrompt := "trends";
  telegram_FormatReport := fun _ _ _ => "report"
|}.

Definition huge_env : Environment := {|
  clock := clock sample_env;
  backend := fun n _ _ =>
    match n with
    | O => Ok "reply"
    | S _ => Err (ErrBackend "connection refused")
    end;
  gofeed_ParseURL := gofeed_ParseURL sample_env;
  hnpopular_FetchTopBlogs := hnpopular_FetchTopBlogs sample_env;
  telegram_configured := true;
  telegram_Send := telegram_Send sample_env
|}.

(** A database with one article, analysed and delivered. *)
Definition delivered_db : DB :=
  mkDB []
    [mkArticleRow 1 "b.example" "X" "https://b.example/x" ""
       "2026-10-30T10:00:00Z" "2026-10-30T11:00:00Z"]
    [mkAnalysisRow 1 1 9 8 7 24 "Systems" "go" "" "" ""
       "2026-10-30T11:05:00Z" (Some "2026-10-30 11:10:00")]
    [].

Definition sample_analysis : ArticleAnalysis :=
  mkArticleAnalysis 0 1 5 5 5 15 "Web" "css" "S" "T" "R"
    (mkTime 2026 10 30 12 0 0 0) None.

(* ================================================================== *)
(** ** package telegram: the text of a message *)

(** [strings.LastIndex s sep]: the position of the last occurrence of [sep]
    in [s]; [None] stands for -1. *)
Fixpoint strings_LastIndex (s sep : string) : option nat :=
  match s with
  | EmptyString => if String.prefix sep EmptyString then Some O else None
  | String _ rest =>
      match strings_LastIndex rest sep with
      | Some i => Some (S i)
      | None => if String.prefix sep s then Some O else None
      end
  end.

(** [strings.TrimLeft s cutset] for a [cutset] of ASCII characters. *)
Fixpoint strings_TrimLeft (s cutset : string) : string :=
  match s with
  | EmptyString => EmptyString
  | String c rest =>
      if existsb (Ascii.eqb c) (list_ascii_of_string cutset)
      then strings_TrimLeft rest cutset
      else s
  end.

Definition maxMessageLen : nat := 4096.

(** The split point that [splitMessage] takes in a text longer than
    [maxLen]: the last paragraph break in the first [maxLen] bytes, or the
    last line break, when one of them stands at a position above 0, and
    [maxLen] otherwise. *)
Definition splitMessage_cut (text : string) (maxLen : nat) : nat :=
  let head := String.substring 0 maxLen text in
  match strings_LastIndex head (nl ++ nl) with
  | Some (S i) => S i
  | _ =>
      match strings_LastIndex head nl with
      | Some (S i) => S i
      | _ => maxLen
      end
  end.

(** The loop of [splitMessage], [for len(text) > 0]. [fuel] bounds the
    number of iterations; [None] is a loop that has not ended within it. *)
Fixpoint splitMessage_loop (fuel : nat) (text : string) (maxLen : nat)
  : option (list string) :=
  match fuel with
  | O => None
  | S f =>
      if (String.length text =? 0)%nat then Some []
      else if (String.length text <=? maxLen)%nat then Some [text]
      else
        let cut := splitMessage_cut text maxLen in
        match splitMessage_loop f
                (strings_TrimLeft
                   (String.substring cut (Nat.sub (String.length text) cut) text)
                   nl)
                maxLen with
        | Some chunks => Some (String.substring 0 cut text :: chunks)
        | None => None
        end
  end.

(** [splitMessage]. [maxLen] is a length, the constant [maxMessageLen] at
    the only call. Every iteration but the last takes at least one byte off
    a text when [maxLen] is positive, so one iteration more than the text
    has bytes is enough. *)
Definition splitMessage (text : string) (maxLen : nat) : option (list string) :=
  if (String.length text <=? maxLen)%nat then Some [text]
  else splitMessage_loop (S (String.length text)) text maxLen.

(** The text that [Send] splits into chunks. *)
Definition message_text (title body : string) : string :=
  if (title =? "")%string then body
  else "<b>" ++ escapeHTML title ++ "</b>" ++ nl ++ nl ++ body.

(** The loop of [Send] over the chunks. [sendRaw n chunk] is the answer of
    the Bot API to request number [n]. The result is the list of the chunks
    that were handed to [sendRaw], with the error that [Send] returns. *)
Fixpoint send_chunks (sendRaw : nat -> string -> option error) (n : nat)
    (chunks : list string) : list string * option error :=
  match chunks with
  | [] => ([], None)
  | chunk :: rest =>
      match sendRaw n chunk with
      | Some err => ([chunk], Some err)
      | None =>
          let (sent, e) := send_chunks sendRaw (S n) rest in
          (chunk :: sent, e)
      end
  end.

(** [Send], chunk by chunk. *)
Definition Send_chunks (sendRaw : nat -> string -> option error) (n : nat)
    (title body : string) : option (list string * option error) :=
  match splitMessage (message_text title body) maxMessageLen with
  | Some chunks => Some (send_chunks sendRaw n chunks)
  | None => None
  end.

(** The text by which [escapeHTML] replaces one byte. *)
Definition escape_byte (c : ascii) : string :=
  if Ascii.eqb c "&"%char then "&amp;"
  else if Ascii.eqb c "<"%char then "&lt;"
  else if Ascii.eqb c ">"%char then "&gt;"
  else String c EmptyString.

(** Every byte of a text replaced by a text of its own. *)
Fixpoint concat_bytes (f : ascii -> string) (s : string) : string :=
  match s with
  | EmptyString => EmptyString
  | String c rest => f c ++ concat_bytes f rest
  end.

(** A text of line breaks only. *)
Definition only_newlines (s : string) : Prop :=
  Forall (fun c => c = ascii_of_nat 10) (list_ascii_of_string s).

(** The chunks, each followed by its gap, put together again. *)
Fixpoint rejoin (chunks gaps : list string) : string :=
  match chunks, gaps with
  | c :: chunks', g :: gaps' => c ++ g ++ rejoin chunks' gaps'
  | _, _ => EmptyString
  end.

(* ================================================================== *)
(** ** package strconv *)

Definition is_digit (c : ascii) : bool :=
  (48 <=? N_of_ascii c)%N && (N_of_ascii c <=? 57)%N.

(** The value of a text of decimal digits, after the digits [acc]. *)
Fixpoint digits_value (s : string) (acc : Z) : option Z :=
  match s with
  | EmptyString => Some acc
  | String c rest =>
      if is_digit c
      then digits_value rest (10 * acc + (Z.of_N (N_of_ascii c) - 48))
      else None
  end.

(** [strconv.ParseInt(s, 10, 64)]: an optional sign and at least one
    decimal digit, with a value that fits 64 bits; [None] is an error. *)
Definition strconv_ParseInt (s : string) : option Z :=
  let (neg, body) :=
    match s with
    | String c rest =>
        if Ascii.eqb c "-"%char then (true, rest)
        else if Ascii.eqb c "+"%char then (false, rest)
        else (false, s)
    | EmptyString => (false, s)
    end in
  match body with
  | EmptyString => None
  | _ =>
      match digits_value body 0 with
      | None => None
      | Some u =>
          let v := if neg then - u else u in
          if (- 2 ^ 63 <=? v) && (v <? 2 ^ 63) then Some v else None
      end
  end.

(** [strconv.Atoi], on 64-bit [int]. *)
Definition strconv_Atoi (s : string) : option Z := strconv_ParseInt s.

(* ================================================================== *)
(** ** Go maps with string keys *)

(** A map is the list of its entries, in the order in which the keys were
    first set. [map_update m k f] is [m[k] = f(m[k])], where [f] gets [None]
    for a key that is not in the map. *)
Fixpoint map_update {V} (m : list (string * V)) (k : string)
    (f : option V -> V) : list (string * V) :=
  match m with
  | [] => [(k, f None)]
  | (k', x) :: m' =>
      if (k' =? k)%string then (k', f (Some x)) :: m'
      else (k', x) :: map_update m' k f
  end.

Fixpoint map_lookup {V} (m : list (string * V)) (k : string) : option V :=
  match m with
  | [] => None
  | (k', x) :: m' => if (k' =? k)%string then Some x else map_lookup m' k
  end.

(** [m[k]]: the zero value for a key that is not in the map. *)
Definition map_get {V} (zero : V) (m : list (string * V)) (k : string) : V :=
  match map_lookup m k with
  | Some x => x
  | None => zero
  end.

(* ================================================================== *)
(** ** package hnpopular *)

Definition cdnBase : string :=
  "https://hn-popularity.cdn.refactoringenglish.com".

(** The errors of the package: the three of [fetchCSV] and the two
    wrappers of [FetchTopBlogs]. *)
Inductive fetch_error : Type :=
| ErrGet (u : string)
| ErrStatus (u : string) (code : Z)
| ErrParseCSV (u : string)
| ErrFetchScores (cause : fetch_error)
| ErrFetchMeta (cause : fetch_error).

Inductive fetched (A : Type) : Type :=
| Fetched (a : A)
| FetchFailed (e : fetch_error).
Arguments Fetched {A} a.
Arguments FetchFailed {A} e.

Section HNPopular.

Context {rt : Runtime}.

(** [fetchCSV]: the records of the file behind a URL, as the CDN serves it
    and [encoding/csv] reads it. *)
Variable fetchCSV : string -> fetched (list (list string)).

(** The order in which [range] visits the entries of a map is not fixed,
    and [sort.Slice] is not stable: [range_order] is the order of the visit.
    The entries of a visit in descending order of score stay as they are
    under [sort_by], so every order that visit and sort can leave is the
    result for one [range_order]. *)
Variable range_order : list (string * Z) -> list (string * Z).

(** The body of the loop of [fetchScores]. *)
Definition fetchScores_row (scores : list (string * Z)) (row : list string)
  : list (string * Z) :=
  match row with
  | f0 :: f1 :: _ =>
      let domain := strings_TrimSpace f0 in
      match strconv_Atoi (strings_TrimSpace f1) with
      | None => scores
      | Some score =>
          map_update scores domain
            (fun old => int_add (match old with Some x => x | None => 0 end)
                          score)
      end
  | _ => scores
  end.

(** [fetchScores]: the first record is the header. *)
Definition fetchScores : fetched (list (string * Z)) :=
  match fetchCSV (cdnBase ++ "/hn-data.csv") with
  | FetchFailed e => FetchFailed e
  | Fetched records => Fetched (fold_left fetchScores_row (tl records) [])
  end.

(** The body of the loop of [fetchMeta]. *)
Definition fetchMeta_row (meta : list (string * string)) (row : list string)
  : list (string * string) :=
  match row with
  | f0 :: f1 :: _ =>
      map_update meta (strings_TrimSpace f0) (fun _ => strings_TrimSpace f1)
  | _ => meta
  end.

(** [fetchMeta]. *)
Definition fetchMeta : fetched (list (string * string)) :=
  match fetchCSV (cdnBase ++ "/domains-meta.csv") with
  | FetchFailed e => FetchFailed e
  | Fetched records => Fetched (fold_left fetchMeta_row (tl records) [])
  end.

(** The loop that builds the blogs from the first entries; [i] is the
    index of the first of them. *)
Fixpoint ranked_blogs (i : Z) (entries : list (string * Z))
    (meta : list (string * string)) : list Blog :=
  match entries with
  | [] => []
  | e :: rest =>
      mkBlog 0 (fst e) (snd e) (map_get "" meta (fst e)) (i + 1)
      :: ranked_blogs (i + 1) rest meta
  end.

(** [FetchTopBlogs]. [None] is the panic of [make] with a negative
    capacity. *)
Definition FetchTopBlogs (limit : Z) : option (fetched (list Blog)) :=
  match fetchScores with
  | FetchFailed e => Some (FetchFailed (ErrFetchScores e))
  | Fetched scores =>
      match fetchMeta with
      | FetchFailed e => Some (FetchFailed (ErrFetchMeta e))
      | Fetched meta =>
          let entries :=
            sort_by (fun x y => snd y <=? snd x) (range_order scores) in
          let limit :=
            if Z.of_nat (List.length entries) <? limit
            then Z.of_nat (List.length entries) else limit in
          if limit <? 0 then None
          else Some (Fetched (ranked_blogs 0 (firstn (Z.to_nat limit) entries)
                                meta))
      end
  end.

(** What a record of hn-data.csv adds to the score of [domain]. *)
Definition row_score (domain : string) (row : list string) : list Z :=
  match row with
  | f0 :: f1 :: _ =>
      match strconv_Atoi (strings_TrimSpace f1) with
      | Some score =>
          if (strings_TrimSpace f0 =? domain)%string then [score] else []
      | None => []
      end
  | _ => []
  end.

(** The author that a record of domains-meta.csv gives to [domain]. *)
Definition row_author (domain : string) (row : list string) : list string :=
  match row with
  | f0 :: f1 :: _ =>
      if (strings_TrimSpace f0 =? domain)%string
      then [strings_TrimSpace f1] else []
  | _ => []
  end.

End HNPopular.

(** The sum of a list of integers. *)
Definition sum_Z (l : list Z) : Z := fold_right Z.add 0 l.

(** Two small files of the CDN: three domains, one record with a score
    that is not a number, and one author. *)
Definition sample_csv (u : string) : fetched (list (list string)) :=
  if (u =? cdnBase ++ "/hn-data.csv")%string then
    Fetched [["domain"; "score"; "date"];
             ["a.example"; "5"; "2026-10-01"];
             ["b.example"; "7"; "2026-10-01"];
             ["a.example"; "4"; "2026-10-02"];
             ["c.example"; "n/a"; "2026-10-02"]]
  else
    Fetched [["domain"; "author"]; ["a.example"; "Ann"]].

(* ================================================================== *)
(** ** package store: the other queries *)

Section Queries.

Context {rt : Runtime}.

(** The rows of the query of [GetArticleWithAnalysis]. *)
Definition rows_GetArticleWithAnalysis (k : Z) (db : DB)
  : list (ArticleRow * AnalysisRow) :=
  filter (fun p => id (fst p) =? k) (joined db).

(** [GetArticleWithAnalysis]: [QueryRow] scans the first row; without a row
    ([sql.ErrNoRows]) the result is a nil pointer and a nil error, and any
    other error of [Scan] is returned. *)
Definition GetArticleWithAnalysis (k : Z)
  : M (result (option ArticleWithAnalysis)) :=
  store_query (fun d =>
    match rows_GetArticleWithAnalysis k d with
    | [] => Ok None
    | p :: _ =>
        if joined_readable p then Ok (Some (scanJoined p)) else Err ErrScan
    end).

End Queries.

(** The rows that [SaveBlogs] inserts into an empty table: the blogs with
    the keys from [k] on. *)
Fixpoint numbered (k : Z) (bs : list Blog) : list Blog :=
  match bs with
  | [] => []
  | b :: rest =>
      mkBlog k (Domain b) (Score b) (Author b) (Rank b) :: numbered (k + 1) rest
  end.

(** Ascending order of rank. *)
Definition rank_le (x y : Blog) : Prop := Rank x <= Rank y.

(** Descending order of the text of [published_at]. *)
Definition newer_or_same (x y : ArticleRow) : Prop :=
  text_geb (published_at x) (published_at y) = true.

(** The windows that [windowCutoff] knows. *)
Definition supported_window (window : string) : Prop :=
  window = "24h" \/ window = "3days" \/ window = "7days".

(** The uniqueness constraints of the schema: the primary keys and the
    [UNIQUE] columns of the three tables. *)
Definition keys_unique (d : DB) : Prop :=
  NoDup (map b_ID (blogs d)) /\ NoDup (map Domain (blogs d)) /\
  NoDup (map id (articles d)) /\ NoDup (map url (articles d)) /\
  NoDup (map an_id (article_analysis d)) /\
  NoDup (map article_id (article_analysis d)).

(** The article [k] has an analysis row. *)
Definition has_analysis (d : DB) (k : Z) : Prop :=
  exists r, In r (article_analysis d) /\ article_id r = k.

(** The columns of an analysis row are those that [SaveArticleAnalysis]
    writes for [a]. *)
Definition columns_of (a : ArticleAnalysis) (r : AnalysisRow) : Prop :=
  article_id r = ArticleID a /\
  relevance r = Relevance a /\ quality r = Quality a /\
  timeliness r = Timeliness a /\ total_score r = TotalScore a /\
  category r = Category a /\ keywords r = Keywords a /\
  ai_summary r = AISummary a /\ title_cn r = TitleCN a /\
  recommend_reason r = RecommendReason a /\
  analyzed_at r = formatRFC3339 (AnalyzedAt a).

(** Two blogs in the order of their ranks. *)
Definition sample_blogs : list Blog :=
  [mkBlog 0 "a.example" 9 "Ann" 1; mkBlog 0 "b.example" 7 "" 2].

(* ================================================================== *)
(** ** package store: migrate *)

(** The lower-case letter of an ASCII capital; every other byte as it is. *)
Definition ascii_lower (c : ascii) : ascii :=
  let n := N_of_ascii c in
  if (65 <=? n)%N && (n <=? 90)%N then ascii_of_N (n + 32) else c.

Fixpoint list_prefix (p l : list ascii) : bool :=
  match p, l with
  | [], _ => true
  | a :: p', b :: l' => Ascii.eqb a b && list_prefix p' l'
  | _ :: _, [] => false
  end.

(** [published_at LIKE '% +0000 UTC']: the text ends with " +0000 UTC";
    [LIKE] does not tell the case of ASCII letters. *)
Definition like_utc_suffix (s : string) : bool :=
  list_prefix (rev (list_ascii_of_string " +0000 utc"))
    (rev (map ascii_lower (list_ascii_of_string s))).

(** [REPLACE(SUBSTR(published_at, 1, 19), ' ', 'T') || 'Z'], where the row
    matches. The texts of the column are timestamps in ASCII, so that the
    first 19 characters are the first 19 bytes. *)
Definition normalize_published_at (s : string) : string :=
  if like_utc_suffix s
  then strings_ReplaceAll (String.substring 0 19 s) " " "T" ++ "Z"
  else s.

(** The [UPDATE] of [migrate] on table [articles]. *)
Definition migrate_articles (rows : list ArticleRow) : list ArticleRow :=
  map (fun r => mkArticleRow (id r) (blog_domain r) (title r) (url r)
                  (summary r) (normalize_published_at (published_at r))
                  (scraped_at r))
      rows.

(** The day [n] days before a day, at the same clock reading. *)
Definition days_before (n : nat) (t : Time) : Time := Nat.iter n prev_day t.

(** The number of days of a window. *)
Definition window_days (window : string) (n : nat) : Prop :=
  (window = "24h" /\ n = 1%nat) \/
  (window = "3days" /\ n = 3%nat) \/
  (window = "7days" /\ n = 7%nat).

(* ================================================================== *)
(** ** Vocabulary: replies of the model *)

Section Successes.
Context {rt : Runtime}.
Variable env : Environment.

(** The [n]-th exchange succeeds as an attempt of Stage B with result [s]. *)
Definition attempt_succeeds (n : nat) (article : Article) (s : SummaryResult)
  : Prop :=
  exists content,
    backend env n summarySystemPrompt (summaryUserPrompt article) = Ok content /\
    json_Unmarshal_SummaryResult (sanitizeJSON (stripCodeFence content)) =
      Some s.

End Successes.

(** One pass of [strings.ReplaceAll] from left to right; [skip] is the
    number of bytes that are left of an occurrence that was replaced. *)
Fixpoint replace_scan (old new : string) (skip : nat) (s : string) : string :=
  match s with
  | EmptyString => EmptyString
  | String c rest =>
      match skip with
      | S k => replace_scan old new k rest
      | O =>
          if String.prefix old s
          then new ++ replace_scan old new (Nat.pred (String.length old)) rest
          else String c (replace_scan old new O rest)
      end
  end.

(** The four typographic quotes in UTF-8, and their ASCII replacements. *)
Definition smart_quotes : list (string * string) :=
  [(bytes3 226 128 156, dquote); (bytes3 226 128 157, dquote);
   (bytes3 226 128 152, "'"); (bytes3 226 128 153, "'")].

(** A world in which the model answers every request: a score to the
    prompt of Stage A, a summary to any other; Telegram accepts every
    message. *)
Definition answering_env : Environment := {|
  clock := clock sample_env;
  backend := fun _ system _ =>
    if (system =? "score")%string then Ok "scores" else Ok "summary";
  gofeed_ParseURL := gofeed_ParseURL sample_env;
  hnpopular_FetchTopBlogs := hnpopular_FetchTopBlogs sample_env;
  telegram_configured := true;
  telegram_Send := fun _ _ => None
|}.

(* ================================================================== *)
(** ** Vocabulary: what scraping adds *)

(** A text without the two bytes "<" and ">". *)
Definition no_angle (s : string) : Prop :=
  forall c, In c (list_ascii_of_string s) -> c <> "<"%char /\ c <> ">"%char.

(** A text without its first [n] bytes. *)
Fixpoint string_drop (n : nat) (s : string) : string :=
  match n, s with
  | O, _ => s
  | S _, EmptyString => EmptyString
  | S k, String _ rest => string_drop k rest
  end.

(** A text without the byte ">". *)
Definition no_closing (s : string) : Prop :=
  forall c, In c (list_ascii_of_string s) -> c <> ">"%char.

(** From [d] to [d'] at most [n] rows were added to table [articles], each
    of one of the domains [doms], and nothing else has changed. *)
Definition scraped_into (doms : list string) (n : nat) (d d' : DB) : Prop :=
  blogs d' = blogs d /\
  article_analysis d' = article_analysis d /\
  exists extra,
    articles d' = (articles d ++ extra)%list /\
    (List.length extra <= n)%nat /\
    Forall (fun r => In (blog_domain r) doms) extra.

(** The events of fetching feeds and of failing to. *)
Definition scrape_event (e : Event) : Prop :=
  match e with
  | EvFetch _ | EvWarn _ _ => True
  | _ => False
  end.

(* ================================================================== *)
(** ** package server *)

(** What a handler reads of a request: the method, [r.URL.Path], and
    [r.URL.Query().Get], which gives the empty text for a parameter that is
    missing. *)
Record Request := mkRequest {
  req_Method : string;
  req_Path : string;
  req_Query : string -> string
}.

(** The JSON type [apiArticle]. *)
Record apiArticle := mkApiArticle {
  api_ID : Z;
  api_Title : string;
  api_TitleCN : string;
  api_URL : string;
  api_Source : string;
  api_Summary : string;
  api_AISummary : string;
  api_RecommendReason : string;
  api_Category : string;
  api_Keywords : string;
  api_TotalScore : Z;
  api_Relevance : Z;
  api_Quality : Z;
  api_Timeliness : Z;
  api_PublishedAt : string;
  api_AnalyzedAt : string
}.

(** What a handler writes: the value that goes to the JSON encoder, the
    data of the page template, the text of [http.Error] and
    [http.NotFound], or the target of a redirect. *)
Inductive Body : Type :=
| BodyError (msg : string)
| BodyList (window : string) (count : Z) (items : list apiArticle)
| BodyDetail (article : apiArticle)
| BodyHealth
| BodyPage (window : string) (items : list ArticleWithAnalysis)
| BodyText (msg : string)
| BodyRedirect (location : string).

Record Response := mkResponse {
  resp_status : Z;
  resp_body : Body
}.

(** [t.IsZero()]. *)
Definition time_IsZero (t : Time) : bool :=
  match time_compare t zeroTime with Eq => true | _ => false end.

(** [fmtTimeRFC3339]. *)
Definition fmtTimeRFC3339 (t : Time) : string :=
  if time_IsZero t then "" else formatRFC3339 t.

(** [toAPIArticle]. *)
Definition toAPIArticle (a : ArticleWithAnalysis) : apiArticle :=
  mkApiArticle
    (a_ID (awa_Article a)) (Title (awa_Article a))
    (TitleCN (awa_ArticleAnalysis a)) (URL (awa_Article a))
    (BlogDomain (awa_Article a)) (Summary (awa_Article a))
    (AISummary (awa_ArticleAnalysis a))
    (RecommendReason (awa_ArticleAnalysis a))
    (Category (awa_ArticleAnalysis a)) (Keywords (awa_ArticleAnalysis a))
    (TotalScore (awa_ArticleAnalysis a)) (Relevance (awa_ArticleAnalysis a))
    (Quality (awa_ArticleAnalysis a)) (Timeliness (awa_ArticleAnalysis a))
    (fmtTimeRFC3339 (PublishedAt (awa_Article a)))
    (fmtTimeRFC3339 (AnalyzedAt (awa_ArticleAnalysis a))).

(** The [switch] of the two list handlers: a window that is not one of the
    three becomes "24h". *)
Definition window_or_default (window : string) : string :=
  if (window =? "24h")%string || (window =? "3days")%string ||
     (window =? "7days")%string
  then window else "24h".

(** The limit of [handleAPIArticles]: the parameter, when it is a number
    from 1 to 100, and 20 otherwise. *)
Definition limit_or_default (v : string) : Z :=
  if (v =? "")%string then 20
  else match strconv_Atoi v with
       | Some n => if (0 <? n) && (n <=? 100) then n else 20
       | None => 20
       end.

(** [strings.TrimPrefix]. *)
Definition strings_TrimPrefix (s pre : string) : string :=
  if String.prefix pre s
  then String.substring (String.length pre)
         (Nat.sub (String.length s) (String.length pre)) s
  else s.

Section Server.

Context {rt : Runtime}.
Variable env : Environment.

(** [handleRoot]. *)
Definition handleRoot (r : Request) : M Response :=
  if (req_Path r =? "/")%string
  then ret (mkResponse 302 (BodyRedirect "/articles?window=24h"))
  else ret (mkResponse 404 (BodyText "404 page not found")).

(** [handleHealth]. *)
Definition handleHealth (r : Request) : M Response :=
  ret (mkResponse 200 BodyHealth).

(** [handleArticles]; a failure of the template is only logged. *)
Definition handleArticles (r : Request) : M Response :=
  let window := window_or_default (req_Query r "window") in
  res <- TopScoredArticles env 20 window ;;
  match res with
  | Err e =>
      emit (EvWarn "load articles" e) ;;
      ret (mkResponse 500 (BodyText "Failed to load articles"))
  | Ok articles => ret (mkResponse 200 (BodyPage window articles))
  end.

(** [handleAPIArticles]. *)
Definition handleAPIArticles (r : Request) : M Response :=
  if negb (req_Method r =? "GET")%string
  then ret (mkResponse 405 (BodyError "method not allowed"))
  else
    let window := window_or_default (req_Query r "window") in
    let limit := limit_or_default (req_Query r "limit") in
    res <- TopScoredArticles env limit window ;;
    match res with
    | Err e =>
        emit (EvWarn "api list articles" e) ;;
        ret (mkResponse 500 (BodyError "failed to load articles"))
    | Ok articles =>
        let items := map toAPIArticle articles in
        ret (mkResponse 200
               (BodyList window (Z.of_nat (List.length items)) items))
    end.

(** [handleAPIArticleDetail]. *)
Definition handleAPIArticleDetail (r : Request) : M Response :=
  if negb (req_Method r =? "GET")%string
  then ret (mkResponse 405 (BodyError "method not allowed"))
  else
    let idStr := strings_TrimPrefix (req_Path r) "/api/articles/" in
    match strconv_ParseInt idStr with
    | None => ret (mkResponse 400 (BodyError "invalid article id"))
    | Some k =>
        if k <=? 0
        then ret (mkResponse 400 (BodyError "invalid article id"))
        else
          res <- GetArticleWithAnalysis k ;;
          match res with
          | Err e =>
              emit (EvWarn "api get article" e) ;;
              ret (mkResponse 500 (BodyError "failed to load article"))
          | Ok None => ret (mkResponse 404 (BodyError "article not found"))
          | Ok (Some article) =>
              ret (mkResponse 200 (BodyDetail (toAPIArticle article)))
          end
    end.

End Server.

(** Descending order of the total scores of a list response. *)
Definition api_score_ge (x y : apiArticle) : Prop :=
  api_TotalScore y <= api_TotalScore x.

(** Descending order of the total scores of a page. *)
Definition page_score_ge (x y : ArticleWithAnalysis) : Prop :=
  TotalScore (awa_ArticleAnalysis y) <= TotalScore (awa_ArticleAnalysis x).

(* ================================================================== *)
(** ** Vocabulary: runs of the pipeline *)

(** An event other than the line of [log.Fatalf]. *)
Definition not_fatal (e : Event) : Prop :=
  match e with
  | EvFatal _ => False
  | _ => True
  end.

(** A program that returns whatever happens, without a fatal error. *)
Definition survives {A} (m : M A) : Prop :=
  forall w,
    (exists a, fst (fst (m w)) = Done a) /\
    Forall not_fatal (snd (fst (m w))).

Section Delivered.
Context {rt : Runtime}.
Variable env : Environment.

(** Whenever a run of [m] has delivered a message, the message is the
    report of the undelivered view of [window], as it was at the start of
    the run, and the run has marked the articles of that view: they are
    delivered at the end of the run and the view does not return them
    again. *)
Definition marks_what_it_sent (window : string) {A} (m : M A) : Prop :=
  forall w text,
    In (EvSend text true) (snd (fst (m w))) ->
    exists dur report,
      window_duration window = Ok dur /\
      let rows :=
        rows_UnnotifiedAnalyses
          (formatRFC3339 (time_sub (clock env (ticks w)) dur)) (db w) in
      rows <> [] /\
      text = telegram_FormatReport (map scanJoined rows) (Some report)
               window /\
      In (EvMarkNotified (map (fun p => id (fst p)) rows))
         (snd (fst (m w))) /\
      (forall p, In p rows -> delivered (db (snd (m w))) (id (fst p))) /\
      (forall p cutoff q,
          In p rows ->
          In q (rows_UnnotifiedAnalyses cutoff (db (snd (m w)))) ->
          id (fst q) <> id (fst p)).

End Delivered.

(** A world with one article, analysed and not delivered. *)
Definition pending_row : ArticleRow * AnalysisRow :=
  (mkArticleRow 1 "b.example" "X" "https://b.example/x" ""
     "2026-10-30T10:00:00Z" "2026-10-30T11:00:00Z",
   mkAnalysisRow 1 1 9 8 7 24 "Systems" "go" "" "" ""
     "2026-10-30T11:05:00Z" None).

Definition pending_world : World :=
  mkWorld (mkDB [] [fst pending_row] [snd pending_row] []) 0 0 0.

(** A world with one article whose published time is a text that the
    driver of [sample_runtime] cannot read as a time. *)
Definition unreadable_row : ArticleRow :=
  mkArticleRow 1 "a.example" "Y" "https://a.example/y" ""
    "2026-10-30T10:00:00+00:00" "2026-10-30T11:00:00Z".

Definition unreadable_world : World :=
  mkWorld (mkDB [] [unreadable_row] [] []) 0 0 0.

(** The world in which [early_article] is the one stored article. *)
Definition early_world : World :=
  mkWorld (snd (SaveArticle early_article emptyDB)) 0 0 0.

(* ================================================================== *)
(** * Properties *)

(** ** Sorting *)

Lemma insert_by_perm {A} (before : A -> A -> bool) x l :
  Permutation (insert_by before x l) (x :: l).
Proof.
  induction l as [|y l IH]; simpl.
  - apply Permutation_refl.
  - destruct (before x y).
    + apply Permutation_refl.
    + eapply perm_trans; [apply perm_skip, IH | apply perm_swap].
Qed.

Lemma sort_by_perm {A} (before : A -> A -> bool) l :
  Permutation (sort_by before l) l.
Proof.
  induction l as [|x l IH]; simpl.
  - constructor.
  - eapply perm_trans; [apply insert_by_perm | apply perm_skip, IH].
Qed.

Lemma sort_by_In {A} (before : A -> A -> bool) l x :
  In x (sort_by before l) <-> In x l.
Proof.
  split; apply Permutation_in;
    [apply sort_by_perm | apply Permutation_sym, sort_by_perm].
Qed.

Section Sortedness.
Context {A : Type} (before : A -> A -> bool).
Hypothesis before_total : forall x y, before x y = true \/ before y x = true.
Hypothesis before_trans :
  forall x y z, before x y = true -> before y z = true -> before x z = true.

Let R (x y : A) : Prop := before x y = true.

Lemma insert_by_sorted x l :
  Sorted R l -> Sorted R (insert_by before x l).
Proof.
  induction 1 as [|y l Hs IH Hhd]; simpl.
  - repeat constructor.
  - destruct (before x y) eqn:E.
    + constructor; [constructor; assumption | constructor; exact E].
    + constructor; [exact IH|].
      assert (Hyx : R y x) by (destruct (before_total x y); congruence).
      destruct l as [|z l]; simpl.
      * constructor; exact Hyx.
      * destruct (before x z); constructor; [exact Hyx|].
        inversion Hhd; assumption.
Qed.

Lemma sort_by_sorted l : StronglySorted R (sort_by before l).
Proof.
  apply Sorted_StronglySorted.
  - intros x y z; apply before_trans.
  - induction l; simpl; [constructor | apply insert_by_sorted; assumption].
Qed.
End Sortedness.

Lemma score_desc_sorted (l : list (ArticleRow * AnalysisRow)) :
  StronglySorted score_ge (sort_by score_desc l).
Proof.
  assert (H : StronglySorted (fun x y => score_desc x y = true)
                (sort_by score_desc l)).
  { apply sort_by_sorted; unfold score_desc; intros; lia. }
  induction H; constructor; auto.
  eapply Forall_impl; [|eassumption].
  unfold score_desc, score_ge; intros; lia.
Qed.

Lemma In_firstn {A} (n : nat) (l : list A) (x : A) :
  In x (firstn n l) -> In x l.
Proof.
  intros H. rewrite <- (firstn_skipn n l). apply in_or_app. left. exact H.
Qed.

Lemma NoDup_app_disjoint {A} (l1 l2 : list A) (a : A) :
  NoDup (l1 ++ l2) -> In a l1 -> In a l2 -> False.
Proof.
  induction l1 as [|x l1 IH]; simpl; intros Hn H1 H2; [exact H1|].
  inversion Hn as [|? ? Hnot Hn']; subst.
  destruct H1 as [->|H1].
  - apply Hnot, in_or_app. right. exact H2.
  - exact (IH Hn' H1 H2).
Qed.

(** ** The join *)

Lemma joined_In (d : DB) (p : ArticleRow * AnalysisRow) :
  In p (joined d) <->
  In (fst p) (articles d) /\ In (snd p) (article_analysis d) /\
  id (fst p) = article_id (snd p).
Proof.
  unfold joined; rewrite in_flat_map; split.
  - intros (a & Ha & Hp). apply in_map_iff in Hp as (aa & <- & Haa).
    apply filter_In in Haa as [Haa E]. simpl. intuition lia.
  - intros (Ha & Haa & E). exists (fst p). split; [exact Ha|].
    apply in_map_iff. exists (snd p). split; [destruct p; reflexivity|].
    apply filter_In. split; [exact Haa | lia].
Qed.

(** ** The store: delivery marks *)

#[local] Arguments mem_id : simpl never.

Lemma mem_id_In (x : Z) (ids : list Z) : mem_id x ids = true <-> In x ids.
Proof.
  unfold mem_id. rewrite existsb_exists. split.
  - intros (y & Hy & E). apply Z.eqb_eq in E. now subst.
  - intros H. exists x. split; [exact H | apply Z.eqb_refl].
Qed.

Lemma same_but_notified_at_refl r : same_but_notified_at r r.
Proof. unfold same_but_notified_at; repeat split. Qed.

Lemma set_notified_same ts r : same_but_notified_at r (set_notified ts r).
Proof. unfold same_but_notified_at; repeat split. Qed.

Lemma Forall2_map_r {A B} (P : A -> B -> Prop) (f : A -> B) (l : list A) :
  (forall x, In x l -> P x (f x)) -> Forall2 P l (map f l).
Proof.
  induction l as [|x l IH]; intros H; simpl; constructor.
  - apply H; left; reflexivity.
  - apply IH; intros y Hy; apply H; right; exact Hy.
Qed.

Lemma too_many_variables_false (ids : list Z) :
  Z.of_nat (List.length ids) <= sqlite_max_variables ->
  too_many_variables ids = false.
Proof. unfold too_many_variables. intros H. apply Z.ltb_ge. exact H. Qed.

Lemma too_many_variables_true (ids : list Z) :
  sqlite_max_variables < Z.of_nat (List.length ids) ->
  too_many_variables ids = true.
Proof. unfold too_many_variables. intros H. apply Z.ltb_lt. exact H. Qed.

(** The two outcomes of [MarkNotified] for a list that is not empty. *)
Lemma MarkNotified_cases (ids : list Z) (ts : string) (d : DB) :
  ids <> [] ->
  MarkNotified ids ts d =
  if too_many_variables ids then (Some ErrTooManyVariables, d)
  else
    (None,
     mkDB (blogs d) (articles d)
          (map (fun r => if mem_id (article_id r) ids
                         then set_notified ts r else r)
               (article_analysis d))
          (executed d ++ [UpdateNotified ids])%list).
Proof. destruct ids; [congruence | reflexivity]. Qed.

(** [MarkNotified] leaves the database as it is, or marks the listed rows
    and logs the statement. *)
Lemma MarkNotified_snd (ids : list Z) (ts : string) (d : DB) :
  snd (MarkNotified ids ts d) = d \/
  snd (MarkNotified ids ts d) =
    mkDB (blogs d) (articles d)
         (map (fun r => if mem_id (article_id r) ids
                        then set_notified ts r else r)
              (article_analysis d))
         (executed d ++ [UpdateNotified ids])%list.
Proof.
  destruct ids as [|i ids]; [left; reflexivity|].
  rewrite MarkNotified_cases by discriminate.
  destruct (too_many_variables (i :: ids)); [left | right]; reflexivity.
Qed.

Lemma MarkNotified_blogs (ids : list Z) (ts : string) (d : DB) :
  blogs (snd (MarkNotified ids ts d)) = blogs d.
Proof. destruct (MarkNotified_snd ids ts d) as [-> | ->]; reflexivity. Qed.

Lemma MarkNotified_articles (ids : list Z) (ts : string) (d : DB) :
  articles (snd (MarkNotified ids ts d)) = articles d.
Proof. destruct (MarkNotified_snd ids ts d) as [-> | ->]; reflexivity. Qed.

(** C10. [MarkNotified] changes nothing but the column [notified_at] of
    the analysis rows whose [article_id] is in the list: tables [blogs] and
    [articles] are the same, the analysis rows correspond one to one and
    agree on every other column, and a row whose article is not listed is
    the same row. With an empty list it returns a nil error, no statement
    is run and the database is the same. With a list of at most 32766 IDs
    (the parameters that SQLite binds in one statement) it returns a nil
    error, every listed row carries the timestamp, and exactly one UPDATE
    is run when the list is not empty. With a longer list it returns the
    error of the engine and the database is the same. *)
Theorem MarkNotified_frame (ids : list Z) (ts : string) (d : DB) :
  let d' := snd (MarkNotified ids ts d) in
  blogs d' = blogs d /\
  articles d' = articles d /\
  Forall2 (fun r r' =>
             same_but_notified_at r r' /\
             (~ In (article_id r) ids -> r' = r))
          (article_analysis d) (article_analysis d') /\
  (ids = [] -> fst (MarkNotified ids ts d) = None /\ d' = d) /\
  (Z.of_nat (List.length ids) <= sqlite_max_variables ->
   fst (MarkNotified ids ts d) = None /\
   Forall2 (fun r r' => In (article_id r) ids -> notified_at r' = Some ts)
           (article_analysis d) (article_analysis d') /\
   (ids <> [] -> executed d' = (executed d ++ [UpdateNotified ids])%list)) /\
  (sqlite_max_variables < Z.of_nat (List.length ids) ->
   fst (MarkNotified ids ts d) = Some ErrTooManyVariables /\ d' = d).
Proof.
  assert (Hsame : Forall2 (fun r r' =>
                    same_but_notified_at r r' /\
                    (~ In (article_id r) ids -> r' = r) /\
                    (In (article_id r) [] -> notified_at r' = Some ts))
                  (article_analysis d) (article_analysis d)).
  { rewrite <- (map_id (article_analysis d)) at 2.
    apply Forall2_map_r. intros r _.
    split; [apply same_but_notified_at_refl|]. split; [reflexivity|].
    intros []. }
  destruct ids as [|i ids].
  - simpl. split; [reflexivity|]. split; [reflexivity|]. split.
    { eapply Forall2_impl; [|exact Hsame]. simpl. tauto. }
    split; [auto|]. split.
    + intros _. split; [reflexivity|]. split; [|congruence].
      eapply Forall2_impl; [|exact Hsame]. simpl. tauto.
    + unfold sqlite_max_variables. simpl. lia.
  - intros d'. subst d'. rewrite MarkNotified_cases by discriminate.
    destruct (too_many_variables (i :: ids)) eqn:Et; cbn [fst snd].
    + split; [reflexivity|]. split; [reflexivity|]. split.
      { eapply Forall2_impl; [|exact Hsame]. simpl. tauto. }
      split; [discriminate|]. split; [|auto].
      intros H. rewrite too_many_variables_false in Et by exact H.
      discriminate.
    + cbn [blogs articles article_analysis executed].
      split; [reflexivity|]. split; [reflexivity|].
      assert (Hrow : forall r,
                let r' := if mem_id (article_id r) (i :: ids)
                          then set_notified ts r else r in
                same_but_notified_at r r' /\
                (~ In (article_id r) (i :: ids) -> r' = r) /\
                (In (article_id r) (i :: ids) -> notified_at r' = Some ts)).
      { intros r. cbv zeta.
        destruct (mem_id (article_id r) (i :: ids)) eqn:E.
        - apply mem_id_In in E.
          split; [apply set_notified_same|].
          split; [intros Hn; exfalso; exact (Hn E) | reflexivity].
        - assert (~ In (article_id r) (i :: ids))
            by (rewrite <- mem_id_In; congruence).
          split; [apply same_but_notified_at_refl|].
          split; [reflexivity | intros Hin; exfalso; exact (H Hin)]. }
      split; [apply Forall2_map_r; intros r _; split; apply Hrow|].
      split; [discriminate|]. split.
      * intros _. split; [reflexivity|].
        split; [apply Forall2_map_r; intros r _; apply Hrow | reflexivity].
      * intros H. rewrite too_many_variables_true in Et by exact H.
        discriminate.
Qed.

(** How a write changes table [article_analysis]: the rows that were there
    keep their place and their article and never lose a delivery mark, and
    the rows that are added belong to articles that had none. *)
Definition grows (rows rows' : list AnalysisRow) : Prop :=
  exists f extra,
    rows' = (map f rows ++ extra)%list /\
    (forall r, article_id (f r) = article_id r /\
               (notified_at r <> None -> notified_at (f r) <> None)) /\
    (forall x r, In x extra -> In r rows -> article_id r <> article_id x).

Lemma grows_refl rows : grows rows rows.
Proof.
  exists (fun r => r), []. rewrite map_id, app_nil_r.
  split; [reflexivity|]. split; [intros r; tauto | intros x r []].
Qed.

Lemma grows_map (f : AnalysisRow -> AnalysisRow) rows :
  (forall r, article_id (f r) = article_id r /\
             (notified_at r <> None -> notified_at (f r) <> None)) ->
  grows rows (map f rows).
Proof.
  intros H. exists f, []. rewrite app_nil_r.
  split; [reflexivity|]. split; [exact H | intros x r []].
Qed.

Lemma existsb_article_id_false rows k :
  existsb (fun r => article_id r =? k) rows = false ->
  forall r, In r rows -> article_id r <> k.
Proof.
  intros E r Hr Heq.
  assert (existsb (fun r => article_id r =? k) rows = true); [|congruence].
  apply existsb_exists. exists r. split; [exact Hr | lia].
Qed.

Lemma SaveArticleAnalysis_grows a d :
  grows (article_analysis d) (article_analysis (snd (SaveArticleAnalysis a d))).
Proof.
  unfold SaveArticleAnalysis; simpl.
  destruct (existsb _ _) eqn:E.
  - apply grows_map. intros r.
    destruct (article_id r =? ArticleID a); simpl; tauto.
  - exists (fun r => r), [new_analysis (next_id (map an_id (article_analysis d))) a].
    rewrite map_id. split; [reflexivity|]. split; [intros r; tauto|].
    intros x r [<-|[]] Hr. simpl.
    eapply existsb_article_id_false; eassumption.
Qed.

Lemma MarkNotified_grows ids ts d :
  grows (article_analysis d) (article_analysis (snd (MarkNotified ids ts d))).
Proof.
  destruct ids as [|i ids]; [apply grows_refl|].
  rewrite MarkNotified_cases by discriminate.
  destruct (too_many_variables (i :: ids)); [apply grows_refl|].
  cbn [snd article_analysis].
  apply grows_map. intros r.
  destruct (mem_id _ _); simpl; [|tauto].
  split; [reflexivity | congruence].
Qed.

Lemma insert_article_analysis b r d :
  article_analysis (snd (insert_article b r d)) = article_analysis d.
Proof. unfold insert_article. destruct (existsb _ _); reflexivity. Qed.

Lemma apply_op_grows d op :
  grows (article_analysis d) (article_analysis (apply_op d op)).
Proof.
  destruct op; simpl.
  - apply grows_refl.
  - unfold SaveArticle. rewrite insert_article_analysis. apply grows_refl.
  - apply SaveArticleAnalysis_grows.
  - apply MarkNotified_grows.
Qed.

Lemma grows_delivered d d' aid :
  grows (article_analysis d) (article_analysis d') ->
  delivered d aid -> delivered d' aid.
Proof.
  intros (f & extra & E & Hf & Hx) [(r0 & Hr0 & Hid0) Hall].
  unfold delivered. rewrite E. split.
  - exists (f r0). split; [|destruct (Hf r0); congruence].
    apply in_or_app; left; apply in_map; exact Hr0.
  - intros r Hr Hid. apply in_app_or in Hr as [Hr|Hr].
    + apply in_map_iff in Hr as (r1 & <- & Hr1).
      destruct (Hf r1) as [Ha Hn]. apply Hn, Hall; congruence.
    + exfalso. apply (Hx r r0 Hr Hr0). congruence.
Qed.

Lemma apply_ops_delivered ops d aid :
  delivered d aid -> delivered (apply_ops ops d) aid.
Proof.
  revert d. induction ops as [|op ops IH]; intros d H; simpl; [exact H|].
  apply IH. eapply grows_delivered; [apply apply_op_grows | exact H].
Qed.

Lemma grows_nth rows rows' i r :
  grows rows rows' -> nth_error rows i = Some r -> notified_at r <> None ->
  exists r', nth_error rows' i = Some r' /\
             article_id r' = article_id r /\ notified_at r' <> None.
Proof.
  intros (f & extra & -> & Hf & _) Hi Hn.
  exists (f r). destruct (Hf r) as [Ha Hn'].
  split; [|split; [exact Ha | exact (Hn' Hn)]].
  rewrite nth_error_app1.
  - now apply map_nth_error.
  - rewrite length_map. apply nth_error_Some. congruence.
Qed.

Lemma rows_UnnotifiedAnalyses_eq {rt : Runtime} cutoff d :
  rows_UnnotifiedAnalyses cutoff d =
  firstn 20
    (sort_by score_desc
       (sqlite_order_joined (SelectUnnotifiedAnalyses cutoff) d
          (unnotified_in_window cutoff d))).
Proof. reflexivity. Qed.

(** The rows of a query are rows that it selects, whatever the order in
    which the engine visits them. *)
Lemma sorted_articles_In {rt : Runtime} before q d l (x : ArticleRow) :
  In x (sort_by before (sqlite_order_articles q d l)) <-> In x l.
Proof.
  rewrite sort_by_In. split; apply Permutation_in;
    [|apply Permutation_sym]; apply sqlite_order_articles_perm.
Qed.

Lemma sorted_joined_In {rt : Runtime} before q d l
    (x : ArticleRow * AnalysisRow) :
  In x (sort_by before (sqlite_order_joined q d l)) <-> In x l.
Proof.
  rewrite sort_by_In. split; apply Permutation_in;
    [|apply Permutation_sym]; apply sqlite_order_joined_perm.
Qed.

Lemma sorted_articles_perm {rt : Runtime} before q d (l : list ArticleRow) :
  Permutation (sort_by before (sqlite_order_articles q d l)) l.
Proof.
  eapply perm_trans; [apply sort_by_perm | apply sqlite_order_articles_perm].
Qed.

Lemma sorted_joined_perm {rt : Runtime} before q d
    (l : list (ArticleRow * AnalysisRow)) :
  Permutation (sort_by before (sqlite_order_joined q d l)) l.
Proof.
  eapply perm_trans; [apply sort_by_perm | apply sqlite_order_joined_perm].
Qed.

(** The loop of [rows.Scan] gives every row, scanned, when each can be
    read, and the error of [Scan] otherwise. *)
Lemma scan_rows_cases {R A} (readable : R -> bool) (scan : R -> A)
    (rows : list R) :
  scan_rows readable scan rows =
  if forallb readable rows then Ok (map scan rows) else Err ErrScan.
Proof.
  induction rows as [|r rows IH]; simpl; [reflexivity|].
  destruct (readable r); simpl; [|reflexivity].
  rewrite IH. destruct (forallb readable rows); reflexivity.
Qed.

Lemma scan_rows_Ok {R A} (readable : R -> bool) (scan : R -> A)
    (rows : list R) (l : list A) :
  scan_rows readable scan rows = Ok l ->
  l = map scan rows /\ forallb readable rows = true.
Proof.
  rewrite scan_rows_cases. destruct (forallb readable rows); [|discriminate].
  intros H. inversion H. split; reflexivity.
Qed.

Lemma delivered_not_unnotified {rt : Runtime} d aid cutoff p :
  delivered d aid -> In p (rows_UnnotifiedAnalyses cutoff d) -> id (fst p) <> aid.
Proof.
  intros [_ Hall] Hp Hid.
  rewrite rows_UnnotifiedAnalyses_eq in Hp.
  apply In_firstn, sorted_joined_In in Hp.
  unfold unnotified_in_window in Hp.
  apply filter_In in Hp as [Hj Hc].
  apply joined_In in Hj as (_ & Haa & E).
  apply andb_true_iff in Hc as [_ Hnull].
  apply (Hall (snd p) Haa); [congruence|].
  destruct (notified_at (snd p)); [discriminate | reflexivity].
Qed.

Section StoreMethods.
Context {rt : Runtime}.
Variable env : Environment.

(** What a window query computes: nothing but an error for an unsupported
    window; otherwise one reading of the clock, and the scanned rows. *)
Lemma window_query_run {R A} window (rows : string -> DB -> list R)
    (readable : R -> bool) (scan : R -> A) w :
  window_query env window rows readable scan w =
  match window_duration window with
  | Err e => (Done (Err e), [], w)
  | Ok dur =>
      (Done (scan_rows readable scan
               (rows (formatRFC3339 (time_sub (clock env (ticks w)) dur))
                     (db w))),
       [], mkWorld (db w) (S (ticks w)) (chats w) (sends w))
  end.
Proof.
  unfold window_query, windowCutoff.
  destruct (window_duration window) as [dur|e]; reflexivity.
Qed.

End StoreMethods.

(** ** The store: the undelivered view *)


(** ** The store: articles *)

Lemma existsb_url_true (u : string) (l : list ArticleRow) :
  existsb (fun x => (url x =? u)%string) l = true <-> In u (map url l).
Proof.
  rewrite existsb_exists, in_map_iff. split.
  - intros (x & Hx & E). apply String.eqb_eq in E. exists x. auto.
  - intros (x & E & Hx). exists x. split; [exact Hx|]. now apply String.eqb_eq.
Qed.

Lemma insert_article_articles b r d :
  articles (snd (insert_article b r d)) =
  if existsb (fun x => (url x =? url r)%string) (articles d) then articles d
  else (articles d ++
          [mkArticleRow (next_id (map id (articles d))) (blog_domain r)
             (title r) (url r) (summary r) (published_at r) (scraped_at r)])%list.
Proof. unfold insert_article. destruct (existsb _ _); reflexivity. Qed.

(** A write never removes or changes a row of [articles]; it adds at most
    rows with new URLs. *)
Lemma apply_op_articles d op :
  url_unique d ->
  exists extra, articles (apply_op d op) = (articles d ++ extra)%list /\
                url_unique (apply_op d op).
Proof.
  intros Hu. destruct op as [bs|a|a|ids ts].
  - exists []. simpl. rewrite app_nil_r. split; [reflexivity | exact Hu].
  - unfold apply_op, SaveArticle, url_unique.
    rewrite insert_article_articles. simpl url.
    destruct (existsb _ _) eqn:E.
    + exists []. rewrite app_nil_r. split; [reflexivity | exact Hu].
    + eexists. split; [reflexivity|].
      rewrite map_app. simpl.
      apply NoDup_app; [exact Hu | repeat constructor; intros [] |].
      intros u Hin [<-|[]].
      apply existsb_url_true in Hin. congruence.
  - exists []. simpl. rewrite app_nil_r. split; [reflexivity | exact Hu].
  - exists []. unfold url_unique. simpl.
    rewrite MarkNotified_articles, app_nil_r.
    split; [reflexivity | exact Hu].
Qed.

Lemma apply_ops_articles ops d :
  url_unique d ->
  exists extra, articles (apply_ops ops d) = (articles d ++ extra)%list /\
                url_unique (apply_ops ops d).
Proof.
  revert d. induction ops as [|op ops IH]; intros d Hu; simpl.
  - exists []. rewrite app_nil_r. split; [reflexivity | exact Hu].
  - destruct (apply_op_articles d op Hu) as (e1 & E1 & Hu1).
    destruct (IH _ Hu1) as (e2 & E2 & Hu2).
    exists (e1 ++ e2)%list. rewrite E2, E1, app_assoc.
    split; [reflexivity | exact Hu2].
Qed.

Lemma unique_row (u : string) (l : list ArticleRow) :
  NoDup (map url l) -> In u (map url l) ->
  exists r, filter (fun x => (url x =? u)%string) l = [r] /\ url r = u.
Proof.
  induction l as [|x l IH]; intros Hn Hin; [destruct Hin|].
  simpl in Hn. inversion Hn as [|? ? Hnot Hn']; subst. simpl.
  destruct (url x =? u)%string eqn:E.
  - apply String.eqb_eq in E. exists x. split; [|exact E].
    f_equal. destruct (filter _ l) as [|y l'] eqn:F; [reflexivity|].
    exfalso. apply Hnot.
    assert (Hy : In y (filter (fun x => (url x =? u)%string) l))
      by (rewrite F; left; reflexivity).
    apply filter_In in Hy as [Hy Ey]. apply String.eqb_eq in Ey.
    rewrite E, <- Ey. apply in_map. exact Hy.
  - apply String.eqb_neq in E. destruct Hin as [Hin|Hin]; [congruence|].
    apply IH; assumption.
Qed.

Lemma filter_url_prefix (u : string) (l extra : list ArticleRow) :
  NoDup (map url (l ++ extra)) -> In u (map url l) ->
  filter (fun x => (url x =? u)%string) (l ++ extra) =
  filter (fun x => (url x =? u)%string) l.
Proof.
  intros Hn Hin. rewrite filter_app.
  replace (filter _ extra) with (@nil ArticleRow); [apply app_nil_r|].
  symmetry. destruct (filter _ extra) as [|y l'] eqn:F; [reflexivity|].
  exfalso.
  assert (Hy : In y (filter (fun x => (url x =? u)%string) extra))
    by (rewrite F; left; reflexivity).
  apply filter_In in Hy as [Hy Ey]. apply String.eqb_eq in Ey.
  rewrite map_app in Hn.
  apply (NoDup_app_disjoint _ _ u Hn Hin).
  rewrite <- Ey. apply in_map. exact Hy.
Qed.

Lemma SaveArticle_ok a d : fst (SaveArticle a d) = None.
Proof.
  unfold SaveArticle, insert_article. destruct (existsb _ _); reflexivity.
Qed.

Lemma SaveArticle_url_present a d :
  In (URL a) (map url (articles (snd (SaveArticle a d)))).
Proof.
  unfold SaveArticle. rewrite insert_article_articles. simpl url.
  destruct (existsb _ _) eqn:E.
  - apply existsb_url_true. exact E.
  - rewrite map_app. apply in_or_app. right. left. reflexivity.
Qed.

(** C7. Saving an article is idempotent on its URL. After [SaveArticle a],
    whatever writes follow, in the same cycle or in later ones, a second
    save with the same URL returns a nil error and leaves the three
    tables as they are; table [articles] holds exactly one row with that
    URL, the row that the first save left there. A plain [INSERT] of the
    same row would have failed on the [UNIQUE] constraint. *)
Theorem SaveArticle_idempotent (d : DB) (a a' : Article) (ops : list StoreOp) :
  url_unique d ->
  URL a' = URL a ->
  let d1 := snd (SaveArticle a d) in
  let d2 := apply_ops ops d1 in
  let d3 := snd (SaveArticle a' d2) in
  fst (SaveArticle a d) = None /\
  fst (SaveArticle a' d2) = None /\
  articles d3 = articles d2 /\
  blogs d3 = blogs d2 /\
  article_analysis d3 = article_analysis d2 /\
  (exists r, rows_with_url (URL a) d1 = [r] /\
             rows_with_url (URL a) d3 = [r]) /\
  fst (insert_article false
         (mkArticleRow 0 (BlogDomain a') (Title a') (URL a') (Summary a')
            (formatRFC3339 (PublishedAt a')) (formatRFC3339 (ScrapedAt a')))
         d2) = Some (ErrConstraint "articles.url").
Proof.
  intros Hu Hurl d1 d2 d3.
  destruct (apply_op_articles d (OpSaveArticle a) Hu) as (e1 & _ & Hu1).
  change (apply_op d (OpSaveArticle a)) with d1 in Hu1.
  destruct (apply_ops_articles ops d1 Hu1) as (extra & E2 & Hu2).
  fold d2 in E2, Hu2.
  assert (Hin1 : In (URL a) (map url (articles d1)))
    by apply SaveArticle_url_present.
  assert (Hex : existsb (fun x => (url x =? URL a')%string) (articles d2) = true).
  { apply existsb_url_true. rewrite Hurl, E2, map_app.
    apply in_or_app. left. exact Hin1. }
  assert (E3 : articles d3 = articles d2).
  { unfold d3, SaveArticle. rewrite insert_article_articles. simpl url.
    rewrite Hex. reflexivity. }
  split; [apply SaveArticle_ok|]. split; [apply SaveArticle_ok|].
  split; [exact E3|].
  split; [unfold d3, SaveArticle, insert_article;
          destruct (existsb _ _); reflexivity|].
  split; [unfold d3, SaveArticle; apply insert_article_analysis|].
  split.
  - destruct (unique_row (URL a) (articles d1) Hu1 Hin1) as (r & Hr & _).
    exists r. split; [exact Hr|].
    unfold rows_with_url. rewrite E3, E2.
    rewrite filter_url_prefix; [exact Hr | | exact Hin1].
    rewrite <- E2. exact Hu2.
  - unfold insert_article. simpl url. rewrite Hex. reflexivity.
Qed.

(** ** Timestamps as text *)

Ltac dlia := Z.to_euclidean_division_equations; lia.

Lemma digit_compare (a b : Z) :
  0 <= a < 10 -> 0 <= b < 10 ->
  Ascii.compare (digit a) (digit b) = (a ?= b).
Proof.
  intros Ha Hb. unfold Ascii.compare, digit.
  rewrite !N_ascii_embedding by lia.
  destruct (Z.compare_spec a b) as [E|L|G].
  - subst. apply N.compare_refl.
  - apply N.compare_lt_iff. lia.
  - apply N.compare_gt_iff. lia.
Qed.

Lemma compare_same_head (c : ascii) (s t : string) :
  String.compare (String c s) (String c t) = String.compare s t.
Proof.
  simpl. unfold Ascii.compare. rewrite N.compare_refl. reflexivity.
Qed.

Lemma digits_onto_step (f : nat) (u : Z) (acc : string) :
  digits_onto (S f) u acc =
  if u <? 10 then String (digit u) acc
  else digits_onto f (u / 10) (String (digit (u mod 10)) acc).
Proof. reflexivity. Qed.

Lemma appendInt_2 (m : Z) : 0 <= m < 100 -> appendInt m 2 = pad2 m.
Proof.
  intros H. unfold appendInt, pad2.
  rewrite Z.abs_eq by lia.
  replace (m <? 0) with false by (symmetry; apply Z.ltb_ge; lia).
  rewrite digits_onto_step.
  destruct (m <? 10) eqn:E.
  - apply Z.ltb_lt in E.
    rewrite Z.div_small, Z.mod_small by lia. reflexivity.
  - apply Z.ltb_ge in E. rewrite digits_onto_step.
    replace (m / 10 <? 10) with true by (symmetry; apply Z.ltb_lt; dlia).
    reflexivity.
Qed.

Lemma appendInt_4 (y : Z) : 0 <= y < 10000 -> appendInt y 4 = pad4 y.
Proof.
  intros H. unfold appendInt, pad4.
  rewrite Z.abs_eq by lia.
  replace (y <? 0) with false by (symmetry; apply Z.ltb_ge; lia).
  rewrite digits_onto_step.
  destruct (y <? 10) eqn:E1.
  { apply Z.ltb_lt in E1.
    replace (y / 10) with 0 by dlia. rewrite (Z.mod_small y) by lia.
    reflexivity. }
  apply Z.ltb_ge in E1. rewrite digits_onto_step.
  destruct (y / 10 <? 10) eqn:E2.
  { apply Z.ltb_lt in E2.
    replace (y / 10 / 10) with 0 by dlia.
    rewrite (Z.mod_small (y / 10)) by dlia. reflexivity. }
  apply Z.ltb_ge in E2. rewrite digits_onto_step.
  destruct (y / 10 / 10 <? 10) eqn:E3.
  { apply Z.ltb_lt in E3.
    replace (y / 10 / 10 / 10) with 0 by dlia.
    rewrite (Z.mod_small (y / 10 / 10)) by dlia. reflexivity. }
  apply Z.ltb_ge in E3. rewrite digits_onto_step.
  replace (y / 10 / 10 / 10 <? 10) with true
    by (symmetry; apply Z.ltb_lt; dlia).
  reflexivity.
Qed.

Lemma two_digits_compare (a b : Z) (k : comparison) :
  0 <= a < 100 -> 0 <= b < 100 ->
  match a / 10 ?= b / 10 with
  | Eq => match a mod 10 ?= b mod 10 with Eq => k | c => c end
  | c => c
  end = match a ?= b with Eq => k | c => c end.
Proof.
  intros Ha Hb.
  destruct (Z.compare_spec (a / 10) (b / 10));
    destruct (Z.compare_spec (a mod 10) (b mod 10));
    destruct (Z.compare_spec a b);
    try reflexivity; exfalso; dlia.
Qed.

Lemma pad2_compare (a b : Z) (s t : string) :
  0 <= a < 100 -> 0 <= b < 100 ->
  String.compare (pad2 a ++ s) (pad2 b ++ t) =
  match a ?= b with Eq => String.compare s t | c => c end.
Proof.
  intros Ha Hb. unfold pad2. simpl.
  rewrite !digit_compare by dlia.
  apply two_digits_compare; assumption.
Qed.

Lemma pad4_compare (a b : Z) (s t : string) :
  0 <= a < 10000 -> 0 <= b < 10000 ->
  String.compare (pad4 a ++ s) (pad4 b ++ t) =
  match a ?= b with Eq => String.compare s t | c => c end.
Proof.
  intros Ha Hb. unfold pad4. simpl.
  rewrite !digit_compare by dlia.
  destruct (Z.compare_spec (a / 10 / 10 / 10) (b / 10 / 10 / 10));
    destruct (Z.compare_spec (a / 10 / 10 mod 10) (b / 10 / 10 mod 10));
    destruct (Z.compare_spec (a / 10 mod 10) (b / 10 mod 10));
    destruct (Z.compare_spec (a mod 10) (b mod 10));
    destruct (Z.compare_spec a b);
    try reflexivity; exfalso; dlia.
Qed.

Lemma days_in_month_bounds (y m : Z) : 28 <= days_in_month y m <= 31.
Proof.
  unfold days_in_month.
  destruct (m =? 2); [destruct (is_leap y); lia|].
  destruct ((m =? 4) || (m =? 6) || (m =? 9) || (m =? 11)); lia.
Qed.

Lemma formatRFC3339_pads (t : Time) :
  valid_time t -> four_digit_year t ->
  formatRFC3339 t =
  pad4 (t_year t) ++ "-" ++ pad2 (t_month t) ++ "-" ++ pad2 (t_day t) ++ "T" ++
  pad2 (t_hour t) ++ ":" ++ pad2 (t_minute t) ++ ":" ++ pad2 (t_second t) ++ "Z".
Proof.
  intros (Hm & Hd & Hh & Hmi & Hs & _) Hy. unfold four_digit_year in Hy.
  pose proof (days_in_month_bounds (t_year t) (t_month t)).
  unfold formatRFC3339.
  rewrite appendInt_4 by lia. rewrite !appendInt_2 by lia. reflexivity.
Qed.

(** The order of two timestamps as text is the order of the readings to the
    second. *)
Lemma formatRFC3339_compare (t u : Time) :
  valid_time t -> four_digit_year t ->
  valid_time u -> four_digit_year u ->
  String.compare (formatRFC3339 t) (formatRFC3339 u) =
  lex_compare (sec_fields t) (sec_fields u).
Proof.
  intros Vt Yt Vu Yu.
  rewrite (formatRFC3339_pads t Vt Yt), (formatRFC3339_pads u Vu Yu).
  destruct Vt as (Hm & Hd & Hh & Hmi & Hs & _).
  destruct Vu as (Hm' & Hd' & Hh' & Hmi' & Hs' & _).
  pose proof (days_in_month_bounds (t_year t) (t_month t)).
  pose proof (days_in_month_bounds (t_year u) (t_month u)).
  unfold four_digit_year in *.
  rewrite pad4_compare by lia.
  change ("-" ++ ?x) with (String "-"%char x). rewrite compare_same_head.
  rewrite pad2_compare by lia.
  change ("-" ++ ?x) with (String "-"%char x). rewrite compare_same_head.
  rewrite pad2_compare by lia.
  change ("T" ++ ?x) with (String "T"%char x). rewrite compare_same_head.
  rewrite pad2_compare by lia.
  change (":" ++ ?x) with (String ":"%char x). rewrite compare_same_head.
  rewrite pad2_compare by lia.
  change (":" ++ ?x) with (String ":"%char x). rewrite compare_same_head.
  rewrite pad2_compare by lia.
  reflexivity.
Qed.

Lemma lex_compare_antisym (a b : list Z) :
  lex_compare a b = CompOpp (lex_compare b a).
Proof.
  revert b. induction a as [|x a IH]; intros [|y b]; simpl; try reflexivity.
  rewrite (Z.compare_antisym y x).
  destruct (y ?= x); simpl; [apply IH | reflexivity | reflexivity].
Qed.

Lemma time_compare_truncSecond (t u : Time) :
  time_compare (truncSecond t) (truncSecond u) =
  lex_compare (sec_fields t) (sec_fields u).
Proof.
  unfold time_compare, fields, sec_fields, truncSecond. simpl.
  repeat match goal with |- context [?a ?= ?b] =>
    destruct (a ?= b); try reflexivity end.
Qed.

(** [published_at >= cutoff] on the stored text is [>=] on the instants cut
    to the second. *)
Lemma text_geb_formatRFC3339 (t c : Time) :
  valid_time t -> four_digit_year t ->
  valid_time c -> four_digit_year c ->
  text_geb (formatRFC3339 t) (formatRFC3339 c) =
  time_geb (truncSecond t) (truncSecond c).
Proof.
  intros Vt Yt Vc Yc. unfold text_geb, String.leb, time_geb.
  rewrite formatRFC3339_compare by assumption.
  rewrite time_compare_truncSecond.
  rewrite (lex_compare_antisym (sec_fields t) (sec_fields c)).
  destruct (lex_compare (sec_fields c) (sec_fields t)); reflexivity.
Qed.

Lemma truncSecond_whole (t : Time) : t_nsec t = 0 -> truncSecond t = t.
Proof. destruct t; simpl; intros ->; reflexivity. Qed.

Lemma time_sub_24h (t : Time) : time_sub t (24 * time_Hour) = prev_day t.
Proof. reflexivity. Qed.

Lemma prev_day_valid (t : Time) : valid_time t -> valid_time (prev_day t).
Proof.
  intros (Hm & Hd & Hrest). unfold prev_day, valid_time.
  destruct (1 <? t_day t) eqn:E1; simpl.
  - apply Z.ltb_lt in E1. repeat split; try tauto; lia.
  - destruct (1 <? t_month t) eqn:E2; simpl.
    + apply Z.ltb_lt in E2.
      pose proof (days_in_month_bounds (t_year t) (t_month t - 1)).
      repeat split; try tauto; lia.
    + change (days_in_month (t_year t - 1) 12) with 31.
      repeat split; try tauto; lia.
Qed.

Lemma prev_day_year (t : Time) :
  t_year t - 1 <= t_year (prev_day t) <= t_year t.
Proof.
  unfold prev_day.
  destruct (1 <? t_day t); [simpl; lia|].
  destruct (1 <? t_month t); simpl; lia.
Qed.

Lemma prev_day_nsec (t : Time) : t_nsec (prev_day t) = t_nsec t.
Proof.
  unfold prev_day.
  destruct (1 <? t_day t); [reflexivity|].
  destruct (1 <? t_month t); reflexivity.
Qed.

(** The zero time lies before the day before any day of year 2 or later. *)
Lemma zeroTime_before_prev_day (t : Time) :
  valid_time t -> 2 <= t_year t ->
  time_geb (truncSecond zeroTime) (truncSecond (prev_day t)) = false.
Proof.
  intros (Hm & Hd & _) Hy. unfold time_geb.
  rewrite time_compare_truncSecond. unfold sec_fields, prev_day.
  destruct (1 <? t_day t) eqn:E1; [|destruct (1 <? t_month t) eqn:E2];
    cbn [t_year t_month t_day t_hour t_minute t_second zeroTime lex_compare].
  - replace (1 ?= t_year t) with Lt; [reflexivity|].
    symmetry; apply Z.compare_lt_iff; lia.
  - replace (1 ?= t_year t) with Lt; [reflexivity|].
    symmetry; apply Z.compare_lt_iff; lia.
  - destruct (Z.compare_spec 1 (t_year t - 1)) as [E|L|G];
      [reflexivity | reflexivity | lia].
Qed.

Lemma zeroTime_valid : valid_time zeroTime /\ four_digit_year zeroTime.
Proof.
  unfold valid_time, four_digit_year, zeroTime, days_in_month. simpl. lia.
Qed.

Lemma lex_compare_refl (a : list Z) : lex_compare a a = Eq.
Proof.
  induction a as [|x a IH]; simpl; [reflexivity|].
  rewrite Z.compare_refl. exact IH.
Qed.

Lemma time_geb_refl (t : Time) : time_geb t t = true.
Proof. unfold time_geb, time_compare. now rewrite lex_compare_refl. Qed.

Lemma rows_ArticlesByTimeWindow_In {rt : Runtime} (cutoff : string) (d : DB)
    (r : ArticleRow) :
  In r (rows_ArticlesByTimeWindow cutoff d) <->
  In r (articles d) /\ text_geb (published_at r) cutoff = true.
Proof.
  unfold rows_ArticlesByTimeWindow.
  rewrite sorted_articles_In, filter_In. tauto.
Qed.

Lemma SaveArticle_row (a : Article) (d : DB) (r : ArticleRow) :
  In r (articles (snd (SaveArticle a d))) ->
  In r (articles d) \/
  (url r = URL a /\ published_at r = formatRFC3339 (PublishedAt a)).
Proof.
  unfold SaveArticle. rewrite insert_article_articles.
  destruct (existsb _ _); [tauto|].
  intros H. apply in_app_or in H as [H|[<-|[]]]; [tauto|].
  right. split; reflexivity.
Qed.

(** C3, as the code has it. For the "24h" window and a clock reading [now]
    in the years 2 to 9999, [ArticlesByTimeWindow] selects exactly the rows
    of [articles] whose [published_at] text is [>=] the text of
    [now - 24h]. It returns them, scanned, when the driver can read the two
    time texts of each of them, and the error of [Scan] otherwise. For a
    row that [SaveArticle] stored from a published time [t] with a
    four-digit year, being selected is: [t] cut to the second is not before
    [now - 24h] cut to the second; when both are whole seconds it is
    [t >= now - 24h]. An article published exactly at [now - 24h] is
    selected; an article with the zero published time is not. *)
Theorem ArticlesByTimeWindow_24h (rt : Runtime) (env : Environment) (w : World) :
  let now := clock env (ticks w) in
  let cutoffT := time_sub now (24 * time_Hour) in
  let cutoff := formatRFC3339 cutoffT in
  valid_time now ->
  2 <= t_year now <= 9999 ->
  ArticlesByTimeWindow env "24h" w =
    (Done (if forallb article_readable
                (rows_ArticlesByTimeWindow cutoff (db w))
           then Ok (map scanArticle (rows_ArticlesByTimeWindow cutoff (db w)))
           else Err ErrScan),
     [], mkWorld (db w) (S (ticks w)) (chats w) (sends w)) /\
  (forall r, In r (rows_ArticlesByTimeWindow cutoff (db w)) <->
             In r (articles (db w)) /\ text_geb (published_at r) cutoff = true) /\
  (forall a d r, In r (articles (snd (SaveArticle a d))) ->
                 In r (articles d) \/
                 (url r = URL a /\
                  published_at r = formatRFC3339 (PublishedAt a))) /\
  (forall r t, valid_time t -> four_digit_year t ->
               In r (articles (db w)) -> published_at r = formatRFC3339 t ->
               (In r (rows_ArticlesByTimeWindow cutoff (db w)) <->
                time_geb (truncSecond t) (truncSecond cutoffT) = true)) /\
  (forall r t, valid_time t -> four_digit_year t ->
               t_nsec t = 0 -> t_nsec now = 0 ->
               In r (articles (db w)) -> published_at r = formatRFC3339 t ->
               (In r (rows_ArticlesByTimeWindow cutoff (db w)) <->
                time_geb t cutoffT = true)) /\
  (forall r, In r (articles (db w)) -> published_at r = cutoff ->
             In r (rows_ArticlesByTimeWindow cutoff (db w))) /\
  (forall r, published_at r = formatRFC3339 zeroTime ->
             ~ In r (rows_ArticlesByTimeWindow cutoff (db w))).
Proof.
  intros now cutoffT cutoff Vnow Ynow.
  assert (EcT : cutoffT = prev_day now) by apply time_sub_24h.
  assert (Vc : valid_time cutoffT) by (rewrite EcT; now apply prev_day_valid).
  assert (Yc : four_digit_year cutoffT).
  { unfold four_digit_year. rewrite EcT.
    pose proof (prev_day_year now). lia. }
  assert (Hmain : forall r t, valid_time t -> four_digit_year t ->
            In r (articles (db w)) -> published_at r = formatRFC3339 t ->
            (In r (rows_ArticlesByTimeWindow cutoff (db w)) <->
             time_geb (truncSecond t) (truncSecond cutoffT) = true)).
  { intros r t Vt Yt Hr Hp. rewrite rows_ArticlesByTimeWindow_In, Hp.
    unfold cutoff. rewrite text_geb_formatRFC3339 by assumption. tauto. }
  split; [|split; [|split; [|split; [|split; [|split]]]]].
  - unfold ArticlesByTimeWindow. rewrite window_query_run.
    cbn [window_duration String.eqb Ascii.eqb Bool.eqb].
    rewrite scan_rows_cases. reflexivity.
  - intros r. apply rows_ArticlesByTimeWindow_In.
  - intros a d r. apply SaveArticle_row.
  - exact Hmain.
  - intros r t Vt Yt Nt Nn Hr Hp.
    rewrite (Hmain r t Vt Yt Hr Hp).
    rewrite (truncSecond_whole t Nt).
    rewrite (truncSecond_whole cutoffT); [tauto|].
    rewrite EcT, prev_day_nsec. exact Nn.
  - intros r Hr Hp. apply (Hmain r cutoffT Vc Yc Hr Hp).
    apply time_geb_refl.
  - intros r Hp Hin. apply rows_ArticlesByTimeWindow_In in Hin as [_ Hge].
    rewrite Hp in Hge. unfold cutoff in Hge.
    rewrite text_geb_formatRFC3339 in Hge;
      [| apply zeroTime_valid | apply zeroTime_valid | exact Vc | exact Yc].
    rewrite EcT, zeroTime_before_prev_day in Hge; [discriminate | exact Vnow | lia].
Qed.

(** C3, as it is stated, fails within a second: with the clock at
    2026-10-30 12:00:00.5, an article published at 2026-10-29 12:00:00 is
    half a second earlier than [now - 24h], and the "24h" window returns
    it. *)
Lemma window_24h_within_a_second :
  let w := mkWorld (snd (SaveArticle early_article emptyDB)) 0 0 0 in
  let now := clock half_second_env (ticks w) in
  time_geb (PublishedAt early_article) (time_sub now (24 * time_Hour)) = false /\
  exists a,
    fst (fst (ArticlesByTimeWindow (rt := sample_runtime) half_second_env
                "24h" w)) = Done (Ok [a]) /\
    URL a = URL early_article.
Proof.
  split; [reflexivity|].
  eexists. split; [vm_compute; reflexivity | reflexivity].
Qed.

(** ** Running commands *)

Section Runs.
Context {rt : Runtime}.
Variable env : Environment.

Lemma bind_run {A B} (m : M A) (k : A -> M B) (w : World) :
  bind m k w =
  match fst (fst (m w)) with
  | Done a =>
      (fst (fst (k a (snd (m w)))),
       (snd (fst (m w)) ++ snd (fst (k a (snd (m w)))))%list,
       snd (k a (snd (m w))))
  | Exit => (Exit, snd (fst (m w)), snd (m w))
  end.
Proof.
  unfold bind. destruct (m w) as [[[a|] ev] w1]; simpl; [|reflexivity].
  destruct (k a w1) as [[r ev'] w2]; reflexivity.
Qed.

Lemma for_each_app {A} (l1 l2 : list A) (body : A -> M unit) (w : World) :
  for_each (l1 ++ l2) body w = (for_each l1 body ;; for_each l2 body) w.
Proof.
  revert w. induction l1 as [|x l1 IH]; intros w; simpl.
  - rewrite bind_run. simpl. destruct (for_each l2 body w) as [[r ev] w']. reflexivity.
  - rewrite !bind_run. destruct (body x w) as [[[[]|] ev] w1]; simpl; [|reflexivity].
    rewrite IH, !bind_run.
    destruct (for_each l1 body w1) as [[[[]|] ev1] w2]; simpl.
    + rewrite app_assoc. reflexivity.
    + reflexivity.
Qed.

(** *** Stage B gives up *)

Lemma summarize_loop_fails (article : Article) (todo : nat) :
  forall (attempt : Z) (lastErr : error) (w : World),
    (forall i, (i < todo)%nat -> attempt_fails env (chats w + i) article) ->
    summarize_loop env article todo attempt lastErr w =
    (Done (Err (ErrSummarizeFailed (Title article) maxRetries
                  match todo with
                  | O => lastErr
                  | S k => attempt_error env (chats w + k)
                             (attempt + Z.of_nat k) article
                  end)),
     failed_attempts article todo attempt,
     mkWorld (db w) (ticks w) (chats w + todo) (sends w)).
Proof.
  induction todo as [|todo IH]; intros attempt lastErr w H.
  - simpl. rewrite Nat.add_0_r. destruct w; reflexivity.
  - assert (H0 : attempt_fails env (chats w) article).
    { rewrite <- (Nat.add_0_r (chats w)). apply H. lia. }
    set (w1 := mkWorld (db w) (ticks w) (S (chats w)) (sends w)).
    assert (H1 : forall i, (i < todo)%nat ->
                           attempt_fails env (chats w1 + i) article).
    { intros i Hi. simpl. replace (S (chats w + i)) with (chats w + S i)%nat by lia.
      apply H. lia. }
    assert (Hrest : forall e,
      summarize_loop env article todo (attempt + 1) e w1 =
      (Done (Err (ErrSummarizeFailed (Title article) maxRetries
                    match todo with
                    | O => e
                    | S k => attempt_error env (chats w + S k)
                               (attempt + Z.of_nat (S k)) article
                    end)),
       failed_attempts article todo (attempt + 1),
       mkWorld (db w) (ticks w) (chats w + S todo) (sends w))).
    { intros e. rewrite (IH (attempt + 1) e w1 H1). simpl.
      replace (S (chats w + todo)) with (chats w + S todo)%nat by lia.
      destruct todo as [|k]; [reflexivity|].
      replace (S (chats w + k)) with (chats w + S k)%nat by lia.
      replace (attempt + 1 + Z.of_nat k) with (attempt + Z.of_nat (S k)) by lia.
      reflexivity. }
    unfold attempt_fails, summary_reply in H0.
    cbn [summarize_loop]. unfold ChatCompletion, time_Sleep, emit.
    rewrite !bind_run. cbn [fst snd].
    destruct (backend env (chats w) summarySystemPrompt
                (summaryUserPrompt article)) as [content|e] eqn:E.
    + rewrite H0. rewrite !bind_run. cbn [fst snd]. fold w1.
      rewrite Hrest. cbn [fst snd app failed_attempts].
      destruct todo as [|k].
      * unfold attempt_error, summary_reply.
        rewrite Nat.add_0_r, Z.add_0_r, E. reflexivity.
      * reflexivity.
    + rewrite !bind_run. cbn [fst snd]. fold w1.
      rewrite Hrest. cbn [fst snd app failed_attempts].
      destruct todo as [|k].
      * unfold attempt_error, summary_reply.
        rewrite Nat.add_0_r, Z.add_0_r, E. reflexivity.
      * reflexivity.
Qed.

End Runs.

Lemma SaveArticleAnalysis_row (a : ArticleAnalysis) (d : DB) :
  (exists r, In r (article_analysis (snd (SaveArticleAnalysis a d))) /\
             article_id r = ArticleID a) /\
  (forall r, In r (article_analysis (snd (SaveArticleAnalysis a d))) ->
             article_id r = ArticleID a ->
             relevance r = Relevance a /\ quality r = Quality a /\
             timeliness r = Timeliness a /\ total_score r = TotalScore a /\
             category r = Category a /\ keywords r = Keywords a /\
             ai_summary r = AISummary a /\ title_cn r = TitleCN a /\
             recommend_reason r = RecommendReason a).
Proof.
  unfold SaveArticleAnalysis. cbn [snd article_analysis].
  destruct (existsb _ _) eqn:E; split.
  - apply existsb_exists in E as (r0 & Hr0 & E0).
    exists (update_analysis a r0). split; [|simpl; lia].
    apply in_map_iff. exists r0. rewrite E0. auto.
  - intros r Hr Hid. apply in_map_iff in Hr as (r0 & <- & Hr0).
    destruct (article_id r0 =? ArticleID a) eqn:E0.
    + repeat split.
    + apply Z.eqb_neq in E0. contradiction.
  - eexists. split; [apply in_or_app; right; left; reflexivity | reflexivity].
  - intros r Hr Hid. apply in_app_or in Hr as [Hr|[<-|[]]].
    + exfalso. eapply existsb_article_id_false; eassumption.
    + repeat split.
Qed.

Section StageB.
Context {rt : Runtime}.
Variable env : Environment.

Lemma ScoreArticle_run (article : Article) (w : World) :
  ScoreArticle env article w =
  (Done match backend env (chats w) scoreSystemPrompt (scoreUserPrompt article) with
        | Err e => Err (ErrScoreArticle (Title article) e)
        | Ok content =>
            match json_Unmarshal_ScoreResult
                    (sanitizeJSON (stripCodeFence content)) with
            | None => Err (ErrParseScore (Title article)
                             (sanitizeJSON (stripCodeFence content)))
            | Some result => Ok result
            end
        end,
   [EvChat scoreSystemPrompt (scoreUserPrompt article)],
   mkWorld (db w) (ticks w) (S (chats w)) (sends w)).
Proof.
  unfold ScoreArticle, ChatCompletion, bind, ret.
  destruct (backend env (chats w) _ _) as [content|e]; [|reflexivity].
  destruct (json_Unmarshal_ScoreResult _); reflexivity.
Qed.

Lemma store_exec_run (f : DB -> option error * DB) (w : World) :
  store_exec f w =
  (Done (fst (f (db w))), [],
   mkWorld (snd (f (db w))) (ticks w) (chats w) (sends w)).
Proof. unfold store_exec. destruct (f (db w)); reflexivity. Qed.

(** C5. When the three attempts of Stage B all fail, [SummarizeArticle]
    has called the model exactly [maxRetries = 3] times, has slept
    [attempt * 2s] after attempt 1, 2 and 3, and returns an error that
    wraps the error of the last attempt. In the pipeline, after a Stage A
    that succeeded, the analysis is then saved all the same: the row of the
    article has the Stage-A columns of the score result and empty Stage-B
    columns. *)
Theorem SummarizeArticle_gives_up (w : World) (article : Article) :
  (forall i, (i < 3)%nat -> attempt_fails env (chats w + i) article) ->
  let chat := EvChat summarySystemPrompt (summaryUserPrompt article) in
  maxRetries = 3 /\
  SummarizeArticle env article w =
    (Done (Err (ErrSummarizeFailed (Title article) 3
                  (attempt_error env (chats w + 2) 3 article))),
     [chat; EvSleep (1 * 2 * time_Second);
      chat; EvSleep (2 * 2 * time_Second);
      chat; EvSleep (3 * 2 * time_Second)],
     mkWorld (db w) (ticks w) (chats w + 3) (sends w)) /\
  (forall w0 sr,
      chats w = S (chats w0) ->
      score_succeeds env (chats w0) article sr ->
      let analysis := analysis_of_score article sr (clock env (ticks w0)) in
      let w' := snd (pipeline_analyze env article w0) in
      fst (fst (pipeline_analyze env article w0)) = Done tt /\
      db w' = snd (SaveArticleAnalysis analysis (db w0)) /\
      (exists r, In r (article_analysis (db w')) /\
                 article_id r = a_ID article) /\
      (forall r, In r (article_analysis (db w')) ->
                 article_id r = a_ID article ->
                 relevance r = sr_Relevance sr /\
                 quality r = sr_Quality sr /\
                 timeliness r = sr_Timeliness sr /\
                 total_score r =
                   int_add (int_add (sr_Relevance sr) (sr_Quality sr))
                           (sr_Timeliness sr) /\
                 category r = sr_Category sr /\
                 keywords r = strings_Join (sr_Keywords sr) ", " /\
                 ai_summary r = "" /\ title_cn r = "" /\
                 recommend_reason r = "")).
Proof.
  intros H chat.
  assert (Hsum : forall w1, chats w1 = chats w ->
            SummarizeArticle env article w1 =
            (Done (Err (ErrSummarizeFailed (Title article) 3
                          (attempt_error env (chats w1 + 2) 3 article))),
             [chat; EvSleep (1 * 2 * time_Second);
              chat; EvSleep (2 * 2 * time_Second);
              chat; EvSleep (3 * 2 * time_Second)],
             mkWorld (db w1) (ticks w1) (chats w1 + 3) (sends w1))).
  { intros w1 E. unfold SummarizeArticle.
    change (Z.to_nat maxRetries) with 3%nat.
    rewrite summarize_loop_fails; [reflexivity|].
    intros i Hi. rewrite E. apply H. exact Hi. }
  split; [reflexivity|]. split; [apply Hsum; reflexivity|].
  intros w0 sr Hc (content & Hb & Hj) analysis w'.
  set (w1 := mkWorld (db w0) (S (ticks w0)) (S (chats w0)) (sends w0)).
  assert (Hrun : pipeline_analyze env article w0 =
            (Done tt,
             (EvChat scoreSystemPrompt (scoreUserPrompt article)
              :: [chat; EvSleep (1 * 2 * time_Second);
                  chat; EvSleep (2 * 2 * time_Second);
                  chat; EvSleep (3 * 2 * time_Second)] ++
                 [EvWarnSummarize article
                    (ErrSummarizeFailed (Title article) 3
                       (attempt_error env (chats w1 + 2) 3 article))])%list,
             mkWorld (snd (SaveArticleAnalysis analysis (db w0)))
                     (S (ticks w0)) (chats w1 + 3) (sends w0))).
  { unfold pipeline_analyze, enrich_scored, bind.
    rewrite ScoreArticle_run, Hb, Hj.
    unfold time_Now. cbn [db ticks chats sends]. fold w1.
    rewrite (Hsum w1) by (simpl; lia).
    unfold emit, ret. rewrite store_exec_run. reflexivity. }
  unfold w'. rewrite Hrun. cbn [fst snd db].
  split; [reflexivity|]. split; [reflexivity|].
  destruct (SaveArticleAnalysis_row analysis (db w0)) as [Hex Hall].
  split; [exact Hex|].
  intros r Hr Hid. destruct (Hall r Hr Hid) as (?&?&?&?&?&?&?&?&?).
  repeat split; assumption.
Qed.

End StageB.

(** ** The scraper *)

Section Scraper.
Context {rt : Runtime}.
Variable env : Environment.

Lemma parseFeed_run (u : string) (w : World) :
  parseFeed env u w =
  (Done match gofeed_ParseURL env u with
        | Err e => Err e
        | Ok items => Ok (map article_of_item (firstn maxArticles items))
        end,
   [EvFetch u], w).
Proof.
  unfold parseFeed, bind, emit, ret.
  destruct (gofeed_ParseURL env u); reflexivity.
Qed.

Lemma find_app {A} (f : A -> bool) (l1 l2 : list A) :
  find f (l1 ++ l2)%list =
  match find f l1 with Some x => Some x | None => find f l2 end.
Proof.
  induction l1 as [|x l1 IH]; simpl; [reflexivity|].
  destruct (f x); [reflexivity | exact IH].
Qed.

Lemma tried_app (l1 l2 : list string) :
  tried env (l1 ++ l2)%list =
  match find (yields env) l1 with
  | Some _ => tried env l1
  | None => (l1 ++ tried env l2)%list
  end.
Proof.
  induction l1 as [|x l1 IH]; simpl; [reflexivity|].
  destruct (yields env x); [reflexivity|].
  rewrite IH. destruct (find (yields env) l1); reflexivity.
Qed.

Lemma tried_none (l : list string) :
  find (yields env) l = None -> tried env l = l.
Proof.
  induction l as [|x l IH]; simpl; [reflexivity|].
  destruct (yields env x); [discriminate|].
  intros H. rewrite (IH H). reflexivity.
Qed.

Lemma yields_parsed (u : string) :
  yields env u = true -> parsed env u <> [].
Proof.
  unfold yields, parsed.
  destruct (gofeed_ParseURL env u) as [[|x items]|e]; discriminate.
Qed.

(** One location: what [scrapeBlog] sees of it. *)
Lemma parseFeed_cases (u : string) (w : World) :
  (yields env u = true /\
   exists a l, parsed env u = a :: l /\
               parseFeed env u w = (Done (Ok (a :: l)), [EvFetch u], w)) \/
  (yields env u = false /\
   exists r, parseFeed env u w = (Done r, [EvFetch u], w) /\
             match r with Ok (_ :: _) => False | _ => True end).
Proof.
  rewrite parseFeed_run. unfold yields, parsed.
  destruct (gofeed_ParseURL env u) as [[|x items]|e].
  - right. split; [reflexivity|]. eexists. split; [reflexivity | exact I].
  - left. split; [reflexivity|]. simpl. eauto.
  - right. split; [reflexivity|]. eexists. split; [reflexivity | exact I].
Qed.

Lemma try_paths_run (domain : string) (paths : list string) (w : World) :
  let urls := map (fun path => "https://" ++ domain ++ path) paths in
  try_paths env domain paths w =
  (Done match find (yields env) urls with
        | Some u => Some (parsed env u)
        | None => None
        end,
   map EvFetch (tried env urls), w).
Proof.
  induction paths as [|path paths IH]; [reflexivity|].
  cbn [try_paths map find tried]. unfold bind.
  destruct (parseFeed_cases ("https://" ++ domain ++ path) w)
    as [(Hy & a & l & Hp & Hrun)|(Hy & r & Hrun & Hr)];
    rewrite Hrun, Hy.
  - rewrite Hp. reflexivity.
  - cbv zeta in IH.
    destruct r as [[|a l]|e]; try contradiction; rewrite IH; reflexivity.
Qed.

Lemma scrapeBlog_run (domain : string) (w : World) :
  scrapeBlog env domain w =
  (Done match find (yields env) (candidates domain) with
        | Some u => Ok (parsed env u)
        | None => Err (ErrNoFeed domain)
        end,
   map EvFetch (tried env (candidates domain)), w).
Proof.
  unfold scrapeBlog, candidates, bind.
  rewrite try_paths_run, find_app, tried_app. cbv zeta.
  destruct (find (yields env) (map _ feedPaths)) as [u|] eqn:E.
  - unfold ret. rewrite app_nil_r. reflexivity.
  - rewrite (tried_none _ E).
    destruct (parseFeed_cases ("https://" ++ domain) w)
      as [(Hy & a & l & Hp & Hrun)|(Hy & r & Hrun & Hr)];
      rewrite Hrun; cbn [find tried]; rewrite Hy.
    + rewrite Hp, map_app. reflexivity.
    + rewrite map_app.
      destruct r as [[|a l]|e]; try contradiction; reflexivity.
Qed.

Lemma returns_ret {A} (a : A) : returns (ret a).
Proof. intros w. exists a. reflexivity. Qed.

Lemma returns_bind {A B} (m : M A) (k : A -> M B) :
  returns m -> (forall a, returns (k a)) -> returns (bind m k).
Proof.
  intros Hm Hk w. rewrite bind_run.
  destruct (Hm w) as [a ->]. exact (Hk a (snd (m w))).
Qed.

Lemma returns_emit (e : Event) : returns (emit e).
Proof. intros w. exists tt. reflexivity. Qed.

Lemma returns_time_Now : returns (time_Now env).
Proof. intros w. eexists. reflexivity. Qed.

Lemma returns_store_exec f : returns (store_exec f).
Proof. intros w. rewrite store_exec_run. eexists. reflexivity. Qed.

Lemma returns_for_each {A} (l : list A) (body : A -> M unit) :
  (forall x, returns (body x)) -> returns (for_each l body).
Proof.
  intros H. induction l as [|x l IH]; simpl.
  - apply returns_ret.
  - apply returns_bind; [apply H | intros _; exact IH].
Qed.

Lemma returns_scrapeBlog (domain : string) : returns (scrapeBlog env domain).
Proof. intros w. rewrite scrapeBlog_run. eexists. reflexivity. Qed.

Lemma returns_scrape_worker (b : Blog) : returns (scrape_worker env b).
Proof.
  unfold scrape_worker.
  apply returns_bind; [apply returns_scrapeBlog|].
  intros [arts|e]; [|apply returns_emit].
  apply returns_for_each. intros a.
  apply returns_bind; [apply returns_time_Now|]. intros now.
  apply returns_bind; [apply returns_store_exec|].
  intros [err|]; [apply returns_emit | apply returns_ret].
Qed.

Lemma ScrapeBlogs_nil_error (blogs : list Blog) (w : World) :
  fst (fst (ScrapeBlogs env blogs w)) = Done None.
Proof.
  unfold ScrapeBlogs. rewrite bind_run.
  destruct (returns_for_each blogs (scrape_worker env)
              (returns_scrape_worker) w) as [[] ->].
  reflexivity.
Qed.

Lemma scrape_worker_fails (b : Blog) (w : World) :
  find (yields env) (candidates (Domain b)) = None ->
  scrape_worker env b w =
  (Done tt,
   (map EvFetch (candidates (Domain b)) ++
    [EvWarn "scrape" (ErrNoFeed (Domain b))])%list,
   w).
Proof.
  intros H. unfold scrape_worker, bind. rewrite scrapeBlog_run, H.
  rewrite (tried_none _ H). reflexivity.
Qed.

(** C8. [scrapeBlog] fetches the candidate locations of the domain in
    their fixed order, the seven feed paths and then the bare root, stops
    at the first that parses to at least one item and returns what it
    parsed; when no feed path yields, the root is fetched once, as the last
    location; when no location yields, the result is an error and the world
    is as before. [ScrapeBlogs] returns a nil error whatever happens, and a
    source that yields nothing changes nothing: the other sources are
    processed from the same state as if it had not been in the list. *)
Theorem scrapeBlog_policy (domain : string) (w : World) :
  let suffixes := map (fun path => "https://" ++ domain ++ path) feedPaths in
  let root := "https://" ++ domain in
  candidates domain = (suffixes ++ [root])%list /\
  scrapeBlog env domain w =
    (Done match find (yields env) (candidates domain) with
          | Some u => Ok (parsed env u)
          | None => Err (ErrNoFeed domain)
          end,
     map EvFetch (tried env (candidates domain)), w) /\
  (forall u, find (yields env) (candidates domain) = Some u ->
             In u (candidates domain) /\ parsed env u <> []) /\
  (forall u, find (yields env) suffixes = Some u ->
             tried env (candidates domain) = tried env suffixes /\
             find (yields env) (candidates domain) = Some u) /\
  (find (yields env) suffixes = None ->
   tried env (candidates domain) = (suffixes ++ [root])%list) /\
  (forall blogs w0, fst (fst (ScrapeBlogs env blogs w0)) = Done None) /\
  (forall b pre post w0,
      find (yields env) (candidates (Domain b)) = None ->
      scrape_worker env b w0 =
        (Done tt,
         (map EvFetch (candidates (Domain b)) ++
          [EvWarn "scrape" (ErrNoFeed (Domain b))])%list,
         w0) /\
      snd (ScrapeBlogs env (pre ++ b :: post) w0) =
      snd (ScrapeBlogs env (pre ++ post) w0)).
Proof.
  intros suffixes root.
  split; [reflexivity|]. split; [apply scrapeBlog_run|].
  split; [|split; [|split; [|split]]].
  - intros u Hu. apply find_some in Hu as [Hin Hy].
    split; [exact Hin | apply yields_parsed; exact Hy].
  - intros u Hu. unfold candidates. fold suffixes.
    rewrite tried_app, find_app, Hu. split; reflexivity.
  - intros Hn. unfold candidates. fold suffixes root.
    rewrite tried_app, Hn. cbn [tried].
    destruct (yields env root); reflexivity.
  - apply ScrapeBlogs_nil_error.
  - intros b pre post w0 Hb.
    split; [apply scrape_worker_fails; exact Hb|].
    unfold ScrapeBlogs.
    rewrite !(bind_run (for_each _ _)).
    rewrite !for_each_app, !bind_run.
    destruct (fst (fst (for_each pre (scrape_worker env) w0)));
      [|reflexivity].
    cbn [for_each]. rewrite (bind_run (scrape_worker env b)).
    rewrite scrape_worker_fails by exact Hb. cbn [fst snd].
    destruct (fst (fst (for_each post (scrape_worker env) _))); reflexivity.
Qed.

End Scraper.

(** ** Invariants of the database along a run *)

Section Keeps.
Context {rt : Runtime}.
Variable env : Environment.
Variable I : DB -> Prop.
Variable allowed : Event -> Prop.
Variable okA : ArticleAnalysis -> Prop.

Hypothesis A_chat : forall s u, allowed (EvChat s u).
Hypothesis A_sleep : forall d, allowed (EvSleep d).
Hypothesis A_fetch : forall u, allowed (EvFetch u).
Hypothesis A_fetchBlogs : allowed EvFetchBlogs.
Hypothesis A_warn : forall s e, allowed (EvWarn s e).
Hypothesis A_warnSummarize : forall a e, allowed (EvWarnSummarize a e).
Hypothesis A_fatal : forall s, allowed (EvFatal s).
Hypothesis I_SaveBlogs : forall bs d, I d -> I (snd (SaveBlogs bs d)).
Hypothesis I_SaveArticle : forall a d, I d -> I (snd (SaveArticle a d)).
Hypothesis I_SaveArticleAnalysis :
  forall a d, okA a -> I d -> I (snd (SaveArticleAnalysis a d)).
Hypothesis okA_with_summary : forall a s, okA a -> okA (with_summary a s).

Lemma keeps_ret {A} (a : A) (Q : A -> Prop) : Q a -> keeps I allowed (ret a) Q.
Proof. intros H w Hw. simpl. auto. Qed.

Lemma keeps_bind {A B} (m : M A) (k : A -> M B) (Q1 : A -> Prop)
    (Q2 : B -> Prop) :
  keeps I allowed m Q1 -> (forall a, Q1 a -> keeps I allowed (k a) Q2) -> keeps I allowed (bind m k) Q2.
Proof.
  intros Hm Hk w Hw. rewrite bind_run.
  destruct (Hm w Hw) as (HI & Hev & HQ).
  destruct (fst (fst (m w))) as [a|]; cbn [fst snd].
  - destruct (Hk a HQ (snd (m w)) HI) as (HI' & Hev' & HQ').
    split; [exact HI'|]. split; [|exact HQ'].
    apply Forall_app. split; assumption.
  - auto.
Qed.

Lemma keeps_weaken {A} (m : M A) (Q Q' : A -> Prop) :
  keeps I allowed m Q -> (forall a, Q a -> Q' a) -> keeps I allowed m Q'.
Proof.
  intros Hm HQ w Hw. destruct (Hm w Hw) as (HI & Hev & H).
  split; [exact HI|]. split; [exact Hev|].
  destruct (fst (fst (m w))); auto.
Qed.

Lemma keeps_emit (e : Event) : allowed e -> keeps I allowed (emit e) anything.
Proof.
  intros H w Hw. simpl. split; [exact Hw|]. split; [|exact Logic.I].
  constructor; [exact H | constructor].
Qed.

Lemma keeps_fatal {A} (s : string) (Q : A -> Prop) : keeps I allowed (fatal s) Q.
Proof.
  intros w Hw. simpl. split; [exact Hw|]. split; [|exact Logic.I].
  constructor; [apply A_fatal | constructor].
Qed.

Lemma keeps_for_each {A} (P : A -> Prop) (l : list A) (body : A -> M unit) :
  Forall P l -> (forall x, P x -> keeps I allowed (body x) anything) ->
  keeps I allowed (for_each l body) anything.
Proof.
  intros Hl Hb. induction Hl as [|x l Hx Hl IH]; simpl.
  - apply keeps_ret. exact Logic.I.
  - eapply keeps_bind; [apply Hb; exact Hx | intros _ _; exact IH].
Qed.

Lemma keeps_time_Now : keeps I allowed (time_Now env) anything.
Proof. intros w Hw. simpl. unfold anything. auto. Qed.

Lemma keeps_store_query {A} (f : DB -> A) (Q : A -> Prop) :
  (forall d, I d -> Q (f d)) -> keeps I allowed (store_query f) Q.
Proof. intros H w Hw. simpl. auto. Qed.

Lemma keeps_store_exec (f : DB -> option error * DB) :
  (forall d, I d -> I (snd (f d))) -> keeps I allowed (store_exec f) anything.
Proof.
  intros H w Hw. rewrite store_exec_run. cbn [fst snd db].
  unfold anything. auto.
Qed.

Lemma keeps_window_query {R A} (window : string)
    (rows : string -> DB -> list R) (readable : R -> bool) (scan : R -> A)
    (Q : list A -> Prop) :
  (forall c d, I d -> Q (map scan (rows c d))) ->
  keeps I allowed (window_query env window rows readable scan)
         (fun r => match r with Ok l => Q l | Err _ => True end).
Proof.
  intros H w Hw. rewrite window_query_run.
  destruct (window_duration window); cbn [fst snd db]; auto.
  rewrite scan_rows_cases. destruct (forallb readable _); auto.
Qed.

Lemma keeps_ChatCompletion (s u : string) :
  keeps I allowed (ChatCompletion env s u) anything.
Proof.
  intros w Hw. unfold ChatCompletion. cbn [fst snd db].
  split; [exact Hw|]. split; [|exact Logic.I].
  constructor; [apply A_chat | constructor].
Qed.

Lemma keeps_ScoreArticle (article : Article) :
  keeps I allowed (ScoreArticle env article) anything.
Proof.
  unfold ScoreArticle.
  eapply keeps_bind; [apply keeps_ChatCompletion|].
  intros [resp|e] _; [|apply keeps_ret; exact Logic.I].
  destruct (json_Unmarshal_ScoreResult resp); apply keeps_ret; exact Logic.I.
Qed.

Lemma keeps_summarize_loop (article : Article) (todo : nat) :
  forall attempt lastErr,
    keeps I allowed (summarize_loop env article todo attempt lastErr) anything.
Proof.
  induction todo as [|todo IH]; intros attempt lastErr; simpl.
  - apply keeps_ret. exact Logic.I.
  - eapply keeps_bind; [apply keeps_ChatCompletion|].
    intros [resp|e] _.
    + destruct (json_Unmarshal_SummaryResult resp).
      * apply keeps_ret. exact Logic.I.
      * eapply keeps_bind; [apply keeps_emit, A_sleep | intros _ _; apply IH].
    + eapply keeps_bind; [apply keeps_emit, A_sleep | intros _ _; apply IH].
Qed.

Lemma keeps_SummarizeArticle (article : Article) :
  keeps I allowed (SummarizeArticle env article) anything.
Proof. apply keeps_summarize_loop. Qed.

Lemma keeps_AnalyzeTrends (l : list ArticleWithAnalysis) :
  keeps I allowed (AnalyzeTrends env l) anything.
Proof.
  unfold AnalyzeTrends.
  eapply keeps_bind; [apply keeps_ChatCompletion|].
  intros [resp|e] _; [|apply keeps_ret; exact Logic.I].
  destruct (json_Unmarshal_TrendReport resp); apply keeps_ret; exact Logic.I.
Qed.

Lemma keeps_scrapeBlog (domain : string) :
  keeps I allowed (scrapeBlog env domain) anything.
Proof.
  intros w Hw. rewrite scrapeBlog_run. cbn [fst snd].
  split; [exact Hw|]. split; [|destruct (find _ _); exact Logic.I].
  apply Forall_forall. intros e He.
  apply in_map_iff in He as (u & <- & _). apply A_fetch.
Qed.

Lemma keeps_scrape_worker (b : Blog) : keeps I allowed (scrape_worker env b) anything.
Proof.
  unfold scrape_worker.
  eapply keeps_bind; [apply keeps_scrapeBlog|].
  intros [arts|e] _; [|apply keeps_emit, A_warn].
  apply keeps_for_each with (P := anything).
  - apply Forall_forall. intros; exact Logic.I.
  - intros a _.
    eapply keeps_bind; [apply keeps_time_Now|]. intros now _.
    eapply keeps_bind; [apply keeps_store_exec; intros; now apply I_SaveArticle|].
    intros [err|] _; [apply keeps_emit, A_warn | apply keeps_ret; exact Logic.I].
Qed.

Lemma keeps_ScrapeBlogs (blogs : list Blog) :
  keeps I allowed (ScrapeBlogs env blogs) anything.
Proof.
  unfold ScrapeBlogs.
  eapply keeps_bind; [|intros _ _; apply keeps_ret; exact Logic.I].
  apply keeps_for_each with (P := anything).
  - apply Forall_forall. intros; exact Logic.I.
  - intros b _. apply keeps_scrape_worker.
Qed.

Lemma keeps_cmdFetchBlogs : keeps I allowed (cmdFetchBlogs env) anything.
Proof.
  unfold cmdFetchBlogs.
  eapply keeps_bind; [apply keeps_emit, A_fetchBlogs|]. intros _ _.
  destruct (hnpopular_FetchTopBlogs env 100) as [blogs|e]; [|apply keeps_fatal].
  eapply keeps_bind; [apply keeps_store_exec; intros d; apply I_SaveBlogs|].
  intros [err|] _; [apply keeps_fatal | apply keeps_ret; exact Logic.I].
Qed.

Lemma keeps_cmdScrape : keeps I allowed (cmdScrape env) anything.
Proof.
  unfold cmdScrape.
  eapply keeps_bind with (Q1 := anything).
  { apply keeps_store_query. intros; exact Logic.I. }
  intros [[|b blogs]|e] _; try apply keeps_fatal.
  eapply keeps_bind; [apply keeps_ScrapeBlogs|].
  intros [err|] _; [apply keeps_fatal|].
  eapply keeps_bind with (Q1 := anything).
  { unfold LatestArticles. apply keeps_store_query. intros; exact Logic.I. }
  intros [l|e] _; [apply keeps_ret; exact Logic.I | apply keeps_fatal].
Qed.

Lemma keeps_enrich_scored (article : Article) (sr : ScoreResult) :
  (forall now, okA (analysis_of_score article sr now)) ->
  keeps I allowed (enrich_scored env article sr) anything.
Proof.
  intros Hok. unfold enrich_scored.
  eapply keeps_bind; [apply keeps_time_Now|]. intros now _.
  eapply keeps_bind; [apply keeps_SummarizeArticle|]. intros sm _.
  eapply keeps_bind with (Q1 := okA).
  - destruct sm as [s|e].
    + apply keeps_ret. apply okA_with_summary, Hok.
    + eapply keeps_bind; [apply keeps_emit, A_warnSummarize|].
      intros _ _. apply keeps_ret, Hok.
  - intros a Ha.
    eapply keeps_bind;
      [apply keeps_store_exec; intros; now apply I_SaveArticleAnalysis|].
    intros [err|] _; [apply keeps_emit, A_warn | apply keeps_ret; exact Logic.I].
Qed.

(** The body that [runPipeline] and [cmdAnalyze] share. *)
Lemma keeps_pipeline_analyze (article : Article) :
  (forall e, allowed (EvWarnScore article e)) ->
  (forall sr now, okA (analysis_of_score article sr now)) ->
  keeps I allowed (pipeline_analyze env article) anything.
Proof.
  intros Hw Hok. unfold pipeline_analyze.
  eapply keeps_bind; [apply keeps_ScoreArticle|].
  intros [sr|e] _; [|apply keeps_emit, Hw].
  apply keeps_enrich_scored. intros now. apply Hok.
Qed.

Lemma keeps_pipeline_retry (item : ArticleWithAnalysis) :
  okA (awa_ArticleAnalysis item) ->
  keeps I allowed (pipeline_retry env item) anything.
Proof.
  intros Hok. unfold pipeline_retry.
  eapply keeps_bind; [apply keeps_SummarizeArticle|].
  intros [s|e] _; [|apply keeps_emit, A_warnSummarize].
  eapply keeps_bind;
    [apply keeps_store_exec; intros;
     apply I_SaveArticleAnalysis; [apply okA_with_summary, Hok | assumption]|].
  intros [err|] _; [apply keeps_emit, A_warn | apply keeps_ret; exact Logic.I].
Qed.

(** Step 3b: the retry sweep over the rows that the query returned. *)
Lemma keeps_retry_sweep (window : string) :
  (forall c d p, I d ->
     In p (rows_UnsummarizedHighScoreArticles c 0 d) ->
     okA (scanAnalysis (snd p))) ->
  keeps I allowed (retry_sweep env window) anything.
Proof.
  intros Hrows. unfold retry_sweep.
  eapply keeps_bind.
  - unfold UnsummarizedHighScoreArticles.
    apply keeps_window_query
      with (Q := Forall (fun x => okA (awa_ArticleAnalysis x))).
    intros c d Hd. apply Forall_forall. intros x Hx.
    apply in_map_iff in Hx as (p & <- & Hp). simpl.
    eapply Hrows; eassumption.
  - intros [l|e] Hl; [|apply keeps_emit, A_warn].
    eapply keeps_for_each; [exact Hl|].
    intros x Hx. apply keeps_pipeline_retry. exact Hx.
Qed.

(** *** Delivery, for an invariant that [MarkNotified] keeps *)

Hypothesis A_send : forall text ok, allowed (EvSend text ok).
Hypothesis A_mark : forall ids, allowed (EvMarkNotified ids).
Hypothesis I_MarkNotified :
  forall ids ts d, I d -> I (snd (MarkNotified ids ts d)).

Lemma keeps_Send (title body : string) :
  keeps I allowed (telegram_Client_Send env title body) anything.
Proof.
  intros w Hw. cbn [telegram_Client_Send fst snd db].
  split; [exact Hw|]. split; [|exact Logic.I].
  constructor; [apply A_send | constructor].
Qed.

Lemma keeps_db_MarkNotified (ids : list Z) :
  keeps I allowed (db_MarkNotified env ids) anything.
Proof.
  unfold db_MarkNotified.
  eapply keeps_bind; [apply keeps_emit, A_mark|]. intros _ _.
  destruct ids as [|i ids].
  - apply keeps_store_exec. intros d. apply I_MarkNotified.
  - destruct (too_many_variables (i :: ids)).
    + apply keeps_store_exec. intros d. apply I_MarkNotified.
    + eapply keeps_bind; [apply keeps_time_Now|]. intros now _.
      apply keeps_store_exec. intros d. apply I_MarkNotified.
Qed.

(** The end of the three delivery paths: send, then mark. *)
Lemma keeps_notify_tail (newArticles : list ArticleWithAnalysis)
    (msg : string) (onSendError : error -> M unit) :
  (forall e, keeps I allowed (onSendError e) anything) ->
  keeps I allowed
    (se <- telegram_Client_Send env "" msg ;;
     match se with
     | Some e => onSendError e
     | None =>
         me <- db_MarkNotified env (article_ids newArticles) ;;
         match me with
         | Some e => emit (EvWarn "mark notified" e)
         | None => ret tt
         end
     end) anything.
Proof.
  intros Herr.
  eapply keeps_bind; [apply keeps_Send|].
  intros [e|] _; [apply Herr|].
  eapply keeps_bind; [apply keeps_db_MarkNotified|].
  intros [e|] _; [apply keeps_emit, A_warn | apply keeps_ret; exact Logic.I].
Qed.

Lemma keeps_UnnotifiedAnalyses (window : string) :
  keeps I allowed (UnnotifiedAnalyses env window) anything.
Proof.
  eapply keeps_weaken.
  - unfold UnnotifiedAnalyses.
    apply keeps_window_query with (Q := anything). intros; exact Logic.I.
  - intros; exact Logic.I.
Qed.

Lemma keeps_pipeline_notify : keeps I allowed (pipeline_notify env) anything.
Proof.
  unfold pipeline_notify.
  destruct (telegram_configured env); [|apply keeps_ret; exact Logic.I].
  eapply keeps_bind; [apply keeps_UnnotifiedAnalyses|].
  intros [[|x l]|e] _;
    [apply keeps_ret; exact Logic.I | | apply keeps_emit, A_warn].
  eapply keeps_bind; [apply keeps_AnalyzeTrends|].
  intros [report|e] _; [|apply keeps_emit, A_warn].
  apply keeps_notify_tail. intros e. apply keeps_emit, A_warn.
Qed.

Lemma keeps_cmdNotify (window : string) :
  keeps I allowed (cmdNotify env window) anything.
Proof.
  unfold cmdNotify.
  destruct (telegram_configured env); [|apply keeps_fatal].
  eapply keeps_bind; [apply keeps_UnnotifiedAnalyses|].
  intros [[|y l']|e] _;
    [apply keeps_ret; exact Logic.I | | apply keeps_fatal].
  eapply keeps_bind; [apply keeps_AnalyzeTrends|].
  intros [report|e] _; [|apply keeps_fatal].
  apply keeps_notify_tail. intros e. apply keeps_fatal.
Qed.

Lemma keeps_cmdReport (window : string) :
  keeps I allowed (cmdReport env window) anything.
Proof.
  unfold cmdReport.
  eapply keeps_bind.
  { unfold AnalysesByTimeWindow, TopScoredArticles.
    apply keeps_window_query with (Q := anything). intros; exact Logic.I. }
  intros [[|x l]|e] _; try apply keeps_fatal.
  eapply keeps_bind; [apply keeps_AnalyzeTrends|].
  intros [report|e] _; [|apply keeps_fatal].
  unfold cmdReport_send.
  destruct (telegram_configured env); [|apply keeps_ret; exact Logic.I].
  eapply keeps_bind; [apply keeps_UnnotifiedAnalyses|].
  intros [[|y l']|e] _;
    [apply keeps_ret; exact Logic.I | | apply keeps_emit, A_warn].
  apply keeps_notify_tail. intros e. apply keeps_emit, A_warn.
Qed.

(** *** Whole commands, for an invariant that every writer keeps *)

Hypothesis A_warnScore : forall a e, allowed (EvWarnScore a e).
Hypothesis okA_score : forall article sr now, okA (analysis_of_score article sr now).
Hypothesis okA_rows :
  forall c d p, I d ->
    In p (rows_UnsummarizedHighScoreArticles c 0 d) ->
    okA (scanAnalysis (snd p)).

Lemma keeps_analyze_loop (articles : list Article) :
  keeps I allowed (for_each articles (pipeline_analyze env)) anything.
Proof.
  apply keeps_for_each with (P := anything).
  - apply Forall_forall. intros; exact Logic.I.
  - intros a _. apply keeps_pipeline_analyze; [apply A_warnScore|].
    intros sr now. apply okA_score.
Qed.

Lemma keeps_pipeline_from_articles (articles : list Article) :
  keeps I allowed (pipeline_from_articles env articles) anything.
Proof.
  unfold pipeline_from_articles.
  eapply keeps_bind; [apply keeps_analyze_loop|]. intros _ _.
  eapply keeps_bind; [apply keeps_retry_sweep, okA_rows|]. intros _ _.
  apply keeps_pipeline_notify.
Qed.

Lemma keeps_runPipeline : keeps I allowed (runPipeline env) anything.
Proof.
  unfold runPipeline.
  eapply keeps_bind; [apply keeps_emit, A_fetchBlogs|]. intros _ _.
  destruct (hnpopular_FetchTopBlogs env 100) as [blogs|e];
    [|apply keeps_emit, A_warn].
  eapply keeps_bind; [apply keeps_store_exec; intros d; apply I_SaveBlogs|].
  intros [err|] _; [apply keeps_emit, A_warn|].
  eapply keeps_bind; [apply keeps_ScrapeBlogs|]. intros se _.
  eapply keeps_bind with (Q1 := anything).
  { destruct se; [apply keeps_emit, A_warn | apply keeps_ret; exact Logic.I]. }
  intros _ _.
  eapply keeps_bind.
  { unfold UnanalyzedArticles.
    apply keeps_window_query with (Q := anything). intros; exact Logic.I. }
  intros [articles|e] _; [|apply keeps_emit, A_warn].
  apply keeps_pipeline_from_articles.
Qed.

Lemma keeps_cmdAnalyze (window : string) :
  keeps I allowed (cmdAnalyze env window) anything.
Proof.
  unfold cmdAnalyze.
  eapply keeps_bind.
  { unfold ArticlesByTimeWindow.
    apply keeps_window_query with (Q := anything). intros; exact Logic.I. }
  intros [[|x l]|e] _; try apply keeps_fatal.
  eapply keeps_bind; [|intros _ _; apply keeps_retry_sweep, okA_rows].
  apply (keeps_analyze_loop (x :: l)).
Qed.

End Keeps.

(** ** A delivery mark is permanent *)

Section Commands.
Context {rt : Runtime}.
Variable env : Environment.

Ltac sound H := destruct H; assumption.

Lemma runPipeline_keeps : keeps_every_invariant (runPipeline env).
Proof.
  intros I allowed okA H. apply keeps_runPipeline with (okA := okA); sound H.
Qed.

Lemma cmdFetchBlogs_keeps : keeps_every_invariant (cmdFetchBlogs env).
Proof. intros I allowed okA H. apply keeps_cmdFetchBlogs; sound H. Qed.

Lemma cmdScrape_keeps : keeps_every_invariant (cmdScrape env).
Proof. intros I allowed okA H. apply keeps_cmdScrape; sound H. Qed.

Lemma cmdAnalyze_keeps window : keeps_every_invariant (cmdAnalyze env window).
Proof.
  intros I allowed okA H. apply keeps_cmdAnalyze with (okA := okA); sound H.
Qed.

Lemma cmdReport_keeps window : keeps_every_invariant (cmdReport env window).
Proof. intros I allowed okA H. apply keeps_cmdReport; sound H. Qed.

Lemma cmdNotify_keeps window : keeps_every_invariant (cmdNotify env window).
Proof. intros I allowed okA H. apply keeps_cmdNotify; sound H. Qed.

Lemma delivered_sound (aid : Z) :
  sound_invariant (fun d => delivered d aid) anything anything.
Proof.
  constructor; try (intros; exact Logic.I).
  - intros bs d. apply (grows_delivered d). apply grows_refl.
  - intros a d. apply (grows_delivered d).
    unfold SaveArticle. rewrite insert_article_analysis. apply grows_refl.
  - intros a d _. apply (grows_delivered d), SaveArticleAnalysis_grows.
  - intros ids ts d. apply (grows_delivered d), MarkNotified_grows.
Qed.

Lemma delivered_keeps (aid : Z) (m : M unit) :
  keeps_every_invariant m ->
  forall w, delivered (db w) aid -> delivered (db (snd (m w))) aid.
Proof.
  intros H w Hw. exact (proj1 (H _ _ _ (delivered_sound aid) w Hw)).
Qed.

End Commands.

(** C1. Once the article [aid] carries a delivery mark, it carries one
    after any sequence of writes of the store and after any command, and
    the undelivered view does not return it, whatever the window and the
    time of the query. No write takes a mark away from a row, and
    [SaveArticleAnalysis] for the article leaves the column [notified_at]
    of every row as it is. *)
Theorem delivered_is_permanent (d : DB) (aid : Z) (ops : list StoreOp) :
  delivered d aid ->
  let d' := apply_ops ops d in
  delivered d' aid /\
  (forall (rt : Runtime) cutoff p,
      In p (rows_UnnotifiedAnalyses cutoff d') -> id (fst p) <> aid) /\
  (forall (rt : Runtime) env window w l ev w',
      db w = d' ->
      UnnotifiedAnalyses env window w = (Done (Ok l), ev, w') ->
      forall x, In x l -> a_ID (awa_Article x) <> aid) /\
  (forall op i r,
      nth_error (article_analysis d') i = Some r -> notified_at r <> None ->
      exists r', nth_error (article_analysis (apply_op d' op)) i = Some r' /\
                 article_id r' = article_id r /\ notified_at r' <> None) /\
  (forall a,
      ArticleID a = aid ->
      map notified_at (article_analysis (snd (SaveArticleAnalysis a d'))) =
      map notified_at (article_analysis d')) /\
  (forall (rt : Runtime) env w,
      db w = d' ->
      delivered (db (snd (runPipeline env w))) aid /\
      delivered (db (snd (cmdFetchBlogs env w))) aid /\
      delivered (db (snd (cmdScrape env w))) aid /\
      forall window,
        delivered (db (snd (cmdAnalyze env window w))) aid /\
        delivered (db (snd (cmdReport env window w))) aid /\
        delivered (db (snd (cmdNotify env window w))) aid).
Proof.
  intros Hd d'.
  assert (Hd' : delivered d' aid) by (apply apply_ops_delivered; exact Hd).
  split; [exact Hd'|]. split; [|split; [|split; [|split]]].
  - intros rt cutoff p. apply delivered_not_unnotified. exact Hd'.
  - intros rt env window w l ev w' Hdb Hrun x Hx.
    unfold UnnotifiedAnalyses in Hrun. rewrite window_query_run in Hrun.
    destruct (window_duration window) as [dur|e]; [|discriminate].
    injection Hrun as Hrun _ _. apply scan_rows_Ok in Hrun as [-> _].
    apply in_map_iff in Hx as (p & <- & Hp). simpl.
    rewrite Hdb in Hp. eapply delivered_not_unnotified; eassumption.
  - intros op i r. apply grows_nth, apply_op_grows.
  - intros a Ha. destruct Hd' as [(r0 & Hr0 & Hid0) _].
    unfold SaveArticleAnalysis; simpl.
    replace (existsb (fun r => article_id r =? ArticleID a) (article_analysis d'))
      with true.
    + rewrite map_map. apply map_ext. intros r.
      destruct (article_id r =? ArticleID a); reflexivity.
    + symmetry. apply existsb_exists. exists r0. split; [exact Hr0 | lia].
  - intros rt env w Hdb. rewrite <- Hdb in Hd'.
    split; [|split; [|split; [|intros window; split; [|split]]]];
      (apply delivered_keeps; [|exact Hd']).
    + apply runPipeline_keeps.
    + apply cmdFetchBlogs_keeps.
    + apply cmdScrape_keeps.
    + apply cmdAnalyze_keeps.
    + apply cmdReport_keeps.
    + apply cmdNotify_keeps.
Qed.

(** ** The total score *)

Lemma wrap64_small (z : Z) : in_int64 z -> wrap64 z = z.
Proof.
  unfold in_int64, wrap64. intros H.
  rewrite Z.mod_small; lia.
Qed.

Lemma score_inv_empty : score_inv emptyDB.
Proof. intros r []. Qed.

Lemma score_inv_SaveBlogs bs d : score_inv d -> score_inv (snd (SaveBlogs bs d)).
Proof. intros H. exact H. Qed.

Lemma score_inv_SaveArticle a d :
  score_inv d -> score_inv (snd (SaveArticle a d)).
Proof.
  unfold score_inv, SaveArticle. rewrite insert_article_analysis. auto.
Qed.

(** An analysis whose total is the sum of its sub-scores on [int]. *)
Lemma score_inv_SaveArticleAnalysis a d :
  TotalScore a = int_add (int_add (Relevance a) (Quality a)) (Timeliness a) ->
  score_inv d -> score_inv (snd (SaveArticleAnalysis a d)).
Proof.
  intros Ha Hd r Hr.
  unfold SaveArticleAnalysis in Hr. cbn [snd article_analysis] in Hr.
  destruct (existsb _ _).
  - apply in_map_iff in Hr as (r0 & <- & Hr0).
    destruct (article_id r0 =? ArticleID a); [exact Ha | apply Hd, Hr0].
  - apply in_app_or in Hr as [Hr|[<-|[]]]; [apply Hd, Hr | exact Ha].
Qed.

Lemma score_inv_MarkNotified ids ts d :
  score_inv d -> score_inv (snd (MarkNotified ids ts d)).
Proof.
  intros Hd. destruct (MarkNotified_snd ids ts d) as [-> | ->]; [exact Hd|].
  intros r Hr. cbn [article_analysis] in Hr.
  apply in_map_iff in Hr as (r0 & <- & Hr0).
  destruct (mem_id _ _); apply (Hd r0 Hr0).
Qed.

Lemma rows_UnsummarizedHighScoreArticles_In {rt : Runtime} c k d p :
  In p (rows_UnsummarizedHighScoreArticles c k d) ->
  In (snd p) (article_analysis d) /\ id (fst p) = article_id (snd p).
Proof.
  unfold rows_UnsummarizedHighScoreArticles.
  rewrite sorted_joined_In, filter_In, joined_In. tauto.
Qed.

Section TotalScore.
Context {rt : Runtime}.
Variable env : Environment.

Let sumA (a : ArticleAnalysis) : Prop :=
  TotalScore a = int_add (int_add (Relevance a) (Quality a)) (Timeliness a).

Lemma score_sound : sound_invariant score_inv anything sumA.
Proof.
  constructor; try (intros; exact Logic.I).
  - exact score_inv_SaveBlogs.
  - exact score_inv_SaveArticle.
  - exact score_inv_SaveArticleAnalysis.
  - exact score_inv_MarkNotified.
  - intros a s Ha. exact Ha.
  - intros. reflexivity.
  - intros c d p Hd Hp.
    apply rows_UnsummarizedHighScoreArticles_In in Hp as [Hp _].
    exact (Hd (snd p) Hp).
Qed.

Lemma score_keeps (m : M unit) :
  keeps_every_invariant m ->
  forall w, score_inv (db w) -> score_inv (db (snd (m w))).
Proof.
  intros H w Hw. exact (proj1 (H _ _ _ score_sound w Hw)).
Qed.

(** C4, as the code has it. Every command keeps this invariant of table
    [article_analysis], which holds of the empty database: the total score
    of a row is [relevance + quality + timeliness] computed on Go's [int],
    that is the sum wrapped to 64 bits. The Stage-A writers compute the
    total from the sub-scores in this way and the retry writer writes back
    the sub-scores and the total that it read. The total is the exact sum
    whenever the two additions stay within 64 bits, in particular when the
    three sub-scores are between 1 and 10. *)
Theorem total_score_is_sum (w : World) :
  score_inv (db w) ->
  score_inv emptyDB /\
  score_inv (db (snd (runPipeline env w))) /\
  score_inv (db (snd (cmdFetchBlogs env w))) /\
  score_inv (db (snd (cmdScrape env w))) /\
  (forall window,
      score_inv (db (snd (cmdAnalyze env window w))) /\
      score_inv (db (snd (cmdReport env window w))) /\
      score_inv (db (snd (cmdNotify env window w)))) /\
  (forall article sr now,
      let a := analysis_of_score article sr now in
      Relevance a = sr_Relevance sr /\ Quality a = sr_Quality sr /\
      Timeliness a = sr_Timeliness sr /\
      TotalScore a =
        int_add (int_add (sr_Relevance sr) (sr_Quality sr)) (sr_Timeliness sr)) /\
  (forall a s,
      Relevance (with_summary a s) = Relevance a /\
      Quality (with_summary a s) = Quality a /\
      Timeliness (with_summary a s) = Timeliness a /\
      TotalScore (with_summary a s) = TotalScore a) /\
  (forall r,
      score_is_sum r ->
      in_int64 (relevance r + quality r) ->
      in_int64 (relevance r + quality r + timeliness r) ->
      total_score r = relevance r + quality r + timeliness r) /\
  (forall r,
      score_is_sum r ->
      1 <= relevance r <= 10 -> 1 <= quality r <= 10 ->
      1 <= timeliness r <= 10 ->
      total_score r = relevance r + quality r + timeliness r).
Proof.
  intros Hw.
  assert (Hexact : forall r, score_is_sum r ->
            in_int64 (relevance r + quality r) ->
            in_int64 (relevance r + quality r + timeliness r) ->
            total_score r = relevance r + quality r + timeliness r).
  { intros r Hr H1 H2. rewrite Hr. unfold int_add.
    rewrite (wrap64_small _ H1). apply wrap64_small, H2. }
  split; [apply score_inv_empty|].
  split; [apply score_keeps; [apply runPipeline_keeps | exact Hw]|].
  split; [apply score_keeps; [apply cmdFetchBlogs_keeps | exact Hw]|].
  split; [apply score_keeps; [apply cmdScrape_keeps | exact Hw]|].
  split; [intros window; split; [|split]|].
  - apply score_keeps; [apply cmdAnalyze_keeps | exact Hw].
  - apply score_keeps; [apply cmdReport_keeps | exact Hw].
  - apply score_keeps; [apply cmdNotify_keeps | exact Hw].
  - split; [intros; repeat split|].
    split; [intros; repeat split|].
    split; [exact Hexact|].
    intros r Hr H1 H2 H3. apply Hexact; [exact Hr | |]; unfold in_int64; lia.
Qed.

End TotalScore.

(** C4, as it is stated, fails on [int]: a Stage-A result with relevance
    [2^63 - 1], quality 1 and timeliness 1 (three values of type [int]) is
    saved by the loop of the pipeline with the total [-2^63 + 1], and the
    sum is [2^63 + 1]. *)
Lemma total_score_wraps_around :
  let w' := snd (pipeline_analyze (rt := huge_runtime) huge_env early_article
                   sample_world) in
  in_int64 (sr_Relevance huge_score) /\
  in_int64 (sr_Quality huge_score) /\
  in_int64 (sr_Timeliness huge_score) /\
  exists r, article_analysis (db w') = [r] /\
            relevance r = sr_Relevance huge_score /\
            quality r = sr_Quality huge_score /\
            timeliness r = sr_Timeliness huge_score /\
            total_score r = - 2 ^ 63 + 1 /\
            relevance r + quality r + timeliness r = 2 ^ 63 + 1 /\
            total_score r <> relevance r + quality r + timeliness r.
Proof.
  split; [unfold in_int64; simpl; lia|].
  split; [unfold in_int64; simpl; lia|].
  split; [unfold in_int64; simpl; lia|].
  eexists. split; [vm_compute; reflexivity|].
  repeat split. vm_compute. discriminate.
Qed.

(** ** Delivery and delivery marks *)

Lemma marks_unchanged_refl (d : DB) : marks_unchanged d d.
Proof. exists []. simpl. rewrite app_nil_r. reflexivity. Qed.

Lemma marks_unchanged_same (d0 d d' : DB) :
  article_analysis d' = article_analysis d ->
  marks_unchanged d0 d -> marks_unchanged d0 d'.
Proof. unfold marks_unchanged. intros ->. auto. Qed.

Lemma marks_SaveBlogs d0 bs d :
  marks_unchanged d0 d -> marks_unchanged d0 (snd (SaveBlogs bs d)).
Proof. apply marks_unchanged_same. reflexivity. Qed.

Lemma marks_SaveArticle d0 a d :
  marks_unchanged d0 d -> marks_unchanged d0 (snd (SaveArticle a d)).
Proof. apply marks_unchanged_same. apply insert_article_analysis. Qed.

Lemma marks_SaveArticleAnalysis d0 a d :
  marks_unchanged d0 d -> marks_unchanged d0 (snd (SaveArticleAnalysis a d)).
Proof.
  intros (fresh & E). unfold marks_unchanged, SaveArticleAnalysis.
  cbn [snd article_analysis]. destruct (existsb _ _).
  - exists fresh. rewrite map_map, <- E. apply map_ext.
    intros r. destruct (article_id r =? ArticleID a); reflexivity.
  - exists (fresh ++ [ArticleID a])%list.
    rewrite !map_app, E, app_assoc. reflexivity.
Qed.

Lemma quiet_no_send (l : list Event) text ok :
  Forall quiet l -> ~ In (EvSend text ok) l.
Proof.
  intros H Hin. rewrite Forall_forall in H. exact (H _ Hin).
Qed.

Lemma quiet_no_mark (l : list Event) ids :
  Forall quiet l -> ~ In (EvMarkNotified ids) l.
Proof.
  intros H Hin. rewrite Forall_forall in H. exact (H _ Hin).
Qed.

Lemma marks_follow_sends_quiet (l : list Event) :
  Forall quiet l -> forall p, marks_follow_sends p l.
Proof.
  induction 1 as [|e l He Hl IH]; intros p; simpl; [exact Logic.I|].
  split; [|apply IH].
  destruct e; try exact Logic.I. destruct He.
Qed.

Lemma marks_follow_sends_app (q t : list Event) :
  Forall quiet q -> (forall p, marks_follow_sends p t) ->
  forall p, marks_follow_sends p (q ++ t)%list.
Proof.
  induction 1 as [|e q He Hq IH]; intros Ht p; simpl; [apply Ht|].
  split; [|apply IH, Ht].
  destruct e; try exact Logic.I. destruct He.
Qed.

(** What the shape of the events says about delivery. *)
Lemma delivery_shape_safe (d0 : DB) (ev : list Event) (d' : DB) :
  delivery_shape d0 ev d' ->
  marks_follow_sends None ev /\
  (forall text, In (EvSend text false) ev ->
     (forall ids, ~ In (EvMarkNotified ids) ev) /\ marks_unchanged d0 d') /\
  ((forall text, ~ In (EvSend text true) ev) -> marks_unchanged d0 d').
Proof.
  intros (q & t & -> & Hq & Ht).
  destruct Ht as [[-> Hm]|[(text & rest & -> & Hrest & Hm)
                          |(text & ids & rest & -> & Hrest)]].
  - rewrite app_nil_r. split; [apply marks_follow_sends_quiet, Hq|].
    split; [|intros _; exact Hm].
    intros text Hin. exfalso. exact (quiet_no_send _ _ _ Hq Hin).
  - split.
    { apply marks_follow_sends_app; [exact Hq|]. intros p. simpl.
      split; [exact Logic.I | apply marks_follow_sends_quiet, Hrest]. }
    split; [|intros _; exact Hm].
    intros text' _. split; [|exact Hm].
    intros ids Hin. apply in_app_or in Hin as [Hin|[Hin|Hin]].
    + exact (quiet_no_mark _ _ Hq Hin).
    + discriminate.
    + exact (quiet_no_mark _ _ Hrest Hin).
  - split.
    { apply marks_follow_sends_app; [exact Hq|]. intros p. simpl.
      split; [exact Logic.I|].
      split; [exists text; reflexivity | apply marks_follow_sends_quiet, Hrest]. }
    split.
    + intros text' Hin. exfalso.
      apply in_app_or in Hin as [Hin|[Hin|[Hin|Hin]]].
      * exact (quiet_no_send _ _ _ Hq Hin).
      * discriminate.
      * discriminate.
      * exact (quiet_no_send _ _ _ Hrest Hin).
    + intros Hnone. exfalso. apply (Hnone text).
      apply in_or_app. right. left. reflexivity.
Qed.

Section Delivery.
Context {rt : Runtime}.
Variable env : Environment.
Variable d0 : DB.

Ltac side :=
  first [ exact (marks_SaveBlogs d0)
        | exact (marks_SaveArticle d0)
        | exact (fun a d (_ : anything a) => marks_SaveArticleAnalysis d0 a d)
        | intros; exact Logic.I ].

Lemma keeps_shaped {A} (m : M A) (Q : A -> Prop) :
  keeps (marks_unchanged d0) quiet m Q -> shaped d0 m.
Proof.
  intros Hm w Hw. destruct (Hm w Hw) as (HI & Hev & _).
  exists (snd (fst (m w))), []. rewrite app_nil_r.
  split; [reflexivity|]. split; [exact Hev|]. left. auto.
Qed.

Lemma shaped_bind {A B} (m : M A) (k : A -> M B) (Q : A -> Prop) :
  keeps (marks_unchanged d0) quiet m Q ->
  (forall a, Q a -> shaped d0 (k a)) ->
  shaped d0 (bind m k).
Proof.
  intros Hm Hk w Hw. rewrite bind_run.
  destruct (Hm w Hw) as (HI & Hev & HQ).
  destruct (fst (fst (m w))) as [a|]; cbn [fst snd].
  - destruct (Hk a HQ (snd (m w)) HI) as (q & t & E & Hq & Ht).
    exists (snd (fst (m w)) ++ q)%list, t.
    rewrite E, app_assoc. split; [reflexivity|].
    split; [apply Forall_app; split; assumption | exact Ht].
  - exists (snd (fst (m w))), []. rewrite app_nil_r.
    split; [reflexivity|]. split; [exact Hev|]. left. auto.
Qed.

Lemma Send_run (body : string) (w : World) :
  telegram_Client_Send env "" body w =
  (Done (telegram_Send env (sends w) body),
   [EvSend body (is_null (telegram_Send env (sends w) body))],
   mkWorld (db w) (ticks w) (chats w) (S (sends w))).
Proof. reflexivity. Qed.

Lemma db_MarkNotified_run (ids : list Z) (w : World) :
  exists e w', db_MarkNotified env ids w = (Done e, [EvMarkNotified ids], w').
Proof.
  unfold db_MarkNotified.
  destruct ids as [|i ids]; [|destruct (too_many_variables (i :: ids))];
    unfold bind, emit, time_Now; rewrite store_exec_run;
    do 2 eexists; reflexivity.
Qed.

(** The end of the three delivery paths. *)
Lemma shaped_notify_tail (newArticles : list ArticleWithAnalysis)
    (msg : string) (onSendError : error -> M unit) :
  (forall e, keeps (marks_unchanged d0) quiet (onSendError e) anything) ->
  shaped d0
    (se <- telegram_Client_Send env "" msg ;;
     match se with
     | Some e => onSendError e
     | None =>
         me <- db_MarkNotified env (article_ids newArticles) ;;
         match me with
         | Some e => emit (EvWarn "mark notified" e)
         | None => ret tt
         end
     end).
Proof.
  intros Herr w Hw. rewrite bind_run, Send_run. cbn [fst snd].
  destruct (telegram_Send env (sends w) msg) as [e|]; cbn [is_null].
  - set (w1 := mkWorld (db w) (ticks w) (chats w) (S (sends w))).
    destruct (Herr e w1 Hw) as (HI & Hev & _).
    exists [], (EvSend msg false :: snd (fst (onSendError e w1))).
    split; [reflexivity|]. split; [constructor|].
    right. left. eauto.
  - set (w1 := mkWorld (db w) (ticks w) (chats w) (S (sends w))).
    rewrite bind_run.
    destruct (db_MarkNotified_run (article_ids newArticles) w1)
      as (me & w2 & ->).
    cbn [fst snd app].
    destruct me as [e|]; cbn [emit ret fst snd app].
    + exists [], [EvSend msg true; EvMarkNotified (article_ids newArticles);
                  EvWarn "mark notified" e].
      split; [reflexivity|]. split; [constructor|].
      right. right. exists msg, (article_ids newArticles), [EvWarn "mark notified" e].
      split; [reflexivity | repeat constructor].
    + exists [], [EvSend msg true; EvMarkNotified (article_ids newArticles)].
      split; [reflexivity|]. split; [constructor|].
      right. right. exists msg, (article_ids newArticles), [].
      split; [reflexivity | constructor].
Qed.

Lemma quiet_keeps_UnnotifiedAnalyses window :
  keeps (marks_unchanged d0) quiet (UnnotifiedAnalyses env window) anything.
Proof.
  eapply keeps_weaken.
  - unfold UnnotifiedAnalyses.
    apply keeps_window_query with (Q := anything). intros; exact Logic.I.
  - intros; exact Logic.I.
Qed.

Lemma quiet_keeps_AnalyzeTrends l :
  keeps (marks_unchanged d0) quiet (AnalyzeTrends env l) anything.
Proof. apply keeps_AnalyzeTrends. side. Qed.

Lemma quiet_keeps_emit e : quiet e ->
  keeps (marks_unchanged d0) quiet (emit e) anything.
Proof. apply keeps_emit. Qed.

Lemma quiet_keeps_fatal {A} s (Q : A -> Prop) :
  keeps (marks_unchanged d0) quiet (fatal s) Q.
Proof. apply keeps_fatal. side. Qed.

Lemma shaped_ret {A} (a : A) : shaped d0 (ret a).
Proof.
  apply keeps_shaped with (Q := anything). apply keeps_ret. exact Logic.I.
Qed.

Lemma shaped_emit e : quiet e -> shaped d0 (emit e).
Proof.
  intros H. apply keeps_shaped with (Q := anything). apply keeps_emit, H.
Qed.

Lemma shaped_fatal {A} s : shaped d0 (@fatal A s).
Proof.
  apply keeps_shaped with (Q := anything). apply quiet_keeps_fatal.
Qed.

Lemma shaped_pipeline_notify : shaped d0 (pipeline_notify env).
Proof.
  unfold pipeline_notify.
  destruct (telegram_configured env); [|apply shaped_ret].
  eapply shaped_bind; [apply quiet_keeps_UnnotifiedAnalyses|].
  intros [[|x l]|e] _;
    [apply shaped_ret | | apply shaped_emit; exact Logic.I].
  eapply shaped_bind; [apply quiet_keeps_AnalyzeTrends|].
  intros [report|e] _; [|apply shaped_emit; exact Logic.I].
  apply shaped_notify_tail. intros e. apply quiet_keeps_emit. exact Logic.I.
Qed.

Lemma shaped_cmdNotify window : shaped d0 (cmdNotify env window).
Proof.
  unfold cmdNotify.
  destruct (telegram_configured env); [|apply shaped_fatal].
  eapply shaped_bind; [apply quiet_keeps_UnnotifiedAnalyses|].
  intros [[|x l]|e] _; [apply shaped_ret | | apply shaped_fatal].
  eapply shaped_bind; [apply quiet_keeps_AnalyzeTrends|].
  intros [report|e] _; [|apply shaped_fatal].
  apply shaped_notify_tail. intros e. apply quiet_keeps_fatal.
Qed.

Lemma shaped_cmdReport window : shaped d0 (cmdReport env window).
Proof.
  unfold cmdReport.
  eapply shaped_bind.
  { unfold AnalysesByTimeWindow, TopScoredArticles.
    apply keeps_window_query with (Q := anything). intros; exact Logic.I. }
  intros [[|x l]|e] _; try apply shaped_fatal.
  eapply shaped_bind; [apply quiet_keeps_AnalyzeTrends|].
  intros [report|e] _; [|apply shaped_fatal].
  unfold cmdReport_send.
  destruct (telegram_configured env); [|apply shaped_ret].
  eapply shaped_bind; [apply quiet_keeps_UnnotifiedAnalyses|].
  intros [[|y l']|e] _;
    [apply shaped_ret | | apply shaped_emit; exact Logic.I].
  apply shaped_notify_tail. intros e. apply quiet_keeps_emit. exact Logic.I.
Qed.

Lemma quiet_keeps_analyze_loop (articles : list Article) :
  keeps (marks_unchanged d0) quiet
    (for_each articles (pipeline_analyze env)) anything.
Proof.
  apply keeps_for_each with (P := anything).
  - apply Forall_forall. intros; exact Logic.I.
  - intros a _. apply keeps_pipeline_analyze with (okA := anything); side.
Qed.

Lemma quiet_keeps_retry_sweep window :
  keeps (marks_unchanged d0) quiet (retry_sweep env window) anything.
Proof. apply keeps_retry_sweep with (okA := anything); side. Qed.

Lemma shaped_runPipeline : shaped d0 (runPipeline env).
Proof.
  unfold runPipeline.
  eapply shaped_bind; [apply quiet_keeps_emit; exact Logic.I|]. intros _ _.
  destruct (hnpopular_FetchTopBlogs env 100) as [blogs|e];
    [|apply shaped_emit; exact Logic.I].
  eapply shaped_bind;
    [apply keeps_store_exec; intros d; apply marks_SaveBlogs|].
  intros [err|] _; [apply shaped_emit; exact Logic.I|].
  eapply shaped_bind; [apply keeps_ScrapeBlogs; side|]. intros se _.
  eapply shaped_bind with (Q := anything).
  { destruct se; [apply quiet_keeps_emit | apply keeps_ret]; exact Logic.I. }
  intros _ _.
  eapply shaped_bind.
  { unfold UnanalyzedArticles.
    apply keeps_window_query with (Q := anything). intros; exact Logic.I. }
  intros [articles|e] _; [|apply shaped_emit; exact Logic.I].
  unfold pipeline_from_articles.
  eapply shaped_bind; [apply quiet_keeps_analyze_loop|]. intros _ _.
  eapply shaped_bind; [apply quiet_keeps_retry_sweep|]. intros _ _.
  apply shaped_pipeline_notify.
Qed.

Lemma shaped_cmdAnalyze window : shaped d0 (cmdAnalyze env window).
Proof.
  unfold cmdAnalyze.
  eapply shaped_bind.
  { unfold ArticlesByTimeWindow.
    apply keeps_window_query with (Q := anything). intros; exact Logic.I. }
  intros [[|x l]|e] _; try apply shaped_fatal.
  eapply shaped_bind; [apply (quiet_keeps_analyze_loop (x :: l))|].
  intros _ _. apply keeps_shaped with (Q := anything).
  apply quiet_keeps_retry_sweep.
Qed.

Lemma shaped_cmdFetchBlogs : shaped d0 (cmdFetchBlogs env).
Proof.
  apply keeps_shaped with (Q := anything). apply keeps_cmdFetchBlogs; side.
Qed.

Lemma shaped_cmdScrape : shaped d0 (cmdScrape env).
Proof.
  apply keeps_shaped with (Q := anything). apply keeps_cmdScrape; side.
Qed.

End Delivery.

Section DeliverySafety.
Context {rt : Runtime}.
Variable env : Environment.

Lemma shaped_safe (m : M unit) :
  (forall d0, shaped d0 m) -> delivery_safe m.
Proof.
  intros H w.
  apply (delivery_shape_safe (db w)).
  apply (H (db w) w). apply marks_unchanged_refl.
Qed.

(** C2. In a cycle of the pipeline and in each command, every call of
    [MarkNotified] comes right after a [Send] that returned no error; when
    a [Send] returned an error, [MarkNotified] is not called and every
    analysis row keeps its [notified_at] (rows that were added have none);
    and so it is whenever no [Send] succeeded. *)
Theorem mark_only_after_delivery :
  delivery_safe (runPipeline env) /\
  delivery_safe (cmdFetchBlogs env) /\
  delivery_safe (cmdScrape env) /\
  (forall window,
      delivery_safe (cmdNotify env window) /\
      delivery_safe (cmdReport env window) /\
      delivery_safe (cmdAnalyze env window)).
Proof.
  split; [apply shaped_safe; intros d0; apply shaped_runPipeline|].
  split; [apply shaped_safe; intros d0; apply shaped_cmdFetchBlogs|].
  split; [apply shaped_safe; intros d0; apply shaped_cmdScrape|].
  intros window. split; [|split]; apply shaped_safe; intros d0.
  - apply shaped_cmdNotify.
  - apply shaped_cmdReport.
  - apply shaped_cmdAnalyze.
Qed.

End DeliverySafety.

(** ** A failure of Stage A *)

Lemma next_id_fresh (keys : list Z) (k : Z) : In k keys -> k < next_id keys.
Proof.
  unfold next_id. induction keys as [|x keys IH]; intros H; [destruct H|].
  cbn [fold_right]. destruct H as [->|H]; [lia|]. specialize (IH H). lia.
Qed.

Lemma id_unique_SaveBlogs bs d : id_unique d -> id_unique (snd (SaveBlogs bs d)).
Proof. intros H. exact H. Qed.

Lemma id_unique_SaveArticle a d :
  id_unique d -> id_unique (snd (SaveArticle a d)).
Proof.
  unfold id_unique, SaveArticle. rewrite insert_article_articles.
  destruct (existsb _ _); [auto|]. intros H.
  rewrite map_app. apply NoDup_app; [exact H | repeat constructor; intros [] |].
  intros k Hk [<-|[]]. simpl in Hk.
  apply next_id_fresh in Hk. lia.
Qed.

Lemma no_analysis_SaveArticleAnalysis aid a d :
  ArticleID a <> aid ->
  no_analysis d aid -> no_analysis (snd (SaveArticleAnalysis a d)) aid.
Proof.
  intros Ha Hd r Hr.
  unfold SaveArticleAnalysis in Hr. cbn [snd article_analysis] in Hr.
  destruct (existsb _ _).
  - apply in_map_iff in Hr as (r0 & <- & Hr0).
    destruct (article_id r0 =? ArticleID a) eqn:E; [|apply Hd, Hr0].
    cbn [update_analysis article_id]. lia.
  - apply in_app_or in Hr as [Hr|[<-|[]]]; [apply Hd, Hr | exact Ha].
Qed.

Lemma no_analysis_MarkNotified aid ids ts d :
  no_analysis d aid -> no_analysis (snd (MarkNotified ids ts d)) aid.
Proof.
  intros Hd. destruct (MarkNotified_snd ids ts d) as [-> | ->]; [exact Hd|].
  intros r Hr. cbn [article_analysis] in Hr.
  apply in_map_iff in Hr as (r0 & <- & Hr0).
  destruct (mem_id _ _); apply (Hd r0 Hr0).
Qed.

Lemma no_analysis_unanalyzed {rt : Runtime} (d : DB) (r : ArticleRow) (cutoff : string) :
  In r (articles d) -> no_analysis d (id r) ->
  text_geb (published_at r) cutoff = true ->
  In r (rows_UnanalyzedArticles cutoff d).
Proof.
  intros Hr Hn Hc. unfold rows_UnanalyzedArticles.
  apply sorted_articles_In, filter_In. split; [exact Hr|].
  rewrite Hc. simpl.
  destruct (existsb _ _) eqn:E; [|reflexivity].
  apply existsb_exists in E as (aa & Haa & E).
  exfalso. apply (Hn aa Haa). lia.
Qed.

Lemma rows_UnanalyzedArticles_In {rt : Runtime} (cutoff : string) (d : DB) (r : ArticleRow) :
  In r (rows_UnanalyzedArticles cutoff d) ->
  In r (articles d) /\ no_analysis d (id r).
Proof.
  unfold rows_UnanalyzedArticles. rewrite sorted_articles_In, filter_In.
  intros [Hr Hc]. split; [exact Hr|].
  apply andb_true_iff in Hc as [_ Hc]. apply negb_true_iff in Hc.
  intros aa Haa E.
  assert (existsb (fun aa => id r =? article_id aa) (article_analysis d) = true);
    [|congruence].
  apply existsb_exists. exists aa. split; [exact Haa | lia].
Qed.

Lemma NoDup_map_filter {A B} (f : A -> B) (P : A -> bool) (l : list A) :
  NoDup (map f l) -> NoDup (map f (filter P l)).
Proof.
  induction l as [|x l IH]; simpl; intros H; [constructor|].
  inversion H as [|? ? Hx Hl]; subst.
  destruct (P x); [|auto]. simpl. constructor; [|auto].
  intros Hin. apply Hx. apply in_map_iff in Hin as (y & E & Hy).
  apply filter_In in Hy as [Hy _]. rewrite <- E. apply in_map. exact Hy.
Qed.

Lemma rows_UnanalyzedArticles_NoDup {rt : Runtime} (cutoff : string) (d : DB) :
  id_unique d -> NoDup (map id (rows_UnanalyzedArticles cutoff d)).
Proof.
  intros H. unfold rows_UnanalyzedArticles.
  eapply Permutation_NoDup.
  - apply Permutation_map, Permutation_sym, sorted_articles_perm.
  - apply NoDup_map_filter. exact H.
Qed.

Section StageA.
Context {rt : Runtime}.
Variable env : Environment.

(** One iteration of the loop: Stage A fails and nothing else happens, or
    Stage A succeeds and the article is enriched. *)
Lemma pipeline_analyze_step (x : Article) (w0 : World) :
  let w1 := mkWorld (db w0) (ticks w0) (S (chats w0)) (sends w0) in
  let chat := EvChat scoreSystemPrompt (scoreUserPrompt x) in
  (score_fails env (chats w0) x /\
   exists e, pipeline_analyze env x w0 = (Done tt, [chat; EvWarnScore x e], w1)) \/
  (exists sr,
     score_succeeds env (chats w0) x sr /\
     pipeline_analyze env x w0 =
     (fst (fst (enrich_scored env x sr w1)),
      chat :: snd (fst (enrich_scored env x sr w1)),
      snd (enrich_scored env x sr w1))).
Proof.
  intros w1 chat. unfold pipeline_analyze.
  rewrite bind_run, ScoreArticle_run. cbn [fst snd].
  unfold score_fails, score_succeeds.
  destruct (backend env (chats w0) scoreSystemPrompt (scoreUserPrompt x))
    as [content|e0].
  - destruct (json_Unmarshal_ScoreResult _) as [sr|] eqn:E.
    + right. exists sr. split; [exists content; auto | reflexivity].
    + left. split; [reflexivity|]. eexists. reflexivity.
  - left. split; [exact Logic.I|]. eexists. reflexivity.
Qed.

Lemma enrich_scored_quiet (x : Article) (sr : ScoreResult) (w1 : World) :
  Forall not_warnScore (snd (fst (enrich_scored env x sr w1))).
Proof.
  refine (proj1 (proj2 (keeps_enrich_scored env (fun _ => True) not_warnScore
                          anything _ _ _ _ _ _ x sr _ w1 Logic.I)));
    intros; exact Logic.I.
Qed.

Lemma pipeline_analyze_warns (x : Article) (w0 : World) a e :
  In (EvWarnScore a e) (snd (fst (pipeline_analyze env x w0))) ->
  a = x /\ score_fails env (chats w0) x /\
  db (snd (pipeline_analyze env x w0)) = db w0.
Proof.
  destruct (pipeline_analyze_step x w0) as [(Hf & e' & ->)|(sr & _ & ->)];
    cbn [fst snd].
  - intros [H|[H|[]]]; [discriminate|]. injection H as <- _. auto.
  - intros [H|H]; [discriminate|]. exfalso.
    pose proof (enrich_scored_quiet x sr
                  (mkWorld (db w0) (ticks w0) (S (chats w0)) (sends w0))) as Hq.
    rewrite Forall_forall in Hq. exact (Hq _ H).
Qed.

(** An iteration for another article writes no row for [aid]. *)
Lemma pipeline_analyze_other (aid : Z) (x : Article) :
  a_ID x <> aid ->
  keeps (fun d => no_analysis d aid) anything (pipeline_analyze env x) anything.
Proof.
  intros Hx.
  apply keeps_pipeline_analyze with (okA := fun a => ArticleID a <> aid);
    try (intros; exact Logic.I).
  - intros a d Ha. apply no_analysis_SaveArticleAnalysis. exact Ha.
  - intros a s Ha. exact Ha.
  - intros sr now. exact Hx.
Qed.

Lemma analyze_loop_other (aid : Z) (l : list Article) :
  Forall (fun x => a_ID x <> aid) l ->
  keeps (fun d => no_analysis d aid) anything
    (for_each l (pipeline_analyze env)) anything.
Proof.
  intros H. eapply keeps_for_each; [exact H|].
  intros x Hx. apply pipeline_analyze_other. exact Hx.
Qed.

(** The loop over articles with distinct ids: an article whose Stage A
    failed has no analysis after the loop if it had none before. *)
Lemma analyze_loop_skips (l : list Article) :
  forall w0, NoDup (map a_ID l) ->
  forall a e,
    In (EvWarnScore a e) (snd (fst (for_each l (pipeline_analyze env) w0))) ->
    In a l /\ (exists n, score_fails env n a) /\
    (no_analysis (db w0) (a_ID a) ->
     no_analysis (db (snd (for_each l (pipeline_analyze env) w0))) (a_ID a)).
Proof.
  induction l as [|x l IH]; intros w0 Hnd a e Hin; [destruct Hin|].
  inversion Hnd as [|? ? Hx Hl]; subst.
  cbn [for_each] in *. rewrite bind_run in *.
  assert (Hother : Forall (fun y => a_ID y <> a_ID x) l).
  { apply Forall_forall. intros y Hy E. apply Hx. rewrite <- E.
    apply in_map. exact Hy. }
  destruct (fst (fst (pipeline_analyze env x w0))) as [[]|] eqn:Er;
    cbn [fst snd] in *.
  - apply in_app_or in Hin as [Hin|Hin].
    + apply pipeline_analyze_warns in Hin as (-> & Hf & Hdb).
      split; [left; reflexivity|]. split; [eauto|].
      intros Hn. apply (analyze_loop_other (a_ID x) l Hother).
      rewrite Hdb. exact Hn.
    + destruct (IH _ Hl a e Hin) as (Hal & Hf & Hn).
      split; [right; exact Hal|]. split; [exact Hf|].
      intros Hn0. apply Hn.
      apply (pipeline_analyze_other (a_ID a) x); [|exact Hn0].
      intros E. apply Hx. rewrite E. apply in_map. exact Hal.
  - apply pipeline_analyze_warns in Hin as (-> & Hf & Hdb).
    split; [left; reflexivity|]. split; [eauto|].
    rewrite Hdb. auto.
Qed.

(** [runPipeline], cut into its stages. *)
Lemma runPipeline_run (w : World) :
  runPipeline env w =
  match hnpopular_FetchTopBlogs env 100 with
  | Err e => (Done tt, [EvFetchBlogs; EvWarn "fetch blogs" e], w)
  | Ok blogs =>
      let w0 := mkWorld (snd (SaveBlogs blogs (db w))) (ticks w) (chats w)
                  (sends w) in
      let s := ScrapeBlogs env blogs w0 in
      let w1 := snd s in
      let cutoff :=
        formatRFC3339 (time_sub (clock env (ticks w1)) (168 * time_Hour)) in
      let rows := rows_UnanalyzedArticles cutoff (db w1) in
      let w1' := mkWorld (db w1) (S (ticks w1)) (chats w1) (sends w1) in
      if forallb article_readable rows then
        let p := pipeline_from_articles env (map scanArticle rows) w1' in
        (fst (fst p), EvFetchBlogs :: (snd (fst s) ++ snd (fst p))%list, snd p)
      else
        (Done tt,
         EvFetchBlogs :: (snd (fst s) ++ [EvWarn "get articles" ErrScan])%list,
         w1')
  end.
Proof.
  unfold runPipeline. rewrite bind_run. cbn [emit fst snd].
  destruct (hnpopular_FetchTopBlogs env 100) as [blogs|e]; [|reflexivity].
  rewrite bind_run, store_exec_run. cbn [fst snd].
  change (fst (SaveBlogs blogs (db w))) with (@None error).
  cbv iota beta.
  set (w0 := mkWorld (snd (SaveBlogs blogs (db w))) (ticks w) (chats w)
               (sends w)).
  rewrite bind_run, ScrapeBlogs_nil_error. cbn [fst snd].
  set (w1 := snd (ScrapeBlogs env blogs w0)).
  rewrite bind_run. cbn [ret fst snd].
  rewrite bind_run. unfold UnanalyzedArticles.
  rewrite window_query_run.
  change (window_duration "7days") with (@Ok Duration (168 * time_Hour)).
  cbv iota beta zeta. cbn [fst snd app].
  rewrite scan_rows_cases.
  set (rows := rows_UnanalyzedArticles _ (db w1)).
  destruct (forallb article_readable rows); reflexivity.
Qed.

(** Steps 3b and 4 write no row for an article that has none, and report
    no failure of Stage A. *)
Lemma after_loop_keeps (aid : Z) :
  keeps (fun d => no_analysis d aid) not_warnScore
    (retry_sweep env "7days" ;; pipeline_notify env) anything.
Proof.
  eapply keeps_bind.
  - apply keeps_retry_sweep with (okA := fun a => ArticleID a <> aid);
      try (intros; exact Logic.I).
    + intros a d Ha. apply no_analysis_SaveArticleAnalysis. exact Ha.
    + intros a s Ha. exact Ha.
    + intros c d p Hd Hp.
      apply rows_UnsummarizedHighScoreArticles_In in Hp as [Hp _].
      exact (Hd (snd p) Hp).
  - intros _ _. apply keeps_pipeline_notify; try (intros; exact Logic.I).
    intros ids ts d. apply no_analysis_MarkNotified.
Qed.

Lemma after_loop_no_warnScore (w2 : World) :
  Forall not_warnScore
    (snd (fst ((retry_sweep env "7days" ;; pipeline_notify env) w2))).
Proof.
  assert (H : keeps (fun _ => True) not_warnScore
                (retry_sweep env "7days" ;; pipeline_notify env) anything).
  { eapply keeps_bind.
    - apply keeps_retry_sweep with (okA := anything);
        intros; exact Logic.I.
    - intros _ _. apply keeps_pipeline_notify; intros; exact Logic.I. }
  exact (proj1 (proj2 (H w2 Logic.I))).
Qed.

Lemma pipeline_from_articles_skips (l : list Article) (w1 : World) :
  NoDup (map a_ID l) ->
  forall a e,
    In (EvWarnScore a e) (snd (fst (pipeline_from_articles env l w1))) ->
    In a l /\ (exists n, score_fails env n a) /\
    (no_analysis (db w1) (a_ID a) ->
     no_analysis (db (snd (pipeline_from_articles env l w1))) (a_ID a)).
Proof.
  intros Hnd a e. unfold pipeline_from_articles. rewrite bind_run.
  pose proof (analyze_loop_skips l w1 Hnd a e) as Hloop.
  destruct (fst (fst (for_each l (pipeline_analyze env) w1))) as [[]|];
    cbn [fst snd]; [|exact Hloop].
  intros Hin. apply in_app_or in Hin as [Hin|Hin].
  - destruct (Hloop Hin) as (Hal & Hf & Hn).
    split; [exact Hal|]. split; [exact Hf|].
    intros Hn0. apply (after_loop_keeps (a_ID a)). apply Hn, Hn0.
  - exfalso.
    pose proof (after_loop_no_warnScore
                  (snd (for_each l (pipeline_analyze env) w1))) as Hq.
    rewrite Forall_forall in Hq. exact (Hq _ Hin).
Qed.

(** From the articles that step 3 reads on, table [articles] is fixed. *)
Lemma pipeline_from_articles_articles (l : list Article) (w1 : World) :
  articles (db (snd (pipeline_from_articles env l w1))) = articles (db w1).
Proof.
  refine (proj1 (keeps_pipeline_from_articles env
                   (fun d => articles d = articles (db w1)) anything anything
                   _ _ _ _ _ _ _ _ _ _ _ _ l w1 eq_refl));
    try (intros; exact Logic.I).
  - intros a d _ H. exact H.
  - intros ids ts d H. rewrite MarkNotified_articles. exact H.
Qed.

(** Before step 3 no failure of Stage A is reported and the keys of
    [articles] stay distinct. *)
Lemma ScrapeBlogs_before (blogs : list Blog) (w0 : World) :
  id_unique (db w0) ->
  id_unique (db (snd (ScrapeBlogs env blogs w0))) /\
  Forall not_warnScore (snd (fst (ScrapeBlogs env blogs w0))).
Proof.
  intros H.
  destruct (keeps_ScrapeBlogs env id_unique not_warnScore
              (fun _ => Logic.I) (fun _ _ => Logic.I)
              id_unique_SaveArticle blogs w0 H) as (H1 & H2 & _).
  auto.
Qed.

(** C6. When Stage A fails for an article, because the call fails or
    because the cleaned reply does not parse, the iteration of the loop
    writes nothing: it leaves the database as it is, logs the failure and
    the loop goes on with the next article. At the end of a cycle, every
    article for which a failure of Stage A was logged is a row of
    [articles] that has no analysis row, so that [UnanalyzedArticles]
    returns it again whenever it is in the window. *)
Theorem stageA_failure_skips_item (w : World) :
  id_unique (db w) ->
  (forall w0 article,
      score_fails env (chats w0) article ->
      let w1 := mkWorld (db w0) (ticks w0) (S (chats w0)) (sends w0) in
      exists e,
        pipeline_analyze env article w0 =
          (Done tt,
           [EvChat scoreSystemPrompt (scoreUserPrompt article);
            EvWarnScore article e], w1) /\
        forall rest,
          for_each (article :: rest) (pipeline_analyze env) w0 =
          (fst (fst (for_each rest (pipeline_analyze env) w1)),
           EvChat scoreSystemPrompt (scoreUserPrompt article)
           :: EvWarnScore article e
           :: snd (fst (for_each rest (pipeline_analyze env) w1)),
           snd (for_each rest (pipeline_analyze env) w1))) /\
  (forall a e,
      In (EvWarnScore a e) (snd (fst (runPipeline env w))) ->
      let d' := db (snd (runPipeline env w)) in
      (exists n, score_fails env n a) /\
      no_analysis d' (a_ID a) /\
      exists r, In r (articles d') /\ a = scanArticle r /\
                forall cutoff,
                  text_geb (published_at r) cutoff = true ->
                  In r (rows_UnanalyzedArticles cutoff d')).
Proof.
  intros Hu. split.
  - intros w0 article Hf w1.
    destruct (pipeline_analyze_step article w0)
      as [(_ & e & Hrun)|(sr & (content & Hb & Hj) & _)].
    + exists e. split; [exact Hrun|]. intros rest.
      cbn [for_each]. rewrite bind_run, Hrun. reflexivity.
    + exfalso. unfold score_fails in Hf. rewrite Hb, Hj in Hf. discriminate.
  - intros a e. rewrite runPipeline_run.
    destruct (hnpopular_FetchTopBlogs env 100) as [blogs|e0].
    + cbv zeta. cbn [fst snd].
      set (w0 := mkWorld (snd (SaveBlogs blogs (db w))) (ticks w) (chats w)
                   (sends w)).
      destruct (ScrapeBlogs_before blogs w0 Hu) as [Hu1 Hq].
      set (w1 := snd (ScrapeBlogs env blogs w0)) in *.
      set (cutoff := formatRFC3339
                       (time_sub (clock env (ticks w1)) (168 * time_Hour))).
      set (rows := rows_UnanalyzedArticles cutoff (db w1)).
      set (w1' := mkWorld (db w1) (S (ticks w1)) (chats w1) (sends w1)).
      destruct (forallb article_readable rows); cbn [fst snd].
      2:{ intros [Hin|Hin]; [discriminate|].
          apply in_app_or in Hin as [Hin|[Hin|[]]]; [|discriminate].
          exfalso. rewrite Forall_forall in Hq. exact (Hq _ Hin). }
      intros [Hin|Hin]; [discriminate|].
      apply in_app_or in Hin as [Hin|Hin].
      { exfalso. rewrite Forall_forall in Hq. exact (Hq _ Hin). }
      assert (Hnd : NoDup (map a_ID (map scanArticle rows))).
      { rewrite map_map. cbn [scanArticle a_ID].
        apply rows_UnanalyzedArticles_NoDup. exact Hu1. }
      destruct (pipeline_from_articles_skips _ w1' Hnd a e Hin)
        as (Hal & Hf & Hn).
      apply in_map_iff in Hal as (r & <- & Hr).
      apply rows_UnanalyzedArticles_In in Hr as [Hr Hnone].
      specialize (Hn Hnone).
      split; [exact Hf|]. split; [exact Hn|].
      exists r. rewrite pipeline_from_articles_articles.
      split; [exact Hr|]. split; [reflexivity|].
      intros c Hc. apply no_analysis_unanalyzed; [| exact Hn | exact Hc].
      rewrite pipeline_from_articles_articles. exact Hr.
    + cbn [fst snd]. intros [H|[H|[]]]; discriminate.
Qed.

End StageA.

(** ** Texts *)

Lemma append_nil_r (s : string) : s ++ "" = s.
Proof. induction s; simpl; congruence. Qed.

Lemma append_assoc (a b c : string) : (a ++ b) ++ c = a ++ b ++ c.
Proof. induction a; simpl; congruence. Qed.

Lemma length_append (a b : string) :
  String.length (a ++ b) = (String.length a + String.length b)%nat.
Proof. induction a; simpl; congruence. Qed.

Lemma substring_all (s : string) : String.substring 0 (String.length s) s = s.
Proof. induction s; simpl; congruence. Qed.

Lemma length_substring_0 (n : nat) (s : string) :
  String.length (String.substring 0 n s) = Nat.min n (String.length s).
Proof.
  revert n. induction s as [|c s IH]; intros [|n]; simpl; auto.
Qed.

Lemma substring_split (n : nat) (s : string) :
  (n <= String.length s)%nat ->
  s = String.substring 0 n s ++
      String.substring n (Nat.sub (String.length s) n) s.
Proof.
  revert n. induction s as [|c s IH]; intros [|n] H; simpl in *.
  - reflexivity.
  - lia.
  - now rewrite substring_all.
  - f_equal. apply IH. lia.
Qed.

Lemma list_ascii_of_append (a b : string) :
  list_ascii_of_string (a ++ b) =
  (list_ascii_of_string a ++ list_ascii_of_string b)%list.
Proof. induction a; simpl; congruence. Qed.

Lemma concat_bytes_append (f : ascii -> string) (a b : string) :
  concat_bytes f (a ++ b) = concat_bytes f a ++ concat_bytes f b.
Proof.
  induction a as [|c a IH]; simpl; [reflexivity|].
  now rewrite IH, append_assoc.
Qed.

Lemma concat_bytes_compose (f g : ascii -> string) (s : string) :
  concat_bytes g (concat_bytes f s) = concat_bytes (fun c => concat_bytes g (f c)) s.
Proof.
  induction s as [|c s IH]; simpl; [reflexivity|].
  now rewrite concat_bytes_append, IH.
Qed.

Lemma concat_bytes_ext (f g : ascii -> string) (s : string) :
  (forall c, f c = g c) -> concat_bytes f s = concat_bytes g s.
Proof. intros H. induction s; simpl; congruence. Qed.

Lemma prefix_nil (s : string) : String.prefix "" s = true.
Proof. destruct s; reflexivity. Qed.

(** Replacing a one-byte text works byte by byte. *)
Lemma replaceAll_fuel_byte (c : ascii) (new : string) (fuel : nat) (s : string) :
  (String.length s <= fuel)%nat ->
  replaceAll_fuel fuel s (String c EmptyString) new =
  concat_bytes (fun x => if Ascii.eqb x c then new else String x EmptyString) s.
Proof.
  revert s. induction fuel as [|f IH]; intros [|x s] H; simpl in *;
    try reflexivity; try lia.
  destruct (ascii_dec c x) as [->|Hn].
  - rewrite Ascii.eqb_refl, prefix_nil. f_equal.
    rewrite Nat.sub_0_r, substring_all. apply IH. lia.
  - destruct (Ascii.eqb_spec x c) as [->|_]; [congruence|].
    simpl. f_equal. apply IH. lia.
Qed.

Lemma strings_ReplaceAll_byte (c : ascii) (new s : string) :
  strings_ReplaceAll s (String c EmptyString) new =
  concat_bytes (fun x => if Ascii.eqb x c then new else String x EmptyString) s.
Proof. apply replaceAll_fuel_byte. apply Nat.le_refl. Qed.

Lemma escapeHTML_concat (s : string) :
  escapeHTML s = concat_bytes escape_byte s.
Proof.
  unfold escapeHTML.
  change "&" with (String "&"%char EmptyString).
  change "<" with (String "<"%char EmptyString).
  change ">" with (String ">"%char EmptyString).
  rewrite !strings_ReplaceAll_byte, !concat_bytes_compose.
  apply concat_bytes_ext. intros c. unfold escape_byte.
  destruct (Ascii.eqb_spec c "&"%char) as [->|H1]; [reflexivity|].
  simpl.
  destruct (Ascii.eqb_spec c "<"%char) as [->|H2]; [reflexivity|].
  simpl.
  destruct (Ascii.eqb_spec c ">"%char) as [->|H3]; [reflexivity|].
  reflexivity.
Qed.

Lemma escape_byte_no_angle (c x : ascii) :
  In x (list_ascii_of_string (escape_byte c)) ->
  x <> "<"%char /\ x <> ">"%char.
Proof.
  unfold escape_byte.
  destruct (Ascii.eqb_spec c "&"%char) as [->|H1];
    [|destruct (Ascii.eqb_spec c "<"%char) as [->|H2];
      [|destruct (Ascii.eqb_spec c ">"%char) as [->|H3]]];
    simpl; intros H;
    repeat (destruct H as [<-|H]; [split; congruence|]); destruct H.
Qed.

Lemma escape_byte_plain (c : ascii) :
  c <> "&"%char -> c <> "<"%char -> c <> ">"%char ->
  escape_byte c = String c EmptyString.
Proof.
  intros H1 H2 H3. unfold escape_byte.
  destruct (Ascii.eqb_spec c "&"%char); [contradiction|].
  destruct (Ascii.eqb_spec c "<"%char); [contradiction|].
  destruct (Ascii.eqb_spec c ">"%char); [contradiction|].
  reflexivity.
Qed.

(** The cases of [escape_byte]. *)
Lemma escape_byte_cases (c : ascii) :
  (c = "&"%char /\ escape_byte c = "&amp;") \/
  (c = "<"%char /\ escape_byte c = "&lt;") \/
  (c = ">"%char /\ escape_byte c = "&gt;") \/
  (c <> "&"%char /\ escape_byte c = String c EmptyString).
Proof.
  unfold escape_byte.
  destruct (Ascii.eqb_spec c "&"%char) as [->|H1]; [now left|].
  destruct (Ascii.eqb_spec c "<"%char) as [->|H2]; [now right; left|].
  destruct (Ascii.eqb_spec c ">"%char) as [->|H3]; [now right; right; left|].
  now right; right; right.
Qed.

Lemma concat_escape_inj (s t : string) :
  concat_bytes escape_byte s = concat_bytes escape_byte t -> s = t.
Proof.
  revert t. induction s as [|c s IH]; intros [|d t] H; simpl in H.
  - reflexivity.
  - destruct (escape_byte_cases d) as [[_ E]|[[_ E]|[[_ E]|[_ E]]]];
      rewrite E in H; discriminate.
  - destruct (escape_byte_cases c) as [[_ E]|[[_ E]|[[_ E]|[_ E]]]];
      rewrite E in H; discriminate.
  - destruct (escape_byte_cases c) as [[-> E]|[[-> E]|[[-> E]|[Hc E]]]];
      destruct (escape_byte_cases d) as [[-> E']|[[-> E']|[[-> E']|[Hd E']]]];
      try rewrite E in H; try rewrite E' in H; simpl in H;
      try discriminate;
      try (injection H as H; f_equal; now apply IH);
      try (injection H as Hx H; congruence).
    injection H as -> H. f_equal. now apply IH.
Qed.

(** X1. [escapeHTML] replaces every byte "&", "<" and ">" of a text by its
    entity, once: the "&" of an entity that the first replacement wrote is
    not replaced again by the next two. The result holds no angle bracket,
    the escaping of a text put together from two parts is the escaped parts
    put together, two texts that escape to the same text are the same, and
    a text without the three characters is returned as it is. *)
Theorem escapeHTML_escapes_each_byte_once (s : string) :
  escapeHTML s = concat_bytes escape_byte s /\
  (forall c, In c (list_ascii_of_string (escapeHTML s)) ->
             c <> "<"%char /\ c <> ">"%char) /\
  (forall t, escapeHTML (s ++ t) = escapeHTML s ++ escapeHTML t) /\
  (forall t, escapeHTML s = escapeHTML t -> s = t) /\
  ((forall c, In c (list_ascii_of_string s) ->
              c <> "&"%char /\ c <> "<"%char /\ c <> ">"%char) ->
   escapeHTML s = s).
Proof.
  split; [apply escapeHTML_concat|]. split; [|split; [|split]].
  - rewrite escapeHTML_concat. induction s as [|x s IH]; simpl.
    + intros c [].
    + intros c. rewrite list_ascii_of_append, in_app_iff.
      intros [H|H]; [eapply escape_byte_no_angle; eauto | auto].
  - intros t. rewrite !escapeHTML_concat. apply concat_bytes_append.
  - intros t. rewrite !escapeHTML_concat. apply concat_escape_inj.
  - rewrite escapeHTML_concat. induction s as [|x s IH]; simpl; intros H.
    + reflexivity.
    + destruct (H x (or_introl eq_refl)) as (H1 & H2 & H3).
      rewrite escape_byte_plain by assumption. simpl. f_equal.
      apply IH. intros c Hc. apply H. now right.
Qed.

(** ** Splitting a message *)

Lemma strings_LastIndex_le (s sep : string) (i : nat) :
  strings_LastIndex s sep = Some i -> (i <= String.length s)%nat.
Proof.
  revert i. induction s as [|c s IH]; intros i; cbn [strings_LastIndex].
  - destruct (String.prefix sep ""); intros H; inversion H; simpl; lia.
  - destruct (strings_LastIndex s sep) as [j|].
    + intros H; inversion H. specialize (IH j eq_refl). simpl. lia.
    + destruct (String.prefix sep (String c s)); intros H; inversion H;
        simpl; lia.
Qed.

Lemma splitMessage_cut_bounds (text : string) (maxLen : nat) :
  (0 < maxLen)%nat -> (maxLen <= String.length text)%nat ->
  (0 < splitMessage_cut text maxLen <= maxLen)%nat.
Proof.
  intros Hpos Hlen. unfold splitMessage_cut.
  assert (L : String.length (String.substring 0 maxLen text) = maxLen).
  { rewrite length_substring_0. lia. }
  destruct (strings_LastIndex _ (nl ++ nl)) as [[|i]|] eqn:E1;
    try (apply strings_LastIndex_le in E1; lia);
    destruct (strings_LastIndex _ nl) as [[|j]|] eqn:E2;
    try (apply strings_LastIndex_le in E2; lia); lia.
Qed.

Lemma strings_TrimLeft_nl (s : string) :
  exists gap, only_newlines gap /\ s = gap ++ strings_TrimLeft s nl.
Proof.
  induction s as [|c s (gap & G & E)].
  - exists "". split; [constructor | reflexivity].
  - simpl. destruct (Ascii.eqb_spec c (ascii_of_nat 10)) as [->|Hc]; simpl.
    + exists (String (ascii_of_nat 10) gap). split.
      * constructor; [reflexivity | exact G].
      * simpl. now rewrite <- E.
    + exists "". split; [constructor | reflexivity].
Qed.

Lemma length_zero (s : string) : String.length s = O -> s = "".
Proof. destruct s; [reflexivity | discriminate]. Qed.

(** The loop ends, its chunks are within the bound and not empty, and the
    text is the chunks with their gaps. *)
Lemma splitMessage_loop_spec (maxLen : nat) (fuel : nat) (text : string) :
  (0 < maxLen)%nat -> (String.length text < fuel)%nat ->
  exists chunks gaps,
    splitMessage_loop fuel text maxLen = Some chunks /\
    Forall (fun c => (0 < String.length c <= maxLen)%nat) chunks /\
    List.length gaps = List.length chunks /\
    Forall only_newlines gaps /\
    text = rejoin chunks gaps.
Proof.
  intros Hpos. revert text.
  induction fuel as [|f IH]; intros text Hf; [lia|].
  cbn [splitMessage_loop].
  destruct (Nat.eqb_spec (String.length text) 0) as [E0|N0].
  { exists [], []. apply length_zero in E0. subst.
    repeat split; constructor. }
  destruct (Nat.leb_spec (String.length text) maxLen) as [Hle|Hgt].
  { exists [text], [""]. split; [reflexivity|]. split.
    - constructor; [lia | constructor].
    - split; [reflexivity|]. split.
      + constructor; [constructor | constructor].
      + simpl. now rewrite append_nil_r. }
  set (cut := splitMessage_cut text maxLen).
  assert (Hcut : (0 < cut <= maxLen)%nat)
    by (apply splitMessage_cut_bounds; lia).
  set (rest := String.substring cut (Nat.sub (String.length text) cut) text).
  destruct (strings_TrimLeft_nl rest) as (gap & G & Erest).
  assert (Esplit : text = String.substring 0 cut text ++ rest)
    by (apply substring_split; lia).
  assert (Lrest : (String.length rest + cut = String.length text)%nat).
  { apply (f_equal String.length) in Esplit.
    rewrite length_append, length_substring_0 in Esplit. lia. }
  assert (Ltrim : (String.length (strings_TrimLeft rest nl) < f)%nat).
  { apply (f_equal String.length) in Erest.
    rewrite length_append in Erest. lia. }
  destruct (IH _ Ltrim) as (chunks & gaps & -> & Hb & Hl & Hg & Ht).
  exists (String.substring 0 cut text :: chunks), (gap :: gaps).
  split; [reflexivity|]. split.
  - constructor; [|exact Hb]. rewrite length_substring_0. lia.
  - split; [simpl; congruence|]. split.
    + constructor; assumption.
    + cbn [rejoin]. rewrite <- Ht, <- Erest. exact Esplit.
Qed.

Lemma splitMessage_spec (text : string) (maxLen : nat) :
  (0 < maxLen)%nat ->
  exists chunks gaps,
    splitMessage text maxLen = Some chunks /\
    (text <> "" -> Forall (fun c => (0 < String.length c)%nat) chunks) /\
    Forall (fun c => (String.length c <= maxLen)%nat) chunks /\
    chunks <> [] /\
    List.length gaps = List.length chunks /\
    Forall only_newlines gaps /\
    text = rejoin chunks gaps.
Proof.
  intros Hpos. unfold splitMessage.
  destruct (Nat.leb_spec (String.length text) maxLen) as [Hle|Hgt].
  - exists [text], [""]. split; [reflexivity|]. split.
    + intros Hne. constructor; [|constructor].
      destruct text; [congruence | simpl; lia].
    + split; [constructor; [exact Hle | constructor]|].
      split; [discriminate|]. split; [reflexivity|]. split.
      * constructor; constructor.
      * simpl. now rewrite append_nil_r.
  - destruct (splitMessage_loop_spec maxLen (S (String.length text)) text Hpos)
      as (chunks & gaps & E & Hb & Hl & Hg & Ht); [lia|].
    exists chunks, gaps. split; [exact E|]. split.
    + intros _. eapply Forall_impl; [|exact Hb]. simpl; intros; lia.
    + split; [eapply Forall_impl; [|exact Hb]; simpl; intros; lia|].
      split.
      * intros ->. destruct gaps; [|discriminate].
        simpl in Ht. subst. simpl in Hgt. lia.
      * auto.
Qed.

(** X2. For a positive bound, [splitMessage] ends and returns at least one
    chunk; no chunk is longer than the bound, and no chunk of a text that
    is not empty is empty. A text within the bound is returned as the one
    chunk, the empty text too. *)
Theorem splitMessage_bounds (text : string) (maxLen : nat) :
  (0 < maxLen)%nat ->
  exists chunks,
    splitMessage text maxLen = Some chunks /\
    chunks <> [] /\
    Forall (fun c => (String.length c <= maxLen)%nat) chunks /\
    (text <> "" -> Forall (fun c => c <> "") chunks) /\
    ((String.length text <= maxLen)%nat -> chunks = [text]).
Proof.
  intros Hpos.
  destruct (splitMessage_spec text maxLen Hpos)
    as (chunks & gaps & E & Hne & Hb & Hn & _).
  exists chunks. split; [exact E|]. split; [exact Hn|]. split; [exact Hb|].
  split.
  - intros H. eapply Forall_impl; [|exact (Hne H)].
    intros c Hc ->. simpl in Hc. lia.
  - intros Hle. unfold splitMessage in E.
    destruct (Nat.leb_spec (String.length text) maxLen); [|lia].
    now injection E as <-.
Qed.

(** X3. [splitMessage] loses nothing but line breaks at the places where
    it cuts: the text is its chunks put together again, each followed by a
    gap of line breaks only (the gap after the last chunk holds what was
    trimmed at the end of the text). *)
Theorem splitMessage_keeps_text (text : string) (maxLen : nat) :
  (0 < maxLen)%nat ->
  exists chunks gaps,
    splitMessage text maxLen = Some chunks /\
    List.length gaps = List.length chunks /\
    Forall only_newlines gaps /\
    text = rejoin chunks gaps.
Proof.
  intros Hpos.
  destruct (splitMessage_spec text maxLen Hpos)
    as (chunks & gaps & E & _ & _ & _ & Hl & Hg & Ht).
  exists chunks, gaps. auto.
Qed.

(** ** Sending the chunks *)

Lemma send_chunks_spec (sendRaw : nat -> string -> option error) (chunks : list string) :
  forall n,
    let sent := fst (send_chunks sendRaw n chunks) in
    let e := snd (send_chunks sendRaw n chunks) in
    (exists rest, chunks = (sent ++ rest)%list) /\
    (forall i c, nth_error sent i = Some c -> (S i < List.length sent)%nat ->
                 sendRaw (n + i)%nat c = None) /\
    match e with
    | None =>
        sent = chunks /\
        forall i c, nth_error chunks i = Some c -> sendRaw (n + i)%nat c = None
    | Some err =>
        exists k c, List.length sent = S k /\ nth_error sent k = Some c /\
                    sendRaw (n + k)%nat c = Some err
    end.
Proof.
  induction chunks as [|chunk rest IH]; intros n; cbn [send_chunks].
  - cbn [fst snd]. split; [exists []; reflexivity|]. split.
    + intros [|i] c; discriminate.
    + split; [reflexivity|]. intros [|i] c; discriminate.
  - destruct (sendRaw n chunk) as [err|] eqn:E.
    + cbn [fst snd]. split; [exists rest; reflexivity|]. split.
      * intros i c _ H. simpl in H. lia.
      * exists O, chunk. rewrite Nat.add_0_r. auto.
    + specialize (IH (S n)).
      destruct (send_chunks sendRaw (S n) rest) as [sent e].
      cbn [fst snd] in *. destruct IH as ((r & Hr) & Hacc & He).
      split; [exists r; simpl; congruence|]. split.
      * intros [|i] c H L; simpl in H, L.
        -- injection H as <-. now rewrite Nat.add_0_r.
        -- replace (n + S i)%nat with (S n + i)%nat by lia.
           apply Hacc; [exact H | lia].
      * destruct e as [err|].
        -- destruct He as (k & c & Hk & Hn & Hs).
           exists (S k), c. simpl. split; [congruence|]. split; [exact Hn|].
           now replace (n + S k)%nat with (S n + k)%nat by lia.
        -- destruct He as (-> & Hall). split; [reflexivity|].
           intros [|i] c H; simpl in H.
           ++ injection H as <-. now rewrite Nat.add_0_r.
           ++ replace (n + S i)%nat with (S n + i)%nat by lia. now apply Hall.
Qed.

(** X4. [Send] hands the chunks of the message to the Bot API in order and
    stops at the first chunk that is refused: it returns that error, the
    chunks before it have been accepted (they are delivered), and no chunk
    after it is sent. It returns nil only when every chunk was accepted.
    A message within 4096 bytes is one request. *)
Theorem Send_stops_at_first_failure
    (sendRaw : nat -> string -> option error) (n : nat) (title body : string) :
  exists chunks sent e,
    splitMessage (message_text title body) maxMessageLen = Some chunks /\
    Send_chunks sendRaw n title body = Some (sent, e) /\
    (exists rest, chunks = (sent ++ rest)%list) /\
    (forall i c, nth_error sent i = Some c -> (S i < List.length sent)%nat ->
                 sendRaw (n + i)%nat c = None) /\
    match e with
    | None =>
        sent = chunks /\
        forall i c, nth_error chunks i = Some c -> sendRaw (n + i)%nat c = None
    | Some err =>
        exists k c, List.length sent = S k /\ nth_error sent k = Some c /\
                    sendRaw (n + k)%nat c = Some err
    end /\
    ((String.length (message_text title body) <= maxMessageLen)%nat ->
     chunks = [message_text title body]).
Proof.
  destruct (splitMessage_bounds (message_text title body) maxMessageLen)
    as (chunks & E & _ & _ & _ & Hshort); [unfold maxMessageLen; lia|].
  pose proof (send_chunks_spec sendRaw chunks n) as H.
  exists chunks, (fst (send_chunks sendRaw n chunks)),
         (snd (send_chunks sendRaw n chunks)).
  split; [exact E|]. split.
  - unfold Send_chunks. rewrite E. now destruct (send_chunks sendRaw n chunks).
  - cbv zeta in H. destruct H as (H1 & H2 & H3). auto.
Qed.

(** ** Go maps *)

Lemma map_lookup_update {V} (m : list (string * V)) (k k' : string)
    (f : option V -> V) :
  map_lookup (map_update m k f) k' =
  if (k =? k')%string then Some (f (map_lookup m k)) else map_lookup m k'.
Proof.
  induction m as [|[k0 x] m IH]; simpl.
  - destruct (String.eqb_spec k k') as [->|]; reflexivity.
  - destruct (String.eqb_spec k0 k) as [->|Hk0]; simpl.
    + destruct (String.eqb_spec k k'); reflexivity.
    + rewrite IH. destruct (String.eqb_spec k0 k') as [->|].
      * destruct (String.eqb_spec k k'); [congruence | reflexivity].
      * reflexivity.
Qed.

Lemma map_update_keys {V} (m : list (string * V)) (k : string)
    (f : option V -> V) :
  map fst (map_update m k f) =
  if existsb (fun e => (fst e =? k)%string) m then map fst m
  else (map fst m ++ [k])%list.
Proof.
  induction m as [|[k0 x] m IH]; simpl; [reflexivity|].
  destruct (String.eqb_spec k0 k) as [->|Hk0]; simpl; [reflexivity|].
  rewrite IH. destruct (existsb _ m); reflexivity.
Qed.

Lemma map_update_In_keys {V} (m : list (string * V)) (k k' : string)
    (f : option V -> V) :
  In k' (map fst (map_update m k f)) <-> k' = k \/ In k' (map fst m).
Proof.
  induction m as [|[k0 x] m IH]; simpl.
  - intuition.
  - destruct (String.eqb_spec k0 k) as [->|Hk0]; simpl.
    + intuition.
    + rewrite IH. intuition.
Qed.

Lemma map_update_NoDup {V} (m : list (string * V)) (k : string)
    (f : option V -> V) :
  NoDup (map fst m) -> NoDup (map fst (map_update m k f)).
Proof.
  induction m as [|[k0 x] m IH]; simpl; intros H.
  - constructor; [intros [] | constructor].
  - inversion H as [|? ? Hnot Hm]; subst.
    destruct (String.eqb_spec k0 k) as [->|Hk0]; simpl.
    + constructor; assumption.
    + constructor; [|apply IH, Hm].
      rewrite map_update_In_keys. intros [E|Hin]; [congruence | auto].
Qed.

Lemma map_lookup_In {V} (m : list (string * V)) (k : string) (v : V) :
  NoDup (map fst m) -> In (k, v) m -> map_lookup m k = Some v.
Proof.
  induction m as [|[k0 x] m IH]; simpl; intros Hn Hin; [destruct Hin|].
  destruct Hin as [E|Hin].
  - injection E as -> ->. now rewrite String.eqb_refl.
  - inversion Hn as [|? ? Hnot Hm]; subst.
    destruct (String.eqb_spec k0 k) as [->|_].
    + exfalso. apply Hnot. change k with (fst (k, v)). now apply in_map.
    + now apply IH.
Qed.

(** ** Sums on [int] *)

Lemma wrap64_add_l (a b : Z) : wrap64 (wrap64 a + b) = wrap64 (a + b).
Proof.
  unfold wrap64. f_equal.
  replace ((a + 2 ^ 63) mod 2 ^ 64 - 2 ^ 63 + b + 2 ^ 63)
    with ((a + 2 ^ 63) mod 2 ^ 64 + b) by lia.
  rewrite Zplus_mod_idemp_l. f_equal. lia.
Qed.

Lemma wrap64_in_int64 (z : Z) : in_int64 (wrap64 z).
Proof.
  unfold wrap64, in_int64.
  pose proof (Z.mod_pos_bound (z + 2 ^ 63) (2 ^ 64) ltac:(lia)). lia.
Qed.

Lemma last_cons {A} (a x : A) (l : list A) : last (a :: l) x = last l a.
Proof.
  revert a x. induction l as [|b l IH]; intros a x; [reflexivity|].
  change (last (a :: b :: l) x) with (last (b :: l) x).
  now rewrite !IH.
Qed.

(** ** The list of popular blogs *)

Lemma sort_by_score_sorted {K} (l : list (K * Z)) :
  StronglySorted (fun x y => snd y <= snd x)
    (sort_by (fun x y => snd y <=? snd x) l).
Proof.
  assert (H : StronglySorted (fun x y : K * Z => (snd y <=? snd x) = true)
                (sort_by (fun x y => snd y <=? snd x) l)).
  { apply sort_by_sorted; intros; lia. }
  induction H; constructor; auto.
  eapply Forall_impl; [|eassumption]. simpl; intros; lia.
Qed.

Section HNPopularFacts.
Context {rt : Runtime}.
Variable fetchCSV : string -> fetched (list (list string)).
Variable range_order : list (string * Z) -> list (string * Z).

Lemma fetchScores_row_lookup (scores : list (string * Z)) (row : list string)
    (d : string) :
  map_lookup (fetchScores_row scores row) d =
  match row_score d row with
  | [] => map_lookup scores d
  | v :: _ =>
      Some (int_add (match map_lookup scores d with Some x => x | None => 0 end)
              v)
  end.
Proof.
  unfold fetchScores_row, row_score.
  destruct row as [|f0 [|f1 row]]; try reflexivity.
  destruct (strconv_Atoi (strings_TrimSpace f1)) as [score|]; [|reflexivity].
  rewrite map_lookup_update.
  destruct (String.eqb_spec (strings_TrimSpace f0) d) as [->|]; reflexivity.
Qed.

Lemma row_score_cases (d : string) (row : list string) :
  row_score d row = [] \/ exists v, row_score d row = [v].
Proof.
  unfold row_score. destruct row as [|f0 [|f1 row]]; auto.
  destruct (strconv_Atoi _); auto. destruct (String.eqb _ _); eauto.
Qed.

Lemma fetchScores_fold_lookup (rows : list (list string))
    (scores : list (string * Z)) (d : string) :
  map_lookup (fold_left fetchScores_row rows scores) d =
  match flat_map (row_score d) rows, map_lookup scores d with
  | [], o => o
  | l, None => Some (wrap64 (sum_Z l))
  | l, Some x => Some (wrap64 (x + sum_Z l))
  end.
Proof.
  revert scores. induction rows as [|row rows IH]; intros scores.
  - simpl. now destruct (map_lookup scores d).
  - cbn [fold_left flat_map]. rewrite IH, fetchScores_row_lookup.
    destruct (row_score_cases d row) as [->|(v & ->)]; [reflexivity|].
    cbn [app]. unfold int_add.
    destruct (flat_map (row_score d) rows) as [|u l] eqn:E.
    + destruct (map_lookup scores d) as [x|]; unfold sum_Z; simpl;
        do 2 f_equal; lia.
    + destruct (map_lookup scores d) as [x|]; rewrite wrap64_add_l;
        unfold sum_Z; cbn [fold_right]; do 2 f_equal; lia.
Qed.

Lemma fetchScores_fold_NoDup (rows : list (list string))
    (scores : list (string * Z)) :
  NoDup (map fst scores) ->
  NoDup (map fst (fold_left fetchScores_row rows scores)).
Proof.
  revert scores. induction rows as [|row rows IH]; intros scores H; [exact H|].
  apply IH. unfold fetchScores_row.
  destruct row as [|f0 [|f1 row]]; try exact H.
  destruct (strconv_Atoi _); [|exact H]. now apply map_update_NoDup.
Qed.

Lemma fetchScores_NoDup (scores : list (string * Z)) :
  fetchScores fetchCSV = Fetched scores -> NoDup (map fst scores).
Proof.
  unfold fetchScores. destruct (fetchCSV _) as [records|e]; [|discriminate].
  intros [= <-]. apply fetchScores_fold_NoDup. constructor.
Qed.

(** X5. [fetchScores] adds up, per domain, the scores of the records of
    hn-data.csv, on [int] (the sum wrapped to 64 bits). The first record is
    the header and never counts; a record with fewer than two fields or
    with a score that [strconv.Atoi] refuses is skipped; a domain without a
    record that counts is not in the map, and no domain is in it twice. An
    error of [fetchCSV] is returned as it is. *)
Theorem fetchScores_sums_per_domain :
  match fetchCSV (cdnBase ++ "/hn-data.csv") with
  | FetchFailed e => fetchScores fetchCSV = FetchFailed e
  | Fetched records =>
      exists scores,
        fetchScores fetchCSV = Fetched scores /\
        NoDup (map fst scores) /\
        forall domain,
          map_lookup scores domain =
          match flat_map (row_score domain) (tl records) with
          | [] => None
          | l => Some (wrap64 (sum_Z l))
          end
  end.
Proof.
  unfold fetchScores. destruct (fetchCSV _) as [records|e]; [|reflexivity].
  eexists. split; [reflexivity|]. split.
  - apply fetchScores_fold_NoDup. constructor.
  - intros d. rewrite fetchScores_fold_lookup. simpl.
    now destruct (flat_map _ _).
Qed.

Lemma fetchMeta_fold_get (rows : list (list string))
    (meta : list (string * string)) (d : string) :
  map_get "" (fold_left fetchMeta_row rows meta) d =
  last (flat_map (row_author d) rows) (map_get "" meta d).
Proof.
  revert meta. induction rows as [|row rows IH]; intros meta; [reflexivity|].
  cbn [fold_left flat_map]. rewrite IH.
  unfold fetchMeta_row, row_author.
  destruct row as [|f0 [|f1 row]]; try reflexivity.
  unfold map_get at 1. rewrite map_lookup_update.
  destruct (String.eqb_spec (strings_TrimSpace f0) d) as [_|_].
  - cbn [app]. now rewrite last_cons.
  - reflexivity.
Qed.

(** X6. [fetchMeta] gives a domain the author of its last record in
    domains-meta.csv (the first record, the header, and records with fewer
    than two fields apart); looking up a domain without such a record
    gives the empty text. *)
Theorem fetchMeta_last_record_wins :
  match fetchCSV (cdnBase ++ "/domains-meta.csv") with
  | FetchFailed e => fetchMeta fetchCSV = FetchFailed e
  | Fetched records =>
      exists meta,
        fetchMeta fetchCSV = Fetched meta /\
        forall domain,
          map_get "" meta domain =
          last (flat_map (row_author domain) (tl records)) ""
  end.
Proof.
  unfold fetchMeta. destruct (fetchCSV _) as [records|e]; [|reflexivity].
  eexists. split; [reflexivity|].
  intros d. now rewrite fetchMeta_fold_get.
Qed.

Lemma ranked_blogs_entries (i : Z) (entries : list (string * Z))
    (meta : list (string * string)) :
  map (fun b => (Domain b, Score b)) (ranked_blogs i entries meta) = entries.
Proof.
  revert i. induction entries as [|[d x] l IH]; intros i; simpl;
    [reflexivity | now rewrite IH].
Qed.

Lemma ranked_blogs_nth (entries : list (string * Z))
    (meta : list (string * string)) :
  forall i j b,
    nth_error (ranked_blogs i entries meta) j = Some b ->
    Rank b = i + Z.of_nat j + 1 /\ b_ID b = 0 /\
    Author b = map_get "" meta (Domain b).
Proof.
  induction entries as [|e l IH]; intros i [|j] b H; simpl in H;
    try discriminate.
  - injection H as <-. simpl. repeat split. lia.
  - destruct (IH _ _ _ H) as (R & I0 & Au). repeat split; auto. lia.
Qed.

(** X7. When both files are fetched and [limit] is not negative,
    [FetchTopBlogs] returns the [limit] domains with the highest scores (all
    of them when there are fewer): the blogs are in descending order of
    score, no domain outside the list has a higher score than one in it,
    no domain is listed twice, the ranks count from 1 in the order of the
    list, every blog carries the score of its domain and the author that
    the metadata give it, and no blog has an ID yet. This holds for every
    order in which the map of scores is visited. *)
Theorem FetchTopBlogs_ranks_by_score (limit : Z)
    (scores : list (string * Z)) (meta : list (string * string)) :
  (forall m, Permutation (range_order m) m) ->
  fetchScores fetchCSV = Fetched scores ->
  fetchMeta fetchCSV = Fetched meta ->
  0 <= limit ->
  exists blogs,
    FetchTopBlogs fetchCSV range_order limit = Some (Fetched blogs) /\
    List.length blogs = Nat.min (Z.to_nat limit) (List.length scores) /\
    (forall i b, nth_error blogs i = Some b ->
                 Rank b = Z.of_nat i + 1 /\ b_ID b = 0 /\
                 map_lookup scores (Domain b) = Some (Score b) /\
                 Author b = map_get "" meta (Domain b)) /\
    NoDup (map Domain blogs) /\
    exists rest,
      Permutation (map (fun b => (Domain b, Score b)) blogs ++ rest)%list
                  scores /\
      StronglySorted (fun x y => snd y <= snd x)
        (map (fun b => (Domain b, Score b)) blogs ++ rest)%list.
Proof.
  intros Hperm Hs Hm Hl.
  pose proof (fetchScores_NoDup scores Hs) as Hnd.
  unfold FetchTopBlogs. rewrite Hs, Hm.
  set (entries := sort_by (fun x y => snd y <=? snd x) (range_order scores)).
  assert (Pe : Permutation entries scores).
  { eapply perm_trans; [apply sort_by_perm | apply Hperm]. }
  assert (Le : List.length entries = List.length scores)
    by (apply Permutation_length, Pe).
  assert (Se : StronglySorted (fun x y => snd y <= snd x) entries)
    by apply sort_by_score_sorted.
  set (lim := if Z.of_nat (List.length entries) <? limit
              then Z.of_nat (List.length entries) else limit).
  assert (Hlim : 0 <= lim /\
                 Z.to_nat lim = Nat.min (Z.to_nat limit) (List.length scores)).
  { unfold lim. destruct (Z.ltb_spec (Z.of_nat (List.length entries)) limit);
      lia. }
  destruct Hlim as (Hlim0 & Hlim).
  destruct (Z.ltb_spec lim 0) as [|_]; [lia|].
  set (top := firstn (Z.to_nat lim) entries).
  exists (ranked_blogs 0 top meta). split; [reflexivity|].
  assert (Em : map (fun b => (Domain b, Score b)) (ranked_blogs 0 top meta) = top)
    by apply ranked_blogs_entries.
  split.
  { rewrite <- (length_map (fun b => (Domain b, Score b))), Em.
    unfold top. rewrite length_firstn. lia. }
  split.
  { intros i b Hb. destruct (ranked_blogs_nth _ _ _ _ _ Hb) as (R & I0 & Au).
    split; [lia|]. split; [exact I0|]. split; [|exact Au].
    apply map_lookup_In; [exact Hnd|].
    apply (Permutation_in _ Pe). apply (In_firstn (Z.to_nat lim)). fold top.
    rewrite <- Em. apply in_map_iff. exists b. split; [reflexivity|].
    eapply nth_error_In; eauto. }
  split.
  { replace (map Domain (ranked_blogs 0 top meta))
      with (map fst (map (fun b => (Domain b, Score b))
                       (ranked_blogs 0 top meta)))
      by (rewrite map_map; reflexivity).
    rewrite Em. unfold top. rewrite <- firstn_map.
    apply (NoDup_app_remove_r _ (skipn (Z.to_nat lim) (map fst entries))).
    rewrite firstn_skipn.
    eapply Permutation_NoDup; [|exact Hnd].
    apply Permutation_map, Permutation_sym, Pe. }
  exists (skipn (Z.to_nat lim) entries). rewrite Em. unfold top.
  rewrite firstn_skipn. split; assumption.
Qed.

End HNPopularFacts.

(** ** The store: blogs *)

Lemma existsb_domain_false (b : Blog) (rows : list Blog) :
  existsb (fun r => (Domain r =? Domain b)%string) rows = false ->
  forall r, In r rows -> Domain r <> Domain b.
Proof.
  intros E r Hr Heq.
  assert (existsb (fun r => (Domain r =? Domain b)%string) rows = true);
    [|congruence].
  apply existsb_exists. exists r. split; [exact Hr|].
  now apply String.eqb_eq.
Qed.

Lemma upsert_blog_rows (b : Blog) (rows : list Blog) (r' : Blog) :
  In r' (upsert_blog b rows) ->
  (Domain r' = Domain b /\ Score r' = Score b /\ Author r' = Author b /\
   Rank r' = Rank b) \/
  (Domain r' <> Domain b /\ In r' rows).
Proof.
  unfold upsert_blog. destruct (existsb _ rows) eqn:E.
  - intros H. apply in_map_iff in H as (r & <- & Hr).
    destruct (String.eqb_spec (Domain r) (Domain b)) as [Ed|N]; simpl; auto.
  - intros H. apply in_app_or in H as [H|[<-|[]]]; simpl; auto.
    right. split; [|exact H]. eapply existsb_domain_false; eassumption.
Qed.

Lemma upsert_blog_domains (b : Blog) (rows : list Blog) :
  map Domain (upsert_blog b rows) =
  if existsb (fun r => (Domain r =? Domain b)%string) rows
  then map Domain rows else (map Domain rows ++ [Domain b])%list.
Proof.
  unfold upsert_blog. destruct (existsb _ rows).
  - rewrite map_map. apply map_ext. intros r.
    now destruct (Domain r =? Domain b)%string.
  - now rewrite map_app.
Qed.

Lemma upsert_blog_ids (b : Blog) (rows : list Blog) :
  map b_ID (upsert_blog b rows) =
  if existsb (fun r => (Domain r =? Domain b)%string) rows
  then map b_ID rows else (map b_ID rows ++ [next_id (map b_ID rows)])%list.
Proof.
  unfold upsert_blog. destruct (existsb _ rows).
  - rewrite map_map. apply map_ext. intros r.
    now destruct (Domain r =? Domain b)%string.
  - now rewrite map_app.
Qed.

Lemma NoDup_snoc {A} (l : list A) (x : A) :
  NoDup l -> ~ In x l -> NoDup (l ++ [x]).
Proof.
  intros Hl Hx. induction Hl as [|y l Hy Hl IH]; simpl.
  - constructor; [intros [] | constructor].
  - constructor.
    + rewrite in_app_iff. intros [H|[->|[]]]; [auto|].
      apply Hx. now left.
    + apply IH. intros H. apply Hx. now right.
Qed.

Lemma upsert_blog_NoDup (b : Blog) (rows : list Blog) :
  NoDup (map Domain rows) -> NoDup (map Domain (upsert_blog b rows)).
Proof.
  intros H. rewrite upsert_blog_domains.
  destruct (existsb _ rows) eqn:E; [exact H|].
  apply NoDup_snoc; [exact H|].
  intros Hin. apply in_map_iff in Hin as (r & Hd & Hr).
  exact (existsb_domain_false b rows E r Hr Hd).
Qed.

Lemma next_id_not_in (keys : list Z) : ~ In (next_id keys) keys.
Proof. intros H. apply next_id_fresh in H. lia. Qed.

Lemma upsert_blog_ids_NoDup (b : Blog) (rows : list Blog) :
  NoDup (map b_ID rows) -> NoDup (map b_ID (upsert_blog b rows)).
Proof.
  intros H. rewrite upsert_blog_ids.
  destruct (existsb _ rows); [exact H|].
  apply NoDup_snoc; [exact H | apply next_id_not_in].
Qed.

Lemma upsert_blog_nth (b : Blog) (rows : list Blog) (i : nat) (r : Blog) :
  nth_error rows i = Some r ->
  exists r', nth_error (upsert_blog b rows) i = Some r' /\
             b_ID r' = b_ID r /\ Domain r' = Domain r /\
             (Domain r <> Domain b -> r' = r).
Proof.
  intros H. unfold upsert_blog. destruct (existsb _ rows).
  - eexists. split; [apply map_nth_error; exact H|].
    destruct (String.eqb_spec (Domain r) (Domain b)); simpl; intuition.
  - exists r. split; [|intuition].
    rewrite nth_error_app1; [exact H|]. apply nth_error_Some. congruence.
Qed.

Lemma SaveBlogs_blogs (bs : list Blog) (d : DB) :
  blogs (snd (SaveBlogs bs d)) =
  fold_left (fun rows b => upsert_blog b rows) bs (blogs d).
Proof. reflexivity. Qed.

Lemma fold_upsert_NoDup (bs : list Blog) (rows : list Blog) :
  NoDup (map Domain rows) ->
  NoDup (map Domain (fold_left (fun rows b => upsert_blog b rows) bs rows)).
Proof.
  revert rows. induction bs as [|b bs IH]; intros rows H; [exact H|].
  apply IH, upsert_blog_NoDup, H.
Qed.

Lemma fold_upsert_ids_NoDup (bs : list Blog) (rows : list Blog) :
  NoDup (map b_ID rows) ->
  NoDup (map b_ID (fold_left (fun rows b => upsert_blog b rows) bs rows)).
Proof.
  revert rows. induction bs as [|b bs IH]; intros rows H; [exact H|].
  apply IH, upsert_blog_ids_NoDup, H.
Qed.

Lemma fold_upsert_domains (bs : list Blog) (rows : list Blog) (dom : string) :
  In dom (map Domain (fold_left (fun rows b => upsert_blog b rows) bs rows)) <->
  In dom (map Domain rows) \/ In dom (map Domain bs).
Proof.
  revert rows. induction bs as [|b bs IH]; intros rows; simpl; [tauto|].
  rewrite IH, upsert_blog_domains.
  destruct (existsb _ rows) eqn:E.
  - split; [tauto|]. intros [H|[<-|H]]; auto. left.
    apply existsb_exists in E as (r & Hr & Er).
    apply String.eqb_eq in Er. rewrite <- Er. now apply in_map.
  - rewrite in_app_iff. simpl. tauto.
Qed.

Lemma fold_upsert_nth (bs : list Blog) (rows : list Blog) (i : nat) (r : Blog) :
  nth_error rows i = Some r ->
  exists r',
    nth_error (fold_left (fun rows b => upsert_blog b rows) bs rows) i =
      Some r' /\
    b_ID r' = b_ID r /\ Domain r' = Domain r /\
    (~ In (Domain r) (map Domain bs) -> r' = r).
Proof.
  revert rows r. induction bs as [|b bs IH]; intros rows r H; simpl.
  - exists r. auto.
  - destruct (upsert_blog_nth b rows i r H) as (r1 & H1 & I1 & D1 & F1).
    destruct (IH _ _ H1) as (r2 & H2 & I2 & D2 & F2).
    exists r2. split; [exact H2|]. split; [congruence|]. split; [congruence|].
    intros N. rewrite F2, F1; [reflexivity | |].
    + intros E. apply N. left. congruence.
    + intros Hin. apply N. right. congruence.
Qed.

Lemma fold_upsert_last (bs : list Blog) (rows : list Blog) (r' : Blog) :
  In r' (fold_left (fun rows b => upsert_blog b rows) bs rows) ->
  match find (fun b => (Domain b =? Domain r')%string) (rev bs) with
  | Some b => Score r' = Score b /\ Author r' = Author b /\ Rank r' = Rank b
  | None => In r' rows
  end.
Proof.
  revert r'. induction bs as [|b bs IH] using rev_ind; intros r' H.
  - exact H.
  - rewrite fold_left_app in H. simpl in H.
    rewrite rev_app_distr. simpl.
    apply upsert_blog_rows in H as [(Ed & Hv)|(Nd & Hin)].
    + rewrite Ed, String.eqb_refl. exact Hv.
    + destruct (String.eqb_spec (Domain b) (Domain r')) as [E|_];
        [congruence|]. now apply IH.
Qed.

(** X8. [SaveBlogs] returns a nil error, leaves the articles and the
    analyses alone and keeps one row per domain. No blog is deleted: the
    rows that were in the table keep their place, their ID and their
    domain, and a row whose domain is not in the list is unchanged; the
    domains of the table are those it had and those of the list. A row whose domain
    is in the list carries the score, the author and the rank of the last
    blog of the list with that domain. *)
Theorem SaveBlogs_upserts_by_domain (bs : list Blog) (d : DB) :
  NoDup (map Domain (blogs d)) ->
  let d' := snd (SaveBlogs bs d) in
  fst (SaveBlogs bs d) = None /\
  articles d' = articles d /\
  article_analysis d' = article_analysis d /\
  NoDup (map Domain (blogs d')) /\
  (forall dom, In dom (map Domain (blogs d')) <->
               In dom (map Domain (blogs d)) \/ In dom (map Domain bs)) /\
  (forall i r, nth_error (blogs d) i = Some r ->
     exists r', nth_error (blogs d') i = Some r' /\
                b_ID r' = b_ID r /\ Domain r' = Domain r /\
                (~ In (Domain r) (map Domain bs) -> r' = r)) /\
  (forall r', In r' (blogs d') ->
     match find (fun b => (Domain b =? Domain r')%string) (rev bs) with
     | Some b => Score r' = Score b /\ Author r' = Author b /\ Rank r' = Rank b
     | None => In r' (blogs d)
     end).
Proof.
  intros Hn d'. split; [reflexivity|]. split; [reflexivity|].
  split; [reflexivity|]. unfold d'. rewrite SaveBlogs_blogs.
  split; [now apply fold_upsert_NoDup|].
  split; [apply fold_upsert_domains|].
  split; [apply fold_upsert_nth | apply fold_upsert_last].
Qed.

Lemma sort_by_fixes_sorted {A} (before : A -> A -> bool) (l : list A) :
  StronglySorted (fun x y => before x y = true) l -> sort_by before l = l.
Proof.
  induction 1 as [|x l Hs IH Hx]; simpl; [reflexivity|].
  rewrite IH. destruct l as [|y l]; simpl; [reflexivity|].
  inversion Hx as [|? ? Hxy _]; subst. now rewrite Hxy.
Qed.

Lemma numbered_app (k : Z) (l1 l2 : list Blog) :
  numbered k (l1 ++ l2) =
  (numbered k l1 ++ numbered (k + Z.of_nat (List.length l1)) l2)%list.
Proof.
  revert k. induction l1 as [|b l1 IH]; intros k.
  - simpl. now rewrite Z.add_0_r.
  - cbn [app numbered List.length]. rewrite IH. do 3 f_equal. lia.
Qed.

Lemma numbered_domains (k : Z) (l : list Blog) :
  map Domain (numbered k l) = map Domain l.
Proof. revert k. induction l; intros k; simpl; [|rewrite IHl]; reflexivity. Qed.

Lemma numbered_max (k : Z) (l : list Blog) :
  0 < k ->
  fold_right Z.max 0 (map b_ID (numbered k l)) =
  match l with [] => 0 | _ => k + Z.of_nat (List.length l) - 1 end.
Proof.
  revert k. induction l as [|b l IH]; intros k Hk; [reflexivity|].
  cbn [numbered map fold_right b_ID]. rewrite IH by lia.
  destruct l; simpl List.length; lia.
Qed.

Lemma numbered_next_id (l : list Blog) :
  next_id (map b_ID (numbered 1 l)) = 1 + Z.of_nat (List.length l).
Proof.
  unfold next_id. rewrite numbered_max by lia.
  destruct l; simpl List.length; lia.
Qed.

Lemma fold_upsert_numbered (bs pre : list Blog) :
  NoDup (map Domain (pre ++ bs)) ->
  fold_left (fun rows b => upsert_blog b rows) bs (numbered 1 pre) =
  numbered 1 (pre ++ bs).
Proof.
  revert pre. induction bs as [|b bs IH]; intros pre H.
  - now rewrite app_nil_r.
  - cbn [fold_left].
    replace (upsert_blog b (numbered 1 pre)) with (numbered 1 (pre ++ [b])).
    + rewrite IH; rewrite <- app_assoc; [reflexivity | exact H].
    + unfold upsert_blog.
      replace (existsb (fun r => (Domain r =? Domain b)%string) (numbered 1 pre))
        with false.
      * rewrite numbered_app, numbered_next_id. reflexivity.
      * symmetry. apply not_true_is_false. intros E.
        apply existsb_exists in E as (r & Hr & Er).
        apply String.eqb_eq in Er.
        rewrite map_app in H. apply NoDup_app_disjoint with (a := Domain b) in H.
        -- exact H.
        -- rewrite <- (numbered_domains 1), <- Er. now apply in_map.
        -- now left.
Qed.

Lemma numbered_ranks (k : Z) (l : list Blog) :
  map Rank (numbered k l) = map Rank l.
Proof. revert k. induction l; intros k; simpl; [|rewrite IHl]; reflexivity. Qed.

Lemma StronglySorted_map_rank (l l' : list Blog) :
  map Rank l' = map Rank l ->
  StronglySorted rank_le l ->
  StronglySorted (fun x y => (Rank x <=? Rank y) = true) l'.
Proof.
  intros E H. revert l' E.
  induction H as [|x l Hs IH Hx]; intros [|x' l'] E; try discriminate;
    constructor.
  - apply IH. now injection E.
  - injection E as Ex El. clear IH Hs.
    revert l El Hx. induction l' as [|y' l' IH']; intros [|y l] El Hx;
      try discriminate; constructor.
    + injection El as Ey _. inversion Hx; subst. unfold rank_le in *. lia.
    + injection El as _ El. inversion Hx; subst. eapply IH'; eauto.
Qed.

(** [ListBlogs] returns a nil error and the rows of table [blogs],
    each once, in ascending order of rank. *)
Lemma ListBlogs_lists_by_rank (d : DB) :
  exists l,
    ListBlogs d = Ok l /\
    Permutation l (blogs d) /\
    StronglySorted rank_le l.
Proof.
  eexists. split; [reflexivity|]. split; [apply sort_by_perm|].
  assert (H : StronglySorted (fun x y => (Rank x <=? Rank y) = true)
                (sort_by (fun x y => Rank x <=? Rank y) (blogs d))).
  { apply sort_by_sorted; intros; lia. }
  induction H; constructor; auto.
  eapply Forall_impl; [|eassumption]. unfold rank_le. simpl; intros; lia.
Qed.

(** X9. On a new database, [SaveBlogs] of a list of blogs with distinct
    domains in ascending order of rank (the list that [FetchTopBlogs]
    returns) followed by [ListBlogs] gives the same blogs in the same
    order, with the IDs 1, 2, ... that the table assigned. *)
Theorem saved_blogs_are_listed_in_order (bs : list Blog) :
  NoDup (map Domain bs) ->
  StronglySorted rank_le bs ->
  blogs (snd (SaveBlogs bs emptyDB)) = numbered 1 bs /\
  ListBlogs (snd (SaveBlogs bs emptyDB)) = Ok (numbered 1 bs).
Proof.
  intros Hn Hs.
  assert (E : blogs (snd (SaveBlogs bs emptyDB)) = numbered 1 bs).
  { rewrite SaveBlogs_blogs. apply (fold_upsert_numbered bs []). exact Hn. }
  split; [exact E|]. unfold ListBlogs. rewrite E. f_equal.
  apply sort_by_fixes_sorted.
  apply StronglySorted_map_rank with (l := bs);
    [apply numbered_ranks | exact Hs].
Qed.

(** ** The store: order and limit *)

Lemma compare_not_Gt_trans (a b c : string) :
  String.compare a b <> Gt -> String.compare b c <> Gt ->
  String.compare a c <> Gt.
Proof.
  revert b c. induction a as [|x a IH]; intros [|y b] [|z c]; simpl;
    try congruence.
  unfold Ascii.compare.
  destruct (N.compare_spec (N_of_ascii x) (N_of_ascii y)) as [E1|L1|G1];
    destruct (N.compare_spec (N_of_ascii y) (N_of_ascii z)) as [E2|L2|G2];
    destruct (N.compare_spec (N_of_ascii x) (N_of_ascii z)) as [E3|L3|G3];
    intros H1 H2; try congruence; try (exfalso; lia).
  eapply IH; eassumption.
Qed.

Lemma leb_trans (a b c : string) :
  String.leb a b = true -> String.leb b c = true -> String.leb a c = true.
Proof.
  unfold String.leb. intros H1 H2.
  assert (H : String.compare a c <> Gt).
  { apply (compare_not_Gt_trans a b c).
    - destruct (String.compare a b); congruence.
    - destruct (String.compare b c); congruence. }
  destruct (String.compare a c); congruence.
Qed.

Lemma published_desc_sorted (l : list ArticleRow) :
  StronglySorted newer_or_same (sort_by published_desc l).
Proof.
  apply (sort_by_sorted published_desc); unfold published_desc, text_geb.
  - intros x y. destruct (String.leb_total (published_at x) (published_at y));
      auto.
  - intros x y z H1 H2. eapply leb_trans; eassumption.
Qed.

(** What [LIMIT] leaves out. *)
Lemma limit_rows_rest {A} (n : Z) (l : list A) :
  exists rest, (limit_rows n l ++ rest)%list = l.
Proof.
  unfold limit_rows. destruct (n <? 0).
  - exists []. apply app_nil_r.
  - exists (skipn (Z.to_nat n) l). apply firstn_skipn.
Qed.

Lemma limit_rows_length {A} (n : Z) (l : list A) :
  0 <= n ->
  List.length (limit_rows n l) = Nat.min (Z.to_nat n) (List.length l).
Proof.
  intros H. unfold limit_rows. destruct (Z.ltb_spec n 0); [lia|].
  apply length_firstn.
Qed.

Lemma limit_rows_all {A} (n : Z) (l : list A) : n < 0 -> limit_rows n l = l.
Proof.
  intros H. unfold limit_rows. destruct (Z.ltb_spec n 0); [reflexivity | lia].
Qed.

Section StoreViews.
Context {rt : Runtime}.
Variable env : Environment.

(** X10. [TopScoredArticles] selects the analysed articles of the window
    in descending order of total score, cut after [limit] rows: its rows
    followed by some rest are a rearrangement, in that order, of all pairs
    of an article and its analysis with [published_at >= cutoff], whatever
    the order in which the engine leaves pairs of equal score. A negative
    limit is no limit. [AnalysesByTimeWindow] is the same query with the
    limit 1000, so it has at most 1000 rows. The method reads the clock
    once and returns the rows, scanned, when the driver can read the times
    of each of them, and the error of [Scan] when it cannot; an unsupported
    window is an error without a query. *)
Theorem TopScoredArticles_view (limit : Z) (cutoff : string) (d : DB) :
  let cands :=
    filter (fun p => text_geb (published_at (fst p)) cutoff) (joined d) in
  let res := rows_TopScoredArticles limit cutoff d in
  (forall p, In p cands <->
             In (fst p) (articles d) /\ In (snd p) (article_analysis d) /\
             id (fst p) = article_id (snd p) /\
             text_geb (published_at (fst p)) cutoff = true) /\
  (exists rest, Permutation (res ++ rest)%list cands /\
                StronglySorted score_ge (res ++ rest)%list) /\
  (0 <= limit ->
   List.length res = Nat.min (Z.to_nat limit) (List.length cands)) /\
  (limit < 0 -> Permutation res cands) /\
  (List.length (rows_TopScoredArticles 1000 cutoff d) <= 1000)%nat /\
  (forall window w,
      AnalysesByTimeWindow env window w = TopScoredArticles env 1000 window w /\
      TopScoredArticles env limit window w =
      match window_duration window with
      | Err e => (Done (Err e), [], w)
      | Ok dur =>
          let rows :=
            rows_TopScoredArticles limit
              (formatRFC3339 (time_sub (clock env (ticks w)) dur)) (db w) in
          (Done (if forallb joined_readable rows
                 then Ok (map scanJoined rows) else Err ErrScan),
           [], mkWorld (db w) (S (ticks w)) (chats w) (sends w))
      end).
Proof.
  intros cands res.
  set (visited :=
         sqlite_order_joined (SelectTopScoredArticles limit cutoff) d cands).
  assert (Hp : Permutation (sort_by score_desc visited) cands)
    by apply sorted_joined_perm.
  split.
  { intros p. unfold cands. rewrite filter_In, joined_In. tauto. }
  split.
  { destruct (limit_rows_rest limit (sort_by score_desc visited)) as (rest & E).
    exists rest. unfold res, rows_TopScoredArticles. fold cands. fold visited.
    rewrite E. split; [exact Hp | apply score_desc_sorted]. }
  split.
  { intros H. unfold res, rows_TopScoredArticles. fold cands. fold visited.
    rewrite limit_rows_length by exact H.
    now rewrite (Permutation_length Hp). }
  split.
  { intros H. unfold res, rows_TopScoredArticles. fold cands. fold visited.
    rewrite limit_rows_all by exact H. exact Hp. }
  split.
  { unfold rows_TopScoredArticles. rewrite limit_rows_length by lia. lia. }
  intros window w. split; [reflexivity|].
  unfold TopScoredArticles. rewrite window_query_run.
  destruct (window_duration window); [|reflexivity].
  cbv zeta. rewrite scan_rows_cases. reflexivity.
Qed.

(** X11. The three queries on table [articles] select the newest articles
    first: [ArticlesByTimeWindow] and [UnanalyzedArticles] their rows, and
    [LatestArticles] the first [limit] rows of some rearrangement of the
    table that is in descending order of the text of [published_at] (all of
    it for a negative limit); which of the articles of equal [published_at]
    come first is left to the engine. [LatestArticles] only reads: it
    returns its rows, scanned, when the driver can read the two times of
    each of them, and the error of [Scan] when it cannot. For two times
    with a four-digit year the order of the texts is the order of the times
    cut to the second, so the articles go to the model newest first. *)
Theorem article_queries_newest_first (limit : Z) (cutoff : string) (d : DB) :
  StronglySorted newer_or_same (rows_ArticlesByTimeWindow cutoff d) /\
  StronglySorted newer_or_same (rows_UnanalyzedArticles cutoff d) /\
  (exists rest,
      Permutation (rows_LatestArticles limit d ++ rest)%list (articles d) /\
      StronglySorted newer_or_same (rows_LatestArticles limit d ++ rest)%list) /\
  (0 <= limit ->
   List.length (rows_LatestArticles limit d) =
   Nat.min (Z.to_nat limit) (List.length (articles d))) /\
  (limit < 0 -> Permutation (rows_LatestArticles limit d) (articles d)) /\
  (forall w,
      let rows := rows_LatestArticles limit (db w) in
      LatestArticles limit w =
      (Done (if forallb article_readable rows
             then Ok (map scanArticle rows) else Err ErrScan), [], w)) /\
  (forall x y tx ty,
      valid_time tx -> four_digit_year tx ->
      valid_time ty -> four_digit_year ty ->
      published_at x = formatRFC3339 tx ->
      published_at y = formatRFC3339 ty ->
      (newer_or_same x y <-> time_geb (truncSecond tx) (truncSecond ty) = true)).
Proof.
  set (visited :=
         sqlite_order_articles (SelectLatestArticles limit) d (articles d)).
  assert (Hp : Permutation (sort_by published_desc visited) (articles d))
    by apply sorted_articles_perm.
  split; [apply published_desc_sorted|].
  split; [apply published_desc_sorted|].
  split.
  { destruct (limit_rows_rest limit (sort_by published_desc visited))
      as (rest & E).
    exists rest. unfold rows_LatestArticles. fold visited. rewrite E.
    split; [exact Hp | apply published_desc_sorted]. }
  split.
  { intros H. unfold rows_LatestArticles. fold visited.
    rewrite limit_rows_length by exact H.
    now rewrite (Permutation_length Hp). }
  split.
  { intros H. unfold rows_LatestArticles. fold visited.
    rewrite limit_rows_all by exact H. exact Hp. }
  split.
  { intros w rows. unfold LatestArticles, store_query.
    rewrite scan_rows_cases. reflexivity. }
  intros x y tx ty Vx Yx Vy Yy Ex Ey. unfold newer_or_same.
  rewrite Ex, Ey, text_geb_formatRFC3339 by assumption. tauto.
Qed.

(** X12. A window other than "24h", "3days" and "7days" is an error: every
    query over a window returns the error of [windowCutoff] without reading
    the clock or the database, and [analyze], [report] and [notify] end the
    process before they call the model, Telegram or a write. For the three
    windows [windowCutoff] gives the cutoff 24, 72 and 168 hours before
    now. *)
Theorem unsupported_window_is_an_error (window : string) (w : World) :
  (supported_window window <->
   exists cutoff, windowCutoff window (clock env (ticks w)) = Ok cutoff) /\
  windowCutoff "24h" (clock env (ticks w)) =
    Ok (formatRFC3339 (time_sub (clock env (ticks w)) (24 * time_Hour))) /\
  windowCutoff "3days" (clock env (ticks w)) =
    Ok (formatRFC3339 (time_sub (clock env (ticks w)) (72 * time_Hour))) /\
  windowCutoff "7days" (clock env (ticks w)) =
    Ok (formatRFC3339 (time_sub (clock env (ticks w)) (168 * time_Hour))) /\
  (~ supported_window window ->
   let e := ErrUnsupportedWindow window in
   ArticlesByTimeWindow env window w = (Done (Err e), [], w) /\
   UnanalyzedArticles env window w = (Done (Err e), [], w) /\
   (forall minScore,
       UnsummarizedHighScoreArticles env window minScore w =
       (Done (Err e), [], w)) /\
   (forall limit,
       TopScoredArticles env limit window w = (Done (Err e), [], w)) /\
   AnalysesByTimeWindow env window w = (Done (Err e), [], w) /\
   UnnotifiedAnalyses env window w = (Done (Err e), [], w) /\
   cmdAnalyze env window w = (Exit, [EvFatal "Failed to get articles"], w) /\
   cmdReport env window w = (Exit, [EvFatal "Failed to get analyses"], w) /\
   (telegram_configured env = true ->
    cmdNotify env window w =
    (Exit, [EvFatal "Failed to get unnotified analyses"], w))).
Proof.
  assert (Hd : ~ supported_window window ->
               window_duration window = Err (ErrUnsupportedWindow window)).
  { intros N. unfold window_duration.
    destruct (String.eqb_spec window "24h"); [exfalso; apply N; now left|].
    destruct (String.eqb_spec window "3days");
      [exfalso; apply N; now right; left|].
    destruct (String.eqb_spec window "7days");
      [exfalso; apply N; now right; right|].
    reflexivity. }
  split.
  { split.
    - intros [ -> | [ -> | -> ] ]; eexists; reflexivity.
    - intros (cutoff & E). unfold windowCutoff, window_duration in E.
      destruct (String.eqb_spec window "24h"); [now left|].
      destruct (String.eqb_spec window "3days"); [now right; left|].
      destruct (String.eqb_spec window "7days"); [now right; right|].
      discriminate. }
  split; [reflexivity|]. split; [reflexivity|]. split; [reflexivity|].
  intros N e. specialize (Hd N).
  assert (Q : forall R A (rows : string -> DB -> list R) readable
                   (scan : R -> A),
            window_query env window rows readable scan w =
            (Done (Err e), [], w)).
  { intros R A rows readable scan. rewrite window_query_run, Hd.
    reflexivity. }
  split; [apply Q|]. split; [apply Q|]. split; [intros; apply Q|].
  split; [intros; apply Q|]. split; [apply Q|]. split; [apply Q|].
  split; [|split].
  - unfold cmdAnalyze, bind, ArticlesByTimeWindow. rewrite Q. reflexivity.
  - unfold cmdReport, bind, AnalysesByTimeWindow, TopScoredArticles.
    rewrite Q. reflexivity.
  - intros C. unfold cmdNotify, bind, UnnotifiedAnalyses. rewrite C, Q.
    reflexivity.
Qed.

End StoreViews.

(** ** The store: one article with its analysis *)

Lemma SaveArticleAnalysis_columns (a : ArticleAnalysis) (d : DB) (r : AnalysisRow) :
  In r (article_analysis (snd (SaveArticleAnalysis a d))) ->
  article_id r = ArticleID a ->
  columns_of a r.
Proof.
  unfold SaveArticleAnalysis. cbn [snd article_analysis].
  destruct (existsb _ _) eqn:E; intros Hr Hid.
  - apply in_map_iff in Hr as (r0 & <- & Hr0).
    destruct (article_id r0 =? ArticleID a) eqn:E0.
    + unfold columns_of. cbn. repeat split. lia.
    + apply Z.eqb_neq in E0. contradiction.
  - apply in_app_or in Hr as [Hr|[<-|[]]].
    + exfalso. eapply existsb_article_id_false; eassumption.
    + unfold columns_of. cbn. repeat split.
Qed.

Lemma SaveArticleAnalysis_has (a : ArticleAnalysis) (d : DB) :
  has_analysis (snd (SaveArticleAnalysis a d)) (ArticleID a).
Proof. exact (proj1 (SaveArticleAnalysis_row a d)). Qed.

Lemma NoDup_map_inj {A B} (f : A -> B) (l : list A) (x y : A) :
  NoDup (map f l) -> In x l -> In y l -> f x = f y -> x = y.
Proof.
  induction l as [|z l IH]; simpl; intros Hn Hx Hy E; [destruct Hx|].
  inversion Hn as [|? ? Hz Hl]; subst.
  destruct Hx as [->|Hx], Hy as [->|Hy]; auto.
  - exfalso. apply Hz. rewrite E. now apply in_map.
  - exfalso. apply Hz. rewrite <- E. now apply in_map.
Qed.

Section OneArticle.
Context {rt : Runtime}.

(** [GetArticleWithAnalysis] reads only. Its result is nil, with a nil
    error, exactly when no article with the ID has an analysis (the article
    is unknown or not analysed yet); otherwise it is an article with that
    ID together with an analysis of it, when the driver can read their
    times, and the error of [Scan] when it cannot. The delivery mark is not
    read. *)
Lemma GetArticleWithAnalysis_by_id (k : Z) (w : World) :
  exists res,
    GetArticleWithAnalysis k w = (Done res, [], w) /\
    (res = Ok None <-> forall p, In p (joined (db w)) -> id (fst p) <> k) /\
    (forall x, res = Ok (Some x) ->
       (exists p, In p (joined (db w)) /\ joined_readable p = true /\
                  x = scanJoined p) /\
       a_ID (awa_Article x) = k /\
       ArticleID (awa_ArticleAnalysis x) = k /\
       NotifiedAt (awa_ArticleAnalysis x) = None) /\
    (forall e, res = Err e ->
       e = ErrScan /\
       exists p, In p (joined (db w)) /\ id (fst p) = k /\
                 joined_readable p = false).
Proof.
  unfold GetArticleWithAnalysis, store_query.
  destruct (rows_GetArticleWithAnalysis k (db w)) as [|p rows] eqn:E.
  - exists (Ok None). split; [reflexivity|].
    split; [|split; discriminate].
    split; [|reflexivity]. intros _ p Hp Hk.
    assert (H : In p (rows_GetArticleWithAnalysis k (db w))).
    { apply filter_In. split; [exact Hp | lia]. }
    rewrite E in H. destruct H.
  - assert (H : In p (rows_GetArticleWithAnalysis k (db w)))
      by (rewrite E; now left).
    apply filter_In in H as [Hj Hk]. apply Z.eqb_eq in Hk.
    destruct (joined_readable p) eqn:Er.
    + exists (Ok (Some (scanJoined p))). split; [reflexivity|].
      split; [|split; [|discriminate]].
      * split; [discriminate|]. intros H. exfalso. exact (H p Hj Hk).
      * intros x [= <-]. split; [exists p; auto|].
        apply joined_In in Hj as (_ & _ & Hid). simpl.
        repeat split; congruence.
    + exists (Err ErrScan). split; [reflexivity|].
      split; [|split; [discriminate|]].
      * split; [discriminate|]. intros H. exfalso. exact (H p Hj Hk).
      * intros e [= <-]. split; [reflexivity|]. exists p. auto.
Qed.

(** X13. An analysis that [SaveArticleAnalysis] has written for an article
    of the store is what [GetArticleWithAnalysis] returns for the article,
    when the driver can read the two times of the article and the RFC3339
    text of the time of the analysis: the article as stored, the scores,
    the category, the keywords and the three texts of the summary as
    written, and the time of the analysis as the driver reads back its
    text. When the driver cannot read one of the three texts, the method
    returns the error of [Scan]. *)
Theorem saved_analysis_is_found (a : ArticleAnalysis) (r : ArticleRow)
    (w : World) :
  id_unique (db w) ->
  In r (articles (db w)) ->
  id r = ArticleID a ->
  let w' := mkWorld (snd (SaveArticleAnalysis a (db w)))
                    (ticks w) (chats w) (sends w) in
  let readable :=
    article_readable r && sql_time_readable (formatRFC3339 (AnalyzedAt a)) in
  (readable = false ->
   GetArticleWithAnalysis (ArticleID a) w' = (Done (Err ErrScan), [], w')) /\
  (readable = true ->
   exists x,
     GetArticleWithAnalysis (ArticleID a) w' = (Done (Ok (Some x)), [], w') /\
     awa_Article x = scanArticle r /\
     ArticleID (awa_ArticleAnalysis x) = ArticleID a /\
     Relevance (awa_ArticleAnalysis x) = Relevance a /\
     Quality (awa_ArticleAnalysis x) = Quality a /\
     Timeliness (awa_ArticleAnalysis x) = Timeliness a /\
     TotalScore (awa_ArticleAnalysis x) = TotalScore a /\
     Category (awa_ArticleAnalysis x) = Category a /\
     Keywords (awa_ArticleAnalysis x) = Keywords a /\
     AISummary (awa_ArticleAnalysis x) = AISummary a /\
     TitleCN (awa_ArticleAnalysis x) = TitleCN a /\
     RecommendReason (awa_ArticleAnalysis x) = RecommendReason a /\
     AnalyzedAt (awa_ArticleAnalysis x) =
       sql_scan_time (formatRFC3339 (AnalyzedAt a))).
Proof.
  intros Hu Hr Hid w' readable.
  destruct (GetArticleWithAnalysis_by_id (ArticleID a) w')
    as (res & Run & Hnone & Hsome & Herr).
  destruct (SaveArticleAnalysis_has a (db w)) as (r1 & Hr1 & Hid1).
  assert (Hrow : forall p, In p (joined (db w')) ->
            id (fst p) = ArticleID a ->
            fst p = r /\ columns_of a (snd p) /\ joined_readable p = readable).
  { intros p Hp Hk.
    apply joined_In in Hp as (Hpa & Hpaa & Hj). cbn [db w'] in Hpa, Hpaa.
    assert (Ep : fst p = r).
    { apply (NoDup_map_inj id (articles (db w))); auto. congruence. }
    assert (C : columns_of a (snd p)).
    { apply (SaveArticleAnalysis_columns a (db w) (snd p) Hpaa). congruence. }
    split; [exact Ep|]. split; [exact C|].
    unfold joined_readable, readable. rewrite Ep.
    destruct C as (_ & _ & _ & _ & _ & _ & _ & _ & _ & _ & C10).
    rewrite C10. reflexivity. }
  destruct res as [[x|]|e].
  - destruct (Hsome x eq_refl) as ((p & Hp & Hread & ->) & Hk & _).
    cbn [scanJoined awa_Article scanArticle a_ID] in Hk.
    destruct (Hrow p Hp Hk) as (Ep & C & Er).
    split; [intros F; congruence|]. intros _.
    exists (scanJoined p). split; [exact Run|].
    destruct C as (C0 & C1 & C2 & C3 & C4 & C5 & C6 & C7 & C8 & C9 & C10).
    cbn [scanJoined awa_Article awa_ArticleAnalysis scanAnalysis ArticleID
         Relevance Quality Timeliness TotalScore Category Keywords AISummary
         TitleCN RecommendReason AnalyzedAt].
    rewrite Ep, C10. repeat split; assumption.
  - exfalso. apply (proj1 Hnone eq_refl (r, r1)); [|exact Hid].
    apply joined_In. cbn [fst snd db w']. repeat split; auto. congruence.
  - destruct (Herr e eq_refl) as (-> & p & Hp & Hk & Hread).
    destruct (Hrow p Hp Hk) as (_ & _ & Er).
    split; [intros _; exact Run | intros T; congruence].
Qed.

End OneArticle.

(** ** The store: what is analysed stays analysed *)

Lemma grows_has_analysis (d d' : DB) (k : Z) :
  grows (article_analysis d) (article_analysis d') ->
  has_analysis d k -> has_analysis d' k.
Proof.
  intros (f & extra & E & Hf & _) (r & Hr & Hk).
  exists (f r). rewrite E. split.
  - apply in_or_app. left. now apply in_map.
  - destruct (Hf r). congruence.
Qed.

Lemma apply_ops_has_analysis (ops : list StoreOp) (d : DB) (k : Z) :
  has_analysis d k -> has_analysis (apply_ops ops d) k.
Proof.
  revert d. induction ops as [|op ops IH]; intros d H; [exact H|].
  apply IH. eapply grows_has_analysis; [apply apply_op_grows | exact H].
Qed.

Lemma has_analysis_not_unanalyzed {rt : Runtime} (d : DB) (k : Z) (cutoff : string)
    (r : ArticleRow) :
  has_analysis d k -> In r (rows_UnanalyzedArticles cutoff d) -> id r <> k.
Proof.
  intros (aa & Haa & Hk) Hr E.
  apply rows_UnanalyzedArticles_In in Hr as [_ Hn].
  apply (Hn aa Haa). congruence.
Qed.

Section Invariance.
Context {rt : Runtime}.
Variable env : Environment.

(** What holds along the six commands for an invariant of the writes. *)
Lemma commands_keep (I : DB -> Prop) (allowed : Event -> Prop)
    (okA : ArticleAnalysis -> Prop) (w : World) :
  sound_invariant I allowed okA ->
  I (db w) ->
  I (db (snd (runPipeline env w))) /\
  I (db (snd (cmdFetchBlogs env w))) /\
  I (db (snd (cmdScrape env w))) /\
  forall window,
    I (db (snd (cmdAnalyze env window w))) /\
    I (db (snd (cmdReport env window w))) /\
    I (db (snd (cmdNotify env window w))).
Proof.
  intros S Hw.
  split; [exact (proj1 (runPipeline_keeps env _ _ _ S w Hw))|].
  split; [exact (proj1 (cmdFetchBlogs_keeps env _ _ _ S w Hw))|].
  split; [exact (proj1 (cmdScrape_keeps env _ _ _ S w Hw))|].
  intros window.
  split; [exact (proj1 (cmdAnalyze_keeps env window _ _ _ S w Hw))|].
  split; [exact (proj1 (cmdReport_keeps env window _ _ _ S w Hw))|].
  exact (proj1 (cmdNotify_keeps env window _ _ _ S w Hw)).
Qed.

Lemma has_analysis_sound (k : Z) :
  sound_invariant (fun d => has_analysis d k) anything anything.
Proof.
  constructor; try (intros; exact Logic.I).
  - intros bs d. apply (grows_has_analysis d). apply grows_refl.
  - intros a d. apply (grows_has_analysis d).
    unfold SaveArticle. rewrite insert_article_analysis. apply grows_refl.
  - intros a d _. apply (grows_has_analysis d), SaveArticleAnalysis_grows.
  - intros ids ts d. apply (grows_has_analysis d), MarkNotified_grows.
Qed.

End Invariance.

(** X14. An article for which [SaveArticleAnalysis] has written a row has
    an analysis after every later write and after every command, and
    [UnanalyzedArticles] does not return it again, whatever the window: the
    pipeline does not score an article twice. *)
Theorem analysed_article_is_not_picked_again (a : ArticleAnalysis) (d : DB)
    (ops : list StoreOp) :
  let k := ArticleID a in
  let d' := apply_ops ops (snd (SaveArticleAnalysis a d)) in
  has_analysis d' k /\
  (forall (rt : Runtime) cutoff r,
      In r (rows_UnanalyzedArticles cutoff d') -> id r <> k) /\
  (forall (rt : Runtime) env window w l ev w',
      db w = d' ->
      UnanalyzedArticles env window w = (Done (Ok l), ev, w') ->
      forall x, In x l -> a_ID x <> k) /\
  (forall (rt : Runtime) env w,
      db w = d' ->
      has_analysis (db (snd (runPipeline env w))) k /\
      has_analysis (db (snd (cmdFetchBlogs env w))) k /\
      has_analysis (db (snd (cmdScrape env w))) k /\
      forall window,
        has_analysis (db (snd (cmdAnalyze env window w))) k /\
        has_analysis (db (snd (cmdReport env window w))) k /\
        has_analysis (db (snd (cmdNotify env window w))) k).
Proof.
  intros k d'.
  assert (H : has_analysis d' k)
    by (apply apply_ops_has_analysis, SaveArticleAnalysis_has).
  split; [exact H|]. split; [|split].
  - intros rt cutoff r. now apply has_analysis_not_unanalyzed.
  - intros rt env window w l ev w' Hdb Hrun x Hx.
    unfold UnanalyzedArticles in Hrun. rewrite window_query_run in Hrun.
    destruct (window_duration window) as [dur|e]; [|discriminate].
    injection Hrun as Hrun _ _. apply scan_rows_Ok in Hrun as [-> _].
    apply in_map_iff in Hx as (r & <- & Hr). simpl.
    rewrite Hdb in Hr. eapply has_analysis_not_unanalyzed; eassumption.
  - intros rt env w Hdb. rewrite <- Hdb in H.
    exact (commands_keep env _ _ _ w (has_analysis_sound k) H).
Qed.

(** ** The store: keys *)

Lemma keys_unique_SaveBlogs (bs : list Blog) (d : DB) :
  keys_unique d -> keys_unique (snd (SaveBlogs bs d)).
Proof.
  intros (H1 & H2 & H3). unfold keys_unique.
  rewrite SaveBlogs_blogs.
  split; [now apply fold_upsert_ids_NoDup|].
  split; [now apply fold_upsert_NoDup | exact H3].
Qed.

Lemma keys_unique_SaveArticle (a : Article) (d : DB) :
  keys_unique d -> keys_unique (snd (SaveArticle a d)).
Proof.
  intros (H1 & H2 & H3 & H4 & H5). unfold keys_unique.
  destruct (apply_op_articles d (OpSaveArticle a) H4) as (_ & _ & Hu).
  pose proof (id_unique_SaveArticle a d H3) as Hi.
  unfold SaveArticle in *. rewrite insert_article_analysis.
  split; [|split; [|split; [exact Hi | split; [exact Hu | exact H5]]]].
  - unfold insert_article. now destruct (existsb _ _).
  - unfold insert_article. now destruct (existsb _ _).
Qed.

Lemma keys_unique_SaveArticleAnalysis (a : ArticleAnalysis) (d : DB) :
  keys_unique d -> keys_unique (snd (SaveArticleAnalysis a d)).
Proof.
  intros (H1 & H2 & H3 & H4 & H5 & H6). unfold keys_unique.
  unfold SaveArticleAnalysis. cbn [snd blogs articles article_analysis].
  split; [exact H1|]. split; [exact H2|]. split; [exact H3|].
  split; [exact H4|].
  destruct (existsb _ _) eqn:E.
  - rewrite !map_map. split.
    + erewrite map_ext; [exact H5|]. intros r.
      now destruct (article_id r =? ArticleID a).
    + erewrite map_ext; [exact H6|]. intros r.
      now destruct (article_id r =? ArticleID a).
  - rewrite !map_app. split.
    + apply NoDup_snoc; [exact H5 | apply next_id_not_in].
    + apply NoDup_snoc; [exact H6|]. simpl.
      intros Hin. apply in_map_iff in Hin as (r & Hr & Hin).
      exact (existsb_article_id_false _ _ E r Hin Hr).
Qed.

Lemma keys_unique_MarkNotified (ids : list Z) (ts : string) (d : DB) :
  keys_unique d -> keys_unique (snd (MarkNotified ids ts d)).
Proof.
  intros (H1 & H2 & H3 & H4 & H5 & H6).
  destruct (MarkNotified_snd ids ts d) as [-> | ->];
    [repeat split; assumption|].
  unfold keys_unique. cbn [blogs articles article_analysis].
  rewrite !map_map.
  split; [exact H1|]. split; [exact H2|]. split; [exact H3|].
  split; [exact H4|]. split.
  - erewrite map_ext; [exact H5|]. intros r. now destruct (mem_id _ _).
  - erewrite map_ext; [exact H6|]. intros r. now destruct (mem_id _ _).
Qed.

Lemma keys_unique_sound {rt : Runtime} :
  sound_invariant keys_unique anything anything.
Proof.
  constructor; try (intros; exact Logic.I).
  - apply keys_unique_SaveBlogs.
  - apply keys_unique_SaveArticle.
  - intros a d _. apply keys_unique_SaveArticleAnalysis.
  - apply keys_unique_MarkNotified.
Qed.

(** X15. The uniqueness constraints of the schema hold in the new
    database and after every write and every command: no two blogs share a
    domain, no two articles a URL, no article has two analyses, and no two
    rows of a table share their ID. *)
Theorem keys_stay_unique :
  keys_unique emptyDB /\
  (forall d op, keys_unique d -> keys_unique (apply_op d op)) /\
  (forall (rt : Runtime) env w,
      keys_unique (db w) ->
      keys_unique (db (snd (runPipeline env w))) /\
      keys_unique (db (snd (cmdFetchBlogs env w))) /\
      keys_unique (db (snd (cmdScrape env w))) /\
      forall window,
        keys_unique (db (snd (cmdAnalyze env window w))) /\
        keys_unique (db (snd (cmdReport env window w))) /\
        keys_unique (db (snd (cmdNotify env window w)))).
Proof.
  split; [repeat split; constructor|]. split.
  - intros d [bs|a|a|ids ts] H; simpl.
    + now apply keys_unique_SaveBlogs.
    + now apply keys_unique_SaveArticle.
    + now apply keys_unique_SaveArticleAnalysis.
    + now apply keys_unique_MarkNotified.
  - intros rt env w H.
    exact (commands_keep env _ _ _ w keys_unique_sound H).
Qed.

(** ** The store: summaries that are missing *)

Section Unsummarized.
Context {rt : Runtime}.

(** X16. [UnsummarizedHighScoreArticles] returns, in descending order of
    total score, the analysed articles of the window with a total score of
    at least [minScore] and an empty summary. When the retry writes back
    such a row with a summary that is not empty, no query of this kind
    returns the article again; when the model's summary is the empty
    text, the article is returned again, with the same score. *)
Theorem unsummarized_until_summary (cutoff : string) (minScore : Z) (d : DB) :
  let res := rows_UnsummarizedHighScoreArticles cutoff minScore d in
  (forall p, In p res <->
             In p (joined d) /\
             text_geb (published_at (fst p)) cutoff = true /\
             minScore <= total_score (snd p) /\
             ai_summary (snd p) = "") /\
  StronglySorted score_ge res /\
  (forall p s,
      In p res ->
      let d' := snd (SaveArticleAnalysis
                       (with_summary (scanAnalysis (snd p)) s) d) in
      (sm_Summary s <> "" ->
       forall c m q,
         In q (rows_UnsummarizedHighScoreArticles c m d') ->
         article_id (snd q) <> article_id (snd p)) /\
      (sm_Summary s = "" ->
       exists r', In (fst p, r')
                     (rows_UnsummarizedHighScoreArticles cutoff minScore d') /\
                  article_id r' = article_id (snd p) /\
                  total_score r' = total_score (snd p))).
Proof.
  intros res.
  assert (Hin : forall c m d0 p,
            In p (rows_UnsummarizedHighScoreArticles c m d0) <->
            In p (joined d0) /\
            text_geb (published_at (fst p)) c = true /\
            m <= total_score (snd p) /\
            ai_summary (snd p) = "").
  { intros c m d0 p. unfold rows_UnsummarizedHighScoreArticles.
    rewrite sorted_joined_In, filter_In, !andb_true_iff, Z.leb_le,
      String.eqb_eq.
    tauto. }
  split; [apply Hin|]. split; [apply score_desc_sorted|].
  intros p s Hp d'.
  apply Hin in Hp as (Hj & Hc & Hm & Hs).
  apply joined_In in Hj as (Ha & Haa & Hid).
  unfold d'. clear d'.
  remember (with_summary (scanAnalysis (snd p)) s) as a eqn:Da.
  assert (Ea : ArticleID a = article_id (snd p)) by (subst a; reflexivity).
  assert (Es : AISummary a = sm_Summary s) by (subst a; reflexivity).
  assert (Et : TotalScore a = total_score (snd p)) by (subst a; reflexivity).
  clear Da.
  split.
  - intros Hne c m q Hq E.
    apply Hin in Hq as (Hqj & _ & _ & Hqs).
    apply joined_In in Hqj as (_ & Hqaa & _).
    destruct (SaveArticleAnalysis_columns a d (snd q) Hqaa)
      as (_ & _ & _ & _ & _ & _ & _ & C7 & _); [congruence|].
    apply Hne. rewrite <- Hqs, C7. symmetry. exact Es.
  - intros He. exists (update_analysis a (snd p)).
    split; [|split; [reflexivity | exact Et]].
    apply Hin. cbn [fst snd]. split; [|split; [exact Hc | split]].
    + apply joined_In. cbn [fst snd].
      split; [exact Ha|]. split; [|exact Hid].
      assert (Hex : existsb (fun r => article_id r =? ArticleID a)
                      (article_analysis d) = true).
      { apply existsb_exists. exists (snd p). split; [exact Haa | lia]. }
      unfold SaveArticleAnalysis. cbn [snd article_analysis]. rewrite Hex.
      apply in_map_iff. exists (snd p). split; [|exact Haa].
      rewrite Ea, Z.eqb_refl. reflexivity.
    + cbn [update_analysis total_score]. lia.
    + cbn [update_analysis ai_summary]. congruence.
Qed.

End Unsummarized.

(** ** The windows of three and of seven days *)

Lemma days_before_valid (n : nat) (t : Time) :
  valid_time t -> valid_time (days_before n t).
Proof.
  intros H. induction n as [|n IH]; [exact H|]. apply prev_day_valid, IH.
Qed.

Lemma days_before_year (n : nat) (t : Time) :
  t_year t - Z.of_nat n <= t_year (days_before n t) <= t_year t.
Proof.
  induction n as [|n IH]; [simpl; lia|].
  pose proof (prev_day_year (days_before n t)) as H.
  change (days_before (S n) t) with (prev_day (days_before n t)). lia.
Qed.

Lemma time_sub_days (n : nat) (t : Time) :
  time_sub t (Z.of_nat n * (24 * time_Hour)) = days_before n t.
Proof.
  unfold time_sub, days_before.
  rewrite Z.div_mul by discriminate. now rewrite Nat2Z.id.
Qed.

Lemma time_sub_72h (t : Time) : time_sub t (72 * time_Hour) = days_before 3 t.
Proof.
  replace (72 * time_Hour) with (Z.of_nat 3 * (24 * time_Hour))
    by (vm_compute; reflexivity).
  apply time_sub_days.
Qed.

Lemma time_sub_168h (t : Time) : time_sub t (168 * time_Hour) = days_before 7 t.
Proof.
  replace (168 * time_Hour) with (Z.of_nat 7 * (24 * time_Hour))
    by (vm_compute; reflexivity).
  apply time_sub_days.
Qed.

Lemma window_days_cutoff (window : string) (n : nat) (now : Time) :
  window_days window n ->
  exists dur,
    window_duration window = Ok dur /\ time_sub now dur = days_before n now.
Proof.
  intros [[-> ->]|[[-> ->]|[-> ->]]]; eexists; (split; [reflexivity|]).
  - apply time_sub_24h.
  - apply time_sub_72h.
  - apply time_sub_168h.
Qed.

Lemma zeroTime_before (c : Time) :
  2 <= t_year c ->
  time_geb (truncSecond zeroTime) (truncSecond c) = false.
Proof.
  intros H. unfold time_geb. rewrite time_compare_truncSecond.
  unfold sec_fields. cbn [zeroTime t_year lex_compare].
  replace (1 ?= t_year c) with Lt; [reflexivity|].
  symmetry. apply Z.compare_lt_iff. lia.
Qed.

Lemma prev_day_before (t : Time) :
  valid_time t ->
  time_geb (truncSecond t) (truncSecond (prev_day t)) = true.
Proof.
  intros (Hm & Hd & _). unfold time_geb. rewrite time_compare_truncSecond.
  unfold sec_fields, prev_day.
  destruct (1 <? t_day t) eqn:E1; [|destruct (1 <? t_month t) eqn:E2];
    cbn [t_year t_month t_day t_hour t_minute t_second lex_compare].
  - rewrite !Z.compare_refl.
    destruct (Z.compare_spec (t_day t) (t_day t - 1)); try reflexivity; lia.
  - rewrite Z.compare_refl.
    destruct (Z.compare_spec (t_month t) (t_month t - 1)); try reflexivity; lia.
  - destruct (Z.compare_spec (t_year t) (t_year t - 1)); try reflexivity; lia.
Qed.

Lemma text_geb_trans (a b c : string) :
  text_geb a b = true -> text_geb b c = true -> text_geb a c = true.
Proof. unfold text_geb. intros H1 H2. eapply leb_trans; eassumption. Qed.

Lemma cutoff_days_before (n : nat) (t : Time) :
  valid_time t -> Z.of_nat n < t_year t <= 9999 ->
  text_geb (formatRFC3339 (days_before n t))
           (formatRFC3339 (days_before (S n) t)) = true.
Proof.
  intros V Y.
  pose proof (days_before_valid n t V) as Vn.
  pose proof (days_before_year n t) as Yn.
  pose proof (prev_day_year (days_before n t)) as Yp.
  change (days_before (S n) t) with (prev_day (days_before n t)).
  rewrite text_geb_formatRFC3339.
  - now apply prev_day_before.
  - exact Vn.
  - unfold four_digit_year. lia.
  - now apply prev_day_valid.
  - unfold four_digit_year. lia.
Qed.

Lemma cutoff_days_before_le (n m : nat) (t : Time) :
  valid_time t -> Z.of_nat (n + m) < t_year t <= 9999 ->
  text_geb (formatRFC3339 (days_before n t))
           (formatRFC3339 (days_before (n + m) t)) = true.
Proof.
  intros V Y. induction m as [|m IH].
  - rewrite Nat.add_0_r. unfold text_geb.
    destruct (String.leb_total (formatRFC3339 (days_before n t))
                (formatRFC3339 (days_before n t))); assumption.
  - eapply text_geb_trans; [apply IH; lia|].
    replace (n + S m)%nat with (S (n + m)) by lia.
    apply cutoff_days_before; [exact V | lia].
Qed.

(** X17. The windows "3days" and "7days" are exact to the second like the
    window "24h": for a clock reading [now] in the years 9 to 9999 the
    cutoff is the text of the day 1, 3 or 7 days before [now] at the same
    clock reading, and [ArticlesByTimeWindow] selects a stored article,
    published at a time [t] with a four-digit year, exactly when [t] cut to
    the second is not before that day cut to the second. An article without
    a published time (the zero time) is in none of the windows. The method
    returns the articles that it selects when the driver can read the two
    times of each of them, and the error of [Scan] when it cannot. *)
Theorem windows_count_whole_days (rt : Runtime) (env : Environment)
    (w : World) (window : string) (n : nat) :
  let now := clock env (ticks w) in
  let cutoffT := days_before n now in
  let cutoff := formatRFC3339 cutoffT in
  valid_time now ->
  9 <= t_year now <= 9999 ->
  window_days window n ->
  windowCutoff window now = Ok cutoff /\
  ArticlesByTimeWindow env window w =
    (Done (if forallb article_readable
                (rows_ArticlesByTimeWindow cutoff (db w))
           then Ok (map scanArticle (rows_ArticlesByTimeWindow cutoff (db w)))
           else Err ErrScan),
     [], mkWorld (db w) (S (ticks w)) (chats w) (sends w)) /\
  valid_time cutoffT /\
  (forall r t, valid_time t -> four_digit_year t ->
               In r (articles (db w)) -> published_at r = formatRFC3339 t ->
               (In r (rows_ArticlesByTimeWindow cutoff (db w)) <->
                time_geb (truncSecond t) (truncSecond cutoffT) = true)) /\
  (forall r, published_at r = formatRFC3339 zeroTime ->
             ~ In r (rows_ArticlesByTimeWindow cutoff (db w))).
Proof.
  intros now cutoffT cutoff V Y W.
  destruct (window_days_cutoff window n now W) as (dur & Ed & Es).
  assert (Hn : (n <= 7)%nat)
    by (destruct W as [[_ ->]|[[_ ->]|[_ ->]]]; lia).
  pose proof (days_before_valid n now V) as Vc.
  pose proof (days_before_year n now) as Yc.
  assert (Fc : four_digit_year cutoffT)
    by (unfold four_digit_year, cutoffT; lia).
  split.
  { unfold windowCutoff. rewrite Ed. cbv iota beta. now rewrite Es. }
  split.
  { unfold ArticlesByTimeWindow. rewrite window_query_run, Ed.
    cbv iota beta. fold now. rewrite Es, scan_rows_cases. reflexivity. }
  split; [exact Vc|]. split.
  - intros r t Vt Ft Hr Ep. rewrite rows_ArticlesByTimeWindow_In, Ep.
    unfold cutoff. rewrite text_geb_formatRFC3339 by assumption. tauto.
  - intros r Ep Hr. apply rows_ArticlesByTimeWindow_In in Hr as [_ Hr].
    rewrite Ep in Hr. unfold cutoff in Hr.
    rewrite text_geb_formatRFC3339 in Hr;
      try assumption; try apply zeroTime_valid.
    rewrite zeroTime_before in Hr; [discriminate|].
    unfold cutoffT. lia.
Qed.

(** X18. At one clock reading (in the years 8 to 9999) the cutoff of a
    wider window is not after the cutoff of a narrower one, so what a query
    returns for "24h" it returns for "3days", and what it returns for
    "3days" it returns for "7days": the articles of the window, those
    without an analysis, and the candidates of the undelivered view. *)
Theorem wider_window_returns_more (now : Time) (d : DB) :
  valid_time now ->
  8 <= t_year now <= 9999 ->
  let c1 := formatRFC3339 (time_sub now (24 * time_Hour)) in
  let c3 := formatRFC3339 (time_sub now (72 * time_Hour)) in
  let c7 := formatRFC3339 (time_sub now (168 * time_Hour)) in
  text_geb c1 c3 = true /\ text_geb c3 c7 = true /\
  (forall (rt : Runtime) narrow wide,
      (narrow = c1 /\ wide = c3) \/ (narrow = c3 /\ wide = c7) \/
      (narrow = c1 /\ wide = c7) ->
      (forall r, In r (rows_ArticlesByTimeWindow narrow d) ->
                 In r (rows_ArticlesByTimeWindow wide d)) /\
      (forall r, In r (rows_UnanalyzedArticles narrow d) ->
                 In r (rows_UnanalyzedArticles wide d)) /\
      (forall p, In p (unnotified_in_window narrow d) ->
                 In p (unnotified_in_window wide d))).
Proof.
  intros V Y c1 c3 c7. unfold c1, c3, c7. clear c1 c3 c7.
  rewrite time_sub_24h, time_sub_72h, time_sub_168h.
  change (prev_day now) with (days_before 1 now).
  set (c1 := formatRFC3339 (days_before 1 now)).
  set (c3 := formatRFC3339 (days_before 3 now)).
  set (c7 := formatRFC3339 (days_before 7 now)).
  assert (H13 : text_geb c1 c3 = true)
    by (apply (cutoff_days_before_le 1 2 now V); lia).
  assert (H37 : text_geb c3 c7 = true)
    by (apply (cutoff_days_before_le 3 4 now V); lia).
  assert (H17 : text_geb c1 c7 = true)
    by (eapply text_geb_trans; eassumption).
  split; [exact H13|]. split; [exact H37|].
  intros rt narrow wide Hc.
  assert (Hnw : text_geb narrow wide = true)
    by (destruct Hc as [[-> ->]|[[-> ->]|[-> ->]]]; assumption).
  clear Hc. split; [|split].
  - intros r. rewrite !rows_ArticlesByTimeWindow_In. intros [Hr Hg].
    split; [exact Hr | eapply text_geb_trans; eassumption].
  - intros r. unfold rows_UnanalyzedArticles.
    rewrite !sorted_articles_In, !filter_In, !andb_true_iff.
    intros [Hr [Hg Hn]].
    split; [exact Hr|]. split; [eapply text_geb_trans; eassumption | exact Hn].
  - intros p. unfold unnotified_in_window.
    rewrite !filter_In, !andb_true_iff. intros [Hp [Hg Hn]].
    split; [exact Hp|]. split; [eapply text_geb_trans; eassumption | exact Hn].
Qed.

(** ** The timestamps that [migrate] rewrites *)

Lemma list_prefix_app (p l : list ascii) : list_prefix p (p ++ l) = true.
Proof.
  induction p as [|a p IH]; simpl; [reflexivity|].
  now rewrite Ascii.eqb_refl.
Qed.

Lemma like_utc_suffix_utc (s : string) :
  like_utc_suffix (s ++ " +0000 UTC") = true.
Proof.
  unfold like_utc_suffix.
  rewrite list_ascii_of_append, map_app, rev_app_distr.
  apply list_prefix_app.
Qed.

Lemma like_utc_suffix_Z (s : string) : like_utc_suffix (s ++ "Z") = false.
Proof.
  unfold like_utc_suffix.
  rewrite list_ascii_of_append, map_app, rev_app_distr. reflexivity.
Qed.

Lemma normalize_ends_in_Z (s : string) :
  normalize_published_at (s ++ "Z") = s ++ "Z".
Proof. unfold normalize_published_at. now rewrite like_utc_suffix_Z. Qed.

Lemma formatRFC3339_ends_in_Z (t : Time) :
  exists s, formatRFC3339 t = s ++ "Z".
Proof.
  unfold formatRFC3339. eexists.
  rewrite <- !append_assoc. reflexivity.
Qed.

Lemma digit_not_space (k : Z) :
  0 <= k < 10 -> Ascii.eqb (digit k) " "%char = false.
Proof.
  intros H.
  assert (C : k = 0 \/ k = 1 \/ k = 2 \/ k = 3 \/ k = 4 \/ k = 5 \/ k = 6 \/
              k = 7 \/ k = 8 \/ k = 9) by lia.
  repeat (destruct C as [->|C]; [reflexivity|]). subst. reflexivity.
Qed.

Lemma sqliteTimestamp_pads (t : Time) :
  valid_time t -> four_digit_year t ->
  sqliteTimestamp t =
  pad4 (t_year t) ++ "-" ++ pad2 (t_month t) ++ "-" ++ pad2 (t_day t) ++ " " ++
  pad2 (t_hour t) ++ ":" ++ pad2 (t_minute t) ++ ":" ++ pad2 (t_second t).
Proof.
  intros (Hm & Hd & Hh & Hmi & Hs & _) Hy. unfold four_digit_year in Hy.
  pose proof (days_in_month_bounds (t_year t) (t_month t)).
  unfold sqliteTimestamp.
  rewrite appendInt_4 by lia. rewrite !appendInt_2 by lia. reflexivity.
Qed.

Section SpaceToT.

Let f (x : ascii) : string :=
  if Ascii.eqb x " "%char then "T" else String x EmptyString.

Lemma space_to_T_pad2 (m : Z) (s : string) :
  0 <= m < 100 ->
  concat_bytes f (pad2 m ++ s) = pad2 m ++ concat_bytes f s.
Proof.
  intros H. unfold pad2. cbn [append concat_bytes]. unfold f at 1 2.
  rewrite !digit_not_space by dlia. reflexivity.
Qed.

Lemma space_to_T_pad4 (y : Z) (s : string) :
  0 <= y < 10000 ->
  concat_bytes f (pad4 y ++ s) = pad4 y ++ concat_bytes f s.
Proof.
  intros H. unfold pad4. cbn [append concat_bytes]. unfold f at 1 2 3 4.
  rewrite !digit_not_space by dlia. reflexivity.
Qed.

Lemma space_to_T_timestamp (t : Time) :
  valid_time t -> four_digit_year t ->
  concat_bytes f (sqliteTimestamp t) ++ "Z" = formatRFC3339 t.
Proof.
  intros V Y.
  rewrite (sqliteTimestamp_pads t V Y), (formatRFC3339_pads t V Y).
  destruct V as (Hm & Hd & Hh & Hmi & Hs & _).
  pose proof (days_in_month_bounds (t_year t) (t_month t)).
  unfold four_digit_year in Y.
  rewrite <- (append_nil_r (pad2 (t_second t))) at 1.
  rewrite space_to_T_pad4 by lia.
  change ("-" ++ ?x) with (String "-"%char x).
  change (" " ++ ?x) with (String " "%char x).
  change (":" ++ ?x) with (String ":"%char x).
  cbn [concat_bytes]. unfold f at 1. cbn [Ascii.eqb Bool.eqb append].
  rewrite space_to_T_pad2 by lia.
  cbn [concat_bytes]. unfold f at 1. cbn [Ascii.eqb Bool.eqb append].
  rewrite space_to_T_pad2 by lia.
  cbn [concat_bytes]. unfold f at 1. cbn [Ascii.eqb Bool.eqb append].
  rewrite space_to_T_pad2 by lia.
  cbn [concat_bytes]. unfold f at 1. cbn [Ascii.eqb Bool.eqb append].
  rewrite space_to_T_pad2 by lia.
  cbn [concat_bytes]. unfold f at 1. cbn [Ascii.eqb Bool.eqb append].
  rewrite space_to_T_pad2 by lia.
  cbn [concat_bytes].
  rewrite !append_assoc. cbn [append]. rewrite !append_assoc.
  reflexivity.
Qed.

End SpaceToT.

Lemma substring_append_l (a b : string) :
  String.substring 0 (String.length a) (a ++ b) = a.
Proof. induction a as [|c a IH]; simpl; [now destruct b | now rewrite IH]. Qed.

Lemma sqliteTimestamp_length (t : Time) :
  valid_time t -> four_digit_year t ->
  String.length (sqliteTimestamp t) = 19%nat.
Proof.
  intros V Y. rewrite (sqliteTimestamp_pads t V Y). reflexivity.
Qed.

(** X19. The [UPDATE] of [migrate] turns a timestamp in Go's default
    format, "YYYY-MM-DD HH:MM:SS", a fraction of a second or none, and
    " +0000 UTC", into the RFC3339 text that [SaveArticle] writes for the
    same time, so that old rows compare like new ones. Texts that
    [SaveArticle] has written are left as they are, and running [migrate]
    again changes nothing. *)
Theorem migrate_normalizes_timestamps (t : Time) (frac : string) :
  valid_time t ->
  four_digit_year t ->
  normalize_published_at (sqliteTimestamp t ++ frac ++ " +0000 UTC") =
    formatRFC3339 t /\
  (forall u, normalize_published_at (formatRFC3339 u) = formatRFC3339 u) /\
  (forall s,
      normalize_published_at (normalize_published_at s) =
      normalize_published_at s) /\
  (forall rows,
      migrate_articles (migrate_articles rows) = migrate_articles rows) /\
  (forall a d r,
      In r (articles (snd (SaveArticle a d))) ->
      In r (articles d) \/
      normalize_published_at (published_at r) = published_at r).
Proof.
  intros V Y.
  assert (Hu : forall u,
            normalize_published_at (formatRFC3339 u) = formatRFC3339 u).
  { intros u. destruct (formatRFC3339_ends_in_Z u) as (s & ->).
    apply normalize_ends_in_Z. }
  assert (Hi : forall s,
            normalize_published_at (normalize_published_at s) =
            normalize_published_at s).
  { intros s. unfold normalize_published_at at 2 3.
    destruct (like_utc_suffix s) eqn:E.
    - apply normalize_ends_in_Z.
    - unfold normalize_published_at. now rewrite E. }
  split; [|split; [exact Hu | split; [exact Hi | split]]].
  - unfold normalize_published_at.
    rewrite <- append_assoc, like_utc_suffix_utc.
    rewrite append_assoc.
    rewrite <- (sqliteTimestamp_length t V Y) at 1.
    rewrite substring_append_l.
    change " " with (String " "%char EmptyString).
    rewrite strings_ReplaceAll_byte.
    now apply space_to_T_timestamp.
  - intros rows. unfold migrate_articles. rewrite map_map.
    apply map_ext. intros r. cbn. now rewrite Hi.
  - intros a d r Hr. apply SaveArticle_row in Hr as [Hr|[_ ->]];
      [now left | right; apply Hu].
Qed.

(** ** Stage B succeeds *)

Section StageBSuccess.
Context {rt : Runtime}.
Variable env : Environment.

Lemma summarize_loop_succeeds (article : Article) (s : SummaryResult) (k : nat) :
  forall (todo : nat) (attempt : Z) (lastErr : error) (w : World),
    (k < todo)%nat ->
    (forall i, (i < k)%nat -> attempt_fails env (chats w + i) article) ->
    attempt_succeeds env (chats w + k) article s ->
    summarize_loop env article todo attempt lastErr w =
    (Done (Ok s),
     (failed_attempts article k attempt ++
      [EvChat summarySystemPrompt (summaryUserPrompt article)])%list,
     mkWorld (db w) (ticks w) (chats w + S k) (sends w)).
Proof.
  induction k as [|k IH]; intros [|todo] attempt lastErr w Hk Hf Hs;
    try lia.
  - destruct Hs as (content & Hb & Hj). rewrite Nat.add_0_r in Hb.
    cbn [summarize_loop]. unfold ChatCompletion, bind, ret. rewrite Hb, Hj.
    cbn [failed_attempts app]. now rewrite Nat.add_1_r.
  - assert (H0 : attempt_fails env (chats w) article).
    { rewrite <- (Nat.add_0_r (chats w)). apply Hf. lia. }
    set (w1 := mkWorld (db w) (ticks w) (S (chats w)) (sends w)).
    assert (Hrest : forall e,
      summarize_loop env article todo (attempt + 1) e w1 =
      (Done (Ok s),
       (failed_attempts article k (attempt + 1) ++
        [EvChat summarySystemPrompt (summaryUserPrompt article)])%list,
       mkWorld (db w) (ticks w) (chats w + S (S k)) (sends w))).
    { intros e. rewrite (IH todo (attempt + 1) e w1); [| lia | |].
      - simpl. now replace (S (chats w + S k)) with (chats w + S (S k))%nat by lia.
      - intros i Hi. simpl.
        replace (S (chats w + i)) with (chats w + S i)%nat by lia.
        apply Hf. lia.
      - simpl. now replace (S (chats w + k)) with (chats w + S k)%nat by lia. }
    unfold attempt_fails, summary_reply in H0.
    cbn [summarize_loop]. unfold ChatCompletion, time_Sleep, emit.
    rewrite !bind_run. cbn [fst snd].
    destruct (backend env (chats w) summarySystemPrompt
                (summaryUserPrompt article)) as [content|e] eqn:E.
    + rewrite H0. rewrite !bind_run. cbn [fst snd]. fold w1.
      rewrite Hrest. reflexivity.
    + rewrite !bind_run. cbn [fst snd]. fold w1.
      rewrite Hrest. reflexivity.
Qed.

(** X20. [SummarizeArticle] returns the result of the first attempt that
    succeeds, when that is one of the three: it has called the model once
    per attempt, has slept 2 and 4 seconds after the first and the second
    attempt that failed, and does not sleep after the success. *)
Theorem SummarizeArticle_returns_first_success (w : World) (article : Article)
    (k : nat) (s : SummaryResult) :
  (k < 3)%nat ->
  (forall i, (i < k)%nat -> attempt_fails env (chats w + i) article) ->
  attempt_succeeds env (chats w + k) article s ->
  SummarizeArticle env article w =
    (Done (Ok s),
     (failed_attempts article k 1 ++
      [EvChat summarySystemPrompt (summaryUserPrompt article)])%list,
     mkWorld (db w) (ticks w) (chats w + S k) (sends w)) /\
  List.length (failed_attempts article k 1) = (2 * k)%nat /\
  (forall d, In (EvSleep d) (failed_attempts article k 1) ->
             d = 2 * time_Second \/ d = 4 * time_Second).
Proof.
  intros Hk Hf Hs. split; [|split].
  - unfold SummarizeArticle. change (Z.to_nat maxRetries) with 3%nat.
    now apply summarize_loop_succeeds.
  - destruct k as [|[|[|k]]]; try reflexivity; lia.
  - intros d Hd. destruct k as [|[|[|k]]]; try lia; simpl in Hd.
    + destruct Hd.
    + destruct Hd as [Hd|[Hd|[]]]; [discriminate|].
      injection Hd as <-. left. reflexivity.
    + destruct Hd as [Hd|[Hd|[Hd|[Hd|[]]]]]; try discriminate;
        injection Hd as <-; [left | right]; reflexivity.
Qed.

(** X21. When Stage A succeeds for an article and one of the three
    attempts of Stage B succeeds, the body of the pipeline's loop saves one
    analysis of the article with the scores, their sum, the category and
    the keywords of Stage A and the three texts of Stage B, and logs no
    warning. *)
Theorem enriched_row_has_summary (w0 : World) (article : Article)
    (sr : ScoreResult) (k : nat) (s : SummaryResult) :
  score_succeeds env (chats w0) article sr ->
  (k < 3)%nat ->
  (forall i, (i < k)%nat -> attempt_fails env (S (chats w0) + i) article) ->
  attempt_succeeds env (S (chats w0) + k) article s ->
  let analysis :=
    with_summary (analysis_of_score article sr (clock env (ticks w0))) s in
  pipeline_analyze env article w0 =
    (Done tt,
     (EvChat scoreSystemPrompt (scoreUserPrompt article)
      :: failed_attempts article k 1 ++
         [EvChat summarySystemPrompt (summaryUserPrompt article)])%list,
     mkWorld (snd (SaveArticleAnalysis analysis (db w0)))
             (S (ticks w0)) (S (chats w0) + S k) (sends w0)) /\
  has_analysis (db (snd (pipeline_analyze env article w0))) (a_ID article) /\
  (forall r, In r (article_analysis (db (snd (pipeline_analyze env article w0)))) ->
             article_id r = a_ID article ->
             relevance r = sr_Relevance sr /\ quality r = sr_Quality sr /\
             timeliness r = sr_Timeliness sr /\
             total_score r =
               int_add (int_add (sr_Relevance sr) (sr_Quality sr))
                       (sr_Timeliness sr) /\
             category r = sr_Category sr /\
             keywords r = strings_Join (sr_Keywords sr) ", " /\
             ai_summary r = sm_Summary s /\ title_cn r = sm_TitleCN s /\
             recommend_reason r = sm_RecommendReason s).
Proof.
  intros (content & Hb & Hj) Hk Hf Hs analysis.
  set (w1 := mkWorld (db w0) (S (ticks w0)) (S (chats w0)) (sends w0)).
  assert (Hrun : pipeline_analyze env article w0 =
    (Done tt,
     (EvChat scoreSystemPrompt (scoreUserPrompt article)
      :: failed_attempts article k 1 ++
         [EvChat summarySystemPrompt (summaryUserPrompt article)])%list,
     mkWorld (snd (SaveArticleAnalysis analysis (db w0)))
             (S (ticks w0)) (S (chats w0) + S k) (sends w0))).
  { unfold pipeline_analyze, enrich_scored, bind.
    rewrite ScoreArticle_run, Hb, Hj.
    unfold time_Now. cbn [db ticks chats sends]. fold w1.
    destruct (SummarizeArticle_returns_first_success w1 article k s Hk Hf Hs)
      as (-> & _).
    unfold ret. rewrite store_exec_run. cbn [db ticks chats sends w1].
    change (fst (SaveArticleAnalysis ?a ?d)) with (@None error).
    cbv beta iota zeta. cbn [app]. rewrite app_nil_r. reflexivity. }
  split; [exact Hrun|]. rewrite Hrun. cbn [snd db].
  split; [apply (SaveArticleAnalysis_has analysis)|].
  intros r Hr Hid.
  destruct (SaveArticleAnalysis_columns analysis (db w0) r Hr Hid)
    as (_ & C1 & C2 & C3 & C4 & C5 & C6 & C7 & C8 & C9 & _).
  repeat split; assumption.
Qed.

End StageBSuccess.

(** ** The typographic quotes *)

Lemma length_substring_le (n m : nat) (s : string) :
  (String.length (String.substring n m s) <= String.length s)%nat.
Proof.
  revert n m. induction s as [|c s IH]; intros [|n] [|m]; simpl; try lia.
  - specialize (IH 0%nat m). lia.
  - specialize (IH n 0%nat). lia.
  - specialize (IH n (S m)). lia.
Qed.

Lemma replace_scan_skip (old new : string) (k : nat) (s : string) :
  replace_scan old new k s =
  replace_scan old new 0
    (String.substring k (Nat.sub (String.length s) k) s).
Proof.
  revert k. induction s as [|c s IH]; intros k.
  - now destruct k.
  - destruct k as [|k].
    + now rewrite Nat.sub_0_r, substring_all.
    + cbn [replace_scan]. rewrite IH. reflexivity.
Qed.

(** [strings.ReplaceAll] is one pass from left to right. *)
Lemma strings_ReplaceAll_scan (o : ascii) (old' new s : string) :
  strings_ReplaceAll s (String o old') new =
  replace_scan (String o old') new 0 s.
Proof.
  unfold strings_ReplaceAll.
  assert (H : forall fuel s, (String.length s <= fuel)%nat ->
            replaceAll_fuel fuel s (String o old') new =
            replace_scan (String o old') new 0 s).
  { clear s. induction fuel as [|f IH]; intros [|c rest] Hl; simpl in Hl;
      try reflexivity; try lia.
    cbn [replaceAll_fuel replace_scan].
    destruct (String.prefix (String o old') (String c rest)).
    - f_equal. cbn [String.length Nat.pred Nat.sub String.substring].
      rewrite (replace_scan_skip _ _ (String.length old') rest).
      apply IH.
      pose proof (length_substring_le (String.length old')
                    (String.length rest - String.length old') rest). lia.
    - f_equal. apply IH. lia. }
  apply H. apply Nat.le_refl.
Qed.

Lemma sanitizeJSON_scan (s : string) :
  sanitizeJSON s =
  replace_scan (bytes3 226 128 153) "'" 0
    (replace_scan (bytes3 226 128 152) "'" 0
       (replace_scan (bytes3 226 128 157) dquote 0
          (replace_scan (bytes3 226 128 156) dquote 0 s))).
Proof.
  unfold sanitizeJSON, bytes3. now rewrite !strings_ReplaceAll_scan.
Qed.

Lemma replace_scan_other (x : nat) (new : string) (c : ascii) (s : string) :
  c <> ascii_of_nat 226 ->
  replace_scan (bytes3 226 128 x) new 0 (String c s) =
  String c (replace_scan (bytes3 226 128 x) new 0 s).
Proof.
  intros H. cbn [replace_scan bytes3 String.prefix].
  destruct (ascii_dec (ascii_of_nat 226) c) as [E|_]; [congruence|].
  reflexivity.
Qed.

Lemma replace_scan_quote (x : nat) (new s : string) :
  replace_scan (bytes3 226 128 x) new 0 (bytes3 226 128 x ++ s) =
  new ++ replace_scan (bytes3 226 128 x) new 0 s.
Proof.
  cbn [bytes3 append replace_scan String.prefix].
  destruct (ascii_dec (ascii_of_nat 226) (ascii_of_nat 226)) as [_|N];
    [|congruence].
  destruct (ascii_dec (ascii_of_nat 128) (ascii_of_nat 128)) as [_|N];
    [|congruence].
  destruct (ascii_dec (ascii_of_nat x) (ascii_of_nat x)) as [_|N];
    [|congruence].
  rewrite prefix_nil. reflexivity.
Qed.

Lemma replace_scan_other_quote (x y : nat) (new s : string) :
  ascii_of_nat x <> ascii_of_nat y ->
  ascii_of_nat y <> ascii_of_nat 226 ->
  replace_scan (bytes3 226 128 x) new 0 (bytes3 226 128 y ++ s) =
  bytes3 226 128 y ++ replace_scan (bytes3 226 128 x) new 0 s.
Proof.
  intros Hxy Hy. cbn [bytes3 append replace_scan String.prefix].
  destruct (ascii_dec (ascii_of_nat 226) (ascii_of_nat 226)) as [_|N];
    [|congruence].
  destruct (ascii_dec (ascii_of_nat 128) (ascii_of_nat 128)) as [_|N];
    [|congruence].
  destruct (ascii_dec (ascii_of_nat x) (ascii_of_nat y)) as [E|_];
    [congruence|].
  destruct (ascii_dec (ascii_of_nat 226) (ascii_of_nat 128)) as [E|_];
    [discriminate|].
  destruct (ascii_dec (ascii_of_nat 226) (ascii_of_nat y)) as [E|_];
    [congruence|].
  reflexivity.
Qed.

(** X22. [sanitizeJSON] replaces the four typographic quotes by their
    ASCII quotes and passes on every byte that cannot begin one of them:
    a byte other than 0xE2 at the head of a text stays, and a typographic
    quote at the head of a text becomes its ASCII quote, with the rest of
    the text sanitized in both cases. A text without the byte 0xE2, such
    as JSON in ASCII, is returned as it is. *)
Theorem sanitizeJSON_replaces_smart_quotes (s : string) :
  (forall c, c <> ascii_of_nat 226 ->
             sanitizeJSON (String c s) = String c (sanitizeJSON s)) /\
  (forall q a, In (q, a) smart_quotes ->
               sanitizeJSON (q ++ s) = a ++ sanitizeJSON s) /\
  ((forall c, In c (list_ascii_of_string s) -> c <> ascii_of_nat 226) ->
   sanitizeJSON s = s).
Proof.
  assert (Hstep : forall c t, c <> ascii_of_nat 226 ->
            sanitizeJSON (String c t) = String c (sanitizeJSON t)).
  { intros c t Hc. rewrite !sanitizeJSON_scan.
    now rewrite !replace_scan_other by exact Hc. }
  split; [intros c; apply Hstep|]. split.
  - intros q a Hq. rewrite !sanitizeJSON_scan.
    assert (Hd : forall x t,
              replace_scan (bytes3 226 128 x) "'" 0 (dquote ++ t) =
              dquote ++ replace_scan (bytes3 226 128 x) "'" 0 t).
    { intros x t. apply replace_scan_other. discriminate. }
    assert (Hd' : forall x t,
              replace_scan (bytes3 226 128 x) dquote 0 (dquote ++ t) =
              dquote ++ replace_scan (bytes3 226 128 x) dquote 0 t).
    { intros x t. apply replace_scan_other. discriminate. }
    assert (Ha : forall x t,
              replace_scan (bytes3 226 128 x) "'" 0 ("'" ++ t) =
              "'" ++ replace_scan (bytes3 226 128 x) "'" 0 t).
    { intros x t. apply replace_scan_other. discriminate. }
    destruct Hq as [E|[E|[E|[E|[]]]]]; injection E as <- <-.
    + rewrite replace_scan_quote, Hd', !Hd. reflexivity.
    + rewrite replace_scan_other_quote by discriminate.
      rewrite replace_scan_quote, !Hd. reflexivity.
    + rewrite !(replace_scan_other_quote _ 152) by discriminate.
      rewrite replace_scan_quote, Ha. reflexivity.
    + rewrite !(replace_scan_other_quote _ 153) by discriminate.
      rewrite replace_scan_quote. reflexivity.
  - induction s as [|c s IH]; intros H.
    + reflexivity.
    + rewrite Hstep by (apply H; now left). f_equal.
      apply IH. intros x Hx. apply H. now right.
Qed.

(** ** UTF-8 *)


Lemma byte_value_range (c : ascii) : 0 <= byte_value c < 256.
Proof.
  unfold byte_value. pose proof (N_ascii_bounded c). lia.
Qed.

Lemma byte_char_value (c : ascii) : byte_char (byte_value c) = c.
Proof.
  unfold byte_char, byte_value. rewrite N2Z.id. apply ascii_N_embedding.
Qed.

Lemma byte_value_char (b : Z) : 0 <= b < 256 -> byte_value (byte_char b) = b.
Proof.
  intros H. unfold byte_char, byte_value.
  rewrite N_ascii_embedding by lia. lia.
Qed.

Lemma byte_char_high (b : Z) (c : ascii) :
  128 <= b < 256 -> byte_value c < 128 -> byte_char b <> c.
Proof.
  intros Hb Hc E. subst c. rewrite byte_value_char in Hc; lia.
Qed.

Lemma lor_ge_l (a b : Z) : 0 <= a -> 0 <= b -> a <= Z.lor a b.
Proof.
  intros Ha Hb.
  assert (E : Z.ldiff a (Z.lor a b) = 0).
  { apply Z.bits_inj'. intros n Hn.
    rewrite Z.ldiff_spec, Z.lor_spec, Z.bits_0.
    destruct (Z.testbit a n), (Z.testbit b n); reflexivity. }
  pose proof (Z.sub_nocarry_ldiff _ _ E) as S.
  assert (0 <= Z.ldiff (Z.lor a b) a).
  { apply Z.ldiff_nonneg. left. now apply Z.lor_nonneg. }
  lia.
Qed.

Lemma lor_ge_r (a b : Z) : 0 <= a -> 0 <= b -> b <= Z.lor a b.
Proof.
  intros Ha Hb. rewrite Z.lor_comm. now apply lor_ge_l.
Qed.

Lemma lor_lt_pow2 (a b n : Z) :
  0 <= n -> 0 <= a < 2 ^ n -> 0 <= b < 2 ^ n -> Z.lor a b < 2 ^ n.
Proof.
  intros Hn Ha Hb.
  assert (H0 : 0 <= Z.lor a b) by (apply Z.lor_nonneg; lia).
  destruct (Z.eq_dec (Z.lor a b) 0) as [->|N]; [lia|].
  apply Z.log2_lt_pow2; [lia|].
  rewrite Z.log2_lor by lia.
  destruct (Z.eq_dec a 0) as [->|Na], (Z.eq_dec b 0) as [->|Nb];
    try (simpl in N; congruence).
  - rewrite Z.max_r by (apply Z.log2_nonneg). apply Z.log2_lt_pow2; lia.
  - rewrite Z.max_l by (apply Z.log2_nonneg). apply Z.log2_lt_pow2; lia.
  - apply Z.max_lub_lt; apply Z.log2_lt_pow2; lia.
Qed.

Lemma land_255 (x : Z) : Z.land x 255 = x mod 256.
Proof. change 255 with (Z.ones 8). now rewrite Z.land_ones. Qed.
Lemma land_63 (x : Z) : Z.land x 63 = x mod 64.
Proof. change 63 with (Z.ones 6). now rewrite Z.land_ones. Qed.
Lemma land_31 (x : Z) : Z.land x 31 = x mod 32.
Proof. change 31 with (Z.ones 5). now rewrite Z.land_ones. Qed.
Lemma land_15 (x : Z) : Z.land x 15 = x mod 16.
Proof. change 15 with (Z.ones 4). now rewrite Z.land_ones. Qed.
Lemma land_7 (x : Z) : Z.land x 7 = x mod 8.
Proof. change 7 with (Z.ones 3). now rewrite Z.land_ones. Qed.

(** A byte written for a rune beyond ASCII is 0x80 or more. *)
Lemma lead_byte (t y : Z) :
  128 <= t < 256 -> 0 <= y < 256 -> 128 <= Z.lor t y < 256.
Proof.
  intros Ht Hy. split.
  - pose proof (lor_ge_l t y). lia.
  - apply (lor_lt_pow2 t y 8); lia.
Qed.

Lemma utf8_first_cases (s0 sz lo hi : Z) :
  utf8_first s0 = Some (sz, lo, hi) ->
  128 <= lo /\ hi <= 191 /\
  ((sz = 2 /\ 194 <= s0 < 224) \/
   (sz = 3 /\ (225 <= s0 < 240 \/ (s0 = 224 /\ lo = 160))) \/
   (sz = 4 /\ (241 <= s0 <= 244 \/ (s0 = 240 /\ lo = 144)))).
Proof.
  unfold utf8_first.
  repeat match goal with
         | |- context [?a <? ?b] => destruct (Z.ltb_spec a b)
         | |- context [?a =? ?b] => destruct (Z.eqb_spec a b)
         end; intros E; inversion E; subst; lia.
Qed.

Lemma utf8_DecodeRune_ascii (c : ascii) (t : string) :
  byte_value c < 128 ->
  utf8_DecodeRuneInString (String c t) = (byte_value c, 1%nat).
Proof.
  intros H. unfold utf8_DecodeRuneInString.
  destruct (Z.ltb_spec (byte_value c) 128); [reflexivity | lia].
Qed.

Lemma utf8_DecodeRune_invalid (c : ascii) (t : string) :
  128 <= byte_value c -> utf8_first (byte_value c) = None ->
  utf8_DecodeRuneInString (String c t) = (utf8_RuneError, 1%nat).
Proof.
  intros H F. unfold utf8_DecodeRuneInString. rewrite F.
  destruct (Z.ltb_spec (byte_value c) 128); [lia | reflexivity].
Qed.

Ltac decode_cases :=
  repeat match goal with
         | |- context [if ?a <? ?b then _ else _] => destruct (Z.ltb_spec a b)
         | |- context [if ?a <=? ?b then _ else _] => destruct (Z.leb_spec a b)
         | |- context [(?a <? ?b) || _] => destruct (Z.ltb_spec a b)
         | |- context [false || (?a <? ?b)] => destruct (Z.ltb_spec a b)
         | |- context [match ?t with EmptyString => _ | String _ _ => _ end] =>
             destruct t
         | |- _ => progress cbn [orb fst snd]
         end.

(** Only an ASCII byte gives a rune below 0x80. *)
Lemma utf8_DecodeRune_high (c : ascii) (t : string) :
  128 <= byte_value c -> 128 <= fst (utf8_DecodeRuneInString (String c t)).
Proof.
  intros H. unfold utf8_DecodeRuneInString.
  destruct (Z.ltb_spec (byte_value c) 128); [lia|].
  destruct (utf8_first (byte_value c)) as [[[sz lo] hi]|] eqn:F;
    [|cbn; unfold utf8_RuneError; lia].
  apply utf8_first_cases in F. destruct F as (Hlo & Hhi & F).
  pose proof (byte_value_range c) as R0.
  decode_cases; try (unfold utf8_RuneError; lia).
  - (* two bytes *)
    etransitivity; [|apply lor_ge_l];
      rewrite ?land_31, ?land_63, ?Z.shiftl_mul_pow2 by lia;
      try (apply Z.mul_nonneg_nonneg; [|lia]); try apply Z.mod_pos_bound; try lia.
    change (2 ^ 6) with 64.
    assert (2 <= byte_value c mod 32); [|lia].
    destruct F as [F|[F|F]]; try lia.
    Z.div_mod_to_equations. lia.
  - (* three bytes *)
    pose proof (byte_value_range a) as R1.
    rewrite ?land_15, ?land_63, ?Z.shiftl_mul_pow2 by lia.
    change (2 ^ 12) with 4096. change (2 ^ 6) with 64.
    pose proof (Z.mod_pos_bound (byte_value c) 16 eq_refl).
    pose proof (Z.mod_pos_bound (byte_value a) 64 eq_refl).
    pose proof (Z.mod_pos_bound (byte_value a0) 64 eq_refl).
    etransitivity; [|apply lor_ge_l]; try lia;
      [|apply Z.lor_nonneg; lia].
    assert (G : 1 <= byte_value c mod 16 \/ 32 <= byte_value a mod 64).
    { destruct F as [F|[F|F]]; try lia.
      destruct F as (_ & [F|(F1 & F2)]).
      - left. Z.div_mod_to_equations. lia.
      - right. subst lo. Z.div_mod_to_equations. lia. }
    destruct G as [G|G].
    + etransitivity; [|apply lor_ge_l]; lia.
    + etransitivity; [|apply lor_ge_r]; lia.
  - (* four bytes *)
    pose proof (byte_value_range a) as R1.
    rewrite ?land_7, ?land_63, ?Z.shiftl_mul_pow2 by lia.
    change (2 ^ 18) with 262144.
    change (2 ^ 12) with 4096. change (2 ^ 6) with 64.
    pose proof (Z.mod_pos_bound (byte_value c) 8 eq_refl).
    pose proof (Z.mod_pos_bound (byte_value a) 64 eq_refl).
    pose proof (Z.mod_pos_bound (byte_value a0) 64 eq_refl).
    pose proof (Z.mod_pos_bound (byte_value a1) 64 eq_refl).
    assert (N1 : 0 <= Z.lor (byte_value c mod 8 * 262144)
                            (byte_value a mod 64 * 4096))
      by (apply Z.lor_nonneg; lia).
    etransitivity; [|apply lor_ge_l]; try lia;
      [|apply Z.lor_nonneg; lia].
    etransitivity; [|apply lor_ge_l]; try lia.
    assert (G : 1 <= byte_value c mod 8 \/ 16 <= byte_value a mod 64).
    { destruct F as [F|[F|F]]; try lia.
      destruct F as (_ & [F|(F1 & F2)]).
      - left. Z.div_mod_to_equations. lia.
      - right. subst lo. Z.div_mod_to_equations. lia. }
    destruct G as [G|G].
    + etransitivity; [|apply lor_ge_l]; lia.
    + etransitivity; [|apply lor_ge_r]; lia.
Qed.

(** A rune takes one to four bytes of the text. *)
Lemma utf8_DecodeRune_size (c : ascii) (t : string) :
  (1 <= snd (utf8_DecodeRuneInString (String c t)) <= 1 + String.length t)%nat.
Proof.
  unfold utf8_DecodeRuneInString.
  destruct (utf8_first (byte_value c)) as [[[sz lo] hi]|];
    decode_cases; cbn [String.length]; lia.
Qed.

(** An ASCII byte ends the sequence before it: what follows that byte has
    no part in the rune. *)
Lemma utf8_DecodeRune_app (c0 c : ascii) (a b : string) :
  byte_value c < 128 ->
  utf8_DecodeRuneInString (String c0 (a ++ String c b)) =
  utf8_DecodeRuneInString (String c0 a).
Proof.
  intros H. unfold utf8_DecodeRuneInString.
  destruct (Z.ltb_spec (byte_value c0) 128); [reflexivity|].
  destruct (utf8_first (byte_value c0)) as [[[sz lo] hi]|] eqn:F;
    [|reflexivity].
  apply utf8_first_cases in F. destruct F as (Hlo & Hhi & F).
  destruct a as [|c1 [|c2 [|c3 a]]]; cbn [append];
    decode_cases; try reflexivity; lia.
Qed.

Lemma utf8_runes_from_app (a : string) (c : ascii) (b : string) (k : nat) :
  byte_value c < 128 -> (k <= String.length a)%nat ->
  utf8_runes_from k (a ++ String c b) =
  (utf8_runes_from k a ++ utf8_runes_from 0 (String c b))%list.
Proof.
  intros Hc. revert k. induction a as [|x a IH]; intros k Hk.
  - cbn [String.length] in Hk. assert (k = 0%nat) as -> by lia. reflexivity.
  - cbn [append utf8_runes_from]. destruct k as [|k].
    + change (String x (a ++ String c b)) with (String x a ++ String c b).
      cbn [append]. rewrite utf8_DecodeRune_app by assumption.
      pose proof (utf8_DecodeRune_size x a) as S.
      destruct (utf8_DecodeRuneInString (String x a)) as [r n].
      cbn [snd] in S. rewrite IH by lia. reflexivity.
    + apply IH. cbn [String.length] in Hk. lia.
Qed.

(** The text before an ASCII byte, that byte and the text after it are read
    one after the other. *)
Lemma utf8_runes_app (a : string) (c : ascii) (b : string) :
  byte_value c < 128 ->
  utf8_runes (a ++ String c b) =
  (utf8_runes a ++ byte_value c :: utf8_runes b)%list.
Proof.
  intros H. unfold utf8_runes.
  rewrite utf8_runes_from_app by (assumption || lia).
  f_equal. cbn [utf8_runes_from]. rewrite utf8_DecodeRune_ascii by assumption.
  reflexivity.
Qed.

(** A rune below 0x80 is a byte of the text. *)
Lemma utf8_runes_from_low (s : string) (k : nat) (r : Z) :
  In r (utf8_runes_from k s) -> r < 128 ->
  exists c, In c (list_ascii_of_string s) /\ byte_value c = r.
Proof.
  revert k. induction s as [|x s IH]; intros k Hr Hlow.
  - destruct Hr.
  - cbn [utf8_runes_from] in Hr. destruct k as [|k].
    + destruct (Z.ltb_spec (byte_value x) 128) as [L|G].
      * rewrite utf8_DecodeRune_ascii in Hr by assumption.
        destruct Hr as [<-|Hr].
        -- exists x. split; [now left | reflexivity].
        -- destruct (IH _ Hr Hlow) as (c & Hc & E).
           exists c. split; [now right | assumption].
      * pose proof (utf8_DecodeRune_high x s G) as Hh.
        destruct (utf8_DecodeRuneInString (String x s)) as [r' n].
        cbn [fst] in Hh. destruct Hr as [<-|Hr]; [lia|].
        destruct (IH _ Hr Hlow) as (c & Hc & E).
        exists c. split; [now right | assumption].
    + destruct (IH _ Hr Hlow) as (c & Hc & E).
      exists c. split; [now right | assumption].
Qed.

Lemma utf8_runes_no_closing (s : string) :
  no_closing s -> ~ In 62 (utf8_runes s).
Proof.
  intros H Hin.
  destruct (utf8_runes_from_low s 0 62 Hin ltac:(lia)) as (c & Hc & E).
  apply (H c Hc). rewrite <- (byte_char_value c), E. reflexivity.
Qed.

Lemma utf8_runes_no_angle (s : string) :
  no_angle s -> ~ In 60 (utf8_runes s) /\ ~ In 62 (utf8_runes s).
Proof.
  intros H. split; intros Hin.
  - destruct (utf8_runes_from_low s 0 60 Hin ltac:(lia)) as (c & Hc & E).
    apply (proj1 (H c Hc)). rewrite <- (byte_char_value c), E. reflexivity.
  - destruct (utf8_runes_from_low s 0 62 Hin ltac:(lia)) as (c & Hc & E).
    apply (proj2 (H c Hc)). rewrite <- (byte_char_value c), E. reflexivity.
Qed.

(** What [WriteRune] writes for a rune other than the two delimiters has
    neither of their bytes. *)
Lemma utf8_AppendRune_no_angle (r : Z) :
  r <> 60 -> r <> 62 -> no_angle (utf8_AppendRune r).
Proof.
  intros N1 N2.
  assert (low : forall b, 0 <= b < 128 -> b <> 60 -> b <> 62 ->
            byte_char b <> "<"%char /\ byte_char b <> ">"%char).
  { intros b Hb B1 B2. split; intros E;
      apply (f_equal byte_value) in E;
      rewrite byte_value_char in E by lia; [apply B1 | apply B2]; exact E. }
  assert (high : forall t y, 128 <= t < 256 -> 0 <= y < 256 ->
            byte_char (Z.lor t y) <> "<"%char /\
            byte_char (Z.lor t y) <> ">"%char).
  { intros t y Ht Hy. pose proof (lead_byte t y Ht Hy).
    split; apply byte_char_high; try assumption; reflexivity. }
  assert (B : forall x, 0 <= byte_of_int x < 256).
  { intros x. unfold byte_of_int. rewrite land_255.
    apply Z.mod_pos_bound. lia. }
  assert (B6 : forall x, 0 <= Z.land (byte_of_int x) 63 < 256).
  { intros x. rewrite land_63.
    pose proof (Z.mod_pos_bound (byte_of_int x) 64 eq_refl). lia. }
  unfold utf8_AppendRune, no_angle.
  repeat match goal with
         | |- context [if ?a <=? ?b then _ else _] => destruct (Z.leb_spec a b)
         | |- context [if ?a <? ?b then _ else _] => destruct (Z.ltb_spec a b)
         | |- context [(?a <=? ?b) && _] => destruct (Z.leb_spec a b)
         | |- context [(?a <? ?b) || _] => destruct (Z.ltb_spec a b)
         | |- _ => progress cbn [andb orb]
         end;
    cbn [list_ascii_of_string In]; intros c Hc;
    repeat (destruct Hc as [<-|Hc]); try (destruct Hc);
    try (apply high; [lia | apply B || apply B6]);
    apply low; try assumption; unfold byte_of_int; rewrite land_255;
    rewrite ?Z.mod_small by lia; lia.
Qed.

Lemma lor_add (a y n : Z) :
  0 <= n -> 0 <= a -> a mod 2 ^ n = 0 -> 0 <= y < 2 ^ n -> Z.lor a y = a + y.
Proof.
  intros Hn Ha Hmod Hy.
  assert (E : Z.land a y = 0).
  { apply Z.bits_inj'. intros i Hi. rewrite Z.land_spec, Z.bits_0.
    destruct (Z.lt_ge_cases i n) as [L|G].
    - assert (Z.testbit a i = false) as ->; [|reflexivity].
      rewrite <- (Z.mod_pow2_bits_low a n i) by lia.
      rewrite Hmod. apply Z.bits_0.
    - assert (Z.testbit y i = false) as ->; [|apply andb_false_r].
      destruct (Z.eq_dec y 0) as [->|Ny]; [apply Z.bits_0|].
      apply Z.bits_above_log2; [lia|].
      assert (Z.log2 y < n) by (apply Z.log2_lt_pow2; lia). lia. }
  pose proof (Z.add_lor_land a y). lia.
Qed.

Ltac bits_to_arith :=
  rewrite ?land_255, ?land_63, ?land_31, ?land_15, ?land_7;
  rewrite ?Z.shiftl_mul_pow2, ?Z.shiftr_div_pow2 by lia;
  change (2 ^ 18) with 262144; change (2 ^ 12) with 4096;
  change (2 ^ 6) with 64.

(** The rune of a two-byte sequence, and what is written for it. *)
Lemma utf8_two_bytes (s0 s1 : Z) :
  194 <= s0 < 224 -> 128 <= s1 <= 191 ->
  let r := Z.lor (Z.shiftl (Z.land s0 31) 6) (Z.land s1 63) in
  128 <= r <= 2047 /\
  Z.lor 192 (byte_of_int (Z.shiftr r 6)) = s0 /\
  Z.lor 128 (Z.land (byte_of_int r) 63) = s1.
Proof.
  intros H0 H1 r.
  assert (E : r = (s0 - 192) * 64 + (s1 - 128)).
  { unfold r. bits_to_arith.
    rewrite (lor_add _ _ 6) by (Z.div_mod_to_equations; lia).
    Z.div_mod_to_equations. lia. }
  clearbody r. subst r. unfold byte_of_int. bits_to_arith.
  split; [lia|]. split.
  - rewrite (lor_add _ _ 6) by (Z.div_mod_to_equations; lia).
    Z.div_mod_to_equations. lia.
  - rewrite (lor_add _ _ 6) by (Z.div_mod_to_equations; lia).
    Z.div_mod_to_equations. lia.
Qed.

Lemma utf8_three_bytes (s0 s1 s2 lo hi : Z) :
  utf8_first s0 = Some (3, lo, hi) ->
  lo <= s1 <= hi -> 128 <= s2 <= 191 ->
  let r := Z.lor (Z.lor (Z.shiftl (Z.land s0 15) 12)
                        (Z.shiftl (Z.land s1 63) 6)) (Z.land s2 63) in
  2048 <= r <= 65535 /\ ~ (55296 <= r <= 57343) /\
  Z.lor 224 (byte_of_int (Z.shiftr r 12)) = s0 /\
  Z.lor 128 (Z.land (byte_of_int (Z.shiftr r 6)) 63) = s1 /\
  Z.lor 128 (Z.land (byte_of_int r) 63) = s2.
Proof.
  intros F H1 H2 r.
  assert (C : 224 <= s0 < 240 /\ 128 <= s1 <= 191 /\
              (s0 = 224 -> 160 <= s1) /\ (s0 = 237 -> s1 <= 159)).
  { revert F. unfold utf8_first.
    repeat match goal with
           | |- context [?a <? ?b] => destruct (Z.ltb_spec a b)
           | |- context [?a =? ?b] => destruct (Z.eqb_spec a b)
           end; intros E; inversion E; subst; lia. }
  clear F. destruct C as (H0 & H1' & Ha & Hb).
  assert (E : r = (s0 - 224) * 4096 + (s1 - 128) * 64 + (s2 - 128)).
  { unfold r. bits_to_arith.
    rewrite (lor_add _ (s1 mod 64 * 64) 12) by (Z.div_mod_to_equations; lia).
    rewrite (lor_add _ _ 6) by (Z.div_mod_to_equations; lia).
    Z.div_mod_to_equations. lia. }
  clearbody r. subst r. unfold byte_of_int. bits_to_arith.
  split; [lia|]. split; [lia|]. repeat split.
  - rewrite (lor_add _ _ 4) by (Z.div_mod_to_equations; lia).
    Z.div_mod_to_equations. lia.
  - rewrite (lor_add _ _ 6) by (Z.div_mod_to_equations; lia).
    Z.div_mod_to_equations. lia.
  - rewrite (lor_add _ _ 6) by (Z.div_mod_to_equations; lia).
    Z.div_mod_to_equations. lia.
Qed.

Lemma utf8_four_bytes (s0 s1 s2 s3 lo hi : Z) :
  utf8_first s0 = Some (4, lo, hi) ->
  lo <= s1 <= hi -> 128 <= s2 <= 191 -> 128 <= s3 <= 191 ->
  let r := Z.lor (Z.lor (Z.lor (Z.shiftl (Z.land s0 7) 18)
                               (Z.shiftl (Z.land s1 63) 12))
                        (Z.shiftl (Z.land s2 63) 6)) (Z.land s3 63) in
  65536 <= r <= utf8_MaxRune /\
  Z.lor 240 (byte_of_int (Z.shiftr r 18)) = s0 /\
  Z.lor 128 (Z.land (byte_of_int (Z.shiftr r 12)) 63) = s1 /\
  Z.lor 128 (Z.land (byte_of_int (Z.shiftr r 6)) 63) = s2 /\
  Z.lor 128 (Z.land (byte_of_int r) 63) = s3.
Proof.
  intros F H1 H2 H3 r.
  assert (C : 240 <= s0 <= 244 /\ 128 <= s1 <= 191 /\
              (s0 = 240 -> 144 <= s1) /\ (s0 = 244 -> s1 <= 143)).
  { revert F. unfold utf8_first.
    repeat match goal with
           | |- context [?a <? ?b] => destruct (Z.ltb_spec a b)
           | |- context [?a =? ?b] => destruct (Z.eqb_spec a b)
           end; intros E; inversion E; subst; lia. }
  clear F. destruct C as (H0 & H1' & Ha & Hb).
  assert (E : r = (s0 - 240) * 262144 + (s1 - 128) * 4096 +
                  (s2 - 128) * 64 + (s3 - 128)).
  { unfold r. bits_to_arith.
    rewrite (lor_add _ (s1 mod 64 * 4096) 18) by (Z.div_mod_to_equations; lia).
    rewrite (lor_add _ (s2 mod 64 * 64) 12) by (Z.div_mod_to_equations; lia).
    rewrite (lor_add _ _ 6) by (Z.div_mod_to_equations; lia).
    Z.div_mod_to_equations. lia. }
  clearbody r. subst r. unfold byte_of_int, utf8_MaxRune. bits_to_arith.
  split; [lia|]. repeat split.
  - rewrite (lor_add _ _ 3) by (Z.div_mod_to_equations; lia).
    Z.div_mod_to_equations. lia.
  - rewrite (lor_add _ _ 6) by (Z.div_mod_to_equations; lia).
    Z.div_mod_to_equations. lia.
  - rewrite (lor_add _ _ 6) by (Z.div_mod_to_equations; lia).
    Z.div_mod_to_equations. lia.
  - rewrite (lor_add _ _ 6) by (Z.div_mod_to_equations; lia).
    Z.div_mod_to_equations. lia.
Qed.

Lemma byte_char_eq (v : Z) (c : ascii) : v = byte_value c -> byte_char v = c.
Proof. intros ->. apply byte_char_value. Qed.

Lemma in_range (x lo hi : Z) :
  (x <? lo) || (hi <? x) = false -> lo <= x <= hi.
Proof.
  destruct (Z.ltb_spec x lo), (Z.ltb_spec hi x); cbn; intros E;
    try discriminate; lia.
Qed.

(** A rune that is read without an encoding error is written as the bytes
    it was read from. *)
Lemma utf8_AppendRune_DecodeRune (c : ascii) (t : string) (r : Z) (n : nat) :
  utf8_DecodeRuneInString (String c t) = (r, n) ->
  ~ (r = utf8_RuneError /\ n = 1%nat) ->
  String c t = utf8_AppendRune r ++ string_drop (n - 1) t.
Proof.
  unfold utf8_DecodeRuneInString.
  pose proof (byte_value_range c) as R0.
  destruct (Z.ltb_spec (byte_value c) 128) as [L|G].
  { intros E _. apply pair_equal_spec in E. destruct E as [<- <-].
    unfold utf8_AppendRune.
    destruct (Z.leb_spec 0 (byte_value c)); [|lia].
    destruct (Z.leb_spec (byte_value c) 127); [|lia].
    cbn [andb append Nat.sub string_drop]. f_equal.
    symmetry. apply byte_char_eq. unfold byte_of_int. rewrite land_255.
    apply Z.mod_small. lia. }
  destruct (utf8_first (byte_value c)) as [[[sz lo] hi]|] eqn:F;
    [|intros E N; apply pair_equal_spec in E; destruct E as [<- <-];
     exfalso; now apply N].
  pose proof (utf8_first_cases _ _ _ _ F) as (Hlo & Hhi & Hsz).
  destruct t as [|c1 t1];
    [intros E N; apply pair_equal_spec in E; destruct E as [<- <-];
     exfalso; now apply N|].
  destruct ((byte_value c1 <? lo) || (hi <? byte_value c1)) eqn:R1;
    [intros E N; apply pair_equal_spec in E; destruct E as [<- <-];
     exfalso; now apply N|].
  apply in_range in R1.
  destruct (Z.leb_spec sz 2) as [S2|S2].
  { intros E _. apply pair_equal_spec in E. destruct E as [<- <-].
    destruct (utf8_two_bytes (byte_value c) (byte_value c1))
      as (Hr & E0 & E1); [lia | lia |].
    cbv zeta in Hr, E0, E1. unfold utf8_AppendRune.
    destruct (Z.leb_spec 0 (Z.lor (Z.shiftl (Z.land (byte_value c) 31) 6)
                                  (Z.land (byte_value c1) 63))); [|lia].
    destruct (Z.leb_spec (Z.lor (Z.shiftl (Z.land (byte_value c) 31) 6)
                                (Z.land (byte_value c1) 63)) 127); [lia|].
    destruct (Z.leb_spec (Z.lor (Z.shiftl (Z.land (byte_value c) 31) 6)
                                (Z.land (byte_value c1) 63)) 2047); [|lia].
    cbn [andb append Nat.sub string_drop].
    rewrite E0, E1, !byte_char_value. reflexivity. }
  destruct t1 as [|c2 t2];
    [intros E N; apply pair_equal_spec in E; destruct E as [<- <-];
     exfalso; now apply N|].
  destruct ((byte_value c2 <? 128) || (191 <? byte_value c2)) eqn:R2;
    [intros E N; apply pair_equal_spec in E; destruct E as [<- <-];
     exfalso; now apply N|].
  apply in_range in R2.
  destruct (Z.leb_spec sz 3) as [S3|S3].
  { assert (sz = 3) by lia. subst sz.
    intros E _. apply pair_equal_spec in E. destruct E as [<- <-].
    destruct (utf8_three_bytes (byte_value c) (byte_value c1) (byte_value c2)
                lo hi F R1 R2) as (Hr & Hs & E0 & E1 & E2).
    cbv zeta in Hr, Hs, E0, E1, E2. unfold utf8_AppendRune.
    set (r := Z.lor _ (Z.land (byte_value c2) 63)) in *.
    unfold utf8_MaxRune.
    destruct (Z.leb_spec 0 r); [|lia].
    destruct (Z.leb_spec r 127); [lia|].
    destruct (Z.leb_spec r 2047); [lia|].
    destruct (Z.ltb_spec r 0); [lia|].
    destruct (Z.ltb_spec 1114111 r); [lia|].
    destruct (Z.leb_spec 55296 r), (Z.leb_spec r 57343); try lia;
      destruct (Z.leb_spec r 65535); try lia;
      cbn [andb orb append Nat.sub string_drop];
      rewrite E0, E1, E2, !byte_char_value; reflexivity. }
  assert (sz = 4) by lia. subst sz.
  destruct t2 as [|c3 t3];
    [intros E N; apply pair_equal_spec in E; destruct E as [<- <-];
     exfalso; now apply N|].
  destruct ((byte_value c3 <? 128) || (191 <? byte_value c3)) eqn:R3;
    [intros E N; apply pair_equal_spec in E; destruct E as [<- <-];
     exfalso; now apply N|].
  apply in_range in R3.
  intros E _. apply pair_equal_spec in E. destruct E as [<- <-].
  destruct (utf8_four_bytes (byte_value c) (byte_value c1) (byte_value c2)
              (byte_value c3) lo hi F R1 R2 R3) as (Hr & E0 & E1 & E2 & E3).
  cbv zeta in Hr, E0, E1, E2, E3. unfold utf8_AppendRune.
  set (r := Z.lor _ (Z.land (byte_value c3) 63)) in *.
  unfold utf8_MaxRune in *.
  destruct (Z.leb_spec 0 r); [|lia].
  destruct (Z.leb_spec r 127); [lia|].
  destruct (Z.leb_spec r 2047); [lia|].
  destruct (Z.ltb_spec r 0); [lia|].
  destruct (Z.ltb_spec 1114111 r); [lia|].
  destruct (Z.leb_spec 55296 r), (Z.leb_spec r 57343); try lia;
    destruct (Z.leb_spec r 65535); try lia;
    cbn [andb orb append Nat.sub string_drop];
    rewrite E0, E1, E2, E3, !byte_char_value; reflexivity.
Qed.

Lemma utf8_string_runes_from (s : string) (k : nat) :
  utf8_valid_from k s = true -> (k <= String.length s)%nat ->
  utf8_string (utf8_runes_from k s) = string_drop k s.
Proof.
  revert k. induction s as [|x s IH]; intros k V Hk.
  - destruct k; reflexivity.
  - cbn [utf8_runes_from utf8_valid_from] in *. destruct k as [|k].
    + pose proof (utf8_DecodeRune_size x s) as S.
      pose proof (utf8_AppendRune_DecodeRune x s) as A.
      destruct (utf8_DecodeRuneInString (String x s)) as [r n].
      cbn [snd] in S. apply andb_true_iff in V. destruct V as [V1 V2].
      cbn [utf8_string string_drop]. rewrite IH by (assumption || lia).
      symmetry. apply A; [reflexivity|].
      intros [-> ->]. discriminate V1.
    + cbn [string_drop]. apply IH; [assumption|].
      cbn [String.length] in Hk. lia.
Qed.

(** Valid UTF-8 is what reading and writing the runes leaves as it is. *)
Lemma utf8_string_runes (s : string) :
  utf8_ValidString s = true -> utf8_string (utf8_runes s) = s.
Proof.
  intros V. unfold utf8_runes.
  rewrite utf8_string_runes_from by (assumption || lia). reflexivity.
Qed.

Lemma utf8_two_bytes_of (r : Z) :
  128 <= r <= 2047 ->
  let s0 := Z.lor 192 (byte_of_int (Z.shiftr r 6)) in
  let s1 := Z.lor 128 (Z.land (byte_of_int r) 63) in
  194 <= s0 < 224 /\ 128 <= s1 <= 191 /\
  Z.lor (Z.shiftl (Z.land s0 31) 6) (Z.land s1 63) = r.
Proof.
  intros H s0 s1.
  assert (E0 : s0 = 192 + r / 64).
  { unfold s0, byte_of_int. bits_to_arith.
    rewrite (lor_add _ _ 6) by (Z.div_mod_to_equations; lia).
    Z.div_mod_to_equations. lia. }
  assert (E1 : s1 = 128 + r mod 64).
  { unfold s1, byte_of_int. bits_to_arith.
    rewrite (lor_add _ _ 6) by (Z.div_mod_to_equations; lia).
    Z.div_mod_to_equations. lia. }
  clearbody s0 s1. subst s0 s1.
  split; [Z.div_mod_to_equations; lia|].
  split; [Z.div_mod_to_equations; lia|].
  bits_to_arith.
  rewrite (lor_add _ _ 6) by (Z.div_mod_to_equations; lia).
  Z.div_mod_to_equations. lia.
Qed.

Lemma utf8_three_bytes_of (r : Z) :
  2048 <= r <= 65535 -> ~ (55296 <= r <= 57343) ->
  let s0 := Z.lor 224 (byte_of_int (Z.shiftr r 12)) in
  let s1 := Z.lor 128 (Z.land (byte_of_int (Z.shiftr r 6)) 63) in
  let s2 := Z.lor 128 (Z.land (byte_of_int r) 63) in
  128 <= s0 < 256 /\ 0 <= s1 < 256 /\
  (exists lo hi, utf8_first s0 = Some (3, lo, hi) /\ lo <= s1 <= hi) /\
  128 <= s2 <= 191 /\
  Z.lor (Z.lor (Z.shiftl (Z.land s0 15) 12) (Z.shiftl (Z.land s1 63) 6))
        (Z.land s2 63) = r.
Proof.
  intros H Hs s0 s1 s2.
  assert (E0 : s0 = 224 + r / 4096).
  { unfold s0, byte_of_int. bits_to_arith.
    rewrite (lor_add _ _ 4) by (Z.div_mod_to_equations; lia).
    Z.div_mod_to_equations. lia. }
  assert (E1 : s1 = 128 + (r / 64) mod 64).
  { unfold s1, byte_of_int. bits_to_arith.
    rewrite (lor_add _ _ 6) by (Z.div_mod_to_equations; lia).
    Z.div_mod_to_equations. lia. }
  assert (E2 : s2 = 128 + r mod 64).
  { unfold s2, byte_of_int. bits_to_arith.
    rewrite (lor_add _ _ 6) by (Z.div_mod_to_equations; lia).
    Z.div_mod_to_equations. lia. }
  clearbody s0 s1 s2.
  assert (B0 : 224 <= s0 < 240) by (subst; Z.div_mod_to_equations; lia).
  assert (B1 : 128 <= s1 <= 191) by (subst; Z.div_mod_to_equations; lia).
  assert (B2 : 128 <= s2 <= 191) by (subst; Z.div_mod_to_equations; lia).
  assert (Ba : s0 = 224 -> 160 <= s1) by (subst; Z.div_mod_to_equations; lia).
  assert (Bb : s0 = 237 -> s1 <= 159) by (subst; Z.div_mod_to_equations; lia).
  split; [lia|]. split; [lia|]. split; [|split; [lia|]].
  - unfold utf8_first.
    repeat match goal with
           | |- context [?a <? ?b] => destruct (Z.ltb_spec a b)
           | |- context [?a =? ?b] => destruct (Z.eqb_spec a b)
           end; try lia; eexists _, _; (split; [reflexivity | lia]).
  - bits_to_arith.
    rewrite (lor_add _ (s1 mod 64 * 64) 12) by (Z.div_mod_to_equations; lia).
    rewrite (lor_add _ _ 6) by (Z.div_mod_to_equations; lia).
    subst. Z.div_mod_to_equations. lia.
Qed.

Lemma utf8_four_bytes_of (r : Z) :
  65536 <= r <= utf8_MaxRune ->
  let s0 := Z.lor 240 (byte_of_int (Z.shiftr r 18)) in
  let s1 := Z.lor 128 (Z.land (byte_of_int (Z.shiftr r 12)) 63) in
  let s2 := Z.lor 128 (Z.land (byte_of_int (Z.shiftr r 6)) 63) in
  let s3 := Z.lor 128 (Z.land (byte_of_int r) 63) in
  128 <= s0 < 256 /\ 0 <= s1 < 256 /\
  (exists lo hi, utf8_first s0 = Some (4, lo, hi) /\ lo <= s1 <= hi) /\
  128 <= s2 <= 191 /\ 128 <= s3 <= 191 /\
  Z.lor (Z.lor (Z.lor (Z.shiftl (Z.land s0 7) 18)
                      (Z.shiftl (Z.land s1 63) 12))
               (Z.shiftl (Z.land s2 63) 6)) (Z.land s3 63) = r.
Proof.
  intros H s0 s1 s2 s3. unfold utf8_MaxRune in H.
  assert (E0 : s0 = 240 + r / 262144).
  { unfold s0, byte_of_int. bits_to_arith.
    rewrite (lor_add _ _ 3) by (Z.div_mod_to_equations; lia).
    Z.div_mod_to_equations. lia. }
  assert (E1 : s1 = 128 + (r / 4096) mod 64).
  { unfold s1, byte_of_int. bits_to_arith.
    rewrite (lor_add _ _ 6) by (Z.div_mod_to_equations; lia).
    Z.div_mod_to_equations. lia. }
  assert (E2 : s2 = 128 + (r / 64) mod 64).
  { unfold s2, byte_of_int. bits_to_arith.
    rewrite (lor_add _ _ 6) by (Z.div_mod_to_equations; lia).
    Z.div_mod_to_equations. lia. }
  assert (E3 : s3 = 128 + r mod 64).
  { unfold s3, byte_of_int. bits_to_arith.
    rewrite (lor_add _ _ 6) by (Z.div_mod_to_equations; lia).
    Z.div_mod_to_equations. lia. }
  clearbody s0 s1 s2 s3.
  assert (B0 : 240 <= s0 <= 244) by (subst; Z.div_mod_to_equations; lia).
  assert (B1 : 128 <= s1 <= 191) by (subst; Z.div_mod_to_equations; lia).
  assert (B2 : 128 <= s2 <= 191) by (subst; Z.div_mod_to_equations; lia).
  assert (B3 : 128 <= s3 <= 191) by (subst; Z.div_mod_to_equations; lia).
  assert (Ba : s0 = 240 -> 144 <= s1) by (subst; Z.div_mod_to_equations; lia).
  assert (Bb : s0 = 244 -> s1 <= 143) by (subst; Z.div_mod_to_equations; lia).
  split; [lia|]. split; [lia|]. split; [|split; [lia|split; [lia|]]].
  - unfold utf8_first.
    repeat match goal with
           | |- context [?a <? ?b] => destruct (Z.ltb_spec a b)
           | |- context [?a =? ?b] => destruct (Z.eqb_spec a b)
           end; try lia; eexists _, _; (split; [reflexivity | lia]).
  - bits_to_arith.
    rewrite (lor_add _ (s1 mod 64 * 4096) 18) by (Z.div_mod_to_equations; lia).
    rewrite (lor_add _ (s2 mod 64 * 64) 12) by (Z.div_mod_to_equations; lia).
    rewrite (lor_add _ _ 6) by (Z.div_mod_to_equations; lia).
    subst. Z.div_mod_to_equations. lia.
Qed.

Lemma utf8_ValidRune_cases (r : Z) :
  utf8_ValidRune r = true ->
  0 <= r <= utf8_MaxRune /\ ~ (55296 <= r <= 57343).
Proof.
  unfold utf8_ValidRune, utf8_MaxRune.
  destruct (Z.leb_spec 0 r), (Z.ltb_spec r 55296), (Z.ltb_spec 57343 r),
    (Z.leb_spec r 1114111); cbn; intros E; try discriminate; lia.
Qed.

Lemma utf8_ValidRune_of (r : Z) :
  0 <= r <= utf8_MaxRune -> ~ (55296 <= r <= 57343) ->
  utf8_ValidRune r = true.
Proof.
  unfold utf8_ValidRune, utf8_MaxRune.
  destruct (Z.leb_spec 0 r), (Z.ltb_spec r 55296), (Z.ltb_spec 57343 r),
    (Z.leb_spec r 1114111); cbn; intros; try reflexivity; lia.
Qed.

(** Reading gives code points that are no surrogate halves. *)
Lemma utf8_DecodeRune_ValidRune (s : string) :
  utf8_ValidRune (fst (utf8_DecodeRuneInString s)) = true.
Proof.
  destruct s as [|c t]; [reflexivity|].
  unfold utf8_DecodeRuneInString.
  pose proof (byte_value_range c) as R0.
  destruct (Z.ltb_spec (byte_value c) 128) as [L|G].
  { apply utf8_ValidRune_of; cbn [fst]; unfold utf8_MaxRune; lia. }
  destruct (utf8_first (byte_value c)) as [[[sz lo] hi]|] eqn:F;
    [|reflexivity].
  pose proof (utf8_first_cases _ _ _ _ F) as (Hlo & Hhi & Hsz).
  destruct t as [|c1 t1]; [reflexivity|].
  destruct ((byte_value c1 <? lo) || (hi <? byte_value c1)) eqn:R1;
    [reflexivity|].
  apply in_range in R1.
  destruct (Z.leb_spec sz 2) as [S2|S2].
  { destruct (utf8_two_bytes (byte_value c) (byte_value c1))
      as (Hr & _); [lia | lia |].
    apply utf8_ValidRune_of; cbn [fst]; unfold utf8_MaxRune; lia. }
  destruct t1 as [|c2 t2]; [reflexivity|].
  destruct ((byte_value c2 <? 128) || (191 <? byte_value c2)) eqn:R2;
    [reflexivity|].
  apply in_range in R2.
  destruct (Z.leb_spec sz 3) as [S3|S3].
  { assert (sz = 3) by lia. subst sz.
    destruct (utf8_three_bytes (byte_value c) (byte_value c1) (byte_value c2)
                lo hi F R1 R2) as (Hr & Hs & _).
    apply utf8_ValidRune_of; cbn [fst]; unfold utf8_MaxRune; lia. }
  assert (sz = 4) by lia. subst sz.
  destruct t2 as [|c3 t3]; [reflexivity|].
  destruct ((byte_value c3 <? 128) || (191 <? byte_value c3)) eqn:R3;
    [reflexivity|].
  apply in_range in R3.
  destruct (utf8_four_bytes (byte_value c) (byte_value c1) (byte_value c2)
              (byte_value c3) lo hi F R1 R2 R3) as (Hr & _).
  apply utf8_ValidRune_of; cbn [fst]; unfold utf8_MaxRune in *; lia.
Qed.

Lemma out_of_range (x lo hi : Z) :
  lo <= x <= hi -> (x <? lo) || (hi <? x) = false.
Proof.
  intros H. destruct (Z.ltb_spec x lo), (Z.ltb_spec hi x); cbn; lia.
Qed.

(** A code point that is written is read back, from the bytes written for
    it and no more. *)
Lemma utf8_DecodeRune_AppendRune (r : Z) (rest : string) :
  utf8_ValidRune r = true ->
  utf8_DecodeRuneInString (utf8_AppendRune r ++ rest) =
  (r, String.length (utf8_AppendRune r)).
Proof.
  intros V. apply utf8_ValidRune_cases in V. destruct V as (R & Ns).
  unfold utf8_MaxRune in R. unfold utf8_AppendRune.
  destruct (Z.leb_spec 0 r); [|lia]. cbn [andb].
  destruct (Z.leb_spec r 127).
  { cbn [append String.length].
    assert (E : byte_value (byte_char (byte_of_int r)) = r).
    { unfold byte_of_int. rewrite land_255, Z.mod_small by lia.
      apply byte_value_char. lia. }
    rewrite utf8_DecodeRune_ascii by lia. now rewrite E. }
  destruct (Z.leb_spec r 2047).
  { destruct (utf8_two_bytes_of r) as (B0 & B1 & E); [lia|].
    cbv zeta in B0, B1, E.
    cbn [append String.length]. unfold utf8_DecodeRuneInString.
    rewrite !byte_value_char by lia.
    set (s0 := Z.lor 192 _) in *. set (s1 := Z.lor 128 _) in *.
    destruct (Z.ltb_spec s0 128); [lia|].
    assert (utf8_first s0 = Some (2, 128, 191)) as ->.
    { unfold utf8_first.
      destruct (Z.ltb_spec s0 194); [lia|].
      destruct (Z.ltb_spec s0 224); [reflexivity | lia]. }
    rewrite out_of_range by lia. cbn [Z.leb Z.compare Pos.compare
                                       Pos.compare_cont].
    rewrite E. reflexivity. }
  unfold utf8_MaxRune.
  destruct (Z.ltb_spec r 0); [lia|].
  destruct (Z.ltb_spec 1114111 r); [lia|].
  assert ((55296 <=? r) && (r <=? 57343) = false) as ->.
  { destruct (Z.leb_spec 55296 r), (Z.leb_spec r 57343);
      try reflexivity; lia. }
  cbn [orb].
  destruct (Z.leb_spec r 65535).
  { destruct (utf8_three_bytes_of r) as (B0 & B1 & (lo & hi & F & R1) & B2 & E);
      [lia | lia |].
    cbv zeta in B0, B1, F, R1, B2, E.
    cbn [append String.length]. unfold utf8_DecodeRuneInString.
    rewrite !byte_value_char by lia.
    set (s0 := Z.lor 224 _) in *.
    set (s1 := Z.lor 128 (Z.land (byte_of_int (Z.shiftr r 6)) 63)) in *.
    set (s2 := Z.lor 128 (Z.land (byte_of_int r) 63)) in *.
    destruct (Z.ltb_spec s0 128); [lia|].
    rewrite F, out_of_range by lia.
    rewrite (out_of_range s2) by lia.
    cbn [Z.leb Z.compare Pos.compare Pos.compare_cont].
    rewrite E. reflexivity. }
  destruct (utf8_four_bytes_of r)
    as (B0 & B1 & (lo & hi & F & R1) & B2 & B3 & E);
    [unfold utf8_MaxRune; lia |].
  cbv zeta in B0, B1, F, R1, B2, B3, E.
  cbn [append String.length]. unfold utf8_DecodeRuneInString.
  rewrite !byte_value_char by lia.
  set (s0 := Z.lor 240 _) in *.
  set (s1 := Z.lor 128 (Z.land (byte_of_int (Z.shiftr r 12)) 63)) in *.
  set (s2 := Z.lor 128 (Z.land (byte_of_int (Z.shiftr r 6)) 63)) in *.
  set (s3 := Z.lor 128 (Z.land (byte_of_int r) 63)) in *.
  destruct (Z.ltb_spec s0 128); [lia|].
  rewrite F, out_of_range by lia.
  rewrite (out_of_range s2), (out_of_range s3) by lia.
  cbn [Z.leb Z.compare Pos.compare Pos.compare_cont].
  rewrite E. reflexivity.
Qed.

Lemma utf8_AppendRune_cons (r : Z) :
  exists c p, utf8_AppendRune r = String c p.
Proof.
  unfold utf8_AppendRune.
  repeat match goal with
         | |- context [if ?b then _ else _] => destruct b
         end; eexists _, _; reflexivity.
Qed.

Lemma utf8_runes_from_skip (p q : string) :
  utf8_runes_from (String.length p) (p ++ q) = utf8_runes q.
Proof.
  induction p as [|c p IH]; [reflexivity | exact IH].
Qed.

Lemma utf8_runes_from_ValidRune (s : string) (k : nat) :
  Forall (fun r => utf8_ValidRune r = true) (utf8_runes_from k s).
Proof.
  revert k. induction s as [|x s IH]; intros k; [constructor|].
  cbn [utf8_runes_from]. destruct k as [|k]; [|apply IH].
  pose proof (utf8_DecodeRune_ValidRune (String x s)) as V.
  destruct (utf8_DecodeRuneInString (String x s)) as [r n].
  constructor; [exact V | apply IH].
Qed.

(** Code points that are written one after the other are read back. *)
Lemma utf8_runes_string (rs : list Z) :
  Forall (fun r => utf8_ValidRune r = true) rs ->
  utf8_runes (utf8_string rs) = rs.
Proof.
  induction 1 as [|r rs V _ IH]; [reflexivity|].
  cbn [utf8_string].
  pose proof (utf8_DecodeRune_AppendRune r (utf8_string rs) V) as D.
  destruct (utf8_AppendRune_cons r) as (c & p & E). rewrite E in *.
  cbn [append String.length] in *. unfold utf8_runes at 1.
  cbn [utf8_runes_from]. rewrite D.
  replace (S (String.length p) - 1)%nat with (String.length p) by lia.
  now rewrite utf8_runes_from_skip, IH.
Qed.

(** ** The scraper: text of a summary *)

Lemma stripTags_scan_app (a b : list Z) (inTag : bool) :
  exists inTag',
    stripTags_scan (a ++ b) inTag =
    stripTags_scan a inTag ++ stripTags_scan b inTag'.
Proof.
  revert inTag. induction a as [|r a IH]; intros inTag; cbn [app stripTags_scan].
  - exists inTag. reflexivity.
  - destruct (r =? 60); [apply IH|].
    destruct (r =? 62); [apply IH|].
    destruct inTag; [apply IH|].
    destruct (IH false) as (st & ->). exists st.
    now rewrite append_assoc.
Qed.

Lemma stripTags_scan_in_tag (rs : list Z) :
  ~ In 62 rs -> stripTags_scan rs true = "".
Proof.
  induction rs as [|r rs IH]; intros H; cbn [stripTags_scan]; [reflexivity|].
  assert (Hs : ~ In 62 rs) by (intros Hx; apply H; now right).
  destruct (r =? 60); [now apply IH|].
  destruct (Z.eqb_spec r 62) as [->|_]; [|now apply IH].
  exfalso. apply H. now left.
Qed.

Lemma stripTags_scan_tag (tag rest : list Z) (inTag : bool) :
  ~ In 62 tag ->
  stripTags_scan (60 :: tag ++ 62 :: rest) inTag = stripTags_scan rest false.
Proof.
  intros H. cbn [stripTags_scan Z.eqb Pos.eqb].
  induction tag as [|r tag IH]; [reflexivity|].
  assert (Ht : ~ In 62 tag) by (intros Hx; apply H; now right).
  cbn [app stripTags_scan].
  destruct (r =? 60); [now apply IH|].
  destruct (Z.eqb_spec r 62) as [->|_]; [|now apply IH].
  exfalso. apply H. now left.
Qed.

Lemma no_angle_append (a b : string) :
  no_angle a -> no_angle b -> no_angle (a ++ b).
Proof.
  intros Ha Hb c Hc. rewrite list_ascii_of_append in Hc.
  apply in_app_or in Hc. destruct Hc; [now apply Ha | now apply Hb].
Qed.

Lemma stripTags_scan_no_angle (rs : list Z) (inTag : bool) :
  no_angle (stripTags_scan rs inTag).
Proof.
  revert inTag. induction rs as [|r rs IH]; intros inTag;
    cbn [stripTags_scan].
  - intros x [].
  - destruct (Z.eqb_spec r 60) as [->|N1]; [apply IH|].
    destruct (Z.eqb_spec r 62) as [->|N2]; [apply IH|].
    destruct inTag; [apply IH|].
    apply no_angle_append; [now apply utf8_AppendRune_no_angle | apply IH].
Qed.

Lemma stripTags_scan_plain (rs : list Z) :
  ~ In 60 rs -> ~ In 62 rs -> stripTags_scan rs false = utf8_string rs.
Proof.
  induction rs as [|r rs IH]; intros H1 H2; cbn [stripTags_scan utf8_string];
    [reflexivity|].
  destruct (Z.eqb_spec r 60) as [->|_]; [exfalso; apply H1; now left|].
  destruct (Z.eqb_spec r 62) as [->|_]; [exfalso; apply H2; now left|].
  f_equal. apply IH; intros Hx; [apply H1 | apply H2]; now right.
Qed.

(** What the scan writes: some of the runes it read, none of them a
    delimiter. *)
Lemma stripTags_scan_written (rs : list Z) (inTag : bool) :
  exists ks,
    stripTags_scan rs inTag = utf8_string ks /\
    forall r, In r ks -> In r rs /\ r <> 60 /\ r <> 62.
Proof.
  revert inTag. induction rs as [|r rs IH]; intros inTag;
    cbn [stripTags_scan].
  - exists []. split; [reflexivity | intros r []].
  - assert (skip : forall b, exists ks,
              stripTags_scan rs b = utf8_string ks /\
              forall x, In x ks -> In x (r :: rs) /\ x <> 60 /\ x <> 62).
    { intros b. destruct (IH b) as (ks & E & K). exists ks.
      split; [exact E|]. intros x Hx. destruct (K x Hx) as (? & ? & ?).
      repeat split; try assumption. now right. }
    destruct (Z.eqb_spec r 60) as [->|N1]; [apply skip|].
    destruct (Z.eqb_spec r 62) as [->|N2]; [apply skip|].
    destruct inTag; [apply skip|].
    destruct (IH false) as (ks & E & K). exists (r :: ks).
    split; [cbn [utf8_string]; now rewrite E|].
    intros x [<-|Hx]; [repeat split; try assumption; now left|].
    destruct (K x Hx) as (? & ? & ?). repeat split; try assumption. now right.
Qed.

Lemma stripTags_scan_twice (s : string) :
  stripTags_scan (utf8_runes (stripTags_scan (utf8_runes s) false)) false =
  stripTags_scan (utf8_runes s) false.
Proof.
  destruct (stripTags_scan_written (utf8_runes s) false) as (ks & E & K).
  rewrite E. rewrite utf8_runes_string.
  - apply stripTags_scan_plain; intros H; now destruct (K _ H) as (_ & ? & ?).
  - apply Forall_forall. intros r Hr.
    pose proof (utf8_runes_from_ValidRune s 0) as V.
    rewrite Forall_forall in V. apply V. now apply K.
Qed.

Lemma stripTags_scan_error (c : ascii) (t : string) :
  utf8_DecodeRuneInString (String c t) = (utf8_RuneError, 1%nat) ->
  stripTags_scan (utf8_runes (String c t)) false =
  bytes3 239 191 189 ++ stripTags_scan (utf8_runes t) false.
Proof.
  intros E. unfold utf8_runes. cbn [utf8_runes_from]. rewrite E.
  reflexivity.
Qed.

(** X23. [stripTags] is the text outside the tags, read rune by rune and
    trimmed. The scan keeps no "<" and no ">" (a ">" outside a tag is
    dropped as well); it drops a tag with all that stands between its "<"
    and the next ">", and everything after a "<" that is never closed.
    Valid UTF-8 without the two characters passes as it is; a byte outside
    a tag that is read as an encoding error comes out as the three bytes
    EF BF BD of U+FFFD; and scanning twice is scanning once. *)
Theorem stripTags_drops_tags (rt : Runtime) (s : string) :
  stripTags s = strings_TrimSpace (stripTags_scan (utf8_runes s) false) /\
  no_angle (stripTags_scan (utf8_runes s) false) /\
  (utf8_ValidString s = true -> no_angle s ->
   stripTags_scan (utf8_runes s) false = s) /\
  (forall c t,
      s = String c t ->
      utf8_DecodeRuneInString s = (utf8_RuneError, 1%nat) ->
      stripTags_scan (utf8_runes s) false =
      bytes3 239 191 189 ++ stripTags_scan (utf8_runes t) false) /\
  stripTags_scan (utf8_runes (stripTags_scan (utf8_runes s) false)) false =
  stripTags_scan (utf8_runes s) false /\
  (forall tag rest,
      no_closing tag ->
      stripTags_scan (utf8_runes (s ++ "<" ++ tag ++ ">" ++ rest)) false =
      stripTags_scan (utf8_runes s) false ++
      stripTags_scan (utf8_runes rest) false) /\
  (forall tail,
      no_closing tail ->
      stripTags_scan (utf8_runes (s ++ "<" ++ tail)) false =
      stripTags_scan (utf8_runes s) false).
Proof.
  split; [reflexivity|].
  split; [apply stripTags_scan_no_angle|].
  split.
  { intros V H. destruct (utf8_runes_no_angle s H) as [N1 N2].
    rewrite stripTags_scan_plain by assumption.
    now apply utf8_string_runes. }
  split; [intros c t -> E; now apply stripTags_scan_error|].
  split; [apply stripTags_scan_twice|].
  split.
  - intros tag rest H. cbn [append].
    rewrite (utf8_runes_app s "<"%char) by (cbn; lia).
    rewrite (utf8_runes_app tag ">"%char) by (cbn; lia).
    destruct (stripTags_scan_app (utf8_runes s)
                (byte_value "<" :: utf8_runes tag ++
                   byte_value ">" :: utf8_runes rest) false) as (st & ->).
    change (byte_value "<") with 60. change (byte_value ">") with 62.
    rewrite stripTags_scan_tag by (now apply utf8_runes_no_closing).
    reflexivity.
  - intros tail H. cbn [append].
    rewrite (utf8_runes_app s "<"%char) by (cbn; lia).
    destruct (stripTags_scan_app (utf8_runes s)
                (byte_value "<" :: utf8_runes tail) false) as (st & ->).
    change (byte_value "<") with 60. cbn [stripTags_scan Z.eqb Pos.eqb].
    rewrite stripTags_scan_in_tag by (now apply utf8_runes_no_closing).
    apply append_nil_r.
Qed.

(** ** The scraper: the articles of a feed *)

Lemma truncate_length (s : string) (maxLen : nat) :
  (String.length (truncate s maxLen) <= maxLen + 3)%nat.
Proof.
  unfold truncate. destruct (Nat.leb_spec (String.length s) maxLen); [lia|].
  rewrite length_append, length_substring_0. simpl. lia.
Qed.

Section Feeds.
Context {rt : Runtime}.
Variable env : Environment.

(** X24. [truncate] returns a text of at most [maxLen] bytes as it is and
    cuts a longer one to its first [maxLen] bytes followed by "...".
    [parseFeed] fetches the location once and changes nothing; from a feed
    that parses it returns the articles of the first 10 items, in the order
    of the feed. Each article has the title of its item, a summary of at
    most 503 bytes made of the description (of the content, when there is
    no description), the link (the first of the links, when there is no
    link), the published time (the updated time, or the zero time, when it
    is missing), and no ID, blog or time of scraping yet. *)
Theorem parseFeed_takes_ten_items (u : string) (w : World) :
  (forall s maxLen,
      ((String.length s <= maxLen)%nat -> truncate s maxLen = s) /\
      ((maxLen < String.length s)%nat ->
       truncate s maxLen = String.substring 0 maxLen s ++ "...") /\
      (String.length (truncate s maxLen) <= maxLen + 3)%nat) /\
  match gofeed_ParseURL env u with
  | Err e => parseFeed env u w = (Done (Err e), [EvFetch u], w)
  | Ok items =>
      let arts := map article_of_item (firstn 10 items) in
      parseFeed env u w = (Done (Ok arts), [EvFetch u], w) /\
      List.length arts = Nat.min 10 (List.length items) /\
      forall i item,
        nth_error items i = Some item -> (i < 10)%nat ->
        exists a,
          nth_error arts i = Some a /\
          Title a = fi_Title item /\
          (String.length (Summary a) <= 503)%nat /\
          Summary a =
            truncate (stripTags
                        (if (fi_Description item =? "")%string
                         then fi_Content item else fi_Description item))
                     500 /\
          URL a =
            (if (fi_Link item =? "")%string
             then hd "" (fi_Links item) else fi_Link item) /\
          PublishedAt a =
            match fi_PublishedParsed item, fi_UpdatedParsed item with
            | Some t, _ => t
            | None, Some t => t
            | None, None => zeroTime
            end /\
          a_ID a = 0 /\ BlogDomain a = "" /\ ScrapedAt a = zeroTime
  end.
Proof.
  split.
  { intros s maxLen. unfold truncate. split; [|split].
    - intros H. destruct (Nat.leb_spec (String.length s) maxLen); [reflexivity | lia].
    - intros H. destruct (Nat.leb_spec (String.length s) maxLen); [lia | reflexivity].
    - apply truncate_length. }
  rewrite parseFeed_run.
  destruct (gofeed_ParseURL env u) as [items|e]; [|reflexivity].
  intros arts. split; [reflexivity|]. split.
  { unfold arts. now rewrite length_map, length_firstn. }
  intros i item Hi Hlt.
  exists (article_of_item item). split.
  { unfold arts. apply map_nth_error.
    rewrite nth_error_firstn.
    destruct (Nat.ltb_spec i 10); [exact Hi | lia]. }
  split; [reflexivity|]. split; [apply (truncate_length _ 500)|].
  split.
  { unfold article_of_item. cbn [Summary].
    destruct (String.eqb_spec (fi_Description item) "") as [E|N];
      [|reflexivity].
    destruct (String.eqb_spec (fi_Content item) "") as [E'|N'];
      cbn [negb andb]; [|reflexivity].
    now rewrite E, E'. }
  split.
  { unfold article_of_item. cbn [URL].
    destruct (String.eqb_spec (fi_Link item) "") as [E|N]; [|reflexivity].
    destruct (fi_Links item); [exact E | reflexivity]. }
  split; [|repeat split].
  unfold article_of_item. cbn [PublishedAt].
  destruct (fi_PublishedParsed item); reflexivity.
Qed.

(** ** The scraper: what it adds to the store *)

Lemma scraped_into_refl (doms : list string) (n : nat) (d : DB) :
  scraped_into doms n d d.
Proof.
  split; [reflexivity|]. split; [reflexivity|].
  exists []. rewrite app_nil_r. split; [reflexivity|].
  split; [simpl; lia | constructor].
Qed.

Lemma scraped_into_trans (doms1 doms2 : list string) (n1 n2 : nat)
    (d d1 d2 : DB) :
  scraped_into doms1 n1 d d1 -> scraped_into doms2 n2 d1 d2 ->
  scraped_into (doms1 ++ doms2) (n1 + n2) d d2.
Proof.
  intros (B1 & A1 & e1 & E1 & L1 & F1) (B2 & A2 & e2 & E2 & L2 & F2).
  split; [congruence|]. split; [congruence|].
  exists (e1 ++ e2)%list. split; [rewrite E2, E1; now rewrite app_assoc|].
  split; [rewrite length_app; lia|].
  apply Forall_app. split.
  - eapply Forall_impl; [|exact F1]. intros r Hr. apply in_or_app. now left.
  - eapply Forall_impl; [|exact F2]. intros r Hr. apply in_or_app. now right.
Qed.

Lemma scraped_into_SaveArticle (a : Article) (d : DB) :
  scraped_into [BlogDomain a] 1 d (snd (SaveArticle a d)).
Proof.
  unfold SaveArticle. split; [|split].
  - unfold insert_article. now destruct (existsb _ _).
  - apply insert_article_analysis.
  - rewrite insert_article_articles. destruct (existsb _ _).
    + exists []. rewrite app_nil_r. split; [reflexivity|].
      split; [simpl; lia | constructor].
    + eexists. split; [reflexivity|]. split; [simpl; lia|].
      constructor; [now left | constructor].
Qed.

(** The loop of a worker over the articles of a feed. *)
Lemma save_loop_run (b : Blog) (arts : list Article) (w : World) :
  exists d',
    for_each arts (fun a =>
      now <- time_Now env ;;
      e <- store_exec
             (SaveArticle (mkArticle (a_ID a) (Domain b) (Title a) (URL a)
                             (Summary a) (PublishedAt a) now)) ;;
      match e with
      | Some err => emit (EvWarn "save article" err)
      | None => ret tt
      end) w =
    (Done tt, [],
     mkWorld d' (ticks w + List.length arts) (chats w) (sends w)) /\
    scraped_into [Domain b] (List.length arts) (db w) d'.
Proof.
  revert w. induction arts as [|a arts IH]; intros w.
  - exists (db w). split; [|apply scraped_into_refl].
    simpl. unfold ret. rewrite Nat.add_0_r. now destruct w.
  - set (a' := mkArticle (a_ID a) (Domain b) (Title a) (URL a) (Summary a)
                 (PublishedAt a) (clock env (ticks w))).
    set (w1 := mkWorld (snd (SaveArticle a' (db w))) (S (ticks w)) (chats w)
                 (sends w)).
    destruct (IH w1) as (d' & Run & Hs). exists d'. split.
    + cbn [for_each]. unfold bind at 1 2 3. unfold time_Now at 1.
      cbn [db ticks chats sends]. rewrite store_exec_run.
      cbn [db ticks chats sends]. fold a'. rewrite SaveArticle_ok.
      unfold ret at 1. cbn [app]. fold w1.
      unfold bind in Run |- *. rewrite Run. cbn [w1 ticks chats sends].
      do 2 f_equal. simpl. lia.
    + pose proof (scraped_into_SaveArticle a' (db w)) as H1.
      pose proof (scraped_into_trans _ _ _ _ _ _ _ H1 Hs) as H.
      cbn [BlogDomain a' app] in H.
      destruct H as (B & A & extra & E & L & F).
      split; [exact B|]. split; [exact A|]. exists extra.
      split; [exact E|]. split; [simpl in *; lia|].
      eapply Forall_impl; [|exact F].
      intros r [Hr|[Hr|[]]]; now left.
Qed.

Lemma parsed_length (u : string) :
  (List.length (parsed env u) <= 10)%nat.
Proof.
  unfold parsed. destruct (gofeed_ParseURL env u) as [items|e];
    [|simpl; lia].
  rewrite length_map, length_firstn. unfold maxArticles. lia.
Qed.

Lemma scraped_into_more (doms doms' : list string) (n n' : nat) (d d' : DB) :
  (n <= n')%nat -> (forall x, In x doms -> In x doms') ->
  scraped_into doms n d d' -> scraped_into doms' n' d d'.
Proof.
  intros Hn Hd (B & A & extra & E & L & F).
  split; [exact B|]. split; [exact A|]. exists extra.
  split; [exact E|]. split; [lia|].
  eapply Forall_impl; [|exact F]. intros r. apply Hd.
Qed.

Lemma scrape_worker_run (b : Blog) (w : World) :
  exists d' ev k,
    scrape_worker env b w =
      (Done tt, ev, mkWorld d' (ticks w + k) (chats w) (sends w)) /\
    scraped_into [Domain b] 10 (db w) d' /\
    Forall scrape_event ev /\ (k <= 10)%nat.
Proof.
  unfold scrape_worker. unfold bind at 1. rewrite scrapeBlog_run.
  destruct (find (yields env) (candidates (Domain b))) as [u|].
  - destruct (save_loop_run b (parsed env u) w) as (d' & Run & Hs).
    pose proof (parsed_length u) as Hl.
    exists d', (map EvFetch (tried env (candidates (Domain b)))),
           (List.length (parsed env u)).
    rewrite Run. rewrite app_nil_r.
    split; [reflexivity|]. split; [|split; [|exact Hl]].
    + eapply scraped_into_more; [exact Hl | | exact Hs]. auto.
    + apply Forall_forall. intros e He.
      apply in_map_iff in He as (x & <- & _). exact Logic.I.
  - exists (db w), (map EvFetch (tried env (candidates (Domain b))) ++
                    [EvWarn "scrape" (ErrNoFeed (Domain b))])%list, 0%nat.
    rewrite Nat.add_0_r. split; [now destruct w|].
    split; [apply scraped_into_refl|]. split; [|lia].
    apply Forall_app. split.
    + apply Forall_forall. intros e He.
      apply in_map_iff in He as (x & <- & _). exact Logic.I.
    + constructor; [exact Logic.I | constructor].
Qed.

Lemma scrape_workers_run (blogs : list Blog) (w : World) :
  exists d' ev k,
    for_each blogs (scrape_worker env) w =
      (Done tt, ev, mkWorld d' (ticks w + k) (chats w) (sends w)) /\
    scraped_into (map Domain blogs) (10 * List.length blogs) (db w) d' /\
    Forall scrape_event ev /\ (k <= 10 * List.length blogs)%nat.
Proof.
  revert w. induction blogs as [|b blogs IH]; intros w.
  - exists (db w), [], 0%nat. rewrite Nat.add_0_r.
    split; [now destruct w|]. split; [apply scraped_into_refl|].
    split; [constructor | simpl; lia].
  - destruct (scrape_worker_run b w) as (d1 & ev1 & k1 & Run1 & S1 & F1 & K1).
    destruct (IH (mkWorld d1 (ticks w + k1) (chats w) (sends w)))
      as (d2 & ev2 & k2 & Run2 & S2 & F2 & K2).
    cbn [db ticks chats sends] in Run2, S2.
    exists d2, (ev1 ++ ev2)%list, (k1 + k2)%nat.
    split; [|split; [|split]].
    + cbn [for_each]. unfold bind. rewrite Run1, Run2.
      now rewrite Nat.add_assoc.
    + pose proof (scraped_into_trans _ _ _ _ _ _ _ S1 S2) as H.
      eapply scraped_into_more; [| |exact H].
      * simpl List.length. lia.
      * intros x Hx. exact Hx.
    + apply Forall_app. now split.
    + simpl List.length. lia.
Qed.

(** X25. [ScrapeBlogs] returns a nil error and only adds articles: the
    blogs, the analyses and the articles that were stored stay as they
    are, at most 10 rows per blog are added, each with the domain of one
    of the blogs, and the clock is read once per article that is saved.
    All it leaves in the log are fetches and warnings. *)
Theorem ScrapeBlogs_only_adds_articles (sources : list Blog) (w : World) :
  exists d' ev k,
    ScrapeBlogs env sources w =
      (Done None, ev, mkWorld d' (ticks w + k) (chats w) (sends w)) /\
    blogs d' = blogs (db w) /\
    article_analysis d' = article_analysis (db w) /\
    (exists extra,
        articles d' = (articles (db w) ++ extra)%list /\
        (List.length extra <= 10 * List.length sources)%nat /\
        Forall (fun r => In (blog_domain r) (map Domain sources)) extra) /\
    Forall scrape_event ev /\
    (k <= 10 * List.length sources)%nat.
Proof.
  destruct (scrape_workers_run sources w)
    as (d' & ev & k & Run & (B & A & X) & F & K).
  exists d', ev, k. split.
  - unfold ScrapeBlogs, bind. rewrite Run. unfold ret.
    now rewrite app_nil_r.
  - auto.
Qed.

End Feeds.

(** ** The HTTP server *)

Lemma window_or_default_supported (window : string) :
  supported_window (window_or_default window) /\
  (supported_window window -> window_or_default window = window) /\
  (~ supported_window window -> window_or_default window = "24h").
Proof.
  unfold window_or_default, supported_window.
  destruct (String.eqb_spec window "24h") as [->|N1];
    [cbn; intuition|].
  destruct (String.eqb_spec window "3days") as [->|N2];
    [cbn; intuition|].
  destruct (String.eqb_spec window "7days") as [->|N3];
    [cbn; intuition|].
  cbn. intuition.
Qed.

Lemma limit_or_default_range (v : string) :
  1 <= limit_or_default v <= 100.
Proof.
  unfold limit_or_default. destruct (v =? "")%string; [lia|].
  destruct (strconv_Atoi v) as [n|]; [|lia].
  destruct (Z.ltb_spec 0 n); cbn; [|lia].
  destruct (Z.leb_spec n 100); lia.
Qed.

Lemma supported_window_duration (window : string) :
  supported_window window -> exists dur, window_duration window = Ok dur.
Proof. intros [ -> | [ -> | -> ] ]; eexists; reflexivity. Qed.

Lemma StronglySorted_map {A B} (R : A -> A -> Prop) (S : B -> B -> Prop)
    (f : A -> B) (l : list A) :
  (forall x y, R x y -> S (f x) (f y)) ->
  StronglySorted R l -> StronglySorted S (map f l).
Proof.
  intros H. induction 1 as [|x l Hs IH Hx]; simpl; constructor; [exact IH|].
  apply Forall_map. eapply Forall_impl; [|exact Hx]. intros y. apply H.
Qed.

Lemma StronglySorted_app_l {A} (R : A -> A -> Prop) (l1 l2 : list A) :
  StronglySorted R (l1 ++ l2) -> StronglySorted R l1.
Proof.
  induction l1 as [|x l1 IH]; simpl; intros H; [constructor|].
  inversion H as [|? ? Hs Hx]; subst. constructor; [now apply IH|].
  apply Forall_app in Hx. tauto.
Qed.

Lemma rows_TopScoredArticles_sorted {rt : Runtime} (limit : Z) (cutoff : string) (d : DB) :
  StronglySorted score_ge (rows_TopScoredArticles limit cutoff d).
Proof.
  unfold rows_TopScoredArticles.
  set (l := sort_by score_desc _).
  destruct (limit_rows_rest limit l) as (rest & E).
  apply (StronglySorted_app_l _ _ rest). rewrite E.
  apply score_desc_sorted.
Qed.

Section ServerFacts.
Context {rt : Runtime}.
Variable env : Environment.

(** X26. [GET /api/articles] reads a window that is not one of the three
    as "24h", and a limit that is not a number from 1 to 100 as 20. It
    answers 200 with the articles of [TopScoredArticles] for this window and
    limit, in descending order of total score, at most [limit] and so never
    more than 100, with their number as the count, when the driver can read
    the times of each of the rows; when it cannot, the query fails and the
    answer is 500, with a line in the log. The database is only read. Any
    other method is answered 405 without a query. *)
Theorem handleAPIArticles_answers (r : Request) (w : World) :
  (req_Method r <> "GET" ->
   handleAPIArticles env r w =
   (Done (mkResponse 405 (BodyError "method not allowed")), [], w)) /\
  (req_Method r = "GET" ->
   exists window limit dur rows items,
     window = window_or_default (req_Query r "window") /\
     supported_window window /\
     (supported_window (req_Query r "window") ->
      window = req_Query r "window") /\
     limit = limit_or_default (req_Query r "limit") /\
     1 <= limit <= 100 /\
     (forall n, strconv_Atoi (req_Query r "limit") = Some n ->
                1 <= n <= 100 -> limit = n) /\
     window_duration window = Ok dur /\
     rows =
       rows_TopScoredArticles limit
         (formatRFC3339 (time_sub (clock env (ticks w)) dur)) (db w) /\
     items = map toAPIArticle (map scanJoined rows) /\
     handleAPIArticles env r w =
       (if forallb joined_readable rows
        then (Done (mkResponse 200
                      (BodyList window (Z.of_nat (List.length items)) items)),
              [], mkWorld (db w) (S (ticks w)) (chats w) (sends w))
        else (Done (mkResponse 500 (BodyError "failed to load articles")),
              [EvWarn "api list articles" ErrScan],
              mkWorld (db w) (S (ticks w)) (chats w) (sends w))) /\
     Z.of_nat (List.length items) <= limit /\
     StronglySorted api_score_ge items).
Proof.
  split.
  - intros H. unfold handleAPIArticles.
    destruct (String.eqb_spec (req_Method r) "GET"); [contradiction|].
    reflexivity.
  - intros H. unfold handleAPIArticles. rewrite H.
    change ("GET" =? "GET")%string with true. cbn [negb].
    set (window := window_or_default (req_Query r "window")).
    set (limit := limit_or_default (req_Query r "limit")).
    destruct (window_or_default_supported (req_Query r "window"))
      as (Hs & Hk & _).
    destruct (supported_window_duration window Hs) as (dur & Hd).
    pose proof (limit_or_default_range (req_Query r "limit")) as Hl.
    exists window, limit, dur.
    do 2 eexists. split; [reflexivity|]. split; [exact Hs|].
    split; [exact Hk|]. split; [reflexivity|]. split; [exact Hl|].
    split; [|split; [exact Hd|split; [reflexivity|split;
      [reflexivity|split; [|split]]]]].
    + intros n Hn Hr. unfold limit, limit_or_default. rewrite Hn.
      destruct (String.eqb_spec (req_Query r "limit") "") as [E|_].
      * rewrite E in Hn. discriminate.
      * destruct (Z.ltb_spec 0 n); [|lia].
        destruct (Z.leb_spec n 100); [reflexivity | lia].
    + unfold bind, TopScoredArticles. rewrite window_query_run, Hd.
      rewrite scan_rows_cases.
      destruct (forallb joined_readable _); reflexivity.
    + rewrite !length_map. unfold rows_TopScoredArticles.
      rewrite limit_rows_length by (fold limit; lia).
      fold limit. lia.
    + apply (StronglySorted_map page_score_ge); [intros x y Hxy; exact Hxy|].
      apply (StronglySorted_map score_ge); [intros x y Hxy; exact Hxy|].
      apply rows_TopScoredArticles_sorted.
Qed.

(** X27. [GET /api/articles/{id}] answers 400 when the rest of the path
    is not a decimal number above 0 that fits 64 bits, 404 when no article
    with the ID has an analysis, 200 with an article of that ID when the
    driver can read the times of the article and of its analysis, and 500,
    with a line in the log, when it cannot. Any other method is answered
    405. The world is left as it is in every case, and only the answer 500
    is logged. *)
Theorem handleAPIArticleDetail_answers (r : Request) (w : World) :
  exists resp ev,
    handleAPIArticleDetail r w = (Done resp, ev, w) /\
    (req_Method r <> "GET" ->
     resp = mkResponse 405 (BodyError "method not allowed") /\ ev = []) /\
    (req_Method r = "GET" ->
     match strconv_ParseInt
             (strings_TrimPrefix (req_Path r) "/api/articles/") with
     | None =>
         resp = mkResponse 400 (BodyError "invalid article id") /\ ev = []
     | Some k =>
         if k <=? 0
         then resp = mkResponse 400 (BodyError "invalid article id") /\
              ev = []
         else
           ((forall p, In p (joined (db w)) -> id (fst p) <> k) /\
            resp = mkResponse 404 (BodyError "article not found") /\
            ev = []) \/
           (exists p, In p (joined (db w)) /\ id (fst p) = k /\
                      joined_readable p = true /\
                      resp = mkResponse 200
                               (BodyDetail (toAPIArticle (scanJoined p))) /\
                      api_ID (toAPIArticle (scanJoined p)) = k /\
                      ev = []) \/
           (exists p, In p (joined (db w)) /\ id (fst p) = k /\
                      joined_readable p = false /\
                      resp = mkResponse 500
                               (BodyError "failed to load article") /\
                      ev = [EvWarn "api get article" ErrScan])
     end).
Proof.
  unfold handleAPIArticleDetail.
  destruct (String.eqb_spec (req_Method r) "GET") as [E|N]; cbn [negb].
  2:{ do 2 eexists. split; [reflexivity|].
      split; [split; reflexivity | contradiction]. }
  destruct (strconv_ParseInt _) as [k|].
  2:{ do 2 eexists. split; [reflexivity|].
      split; [contradiction | split; reflexivity]. }
  destruct (Z.leb_spec k 0) as [Hk|Hk].
  { do 2 eexists. split; [reflexivity|].
    split; [contradiction | split; reflexivity]. }
  destruct (GetArticleWithAnalysis_by_id k w)
    as (res & Run & Hnone & Hsome & Herr).
  unfold bind. rewrite Run. destruct res as [[x|]|e].
  - do 2 eexists. split; [reflexivity|]. split; [contradiction|]. intros _.
    right. left. destruct (Hsome x eq_refl) as ((p & Hp & Hread & ->) & Hid & _).
    exists p. split; [exact Hp|]. split; [exact Hid|]. split; [exact Hread|].
    split; [reflexivity|]. split; [exact Hid | reflexivity].
  - do 2 eexists. split; [reflexivity|]. split; [contradiction|]. intros _.
    left. split; [apply Hnone; reflexivity | split; reflexivity].
  - destruct (Herr e eq_refl) as (-> & p & Hp & Hid & Hread).
    do 2 eexists. split; [reflexivity|]. split; [contradiction|]. intros _.
    right. right. exists p. split; [exact Hp|]. split; [exact Hid|].
    split; [exact Hread|]. split; reflexivity.
Qed.

(** X28. The page [/articles] shows a window that is not one of the three
    as "24h", the page to which [/] redirects. It answers 200 with at most
    20 analysed articles of the window, in descending order of total score,
    when the driver can read the times of each of the rows; when it cannot,
    the query fails and the answer is 500, with a line in the log. Every
    other path that reaches the handler of [/] is answered 404. *)
Theorem handleArticles_answers (r : Request) (w : World) :
  exists window dur rows items,
    window = window_or_default (req_Query r "window") /\
    supported_window window /\
    (supported_window (req_Query r "window") ->
     window = req_Query r "window") /\
    (~ supported_window (req_Query r "window") -> window = "24h") /\
    window_duration window = Ok dur /\
    rows =
      rows_TopScoredArticles 20
        (formatRFC3339 (time_sub (clock env (ticks w)) dur)) (db w) /\
    items = map scanJoined rows /\
    handleArticles env r w =
      (if forallb joined_readable rows
       then (Done (mkResponse 200 (BodyPage window items)), [],
             mkWorld (db w) (S (ticks w)) (chats w) (sends w))
       else (Done (mkResponse 500 (BodyText "Failed to load articles")),
             [EvWarn "load articles" ErrScan],
             mkWorld (db w) (S (ticks w)) (chats w) (sends w))) /\
    (List.length items <= 20)%nat /\
    StronglySorted page_score_ge items /\
    handleRoot r w =
      (Done (if (req_Path r =? "/")%string
             then mkResponse 302 (BodyRedirect "/articles?window=24h")
             else mkResponse 404 (BodyText "404 page not found")), [], w).
Proof.
  unfold handleArticles.
  set (window := window_or_default (req_Query r "window")).
  destruct (window_or_default_supported (req_Query r "window"))
    as (Hs & Hk & Hn).
  destruct (supported_window_duration window Hs) as (dur & Hd).
  exists window, dur. do 2 eexists.
  split; [reflexivity|]. split; [exact Hs|]. split; [exact Hk|].
  split; [exact Hn|]. split; [exact Hd|]. split; [reflexivity|].
  split; [reflexivity|]. split; [|split; [|split]].
  - unfold bind, TopScoredArticles. rewrite window_query_run, Hd.
    rewrite scan_rows_cases.
    destruct (forallb joined_readable _); reflexivity.
  - rewrite length_map. unfold rows_TopScoredArticles.
    rewrite limit_rows_length by lia. lia.
  - apply (StronglySorted_map score_ge); [intros x y Hxy; exact Hxy|].
    apply rows_TopScoredArticles_sorted.
  - unfold handleRoot. destruct (req_Path r =? "/")%string; reflexivity.
Qed.

End ServerFacts.

(** ** The pipeline survives every failure *)

Section Survival.
Context {rt : Runtime}.
Variable env : Environment.

Lemma survives_ret {A} (a : A) : survives (ret a).
Proof. intros w. split; [exists a; reflexivity | constructor]. Qed.

Lemma survives_bind {A B} (m : M A) (k : A -> M B) :
  survives m -> (forall a, survives (k a)) -> survives (bind m k).
Proof.
  intros Hm Hk w. rewrite bind_run.
  destruct (Hm w) as ((a & ->) & Fm).
  destruct (Hk a (snd (m w))) as ((b & Eb) & Fk). cbn [fst snd].
  split; [exists b; exact Eb | apply Forall_app; now split].
Qed.

Lemma survives_emit (e : Event) : not_fatal e -> survives (emit e).
Proof.
  intros H w. split; [exists tt; reflexivity | repeat constructor; exact H].
Qed.

Lemma survives_for_each {A} (l : list A) (body : A -> M unit) :
  (forall x, survives (body x)) -> survives (for_each l body).
Proof.
  intros H. induction l as [|x l IH]; simpl.
  - apply survives_ret.
  - apply survives_bind; [apply H | intros _; exact IH].
Qed.

Lemma survives_time_Now : survives (time_Now env).
Proof. intros w. split; [eexists; reflexivity | constructor]. Qed.

Lemma survives_store_exec f : survives (store_exec f).
Proof.
  intros w. rewrite store_exec_run.
  split; [eexists; reflexivity | constructor].
Qed.

Lemma survives_store_query {A} (f : DB -> A) : survives (store_query f).
Proof. intros w. split; [eexists; reflexivity | constructor]. Qed.

Lemma survives_window_query {R A} window (rows : string -> DB -> list R)
    (readable : R -> bool) (scan : R -> A) :
  survives (window_query env window rows readable scan).
Proof.
  intros w. rewrite window_query_run.
  destruct (window_duration window);
    (split; [eexists; reflexivity | constructor]).
Qed.

Lemma survives_ChatCompletion (s u : string) :
  survives (ChatCompletion env s u).
Proof.
  intros w. split; [eexists; reflexivity|].
  repeat constructor.
Qed.

Ltac step :=
  lazymatch goal with
  | |- survives (bind _ _) => apply survives_bind; [|intros ?]
  | |- survives (ret _) => apply survives_ret
  | |- survives (emit _) => apply survives_emit; exact Logic.I
  | |- survives (time_Now _) => apply survives_time_Now
  | |- survives (store_exec _) => apply survives_store_exec
  | |- survives (store_query _) => apply survives_store_query
  | |- survives (window_query _ _ _ _ _) => apply survives_window_query
  | |- survives (ChatCompletion _ _ _) => apply survives_ChatCompletion
  end.

Lemma survives_ScoreArticle (a : Article) : survives (ScoreArticle env a).
Proof.
  unfold ScoreArticle. step; [step|].
  destruct a0 as [resp|e]; [|step].
  destruct (json_Unmarshal_ScoreResult resp); step.
Qed.

Lemma survives_summarize_loop (a : Article) (todo : nat) :
  forall attempt lastErr, survives (summarize_loop env a todo attempt lastErr).
Proof.
  induction todo as [|todo IH]; intros attempt lastErr; cbn [summarize_loop].
  - step.
  - step; [step|]. destruct a0 as [resp|e].
    + destruct (json_Unmarshal_SummaryResult resp); [step|].
      step; [unfold time_Sleep; step | apply IH].
    + step; [unfold time_Sleep; step | apply IH].
Qed.

Lemma survives_SummarizeArticle (a : Article) :
  survives (SummarizeArticle env a).
Proof. apply survives_summarize_loop. Qed.

Lemma survives_AnalyzeTrends l : survives (AnalyzeTrends env l).
Proof.
  unfold AnalyzeTrends. step; [step|].
  destruct a as [resp|e]; [|step].
  destruct (json_Unmarshal_TrendReport resp); step.
Qed.

Lemma survives_parseFeed (u : string) : survives (parseFeed env u).
Proof.
  unfold parseFeed. step; [step|]. destruct (gofeed_ParseURL env u); step.
Qed.

Lemma survives_try_paths (domain : string) (paths : list string) :
  survives (try_paths env domain paths).
Proof.
  induction paths as [|path rest IH]; cbn [try_paths]; [step|].
  step; [apply survives_parseFeed|].
  destruct a as [[|x l]|e]; [exact IH | step | exact IH].
Qed.

Lemma survives_scrapeBlog (domain : string) : survives (scrapeBlog env domain).
Proof.
  unfold scrapeBlog. step; [apply survives_try_paths|].
  destruct a; [step|]. step; [apply survives_parseFeed|].
  destruct a as [[|x l]|e]; step.
Qed.

Lemma survives_scrape_worker (b : Blog) : survives (scrape_worker env b).
Proof.
  unfold scrape_worker. step; [apply survives_scrapeBlog|].
  destruct a; [|step]. apply survives_for_each. intros x.
  step; [step|]. step; [step|]. destruct a1; step.
Qed.

Lemma survives_ScrapeBlogs (sources : list Blog) :
  survives (ScrapeBlogs env sources).
Proof.
  unfold ScrapeBlogs.
  step; [apply survives_for_each, survives_scrape_worker | step].
Qed.

Lemma survives_enrich_scored (a : Article) (sr : ScoreResult) :
  survives (enrich_scored env a sr).
Proof.
  unfold enrich_scored. step; [step|].
  step; [apply survives_SummarizeArticle|].
  step.
  - destruct a1; [step|]. step; step.
  - step; [step|]. destruct a3; step.
Qed.

Lemma survives_pipeline_analyze (a : Article) :
  survives (pipeline_analyze env a).
Proof.
  unfold pipeline_analyze. step; [apply survives_ScoreArticle|].
  destruct a0; [apply survives_enrich_scored | step].
Qed.

Lemma survives_pipeline_retry (item : ArticleWithAnalysis) :
  survives (pipeline_retry env item).
Proof.
  unfold pipeline_retry. step; [apply survives_SummarizeArticle|].
  destruct a; [|step]. step; [step|]. destruct a0; step.
Qed.

Lemma survives_retry_sweep window : survives (retry_sweep env window).
Proof.
  unfold retry_sweep, UnsummarizedHighScoreArticles. step; [step|].
  destruct a; [|step].
  apply survives_for_each, survives_pipeline_retry.
Qed.

Lemma survives_Send (title body : string) :
  survives (telegram_Client_Send env title body).
Proof.
  intros w. split; [eexists; reflexivity|]. repeat constructor.
Qed.

Lemma survives_db_MarkNotified (ids : list Z) :
  survives (db_MarkNotified env ids).
Proof.
  unfold db_MarkNotified. step; [step|].
  destruct ids as [|i ids]; [step|].
  destruct (too_many_variables (i :: ids)); [step|]. step; step.
Qed.

Lemma survives_pipeline_notify : survives (pipeline_notify env).
Proof.
  unfold pipeline_notify, UnnotifiedAnalyses.
  destruct (telegram_configured env); [|step].
  step; [step|]. destruct a as [[|x l]|e]; [step| |step].
  step; [apply survives_AnalyzeTrends|]. destruct a; [|step].
  step; [apply survives_Send|]. destruct a0; [step|].
  step; [apply survives_db_MarkNotified|]. destruct a0; step.
Qed.

Lemma survives_runPipeline : survives (runPipeline env).
Proof.
  unfold runPipeline. step; [step|].
  destruct (hnpopular_FetchTopBlogs env 100) as [sources|e]; [|step].
  step; [step|]. destruct a0; [step|].
  step; [apply survives_ScrapeBlogs|].
  step; [destruct a0; step|].
  unfold UnanalyzedArticles. step; [step|]. destruct a2; [|step].
  unfold pipeline_from_articles.
  step; [apply survives_for_each, survives_pipeline_analyze|].
  step; [apply survives_retry_sweep | apply survives_pipeline_notify].
Qed.

(** X29. [runPipeline] returns whatever fails of what can fail in a run:
    the fetch of the blog list, a feed, the model, the driver's reading of
    a row that a query selects, Telegram. It never ends the process, and
    nothing it logs is fatal: without the blog list it logs the error and
    stops, and when a row of the articles to analyse cannot be read it logs
    the error of [Scan] once the feeds are scraped and stops. The one-shot
    commands do end the process: [scrape] when there is no blog and when
    one of the latest articles cannot be read, [notify] when Telegram is
    not configured. *)
Theorem runPipeline_survives_failures (w : World) :
  fst (fst (runPipeline env w)) = Done tt /\
  Forall not_fatal (snd (fst (runPipeline env w))) /\
  (forall e,
      hnpopular_FetchTopBlogs env 100 = Err e ->
      runPipeline env w =
      (Done tt, [EvFetchBlogs; EvWarn "fetch blogs" e], w)) /\
  (forall sources,
      hnpopular_FetchTopBlogs env 100 = Ok sources ->
      let s := ScrapeBlogs env sources
                 (mkWorld (snd (SaveBlogs sources (db w))) (ticks w)
                    (chats w) (sends w)) in
      let cutoff :=
        formatRFC3339
          (time_sub (clock env (ticks (snd s))) (168 * time_Hour)) in
      forallb article_readable
        (rows_UnanalyzedArticles cutoff (db (snd s))) = false ->
      runPipeline env w =
      (Done tt,
       EvFetchBlogs ::
         (snd (fst s) ++ [EvWarn "get articles" ErrScan])%list,
       mkWorld (db (snd s)) (S (ticks (snd s))) (chats (snd s))
         (sends (snd s)))) /\
  (blogs (db w) = [] ->
   cmdScrape env w = (Exit, [EvFatal "No blogs in database"], w)) /\
  (forall sources,
      ListBlogs (db w) = Ok sources -> sources <> [] ->
      let s := ScrapeBlogs env sources w in
      forallb article_readable (rows_LatestArticles 20 (db (snd s))) = false ->
      cmdScrape env w =
      (Exit, (snd (fst s) ++ [EvFatal "Failed to list articles"])%list,
       snd s)) /\
  (telegram_configured env = false ->
   forall window,
     cmdNotify env window w = (Exit, [EvFatal "Telegram not configured"], w)).
Proof.
  destruct (survives_runPipeline w) as (([] & E) & F).
  split; [exact E|]. split; [exact F|]. split.
  { intros e He. rewrite runPipeline_run, He. reflexivity. }
  split.
  { intros sources Hs s cutoff Hr. rewrite runPipeline_run, Hs.
    cbv zeta. fold s. fold cutoff. rewrite Hr. reflexivity. }
  split.
  { intros H. unfold cmdScrape, bind, store_query, ListBlogs. rewrite H.
    reflexivity. }
  split.
  { intros sources Hs Hne s Hr. unfold cmdScrape.
    rewrite bind_run. unfold store_query at 1. cbn [fst snd].
    rewrite Hs. destruct sources as [|b sources]; [contradiction|].
    cbv iota beta. rewrite bind_run, ScrapeBlogs_nil_error.
    cbv iota beta. rewrite bind_run.
    unfold LatestArticles, store_query. cbn [fst snd app].
    fold s. rewrite scan_rows_cases, Hr. reflexivity. }
  intros H window. unfold cmdNotify. rewrite H. reflexivity.
Qed.

End Survival.

(** ** What a delivered message marks *)

Lemma view_row_joined {rt : Runtime} (cutoff : string) (d : DB) (p : ArticleRow * AnalysisRow) :
  In p (rows_UnnotifiedAnalyses cutoff d) -> In p (joined d).
Proof.
  rewrite rows_UnnotifiedAnalyses_eq. intros H. apply In_firstn in H.
  apply sorted_joined_In in H.
  unfold unnotified_in_window in H. apply filter_In in H. tauto.
Qed.

(** The view has at most 20 rows, which [MarkNotified] takes in one
    statement. *)
Lemma view_ids_few {rt : Runtime} (cutoff : string) (d : DB) :
  too_many_variables
    (map (fun p => id (fst p)) (rows_UnnotifiedAnalyses cutoff d)) = false.
Proof.
  apply too_many_variables_false.
  rewrite length_map, rows_UnnotifiedAnalyses_eq.
  pose proof (firstn_le_length 20
                (sort_by score_desc
                   (sqlite_order_joined (SelectUnnotifiedAnalyses cutoff) d
                      (unnotified_in_window cutoff d)))) as H.
  unfold sqlite_max_variables. lia.
Qed.

Lemma MarkNotified_delivers (ids : list Z) (ts : string) (d : DB)
    (p : ArticleRow * AnalysisRow) :
  ids <> [] -> too_many_variables ids = false ->
  In p (joined d) -> In (id (fst p)) ids ->
  delivered (snd (MarkNotified ids ts d)) (id (fst p)).
Proof.
  intros Hne Hfew Hp Hin. apply joined_In in Hp as (_ & Haa & E).
  rewrite MarkNotified_cases, Hfew by exact Hne.
  destruct ids as [|i ids]; [congruence|].
  cbn [snd article_analysis]. split.
  - exists (set_notified ts (snd p)). split; [|simpl; lia].
    apply in_map_iff. exists (snd p). split; [|exact Haa].
    rewrite <- E. apply mem_id_In in Hin. rewrite Hin. reflexivity.
  - intros r Hr Er. apply in_map_iff in Hr as (r0 & <- & _).
    destruct (mem_id (article_id r0) (i :: ids)) eqn:Em; [discriminate|].
    exfalso. rewrite Er in Em. apply mem_id_In in Hin. congruence.
Qed.

Section DeliveredFacts.
Context {rt : Runtime}.
Variable env : Environment.

Lemma db_MarkNotified_db (ids : list Z) (w : World) :
  ids <> [] -> too_many_variables ids = false ->
  snd (fst (db_MarkNotified env ids w)) = [EvMarkNotified ids] /\
  fst (fst (db_MarkNotified env ids w)) = Done None /\
  exists ts, db (snd (db_MarkNotified env ids w)) =
             snd (MarkNotified ids ts (db w)).
Proof.
  intros Hne Hfew. destruct ids as [|i ids]; [congruence|].
  unfold db_MarkNotified. rewrite Hfew, bind_run. cbn [emit fst snd].
  rewrite bind_run. cbn [time_Now fst snd]. rewrite store_exec_run.
  rewrite !MarkNotified_cases, Hfew by discriminate.
  cbn [fst snd db app]. split; [reflexivity|]. split; [reflexivity|].
  eexists. rewrite MarkNotified_cases, Hfew by discriminate. reflexivity.
Qed.

(** The end of the delivery paths: the message is sent, then the articles
    are marked. *)
Lemma notify_tail_marks (ids : list Z) (msg text : string)
    (onSendError : error -> M unit) (w : World) :
  ids <> [] -> too_many_variables ids = false ->
  (forall e w1, ~ In (EvSend text true) (snd (fst (onSendError e w1)))) ->
  let m :=
    (se <- telegram_Client_Send env "" msg ;;
     match se with
     | Some e => onSendError e
     | None =>
         me <- db_MarkNotified env ids ;;
         match me with
         | Some e => emit (EvWarn "mark notified" e)
         | None => ret tt
         end
     end) in
  In (EvSend text true) (snd (fst (m w))) ->
  text = msg /\
  In (EvMarkNotified ids) (snd (fst (m w))) /\
  exists ts, db (snd (m w)) = snd (MarkNotified ids ts (db w)).
Proof.
  intros Hne Hfew Hq m. subst m. rewrite bind_run, Send_run. cbn [fst snd].
  destruct (telegram_Send env (sends w) msg) as [e|] eqn:Es.
  - cbn [is_null]. intros H. apply in_app_or in H as [[H|[]]|H];
      [discriminate | exfalso; exact (Hq _ _ H)].
  - cbn [is_null]. rewrite bind_run.
    set (w1 := mkWorld (db w) (ticks w) (chats w) (S (sends w))).
    destruct (db_MarkNotified_db ids w1 Hne Hfew) as (Ev & Er & ts & Ed).
    rewrite Er, Ev. cbn [fst snd ret app]. rewrite Ed.
    intros [H|[H|[]]]; [|discriminate].
    split; [now inversion H|]. split; [right; left; reflexivity|].
    exists ts. reflexivity.
Qed.

Lemma AnalyzeTrends_run (l : list ArticleWithAnalysis) (w : World) :
  exists r ev,
    AnalyzeTrends env l w =
    (Done r, ev, mkWorld (db w) (ticks w) (S (chats w)) (sends w)) /\
    forall tx ok, ~ In (EvSend tx ok) ev.
Proof.
  unfold AnalyzeTrends. rewrite bind_run. cbn [ChatCompletion fst snd].
  destruct (backend env (chats w) _ _) as [content|e].
  - destruct (json_Unmarshal_TrendReport _); do 2 eexists;
      (split; [reflexivity|]); intros tx ok [H|[]]; discriminate.
  - do 2 eexists; (split; [reflexivity|]); intros tx ok [H|[]]; discriminate.
Qed.

Lemma view_ids (rows : list (ArticleRow * AnalysisRow)) :
  article_ids (map scanJoined rows) = map (fun p => id (fst p)) rows.
Proof. unfold article_ids. rewrite map_map. reflexivity. Qed.

(** What the tail gives for the rows of the view. *)
Lemma marked_rows (cutoff : string) (w : World) (d' : DB) (ts : string) :
  let rows := rows_UnnotifiedAnalyses cutoff (db w) in
  rows <> [] ->
  d' = snd (MarkNotified (map (fun p => id (fst p)) rows) ts (db w)) ->
  (forall p, In p rows -> delivered d' (id (fst p))) /\
  (forall p c q,
      In p rows -> In q (rows_UnnotifiedAnalyses c d') ->
      id (fst q) <> id (fst p)).
Proof.
  intros rows Hne ->.
  assert (D : forall p, In p rows ->
            delivered
              (snd (MarkNotified (map (fun p => id (fst p)) rows) ts (db w)))
              (id (fst p))).
  { intros p Hp. apply MarkNotified_delivers.
    - intros E. apply map_eq_nil in E. contradiction.
    - apply view_ids_few.
    - exact (view_row_joined _ _ _ Hp).
    - apply in_map_iff. exists p. split; [reflexivity | exact Hp]. }
  split; [exact D|].
  intros p c q Hp Hq. exact (delivered_not_unnotified _ _ _ _ (D p Hp) Hq).
Qed.

(** X30. Whenever [notify], the notification step of [report] or step 4 of
    the pipeline has delivered a message, the message is the report of the
    undelivered view of the window as it was when the step began, the
    articles of that view have been marked, each of them is delivered in
    the database at the end, and the view returns none of them again. *)
Theorem sent_report_marks_its_articles :
  marks_what_it_sent env "7days" (pipeline_notify env) /\
  (forall window, marks_what_it_sent env window (cmdNotify env window)) /\
  (forall window report,
      marks_what_it_sent env window (cmdReport_send env window report)).
Proof.
  assert (Quiet1 : forall what text e w1,
            ~ In (EvSend text true)
                 (snd (fst (emit (EvWarn what e) w1)))).
  { intros what text e w1 [H|[]]. discriminate. }
  assert (Quiet2 : forall what text w1,
            ~ In (EvSend text true)
                 (snd (fst (@fatal unit what w1)))).
  { intros what text w1 [H|[]]. discriminate. }
  assert (P : forall window,
             marks_what_it_sent env window (cmdNotify env window) /\
             (window = "7days" ->
              marks_what_it_sent env window (pipeline_notify env))).
  { intros window. split.
    - intros w text. unfold cmdNotify.
      destruct (telegram_configured env); [|intros [H|[]]; discriminate].
      rewrite bind_run. unfold UnnotifiedAnalyses. rewrite window_query_run.
      destruct (window_duration window) as [dur|e] eqn:Ed;
        [|intros [H|[]]; discriminate].
      cbn [fst snd app].
      set (cutoff := formatRFC3339 (time_sub (clock env (ticks w)) dur)).
      set (w1 := mkWorld (db w) (S (ticks w)) (chats w) (sends w)).
      rewrite scan_rows_cases.
      destruct (forallb joined_readable
                  (rows_UnnotifiedAnalyses cutoff (db w)));
        [|intros [H|[]]; discriminate].
      destruct (rows_UnnotifiedAnalyses cutoff (db w)) as [|p0 rows'] eqn:Er;
        [intros []|].
      rewrite <- Er. 
      assert (Hne : rows_UnnotifiedAnalyses cutoff (db w) <> [])
        by (rewrite Er; discriminate).
      assert (Hm : exists x l,
                 map scanJoined (rows_UnnotifiedAnalyses cutoff (db w)) = x :: l)
        by (rewrite Er; do 2 eexists; reflexivity).
      destruct Hm as (x & l & Hm).
      rewrite Hm. rewrite <- Hm. rewrite bind_run.
      destruct (AnalyzeTrends_run
                  (map scanJoined (rows_UnnotifiedAnalyses cutoff (db w))) w1)
        as (r & ev & Ea & Qa).
      rewrite Ea. cbn [fst snd].
      destruct r as [report|e]; cbn [fatal fst snd].
      + intros H. apply in_app_or in H as [H|H]; [destruct (Qa _ _ H)|].
        rewrite view_ids in H |- *.
        apply notify_tail_marks in H as (Et & Hmark & ts & Ed');
          [| intros E; apply map_eq_nil in E; contradiction
           | apply view_ids_few
           | intros e w2; apply Quiet2 ].
        exists dur, report. split; [reflexivity|]. cbv zeta. fold cutoff.
        split; [exact Hne|]. split; [exact Et|].
        split; [apply in_or_app; right; exact Hmark|].
        eapply (marked_rows cutoff w); [exact Hne|]. exact Ed'.
      + intros H. apply in_app_or in H as [H|[H|[]]];
          [destruct (Qa _ _ H) | discriminate].
    - intros ->. intros w text. unfold pipeline_notify.
      destruct (telegram_configured env); [|intros []].
      rewrite bind_run. unfold UnnotifiedAnalyses. rewrite window_query_run.
      destruct (window_duration "7days") as [dur|e] eqn:Ed;
        [|intros [H|[]]; discriminate].
      cbn [fst snd app].
      set (cutoff := formatRFC3339 (time_sub (clock env (ticks w)) dur)).
      set (w1 := mkWorld (db w) (S (ticks w)) (chats w) (sends w)).
      rewrite scan_rows_cases.
      destruct (forallb joined_readable
                  (rows_UnnotifiedAnalyses cutoff (db w)));
        [|intros [H|[]]; discriminate].
      destruct (rows_UnnotifiedAnalyses cutoff (db w)) as [|p0 rows'] eqn:Er;
        [intros []|].
      rewrite <- Er.
      assert (Hne : rows_UnnotifiedAnalyses cutoff (db w) <> [])
        by (rewrite Er; discriminate).
      assert (Hm : exists x l,
                 map scanJoined (rows_UnnotifiedAnalyses cutoff (db w)) = x :: l)
        by (rewrite Er; do 2 eexists; reflexivity).
      destruct Hm as (x & l & Hm).
      rewrite Hm. rewrite <- Hm. rewrite bind_run.
      destruct (AnalyzeTrends_run
                  (map scanJoined (rows_UnnotifiedAnalyses cutoff (db w))) w1)
        as (r & ev & Ea & Qa).
      rewrite Ea. cbn [fst snd].
      destruct r as [report|e]; cbn [emit fst snd].
      + intros H. apply in_app_or in H as [H|H]; [destruct (Qa _ _ H)|].
        rewrite view_ids in H |- *.
        apply notify_tail_marks in H as (Et & Hmark & ts & Ed');
          [| intros E; apply map_eq_nil in E; contradiction
           | apply view_ids_few
           | intros e w2; apply Quiet1 ].
        exists dur, report. split; [reflexivity|]. cbv zeta. fold cutoff.
        split; [exact Hne|]. split; [exact Et|].
        split; [apply in_or_app; right; exact Hmark|].
        eapply (marked_rows cutoff w); [exact Hne|]. exact Ed'.
      + intros H. apply in_app_or in H as [H|[H|[]]];
          [destruct (Qa _ _ H) | discriminate]. }
  split; [apply (P "7days"); reflexivity|]. split; [apply P|].
  intros window report w text. unfold cmdReport_send.
  destruct (telegram_configured env); [|intros []].
  rewrite bind_run. unfold UnnotifiedAnalyses. rewrite window_query_run.
  destruct (window_duration window) as [dur|e] eqn:Ed;
    [|intros [H|[]]; discriminate].
  cbn [fst snd app].
  set (cutoff := formatRFC3339 (time_sub (clock env (ticks w)) dur)).
  set (w1 := mkWorld (db w) (S (ticks w)) (chats w) (sends w)).
  rewrite scan_rows_cases.
  destruct (forallb joined_readable (rows_UnnotifiedAnalyses cutoff (db w)));
    [|intros [H|[]]; discriminate].
  destruct (rows_UnnotifiedAnalyses cutoff (db w)) as [|p0 rows'] eqn:Er;
    [intros []|].
  rewrite <- Er.
  assert (Hne : rows_UnnotifiedAnalyses cutoff (db w) <> [])
    by (rewrite Er; discriminate).
  assert (Hm : exists x l,
             map scanJoined (rows_UnnotifiedAnalyses cutoff (db w)) = x :: l)
    by (rewrite Er; do 2 eexists; reflexivity).
  destruct Hm as (x & l & Hm).
  rewrite Hm. rewrite <- Hm.
  intros H. rewrite view_ids in H |- *.
  apply notify_tail_marks in H as (Et & Hmark & ts & Ed');
    [| intros E; apply map_eq_nil in E; contradiction
     | apply view_ids_few
     | intros e w2; apply Quiet1 ].
  exists dur, report. split; [reflexivity|]. cbv zeta. fold cutoff.
  split; [exact Hne|]. split; [exact Et|].
  split; [exact Hmark|].
  eapply (marked_rows cutoff w); [exact Hne|]. exact Ed'.
Qed.

End DeliveredFacts.

(** ** The statements at sample inputs *)

Lemma delivered_is_permanent_witness :
  delivered delivered_db 1 /\
  delivered
    (apply_ops [OpSaveArticleAnalysis sample_analysis; OpMarkNotified [] ""]
       delivered_db) 1.
Proof.
  assert (H : delivered delivered_db 1).
  { split.
    - eexists. split; [left; reflexivity | reflexivity].
    - intros r [<-|[]] _. discriminate. }
  split; [exact H|].
  exact (proj1 (delivered_is_permanent delivered_db 1
                  [OpSaveArticleAnalysis sample_analysis; OpMarkNotified [] ""]
                  H)).
Defined.

Lemma ArticlesByTimeWindow_24h_witness :
  valid_time (clock sample_env (ticks early_world)) /\
  2 <= t_year (clock sample_env (ticks early_world)) <= 9999 /\
  PublishedAt early_article =
    time_sub (clock sample_env (ticks early_world)) (24 * time_Hour) /\
  (exists a,
     ArticlesByTimeWindow (rt := sample_runtime) sample_env "24h"
       early_world =
       (Done (Ok [a]), [], mkWorld (db early_world) 1 0 0) /\
     URL a = URL early_article) /\
  ArticlesByTimeWindow (rt := sample_runtime) sample_env "24h"
    unreadable_world =
    (Done (Err ErrScan), [], mkWorld (db unreadable_world) 1 0 0).
Proof.
  assert (Hv : valid_time (clock sample_env (ticks early_world))).
  { unfold valid_time, days_in_month. simpl. lia. }
  assert (Hy : 2 <= t_year (clock sample_env (ticks early_world)) <= 9999).
  { simpl. lia. }
  split; [exact Hv|]. split; [exact Hy|]. split; [reflexivity|].
  pose proof (proj1 (ArticlesByTimeWindow_24h sample_runtime sample_env
                       early_world Hv Hy)) as Run.
  pose proof (proj1 (ArticlesByTimeWindow_24h sample_runtime sample_env
                       unreadable_world Hv Hy)) as Run'.
  split.
  - eexists. split; [rewrite Run; vm_compute; reflexivity | reflexivity].
  - rewrite Run'. vm_compute. reflexivity.
Defined.

Lemma total_score_is_sum_witness :
  let w := mkWorld (snd (SaveArticle early_article (db pending_world))) 0 0 0 in
  let d' := db (snd (runPipeline (rt := sample_runtime) answering_env w)) in
  score_inv (db w) /\
  score_inv d' /\
  map (fun r => (article_id r, relevance r, quality r, timeliness r,
                 total_score r))
      (article_analysis (db w)) = [(1, 9, 8, 7, 24)] /\
  map (fun r => (article_id r, relevance r, quality r, timeliness r,
                 total_score r))
      (article_analysis d') = [(1, 9, 8, 7, 24); (2, 9, 8, 7, 24)].
Proof.
  intros w d'.
  assert (H : score_inv (db w)).
  { intros r [<-|[]]. reflexivity. }
  split; [exact H|].
  split; [exact (proj1 (proj2 (@total_score_is_sum sample_runtime
                                 answering_env w H)))|].
  split; [reflexivity | vm_compute; reflexivity].
Defined.

Lemma SummarizeArticle_gives_up_witness :
  (forall i, (i < 3)%nat ->
     attempt_fails (rt := sample_runtime) sample_env
       (chats sample_world + i) early_article) /\
  SummarizeArticle (rt := sample_runtime) sample_env early_article
    sample_world =
    (Done (Err (ErrSummarizeFailed "Y" 3
                  (ErrAttempt 3 (ErrBackend "connection refused")))),
     [EvChat "summarize" (summaryUserPrompt early_article);
      EvSleep (1 * 2 * time_Second);
      EvChat "summarize" (summaryUserPrompt early_article);
      EvSleep (2 * 2 * time_Second);
      EvChat "summarize" (summaryUserPrompt early_article);
      EvSleep (3 * 2 * time_Second)],
     mkWorld emptyDB 0 3 0).
Proof.
  assert (H : forall i, (i < 3)%nat ->
            attempt_fails (rt := sample_runtime) sample_env
              (chats sample_world + i) early_article).
  { intros i _. exact Logic.I. }
  split; [exact H|].
  exact (proj1 (proj2 (@SummarizeArticle_gives_up sample_runtime sample_env
                         sample_world early_article H))).
Defined.

Lemma stageA_failure_skips_item_witness :
  id_unique (db sample_world) /\
  score_fails (rt := sample_runtime) sample_env (chats sample_world)
    early_article /\
  exists e,
    pipeline_analyze (rt := sample_runtime) sample_env early_article
      sample_world =
    (Done tt,
     [EvChat "score" (scoreUserPrompt early_article);
      EvWarnScore early_article e],
     mkWorld emptyDB 0 1 0).
Proof.
  assert (Hu : id_unique (db sample_world)) by constructor.
  assert (Hf : score_fails (rt := sample_runtime) sample_env
                 (chats sample_world) early_article) by exact Logic.I.
  split; [exact Hu|]. split; [exact Hf|].
  destruct (proj1 (@stageA_failure_skips_item sample_runtime sample_env
                     sample_world Hu) sample_world early_article Hf)
    as (e & He & _).
  exists e. exact He.
Defined.

Lemma SaveArticle_idempotent_witness :
  url_unique emptyDB /\
  URL early_article = URL early_article /\
  articles (snd (SaveArticle early_article
                   (snd (SaveArticle early_article emptyDB)))) =
  articles (snd (SaveArticle early_article emptyDB)).
Proof.
  assert (Hu : url_unique emptyDB) by constructor.
  split; [exact Hu|]. split; [reflexivity|].
  exact (proj1 (proj2 (proj2 (SaveArticle_idempotent emptyDB early_article
                                early_article [] Hu eq_refl)))).
Defined.

Lemma splitMessage_bounds_witness :
  (0 < 6)%nat /\
  exists chunks,
    splitMessage ("one" ++ nl ++ nl ++ "two") 6 = Some chunks /\
    Forall (fun c => (String.length c <= 6)%nat) chunks.
Proof.
  assert (H : (0 < 6)%nat) by lia.
  split; [exact H|].
  destruct (splitMessage_bounds ("one" ++ nl ++ nl ++ "two") 6 H)
    as (chunks & E & _ & Hb & _).
  exists chunks. split; [exact E | exact Hb].
Defined.

Lemma splitMessage_keeps_text_witness :
  (0 < 6)%nat /\
  exists chunks gaps,
    splitMessage ("one" ++ nl ++ nl ++ "two") 6 = Some chunks /\
    "one" ++ nl ++ nl ++ "two" = rejoin chunks gaps.
Proof.
  assert (H : (0 < 6)%nat) by lia.
  split; [exact H|].
  destruct (splitMessage_keeps_text ("one" ++ nl ++ nl ++ "two") 6 H)
    as (chunks & gaps & E & _ & _ & Ht).
  exists chunks, gaps. split; [exact E | exact Ht].
Defined.

Lemma FetchTopBlogs_ranks_by_score_witness :
  (forall m : list (string * Z), Permutation m m) /\
  0 <= 5 /\
  exists blogs,
    FetchTopBlogs (rt := sample_runtime) sample_csv (fun m => m) 5 =
      Some (Fetched blogs) /\
    List.length blogs = 2%nat /\
    NoDup (map Domain blogs).
Proof.
  assert (Hp : forall m : list (string * Z), Permutation ((fun m => m) m) m)
    by (intros m; apply Permutation_refl).
  assert (Hl : 0 <= 5) by lia.
  split; [exact Hp|]. split; [exact Hl|].
  destruct (FetchTopBlogs_ranks_by_score (rt := sample_runtime) sample_csv
              (fun m => m) 5 [("a.example", 9); ("b.example", 7)]
              [("a.example", "Ann")] Hp eq_refl eq_refl Hl)
    as (blogs & E & Hlen & _ & Hn & _).
  exists blogs. split; [exact E|]. split; [exact Hlen | exact Hn].
Defined.

Lemma SaveBlogs_upserts_by_domain_witness :
  NoDup (map Domain (blogs emptyDB)) /\
  NoDup (map Domain (blogs (snd (SaveBlogs sample_blogs emptyDB)))).
Proof.
  assert (H : NoDup (map Domain (blogs emptyDB))) by constructor.
  split; [exact H|].
  exact (proj1 (proj2 (proj2 (proj2
           (SaveBlogs_upserts_by_domain sample_blogs emptyDB H))))).
Defined.

Lemma sample_blogs_distinct : NoDup (map Domain sample_blogs).
Proof.
  repeat constructor; simpl; intuition discriminate.
Defined.

Lemma sample_blogs_sorted : StronglySorted rank_le sample_blogs.
Proof.
  unfold sample_blogs, rank_le. repeat constructor; simpl; lia.
Defined.

Lemma saved_blogs_are_listed_in_order_witness :
  NoDup (map Domain sample_blogs) /\
  StronglySorted rank_le sample_blogs /\
  ListBlogs (snd (SaveBlogs sample_blogs emptyDB)) =
    Ok (numbered 1 sample_blogs).
Proof.
  split; [exact sample_blogs_distinct|].
  split; [exact sample_blogs_sorted|].
  exact (proj2 (saved_blogs_are_listed_in_order sample_blogs
                  sample_blogs_distinct sample_blogs_sorted)).
Defined.

Lemma saved_analysis_is_found_witness :
  id_unique delivered_db /\
  exists x,
    GetArticleWithAnalysis (rt := sample_runtime) 1
      (mkWorld (snd (SaveArticleAnalysis sample_analysis delivered_db)) 0 0 0) =
    (Done (Ok (Some x)), [],
     mkWorld (snd (SaveArticleAnalysis sample_analysis delivered_db)) 0 0 0) /\
    TotalScore (awa_ArticleAnalysis x) = 15 /\
    AISummary (awa_ArticleAnalysis x) = "S".
Proof.
  assert (Hu : id_unique (db (mkWorld delivered_db 0 0 0))).
  { unfold id_unique. simpl. repeat constructor. intros []. }
  split; [exact Hu|].
  destruct (proj2 (saved_analysis_is_found (rt := sample_runtime)
                     sample_analysis
                     (mkArticleRow 1 "b.example" "X" "https://b.example/x" ""
                        "2026-10-30T10:00:00Z" "2026-10-30T11:00:00Z")
                     (mkWorld delivered_db 0 0 0) Hu (or_introl eq_refl)
                     eq_refl) eq_refl)
    as (x & Run & _ & _ & _ & _ & _ & Ht & _ & _ & Hs & _).
  exists x. split; [exact Run|]. split; [exact Ht | exact Hs].
Defined.

Lemma windows_count_whole_days_witness :
  valid_time (clock sample_env (ticks early_world)) /\
  9 <= t_year (clock sample_env (ticks early_world)) <= 9999 /\
  window_days "7days" 7 /\
  windowCutoff "7days" (clock sample_env (ticks early_world)) =
    Ok "2026-10-23T12:00:00Z" /\
  (exists a,
     ArticlesByTimeWindow (rt := sample_runtime) sample_env "7days"
       early_world =
       (Done (Ok [a]), [], mkWorld (db early_world) 1 0 0) /\
     URL a = URL early_article) /\
  ArticlesByTimeWindow (rt := sample_runtime) sample_env "7days"
    unreadable_world =
    (Done (Err ErrScan), [], mkWorld (db unreadable_world) 1 0 0).
Proof.
  assert (Hv : valid_time (clock sample_env (ticks early_world))).
  { unfold valid_time, days_in_month. simpl. lia. }
  assert (Hy : 9 <= t_year (clock sample_env (ticks early_world)) <= 9999).
  { simpl. lia. }
  assert (Hw : window_days "7days" 7) by (right; right; split; reflexivity).
  split; [exact Hv|]. split; [exact Hy|]. split; [exact Hw|].
  destruct (windows_count_whole_days sample_runtime sample_env
              early_world "7days" 7 Hv Hy Hw) as (Ec & Run & _).
  destruct (windows_count_whole_days sample_runtime sample_env
              unreadable_world "7days" 7 Hv Hy Hw) as (_ & Run' & _).
  split; [exact Ec|]. split.
  - eexists. split; [rewrite Run; vm_compute; reflexivity | reflexivity].
  - rewrite Run'. vm_compute. reflexivity.
Defined.

Lemma stripTags_drops_tags_witness :
  utf8_DecodeRuneInString (String (byte_char 255) "b") =
    (utf8_RuneError, 1%nat) /\
  stripTags_scan (utf8_runes (String (byte_char 255) "b")) false =
    bytes3 239 191 189 ++ "b" /\
  no_closing "i" /\
  stripTags_scan
    (utf8_runes (bytes3 226 130 172 ++ "<" ++ "i" ++ ">" ++ "x</i>")) false =
    bytes3 226 130 172 ++ "x".
Proof.
  assert (He : utf8_DecodeRuneInString (String (byte_char 255) "b") =
               (utf8_RuneError, 1%nat)) by reflexivity.
  assert (Hn : no_closing "i") by (intros c [<-|[]]; discriminate).
  split; [exact He|].
  destruct (stripTags_drops_tags sample_runtime (String (byte_char 255) "b"))
    as (_ & _ & _ & Herr & _).
  destruct (stripTags_drops_tags sample_runtime (bytes3 226 130 172))
    as (_ & _ & _ & _ & _ & Htag & _).
  split; [rewrite (Herr _ _ eq_refl He); reflexivity|].
  split; [exact Hn|].
  rewrite (Htag "i" "x</i>" Hn). vm_compute. reflexivity.
Defined.

Lemma runPipeline_survives_failures_witness :
  hnpopular_FetchTopBlogs sample_env 100 = Ok [] /\
  runPipeline (rt := sample_runtime) sample_env unreadable_world =
    (Done tt, [EvFetchBlogs; EvWarn "get articles" ErrScan],
     mkWorld (db unreadable_world) 1 0 0) /\
  ListBlogs (db (mkWorld (mkDB sample_blogs [unreadable_row] [] []) 0 0 0)) =
    Ok sample_blogs /\
  fst (fst (cmdScrape (rt := sample_runtime) sample_env
              (mkWorld (mkDB sample_blogs [unreadable_row] [] []) 0 0 0))) =
    Exit.
Proof.
  assert (Hs : hnpopular_FetchTopBlogs sample_env 100 = Ok []) by reflexivity.
  split; [exact Hs|].
  destruct (@runPipeline_survives_failures sample_runtime sample_env
              unreadable_world) as (_ & _ & _ & Hscan & _).
  destruct (@runPipeline_survives_failures sample_runtime sample_env
              (mkWorld (mkDB sample_blogs [unreadable_row] [] []) 0 0 0))
    as (_ & _ & _ & _ & _ & Hlist & _).
  split; [rewrite (Hscan [] Hs eq_refl); vm_compute; reflexivity|].
  assert (Hl : ListBlogs
                 (db (mkWorld (mkDB sample_blogs [unreadable_row] [] [])
                        0 0 0)) = Ok sample_blogs) by reflexivity.
  split; [exact Hl|].
  rewrite (Hlist sample_blogs Hl ltac:(discriminate) eq_refl). reflexivity.
Defined.

Lemma wider_window_returns_more_witness :
  valid_time half_past_noon /\
  8 <= t_year half_past_noon <= 9999 /\
  text_geb (formatRFC3339 (time_sub half_past_noon (24 * time_Hour)))
           (formatRFC3339 (time_sub half_past_noon (72 * time_Hour))) = true.
Proof.
  assert (Hv : valid_time half_past_noon).
  { unfold valid_time, days_in_month. simpl. lia. }
  assert (Hy : 8 <= t_year half_past_noon <= 9999) by (simpl; lia).
  split; [exact Hv|]. split; [exact Hy|].
  exact (proj1 (wider_window_returns_more half_past_noon emptyDB Hv Hy)).
Defined.

Lemma migrate_normalizes_timestamps_witness :
  valid_time half_past_noon /\
  four_digit_year half_past_noon /\
  normalize_published_at
    (sqliteTimestamp half_past_noon ++ ".5" ++ " +0000 UTC") =
  formatRFC3339 half_past_noon.
Proof.
  assert (Hv : valid_time half_past_noon).
  { unfold valid_time, days_in_month. simpl. lia. }
  assert (Hy : four_digit_year half_past_noon).
  { unfold four_digit_year. simpl. lia. }
  split; [exact Hv|]. split; [exact Hy|].
  exact (proj1 (migrate_normalizes_timestamps half_past_noon ".5" Hv Hy)).
Defined.

Lemma SummarizeArticle_returns_first_success_witness :
  (0 < 3)%nat /\
  attempt_succeeds (rt := sample_runtime) answering_env
    (chats sample_world + 0) early_article (mkSummaryResult "S" "T" "R") /\
  SummarizeArticle (rt := sample_runtime) answering_env early_article
    sample_world =
  (Done (Ok (mkSummaryResult "S" "T" "R")),
   [EvChat "summarize" (summaryUserPrompt early_article)],
   mkWorld emptyDB 0 1 0).
Proof.
  assert (Hk : (0 < 3)%nat) by lia.
  assert (Hf : forall i, (i < 0)%nat ->
            attempt_fails (rt := sample_runtime) answering_env
              (chats sample_world + i) early_article) by (intros i Hi; lia).
  assert (Hs : attempt_succeeds (rt := sample_runtime) answering_env
                 (chats sample_world + 0) early_article
                 (mkSummaryResult "S" "T" "R")).
  { exists "summary". split; reflexivity. }
  split; [exact Hk|]. split; [exact Hs|].
  exact (proj1 (@SummarizeArticle_returns_first_success sample_runtime
                  answering_env sample_world early_article 0
                  (mkSummaryResult "S" "T" "R") Hk Hf Hs)).
Defined.

Lemma enriched_row_has_summary_witness :
  score_succeeds (rt := sample_runtime) answering_env (chats sample_world)
    early_article (mkScoreResult 9 8 7 "Systems" ["go"; "sqlite"]) /\
  has_analysis
    (db (snd (pipeline_analyze (rt := sample_runtime) answering_env
                early_article sample_world)))
    (a_ID early_article).
Proof.
  assert (Ha : score_succeeds (rt := sample_runtime) answering_env
                 (chats sample_world) early_article
                 (mkScoreResult 9 8 7 "Systems" ["go"; "sqlite"])).
  { exists "scores". split; reflexivity. }
  assert (Hk : (0 < 3)%nat) by lia.
  assert (Hf : forall i, (i < 0)%nat ->
            attempt_fails (rt := sample_runtime) answering_env
              (S (chats sample_world) + i) early_article)
    by (intros i Hi; lia).
  assert (Hs : attempt_succeeds (rt := sample_runtime) answering_env
                 (S (chats sample_world) + 0) early_article
                 (mkSummaryResult "S" "T" "R")).
  { exists "summary". split; reflexivity. }
  split; [exact Ha|].
  exact (proj1 (proj2 (@enriched_row_has_summary sample_runtime answering_env
                         sample_world early_article _ 0 _ Ha Hk Hf Hs))).
Defined.

Lemma sent_report_marks_its_articles_witness :
  let m := @cmdReport_send sample_runtime answering_env "24h"
             (mkTrendReport []) in
  In (EvSend "report" true) (snd (fst (m pending_world))) /\
  delivered (db (snd (m pending_world))) 1.
Proof.
  intros m.
  assert (H : In (EvSend "report" true) (snd (fst (m pending_world))))
    by (vm_compute; left; reflexivity).
  split; [exact H|].
  destruct (proj2 (proj2 (@sent_report_marks_its_articles sample_runtime
                            answering_env))
              "24h" (mkTrendReport []) pending_world "report" H)
    as (dur & rep & Ed & _ & _ & _ & Hd & _).
  apply (Hd pending_row).
  vm_compute in Ed. injection Ed as <-. vm_compute. left. reflexivity.
Defined.
